(* ===== verification/_CoqProject ===== *)
-Q . S2P
Prelude.v
Words.v
Mem.v
Wire.v
TaskQueue.v
Ngx.v
World.v
Waiters.v
Tasks.v
Conn.v
Stream.v
Binding.v
BindingState.v
Handlers.v
Worker.v
Codec.v
EngineSpec.v
Engine.v
EngineProof.v
Heaps.v
Inv.v
InvMoves.v
Handles.v
ConnInv.v
StreamInv.v
StreamOps.v
EventInv.v
ThreadInv.v
PutResInv.v
BlockInv.v
LuaSteps.v
BindingInv.v
ResumeInv.v
WakeInv.v
WorkerInv.v
System.v
Contracts.v
GoContracts.v
LuaContracts.v
Reference.v
Runs.v
Looping.v
Witnesses.v
