(* ===== verification/Prelude.v ===== *)
(** * grpc-client-nginx-module: the Lua library, the C module, the Go engine

    The repository lets Lua code in nginx call gRPC servers.  Lua
    ([lib/resty/grpc.lua]) calls the C module [src/ngx_grpc_client.c] through FFI;
    the module loads the engine, a Go library ([grpc-engine/]), and starts gRPC
    operations in it.  The engine runs each operation in a goroutine and queues its
    result ([task/task.go]); a thread of nginx's thread pool waits for finished
    tasks ([grpc_engine_wait]), hands them as an array to the main thread, which
    posts them and resumes the Lua coroutine each one belongs to.

    ** Files and the code they model

    - [Prelude]: faults, the state monad with faults [M], weakest preconditions
      [wp] (total correctness, up to cgo's exhausted memory) and [wpf] (the same up
      to a given set of faults), [leads] and [keeps] (what a program does to the
      state, or leaves alone), their tactics, list lemmas.
    - [Words]: the widths of C and Go integers, the kinds of results and the
      tagging of a kind in the low bits of a pointer.
    - [Mem]: the C heap shared by the module and the engine, and its structures.
      An allocator is a parameter ([Allocator], with the laws of [malloc]).
    - [Wire]: the 24-byte records of finished tasks in host byte order.
    - [TaskQueue]: [grpc-engine/task/task.go]; [tq_step] interleaves the critical
      sections of the waiter, of reporting goroutines and of timers.
    - [Ngx]: what the module uses of nginx (queues, red-black tree, events, thread
      pool, [ngx_snprintf], the context checks of lua-nginx-module): operations in
      the class [Nginx], documented behaviour in [NginxLaws], and a reference
      instance.
    - [World]: the state of a worker (the module's globals, the heap, the queues,
      requests and coroutines of lua-nginx-module, the error buffer, a log of calls
      into nginx and Lua) and the interface [GrpcEngine] of the engine.
    - [Waiters]: the abstract specification of a worker: coroutines that start
      operations which wait, and results that resume them, told from the log alone.
    - [Tasks], [Conn], [Stream], [Handlers], [Worker]: the functions of
      [ngx_grpc_client.c], under their names: ongoing tasks; connections; calls and
      streams; the background thread, the posted event, resumption, timeouts and
      cleanup; start and exit of a worker.  The HTTP and the stream subsystem have
      symmetric code; where the source has two functions that differ only in the
      types of the subsystem, one definition takes [is_http].
    - [Binding]: [lib/resty/grpc.lua], the library user code calls: an operation
      finishes, or yields a continuation for the values its coroutine is resumed
      with ([lua_run]); its tables and finalizers, the conversion of its options.
      lua-protobuf and protoc are the class [LuaPb].  [BindingState]: relations on
      the library's own state that every operation respects ([LibRel]).
    - [EngineSpec]: what the engine promises to the module ([GrpcEngineLaws]): its
      references and streams, the heap they share, and the multiset of the tasks
      it was given and has not handed back ([engine_pending]).
    - [Codec]: [grpc-engine/conn/proto.go], the codec the engine registers.
    - [Engine]: [grpc-engine/main.go] and [grpc-engine/conn/grpc.go], over the
      parameter [GrpcLib] for grpc-go, [crypto/tls] and the files; [EngineProof]
      shows that this engine keeps the promises.
    - [Heaps]: heaps that agree on the objects of a kind ([agree]); what that leaves
      in place: nodes of the tree, streams, arrays.
    - [Inv], [InvMoves], [Handles], [ConnInv], [StreamInv], [StreamOps], [EventInv],
      [ThreadInv], [PutResInv], [BlockInv], [ResumeInv], [WakeInv], [WorkerInv]: the
      invariant [winv] of a worker between two calls into the module, and the
      specification of every operation against it; the results in flight between
      the two threads ([flight_results]) and what is owed to the coroutines that
      wait ([owed]: with the engine, in flight, or posted).  [orderly] says that
      nothing is owed twice or to nobody, [announced] that nginx has the posted
      event in its queue while a result is posted, [truthful] that the successes of
      streams are of streams the engine has; [handles], that a step spares the
      connections and streams Lua holds the addresses of.
    - [LuaSteps]: what Lua code may call in a state and what its callers owe
      ([lua_enabled]); the environment step [env_step], which such a call is.  The
      class [Patience] is a switch: when it is on no coroutine gives its task up, nor is
      a stream closed that one waits for.
      [BindingInv] shows that the library makes only such calls, and that its tables
      and finalizers keep holding what they claim to ([tables_ok]).
    - [System]: [enabled], the operations that nginx, Lua and the event loop may
      start in a state; start and exit of a worker through nginx's table of hooks
      ([Worker.ngx_grpc_client_module]); [reachable], and [roomy_reachable] for runs
      in which memory and the C [int] of a result count always suffice.
    - [Contracts], [GoContracts], [LuaContracts]: the properties of the C module, of
      the engine and of the library.
    - [Reference], [Runs], [Looping], [Witnesses]: a concrete environment, computed
      runs of a worker and what they show, a Lua runtime whose coroutines call again
      from inside the handlers, and instances of the properties.

    ** How the state corresponds to the code

    A pointer is a 64-bit address into one heap of typed objects; dereferencing or
    freeing an address that is not live, dereferencing NULL and a failed [assert]
    are faults.  A queue element is named by the address of the structure its link
    is embedded in, so [ngx_queue_data] is the identity; the heads inside a
    connection and the thread context are [q_free], [q_opening], [q_occupied],
    [q_th_free].  The tree of ongoing tasks is an explicit binary tree, since
    [ngx_grpc_cli_lookup_task] walks it.  The posted event, the task of the thread
    pool and the sleep timers are abstract events with the flags the module reads.
    The two threads interleave: [System.thread_waits] is the handler run in the
    pool, [System.thread_reports] its event in the main thread, and any number of
    other operations may come between them.  The handler itself is one step, placed
    where the engine hands its results over: all it shares with the main thread
    before that is the engine, which has locks of its own, and the fields it writes
    are read by nobody until the event.
    Running Lua code, and nginx's phase engine, are operations of [LuaRuntime]: they
    may call back into the module, and [LuaRuntimeLaws] says only that whatever they
    do is a sequence of operations [lua_enabled] allows.  Logging is left out; the
    result of [ngx_grpc_cli_get_req_logger] is only its dereference of the request.

    ** What the theorems show

    Each property carries its claim id.  Safety and invariants: every operation
    that may start in a reachable worker keeps the invariant and cannot fault
    except as stated; a lookup finds exactly the parked streams; the counter of
    ongoing tasks counts them modulo 2^32.  Refinement: every step of a reachable
    worker is a run of the abstract worker of [Waiters], so a coroutine is resumed
    with a result only while it waits, once per wait.  The abstract worker does not
    say which operation a result belongs to, because the module does not either (the
    theorems about results of an abandoned operation show it).  Conservation: while
    there is room no result is lost, and a coroutine that waits is owed one in every
    interleaving of the threads; when no coroutine gives up either, it is owed
    exactly one, and nothing is owed to anyone else: then each result belongs to
    the operation it is delivered to, and a thread waits for the engine as long as
    it has a task ([watched]), and a stream that is reported open is open
    ([truthful]).  In all runs the posted event is due while a result
    is posted ([announced]).  What is in flight is not disturbed, and the data it
    consists of stays as it is ([untouched]).  Liveness: a waiting coroutine has its
    task with a thread that waits, or its result on the way, and the posted event
    handler delivers what is posted.  Functional contracts: every exported operation
    and every handler on every branch, with the calls it makes of the engine and of
    Lua, the error paths with their messages.  The queue of finished tasks: exactly once and
    in order under every interleaving, no lost wake-up, termination of [Wait], and
    the round trip of its records into C.  The engine: one report per goroutine,
    complete hand-over, TLS is kept.  The Lua library: it keeps the contract
    [lua_enabled] asks of Lua code, and its tables hold what they claim to, so long as
    it is told the truth about the streams it opens; closed objects refuse;
    finalizers, options and the state of lua-protobuf.
    Further theorems, on concrete reachable states, show where the program does not
    do what it means to: results that reach another request, or make the library
    believe that a refused stream is open; a thread that is not sent to wait again;
    an array read after it is freed at exit; failed assertions of blocking calls.

    ** Bounds and fuel

    [free_conn_loop] and [post_event_loop] take the size of the heap as fuel; each
    round handles a distinct live object of a queue, so the fuel suffices, and the
    specifications are total ([wp] has no [OutOfFuel]).  Integers keep their width:
    the counter of ongoing tasks wraps at 32 bits, task ids go through [C.long] and
    back, sizes are 64-bit, the number of results of one wait is a C [int].  Where
    a result is posted only if memory allows, the condition is [Mem.grants]: the
    allocator answers that many more requests, which is computed.

    ** Not modelled

    Logging, the tests, the build files, and the code of the parameters: nginx,
    lua-nginx-module, grpc-go (which calls the codec), lua-protobuf.  Lua numbers are
    their rational values (FFI's conversion of NaN and of the infinities to an integer
    is undefined), [metadata_len * 2] does not overflow (a LuaJIT table is too small
    for that), and closing a connection for the first time does not panic.  In general the
    library's operations and what is left of them are separate steps, and the
    worker's theorems meet them through [lua_enabled] alone; [Looping] runs them
    inside the handlers, for coroutines that call in a loop. *)
From stdpp Require Export base tactics option list gmap sets fin_maps gmultiset.
From Stdlib Require Strings.Byte Strings.String.
From stdpp Require Export strings.
From Stdlib Require Export ZArith Lia.

Declare Scope grpc_scope.
Delimit Scope grpc_scope with grpc.
Open Scope Z_scope.

(** ** Bytes and C strings *)

Abbreviation bytes := (list Byte.byte).

(** The bytes of a C string literal, without its terminating NUL. *)
Definition lit (s : string) : bytes := String.list_byte_of_string s.

#[global] Instance byte_eq_dec : EqDecision Byte.byte := Byte.byte_eq_dec.

(** ** Faults, outcomes and the state monad with faults

    The modelled code runs in [M S]: a function of the state that either
    returns a value and the new state, or stops the worker process. *)

Inductive fault : Type :=
| NullDeref                 (** a NULL pointer is dereferenced *)
| BadDeref (p : Z)          (** a pointer to no live object of that type *)
| BadFree (p : Z)           (** [free] of an address that is not live *)
| AssertFail                (** a C [assert] that does not hold *)
| OutOfMemory               (** a Go allocation that cannot fail, failing *)
| GoPanic (msg : bytes)     (** a Go panic nobody recovers *)
| OutOfFuel.                (** the fuel of a loop is too small *)

#[global] Instance fault_eq_dec : EqDecision fault.
Proof. solve_decision. Defined.

Inductive outcome (S A : Type) : Type :=
| Done (a : A) (s : S)
| Crash (f : fault).
Arguments Done {S A} a s.
Arguments Crash {S A} f.

Definition M (S A : Type) : Type := S → outcome S A.

#[global] Instance M_ret S : MRet (M S) := λ A a s, Done a s.
#[global] Instance M_bind S : MBind (M S) := λ A B k m s,
  match m s with
  | Done a s' => k a s'
  | Crash f => Crash f
  end.

Definition crash {S A} (f : fault) : M S A := λ _, Crash f.
Definition get {S} : M S S := λ s, Done s s.
Definition gets {S A} (f : S → A) : M S A := λ s, Done (f s) s.
Definition modify {S} (f : S → S) : M S unit := λ s, Done tt (f s).

(** Running a computation on a component of the state. *)
Definition zoom {S T A} (pick : S → T) (put : T → S → S) (m : M T A) : M S A :=
  λ s, match m (pick s) with
       | Done a t => Done a (put t s)
       | Crash f => Crash f
       end.

(** C's [if] without an else branch. *)
Definition when {S} (b : bool) (m : M S unit) : M S unit :=
  if b then m else mret tt.

(** A bounded [for] loop over the indices [0 .. n-1]. *)
Fixpoint for_upto {S} (n : nat) (body : nat → M S unit) : M S unit :=
  match n with
  | O => mret tt
  | Datatypes.S k => for_upto k body ≫= λ _, body k
  end.

(** ** Weakest preconditions

    Total correctness without faults, except that a Go allocation may find the
    memory exhausted: cgo's [C.malloc] stops the process then, and no code of
    the repository runs afterwards. *)

Definition wp {S A} (m : M S A) (Q : A → S → Prop) (s : S) : Prop :=
  match m s with
  | Done a s' => Q a s'
  | Crash f => f = OutOfMemory
  end.

Section wp_rules.
Context {S : Type}.
Implicit Types s : S.

Lemma wp_ret {A} (a : A) (Q : A → S → Prop) s : Q a s → wp (mret a) Q s.
Proof. done. Qed.

Lemma wp_bind {A B} (m : M S A) (k : A → M S B) (Q : B → S → Prop) s :
  wp m (λ a, wp (k a) Q) s → wp (m ≫= k) Q s.
Proof. unfold wp, mbind, M_bind. destruct (m s); simpl; eauto. Qed.

Lemma wp_mono {A} (m : M S A) (P Q : A → S → Prop) s :
  wp m P s → (∀ a s', P a s' → Q a s') → wp m Q s.
Proof. unfold wp. destruct (m s); simpl; eauto. Qed.

Lemma wp_get (Q : S → S → Prop) s : Q s s → wp get Q s.
Proof. done. Qed.

Lemma wp_gets {A} (f : S → A) (Q : A → S → Prop) s : Q (f s) s → wp (gets f) Q s.
Proof. done. Qed.

Lemma wp_modify (f : S → S) (Q : unit → S → Prop) s : Q tt (f s) → wp (modify f) Q s.
Proof. done. Qed.

Lemma wp_zoom {T A} pick put (m : M T A) (Q : A → S → Prop) s :
  wp m (λ a t, Q a (put t s)) (pick s) → wp (zoom pick put m) Q s.
Proof. unfold wp, zoom. by destruct (m (pick s)). Qed.

Lemma wp_when b (m : M S unit) (Q : unit → S → Prop) s :
  (b = true → wp m Q s) → (b = false → Q tt s) → wp (when b m) Q s.
Proof. destruct b; intros H1 H2; [by apply H1|by apply H2]. Qed.

Lemma wp_intro {A} (m : M S A) (Q : A → S → Prop) s a s' :
  m s = Done a s' → Q a s' → wp m Q s.
Proof. unfold wp. by intros ->. Qed.

Lemma wp_elim {A} (m : M S A) (Q : A → S → Prop) s a s' :
  wp m Q s → m s = Done a s' → Q a s'.
Proof. unfold wp. by intros ? E; rewrite E in *. Qed.

(** A program that is named in its own postcondition. *)
Lemma wp_eqn {A} (m : M S A) (Q : A → S → Prop) s :
  wp m Q s → wp m (λ a s', m s = Done a s' ∧ Q a s') s.
Proof. unfold wp. by destruct (m s). Qed.

Lemma wp_eqn_unit (m : M S unit) (Q : S → Prop) s :
  wp m (λ _, Q) s → wp m (λ _ s', m s = Done tt s' ∧ Q s') s.
Proof. unfold wp. by destruct (m s) as [[] s'|]. Qed.

Lemma wp_no_fault {A} (m : M S A) (Q : A → S → Prop) s f :
  wp m Q s → m s = Crash f → f = OutOfMemory.
Proof. unfold wp. by intros ? E; rewrite E in *. Qed.

Lemma wp_conj {A} (m : M S A) (P Q : A → S → Prop) s :
  wp m P s → wp m Q s → wp m (λ a s', P a s' ∧ Q a s') s.
Proof. unfold wp. by destruct (m s). Qed.

(** A [for] loop keeps an invariant indexed by the iterations done. *)
Lemma wp_for_upto (I : nat → S → Prop) n body s :
  I O s →
  (∀ i s', (i < n)%nat → I i s' → wp (body i) (λ _, I (Datatypes.S i)) s') →
  wp (for_upto n body) (λ _, I n) s.
Proof.
  induction n as [|n IH]; intros H0 Hb; cbn [for_upto]; [done|].
  apply wp_bind, (wp_mono _ (λ _, I n)).
  - apply IH; [done|]. intros i s' Hi. apply Hb. lia.
  - intros _ s' HI. apply Hb; [lia|done].
Qed.
End wp_rules.

(** The same, when the program may also stop with another fault. *)
Definition wpf {S A} (F : fault → Prop) (m : M S A) (Q : A → S → Prop) (s : S) : Prop :=
  match m s with
  | Done a s' => Q a s'
  | Crash f => f = OutOfMemory ∨ F f
  end.

Section wpf_rules.
Context {S : Type} (F : fault → Prop).
Implicit Types s : S.

Lemma wpf_wp {A} (m : M S A) (Q : A → S → Prop) s : wp m Q s → wpf F m Q s.
Proof. unfold wp, wpf. destruct (m s); auto. Qed.

Lemma wpf_mono {A} (m : M S A) (P Q : A → S → Prop) s :
  wpf F m P s → (∀ a s', P a s' → Q a s') → wpf F m Q s.
Proof. unfold wpf. destruct (m s); simpl; eauto. Qed.

Lemma wpf_bind {A B} (m : M S A) (k : A → M S B) (Q : B → S → Prop) s :
  wp m (λ a, wpf F (k a) Q) s → wpf F (m ≫= k) Q s.
Proof. unfold wp, wpf, mbind, M_bind. destruct (m s); simpl; auto. Qed.

Lemma wpf_bind' {A B} (m : M S A) (k : A → M S B) (Q : B → S → Prop) s :
  wpf F m (λ a, wpf F (k a) Q) s → wpf F (m ≫= k) Q s.
Proof. unfold wpf, mbind, M_bind. destruct (m s); simpl; auto. Qed.

Lemma wpf_crash {A} f (Q : A → S → Prop) s : F f → wpf F (crash f) Q s.
Proof. by right. Qed.
End wpf_rules.

Lemma wpf_faults {S A} (F G : fault → Prop) (m : M S A) (Q : A → S → Prop) s :
  wpf F m Q s → (∀ f, F f → G f) → wpf G m Q s.
Proof. unfold wpf. destruct (m s); [done|]. intros [|Hf] HG; [by left|right; by apply HG]. Qed.

(** Equational forms, for computing with [Done]. *)
Lemma bind_done {S A B} (m : M S A) (k : A → M S B) s a s' :
  m s = Done a s' → (m ≫= k) s = k a s'.
Proof. unfold mbind, M_bind. by intros ->. Qed.

Lemma done_inv {S A} (a b : A) (s t : S) : Done a s = Done b t → s = t.
Proof. congruence. Qed.

Lemma bind_crash {S A B} (m : M S A) (k : A → M S B) s f :
  m s = Crash f → (m ≫= k) s = Crash f.
Proof. unfold mbind, M_bind. by intros ->. Qed.

Lemma for_upto_crash {S} n (body : nat → M S unit) (s : S) f :
  body O s = Crash f → for_upto (Datatypes.S n) body s = Crash f.
Proof.
  intros Hb. induction n as [|n IH]; [done|].
  change (for_upto (Datatypes.S (Datatypes.S n)) body)
    with (for_upto (Datatypes.S n) body ≫= λ _, body (Datatypes.S n)).
  by apply bind_crash.
Qed.

Lemma zoom_done {S T A} pick put (m : M T A) (s : S) a (t : T) :
  m (pick s) = Done a t → zoom pick put m s = Done a (put t s).
Proof. unfold zoom. by intros ->. Qed.

(** ** What a program does to the state when it returns, crashing or not

    [leads R m]: a run of [m] that returns goes from a state to one it is related
    to; for [R] a preorder this follows the structure of the program. *)

Definition leads {S A} (R : S → S → Prop) (m : M S A) : Prop :=
  ∀ s a s', m s = Done a s' → R s s'.

(** A component of the state stays as it is. *)
Definition same {S B} (f : S → B) (s s' : S) : Prop := f s' = f s.

#[global] Instance same_preorder {S B} (f : S → B) : PreOrder (same f).
Proof. split; [done|]. intros s1 s2 s3 H1 H2. unfold same in *. congruence. Qed.

Abbreviation keeps f := (leads (same f)).

Section leads.
Context {S : Type} (R : S → S → Prop).

Lemma leads_crash {A} x : leads R (crash x : M S A).
Proof. by intros s b s'. Qed.

Lemma leads_modify g : (∀ s, R s (g s)) → leads R (modify g).
Proof. intros Hg s b s' [= _ <-]. apply Hg. Qed.

Lemma leads_zoom {T A} pick put (m : M T A) :
  (∀ t s, R s (put t s)) → leads R (zoom pick put m).
Proof.
  intros Hp s a s'. unfold zoom. destruct (m (pick s)); [|done]. intros [= _ <-]. apply Hp.
Qed.

Lemma leads_mono {A} (R' : S → S → Prop) (m : M S A) :
  leads R m → (∀ s s', R s s' → R' s s') → leads R' m.
Proof. intros Hm HR s a s' E. by apply HR, (Hm _ a). Qed.

Context `{!PreOrder R}.

Lemma leads_ret {A} (a : A) : leads R (mret a).
Proof. by intros s b s' [= _ ->]. Qed.

Lemma leads_get : leads R get.
Proof. by intros s b s' [= _ ->]. Qed.

Lemma leads_gets {A} (g : S → A) : leads R (gets g).
Proof. by intros s b s' [= _ ->]. Qed.

Lemma leads_bind {A C} (m : M S A) (k : A → M S C) :
  leads R m → (∀ a, leads R (k a)) → leads R (m ≫= k).
Proof.
  intros Hm Hk s c s'. unfold mbind, M_bind. destruct (m s) as [a s1|] eqn:E; [|done].
  intros Hc. etrans; [by eapply Hm|by eapply Hk].
Qed.

Lemma leads_when b (m : M S unit) : leads R m → leads R (when b m).
Proof. destruct b; [done|]. intros _. apply leads_ret. Qed.

Lemma leads_for_upto n (body : nat → M S unit) :
  (∀ i, leads R (body i)) → leads R (for_upto n body).
Proof.
  intros Hb. induction n as [|n IH]; cbn [for_upto]; [apply leads_ret|].
  by apply leads_bind.
Qed.
End leads.

Lemma wp_leads {S A} R (m : M S A) (Q : A → S → Prop) s :
  leads R m → wp m Q s → wp m (λ a s', Q a s' ∧ R s s') s.
Proof. intros Hm. unfold wp. destruct (m s) eqn:E; [|done]. intros HQ. split; [done|].
by eapply Hm. Qed.

Lemma wp_keeps {S A B} (f : S → B) (m : M S A) (Q : A → S → Prop) s :
  keeps f m → wp m Q s → wp m (λ a s', Q a s' ∧ f s' = f s) s.
Proof. apply wp_leads. Qed.

(** What holds of the answer and the state of every run that returns. *)
Definition gives {S A} (Q : A → S → Prop) (m : M S A) : Prop :=
  ∀ s a s', m s = Done a s' → Q a s'.

Section gives.
Context {S A C : Type} (Q : A → S → Prop).

Lemma gives_ret a : (∀ s, Q a s) → gives Q (mret a).
Proof. intros HQ s b s' [= <- _]. apply HQ. Qed.

Lemma gives_crash x : gives Q (crash x).
Proof. by intros s b s'. Qed.

Lemma gives_bind (m : M S C) k : (∀ c, gives Q (k c)) → gives Q (m ≫= k).
Proof.
  intros Hk s b s'. unfold mbind, M_bind. destruct (m s) as [c s1|]; [|done]. apply Hk.
Qed.

Lemma gives_after (P : C → S → Prop) (m : M S C) k :
  gives P m → (∀ c s b s', P c s → k c s = Done b s' → Q b s') → gives Q (m ≫= k).
Proof.
  intros Hm Hk s b s'. unfold mbind, M_bind. destruct (m s) as [c s1|] eqn:E; [|done].
  apply Hk. by eapply Hm.
Qed.
End gives.

Lemma wp_gives {S A} (Q' Q : A → S → Prop) (m : M S A) s :
  gives Q' m → wp m Q s → wp m (λ a s', Q a s' ∧ Q' a s') s.
Proof. intros Hm. unfold wp. destruct (m s) eqn:E; [|done]. intros HQ. split; [done|].
by eapply Hm. Qed.

Create HintDb grpc discriminated.
#[export] Hint Resolve wp_ret wp_get wp_gets wp_modify : grpc.

(** One symbolic step of a monadic program. *)
Ltac wp_step :=
  lazymatch goal with
  | |- wp (mbind _ _) _ _ => apply wp_bind
  | |- wp (mret _) _ _ => apply wp_ret
  | |- wp (gets _) _ _ => apply wp_gets
  | |- wp get _ _ => apply wp_get
  | |- wp (modify _) _ _ => apply wp_modify
  | |- wp (zoom _ _ _) _ _ => apply wp_zoom
  | |- wp (when _ _) _ _ => apply wp_when
  end.
Ltac wp_steps := repeat (wp_step; cbn beta).

(** [leads] follows the structure of the program; [grpc] holds the functions. *)
Ltac solve_leads :=
  repeat first
    [ progress (intros; cbn beta zeta)
    | lazymatch goal with |- PreOrder _ => apply _ end
    | solve [eauto with grpc]
    | apply leads_ret | apply leads_crash | apply leads_get | apply leads_gets
    | apply leads_bind | apply leads_when | apply leads_for_upto
    | apply leads_modify; done | apply leads_zoom; done
    | case_match ].

(** ** Lists *)

Section lists.
Context {A : Type}.
Implicit Types l : list A.

(** Overwriting a slice, as a Go [PutUint64(buf[off:], v)] does. *)
Definition splice (off : nat) (new l : list A) : list A :=
  take off l ++ new ++ drop (off + length new) l.

Lemma length_splice off new l :
  (off + length new ≤ length l)%nat → length (splice off new l) = length l.
Proof. intros. unfold splice. rewrite !length_app, length_take, length_drop. lia. Qed.

Lemma take_drop_app3 l1 l2 l3 :
  take (length l2) (drop (length l1) (l1 ++ l2 ++ l3)) = l2.
Proof. rewrite drop_app_length. by rewrite take_app_length. Qed.
End lists.

(** ** Multisets of ids *)

Lemma size_list_to_set_disj (l : list Z) : size (list_to_set_disj l : gmultiset Z) = length l.
Proof.
  induction l as [|x l IH]; [done|]. simpl.
  by rewrite gmultiset_size_disj_union, gmultiset_size_singleton, IH.
Qed.

(** A list without repetitions and a multiset that has each of its elements. *)
Lemma NoDup_size (l : list Z) (X : gmultiset Z) :
  NoDup l → (∀ k, k ∈ l → k ∈ X) → (length l ≤ size X)%nat.
Proof.
  intros Hnd Hin. rewrite <- (size_list_to_set_disj l). apply gmultiset_subseteq_size.
  revert X Hin. induction Hnd as [|x l Hx _ IH]; intros X Hin; simpl; [multiset_solver|].
  rewrite (gmultiset_disj_union_difference' x X) by (apply Hin; by left).
  apply gmultiset_disj_union_mono_l, IH. intros k Hk.
  assert (k ∈ X) as HkX by (apply Hin; by right). assert (k ≠ x) by congruence.
  multiset_solver.
Qed.

(** A multiset without repetitions, and a list that has each of its elements. *)
Lemma size_NoDup (l : list Z) (X : gmultiset Z) :
  (∀ k, k ∈ X → multiplicity k X = 1%nat ∧ k ∈ l) → (size X ≤ length l)%nat.
Proof.
  intros Hin. rewrite <- (size_list_to_set_disj l). apply gmultiset_subseteq_size.
  intros k. destruct (decide (k ∈ X)) as [HkX|Hno].
  - destruct (Hin k HkX) as [-> Hl].
    assert (k ∈ (list_to_set_disj l : gmultiset Z)) as Hk by by apply elem_of_list_to_set_disj.
    rewrite elem_of_multiplicity in Hk. lia.
  - rewrite elem_of_multiplicity in Hno. lia.
Qed.
