(* ===== verification/Words.v ===== *)
(** * Machine integers and tagged pointers

    Integers are [Z] with the conversions of C and Go written out.  A task
    result carries its kind in the three low bits of its buffer pointer:
    [task.go] or's the kind in, [ngx_grpc_client.c] masks and shifts it out. *)
From S2P Require Import Prelude.

(** ** Widths *)

Definition u64 (x : Z) : Z := x `mod` 2 ^ 64.
Definition s64 (x : Z) : Z := (x + 2 ^ 63) `mod` 2 ^ 64 - 2 ^ 63.
Definition s32 (x : Z) : Z := (x + 2 ^ 31) `mod` 2 ^ 32 - 2 ^ 31.

Definition is_u64 (x : Z) : Prop := 0 ≤ x < 2 ^ 64.

Lemma u64_id x : is_u64 x → u64 x = x.
Proof. apply Z.mod_small. Qed.

Lemma u64_range x : is_u64 (u64 x).
Proof. apply Z.mod_pos_bound. lia. Qed.

Lemma s64_range x : - 2 ^ 63 ≤ s64 x < 2 ^ 63.
Proof. unfold s64. pose proof (Z.mod_pos_bound (x + 2 ^ 63) (2 ^ 64)). lia. Qed.

Lemma s64_small x : - 2 ^ 63 ≤ x < 2 ^ 63 → s64 x = x.
Proof. intros. unfold s64. rewrite Z.mod_small; lia. Qed.

Lemma s32_small x : - 2 ^ 31 ≤ x < 2 ^ 31 → s32 x = x.
Proof. intros. unfold s32. rewrite Z.mod_small; lia. Qed.

Lemma s32_range x : - 2 ^ 31 ≤ s32 x < 2 ^ 31.
Proof. unfold s32. pose proof (Z.mod_pos_bound (x + 2 ^ 31) (2 ^ 32)). lia. Qed.

Lemma s64_u64 x : is_u64 x → s64 x = if x <? 2 ^ 63 then x else x - 2 ^ 64.
Proof.
  intros Hx. unfold s64, is_u64 in *. destruct (Z.ltb_spec x (2 ^ 63)).
  - rewrite Z.mod_small; lia.
  - rewrite <- (Z.mod_unique_pos (x + 2 ^ 63) (2 ^ 64) 1 (x - 2 ^ 63)); lia.
Qed.

(** A [uint64_t] passed as a C [long] and converted back is unchanged:
    [grpc_engine_call] takes the task id as [C.long]. *)
Lemma u64_s64 x : is_u64 x → u64 (s64 x) = x.
Proof.
  intros Hx. rewrite s64_u64 by done. destruct (x <? 2 ^ 63).
  - by apply u64_id.
  - unfold u64. symmetry. apply (Z.mod_unique_pos _ _ (-1)); unfold is_u64 in Hx; lia.
Qed.

(** ** Kinds of results *)

Definition NGX_GRPC_CLIENT_RES_TYPE_OK : Z := 0.
Definition NGX_GRPC_CLIENT_RES_TYPE_ERR : Z := 1.
Definition NGX_GRPC_CLIENT_RES_TYPE_OK_NOT_RES : Z := 2.

(** [type = (int64_t) (res->buf) & 7;] *)
Definition res_type (buf : Z) : Z := s32 (Z.land (s64 buf) 7).

(** [res->buf = (u_char * ) ((int64_t) (res->buf) >> 3 << 3);] *)
Definition res_ptr (buf : Z) : Z := u64 (s64 (Z.shiftl (Z.shiftr (s64 buf) 3) 3)).

Lemma land_7 x : Z.land x 7 = x `mod` 8.
Proof. apply (Z.land_ones x 3). lia. Qed.

Lemma shift_3 x : Z.shiftl (Z.shiftr x 3) 3 = x - x `mod` 8.
Proof.
  rewrite Z.shiftl_mul_pow2, Z.shiftr_div_pow2 by lia.
  change (2 ^ 3) with 8. pose proof (Z_div_mod_eq_full x 8). lia.
Qed.

Lemma s64_mod_8 x : s64 x `mod` 8 = x `mod` 8.
Proof.
  unfold s64. rewrite Zminus_mod, Z.mod_mod_divide.
  - rewrite <- Zminus_mod. f_equal. lia.
  - by exists (2 ^ 61).
Qed.

Lemma res_type_mod buf : res_type buf = buf `mod` 8.
Proof.
  unfold res_type. rewrite land_7, s64_mod_8, s32_small; [done|].
  pose proof (Z.mod_pos_bound buf 8). lia.
Qed.

Lemma u64_mod_add x k : u64 (x + k * 2 ^ 64) = u64 x.
Proof. unfold u64. apply Z.mod_add. lia. Qed.

Lemma res_ptr_sub buf : is_u64 buf → res_ptr buf = buf - buf `mod` 8.
Proof.
  intros Hb. unfold res_ptr. rewrite shift_3, s64_mod_8.
  pose proof (Z.mod_pos_bound buf 8). pose proof (s64_range buf).
  pose proof (s64_mod_8 buf). pose proof (Z_div_mod_eq_full (s64 buf) 8).
  rewrite s64_small by lia. rewrite s64_u64 by done.
  assert (0 ≤ buf - buf `mod` 8 < 2 ^ 64).
  { unfold is_u64 in Hb. pose proof (Z.mod_le buf 8). lia. }
  destruct (buf <? 2 ^ 63); [by apply u64_id|].
  rewrite <- (u64_mod_add _ 1). rewrite <- (u64_id (buf - buf `mod` 8)) by done.
  f_equal. lia.
Qed.

(** Tagging an aligned pointer, and reading the tag and the pointer back. *)
Lemma lor_tag p t : p `mod` 8 = 0 → 0 ≤ t < 8 → Z.lor p t = p + t.
Proof.
  intros Hp Ht.
  assert (t = Z.land 7 t) as Et by (rewrite Z.land_comm, land_7, Z.mod_small; lia).
  pose proof (Z.add_lor_land p t) as E.
  rewrite Et, Z.land_assoc, land_7, Hp, Z.land_0_l, <- Et in E. lia.
Qed.

Section tagging.
Context (p t : Z) (Hp : is_u64 p) (Ha : p `mod` 8 = 0) (Ht : 0 ≤ t < 8).

Lemma tagged_u64 : is_u64 (Z.lor p t).
Proof using All.
  rewrite lor_tag by done. unfold is_u64 in *.
  pose proof (Z_div_mod_eq_full p 8). lia.
Qed.

Lemma tagged_mod : Z.lor p t `mod` 8 = t.
Proof using Ha Ht.
  rewrite lor_tag by done. rewrite Zplus_mod, Ha, Z.add_0_l, Z.mod_mod by lia.
  apply Z.mod_small. lia.
Qed.

Lemma res_type_tagged : res_type (Z.lor p t) = t.
Proof using Ha Ht. rewrite res_type_mod. apply tagged_mod. Qed.

Lemma res_ptr_tagged : res_ptr (Z.lor p t) = p.
Proof using All.
  rewrite res_ptr_sub by apply tagged_u64. rewrite tagged_mod, lor_tag by done. lia.
Qed.
End tagging.

(** The kind [task.go] or's into an aligned pointer, and the pointer, are what
    [ngx_grpc_client.c] masks and shifts out of it, for every 64-bit address. *)
Theorem tag_round_trip p t :
  is_u64 p → p `mod` 8 = 0 → 0 ≤ t < 8 →
  is_u64 (Z.lor p t) ∧ res_type (Z.lor p t) = t ∧ res_ptr (Z.lor p t) = p.
Proof. auto using tagged_u64, res_type_tagged, res_ptr_tagged. Qed.

Create Rewrite HintDb words.
#[export] Hint Rewrite u64_id u64_s64 using done : words.
#[export] Hint Resolve u64_range tagged_u64 : grpc.
