(* ===== verification/Mem.v ===== *)
(** * The C heap and the structures that live in it

    One heap of typed objects, addressed by 64-bit addresses, shared by the C
    module ([ngx_alloc], [ngx_calloc], [ngx_pcalloc], [ngx_free]) and by the Go
    engine ([C.malloc], [C.CBytes], [C.free]).  Dereferencing or freeing an
    address that is not live is a fault. *)
From S2P Require Import Prelude Words.

Definition NULL : Z := 0.

(** ** Constants of [ngx_grpc_client.c] *)

Definition NGX_GRPC_CLIENT_STATE_OK : Z := 0.
Definition NGX_GRPC_CLIENT_STATE_TIMEOUT : Z := 1.

Definition NGX_GRPC_CLIENT_STREAM_TYPE_UNARY : Z := 0.
Definition NGX_GRPC_CLIENT_STREAM_TYPE_CLIENT_STREAM : Z := 1.
Definition NGX_GRPC_CLIENT_STREAM_TYPE_SERVER_STREAM : Z := 2.
Definition NGX_GRPC_CLIENT_STREAM_TYPE_BIDIRECTIONAL_STREAM : Z := 3.

(** ** Structures *)

(** [ngx_grpc_cli_task_res_t] *)
Record task_res := TaskRes {
  tr_task_id : Z;
  tr_size : Z;
  tr_buf : Z;
}.

(** [ngx_grpc_cli_ctx_t]; its two queue heads are named in [Ngx]. *)
Record cli_ctx := CliCtx {
  cx_engine_ctx : Z;
  cx_free_delayed : bool;
}.

(** [ngx_grpc_cli_stream_ctx_t]; its queue link is named in [Ngx]. *)
Record stream_ctx := StreamCtx {
  sc_r : Z;
  sc_wait_co_ctx : Z;
  sc_prev_data : Z;
  sc_res : task_res;
  sc_state : Z;
  sc_node : Z;
  sc_parent : Z;
  sc_type : Z;
  sc_is_http : bool;
}.

(** A structure after [ngx_memzero] or [ngx_calloc]. *)
Definition zero_task_res : task_res := TaskRes 0 0 NULL.
Definition zero_cli_ctx : cli_ctx := CliCtx NULL false.
Definition zero_stream_ctx : stream_ctx :=
  StreamCtx NULL NULL NULL zero_task_res 0 NULL NULL 0 false.

(** Field assignments. *)
Definition set_tr_buf b r := TaskRes (tr_task_id r) (tr_size r) b.
Definition set_engine_ctx e c := CliCtx e (cx_free_delayed c).
Definition set_free_delayed d c := CliCtx (cx_engine_ctx c) d.
Definition set_r x s := StreamCtx x (sc_wait_co_ctx s) (sc_prev_data s)
  (sc_res s) (sc_state s) (sc_node s) (sc_parent s) (sc_type s) (sc_is_http s).
Definition set_wait_co_ctx x s := StreamCtx (sc_r s) x (sc_prev_data s)
  (sc_res s) (sc_state s) (sc_node s) (sc_parent s) (sc_type s) (sc_is_http s).
Definition set_prev_data x s := StreamCtx (sc_r s) (sc_wait_co_ctx s) x
  (sc_res s) (sc_state s) (sc_node s) (sc_parent s) (sc_type s) (sc_is_http s).
Definition set_res x s := StreamCtx (sc_r s) (sc_wait_co_ctx s) (sc_prev_data s)
  x (sc_state s) (sc_node s) (sc_parent s) (sc_type s) (sc_is_http s).
Definition set_state x s := StreamCtx (sc_r s) (sc_wait_co_ctx s) (sc_prev_data s)
  (sc_res s) x (sc_node s) (sc_parent s) (sc_type s) (sc_is_http s).
Definition set_node x s := StreamCtx (sc_r s) (sc_wait_co_ctx s) (sc_prev_data s)
  (sc_res s) (sc_state s) x (sc_parent s) (sc_type s) (sc_is_http s).
Definition set_parent x s := StreamCtx (sc_r s) (sc_wait_co_ctx s) (sc_prev_data s)
  (sc_res s) (sc_state s) (sc_node s) x (sc_type s) (sc_is_http s).
Definition set_type x s := StreamCtx (sc_r s) (sc_wait_co_ctx s) (sc_prev_data s)
  (sc_res s) (sc_state s) (sc_node s) (sc_parent s) x (sc_is_http s).
Definition set_is_http x s := StreamCtx (sc_r s) (sc_wait_co_ctx s) (sc_prev_data s)
  (sc_res s) (sc_state s) (sc_node s) (sc_parent s) (sc_type s) x.

#[global] Instance task_res_eq_dec : EqDecision task_res.
Proof. solve_decision. Defined.
#[global] Instance cli_ctx_eq_dec : EqDecision cli_ctx.
Proof. solve_decision. Defined.
#[global] Instance stream_ctx_eq_dec : EqDecision stream_ctx.
Proof. solve_decision. Defined.

(** ** The heap *)

Inductive obj : Type :=
| OBuf (b : bytes)            (** a raw buffer: [C.CBytes], [C.malloc] *)
| OCtx (c : cli_ctx)
| OSctx (s : stream_ctx)
| OPev (r : task_res)         (** [ngx_grpc_cli_posted_event_ctx_t] *)
| ONode (key : Z).            (** [ngx_rbtree_node_t] *)

#[global] Instance obj_eq_dec : EqDecision obj.
Proof. solve_decision. Defined.

(** The heap, and the number of allocation requests made so far: it makes two
    requests in the same heap distinct, so an allocator may refuse one and
    grant the other. *)
Record cmem := CMem {
  cm_heap : gmap Z obj;
  cm_seq : nat;
}.

(** The allocators of nginx and libc are not part of the source: a request is
    answered by a choice function, which may refuse. *)
Class Allocator := {
  alloc_choice : nat → gset Z → option Z;
}.

(** What [malloc] documents: the address is of no live object, is not NULL and
    is aligned for any type (8 bytes on the 64-bit machines the module
    requires). *)
Class AllocatorLaws `{Allocator} : Prop := {
  alloc_fresh k live p : alloc_choice k live = Some p → p ∉ live;
  alloc_u64 k live p : alloc_choice k live = Some p → 0 < p < 2 ^ 64;
  alloc_aligned k live p : alloc_choice k live = Some p → p `mod` 8 = 0;
}.

Definition heap_set (h : gmap Z obj) (m : cmem) : cmem := CMem h (cm_seq m).

Section heap_ops.
Context `{Allocator}.

(** [malloc]-like request for an object: its address, or NULL. *)
Definition alloc (o : obj) : M cmem Z := λ m,
  match alloc_choice (cm_seq m) (dom (cm_heap m)) with
  | Some p => Done p (CMem (<[p := o]> (cm_heap m)) (Datatypes.S (cm_seq m)))
  | None => Done NULL (CMem (cm_heap m) (Datatypes.S (cm_seq m)))
  end.

(** The next [n] requests are granted, nothing being released meanwhile. *)
Fixpoint grants_from (n k : nat) (live : gset Z) : bool :=
  match n with
  | O => true
  | Datatypes.S n' =>
      match alloc_choice k live with
      | Some p => grants_from n' (Datatypes.S k) ({[p]} ∪ live)
      | None => false
      end
  end.

Definition grants (n : nat) (m : cmem) : bool := grants_from n (cm_seq m) (dom (cm_heap m)).

(** cgo's [C.malloc], which does not return when memory is exhausted. *)
Definition C_malloc (o : obj) : M cmem Z :=
  p ← alloc o;
  if p =? NULL then crash OutOfMemory else mret p.

Lemma C_malloc_oom o m f : C_malloc o m = Crash f → f = OutOfMemory.
Proof.
  unfold C_malloc, mbind, M_bind, alloc. destruct (alloc_choice _ _) as [p|]; simpl.
  - destruct (p =? NULL); [by intros [= <-]|done].
  - by intros [= <-].
Qed.
End heap_ops.

(** [free]: nothing for NULL, a fault for an address that is not live. *)
Definition mem_free (p : Z) : M cmem unit := λ m,
  if p =? NULL then Done tt m
  else match cm_heap m !! p with
       | Some _ => Done tt (heap_set (delete p (cm_heap m)) m)
       | None => Crash (BadFree p)
       end.

Definition load (p : Z) : M cmem obj := λ m,
  if p =? NULL then Crash NullDeref
  else match cm_heap m !! p with
       | Some o => Done o m
       | None => Crash (BadDeref p)
       end.

Definition store (p : Z) (o : obj) : M cmem unit :=
  load p ≫= λ _, modify (λ m, heap_set (<[p := o]> (cm_heap m)) m).

Definition load_buf (p : Z) : M cmem bytes :=
  o ← load p; match o with OBuf b => mret b | _ => crash (BadDeref p) end.
Definition load_ctx (p : Z) : M cmem cli_ctx :=
  o ← load p; match o with OCtx c => mret c | _ => crash (BadDeref p) end.
Definition load_sctx (p : Z) : M cmem stream_ctx :=
  o ← load p; match o with OSctx s => mret s | _ => crash (BadDeref p) end.
Definition load_pev (p : Z) : M cmem task_res :=
  o ← load p; match o with OPev r => mret r | _ => crash (BadDeref p) end.

Definition upd_ctx (p : Z) (f : cli_ctx → cli_ctx) : M cmem unit :=
  c ← load_ctx p; store p (OCtx (f c)).
Definition upd_sctx (p : Z) (f : stream_ctx → stream_ctx) : M cmem unit :=
  s ← load_sctx p; store p (OSctx (f s)).
Definition upd_pev (p : Z) (f : task_res → task_res) : M cmem unit :=
  r ← load_pev p; store p (OPev (f r)).

(** ** Rules of the heap operations *)

Section heap_rules.
Implicit Types m : cmem.

Lemma wp_load p o (Q : obj → cmem → Prop) m :
  p ≠ NULL → cm_heap m !! p = Some o → Q o m → wp (load p) Q m.
Proof. intros Hp Ho HQ. unfold wp, load. by rewrite (proj2 (Z.eqb_neq _ _) Hp), Ho. Qed.

Lemma wp_store p o o' (Q : unit → cmem → Prop) m :
  p ≠ NULL → cm_heap m !! p = Some o' →
  Q tt (heap_set (<[p := o]> (cm_heap m)) m) → wp (store p o) Q m.
Proof. intros. apply wp_bind. eapply wp_load; eauto. Qed.

Lemma wp_load_buf p b (Q : bytes → cmem → Prop) m :
  p ≠ NULL → cm_heap m !! p = Some (OBuf b) → Q b m → wp (load_buf p) Q m.
Proof. intros. apply wp_bind. eapply wp_load; eauto. Qed.
Lemma wp_load_ctx p c (Q : cli_ctx → cmem → Prop) m :
  p ≠ NULL → cm_heap m !! p = Some (OCtx c) → Q c m → wp (load_ctx p) Q m.
Proof. intros. apply wp_bind. eapply wp_load; eauto. Qed.
Lemma wp_load_sctx p s (Q : stream_ctx → cmem → Prop) m :
  p ≠ NULL → cm_heap m !! p = Some (OSctx s) → Q s m → wp (load_sctx p) Q m.
Proof. intros. apply wp_bind. eapply wp_load; eauto. Qed.
Lemma wp_load_pev p r (Q : task_res → cmem → Prop) m :
  p ≠ NULL → cm_heap m !! p = Some (OPev r) → Q r m → wp (load_pev p) Q m.
Proof. intros. apply wp_bind. eapply wp_load; eauto. Qed.

Lemma wp_upd_ctx p c f (Q : unit → cmem → Prop) m :
  p ≠ NULL → cm_heap m !! p = Some (OCtx c) →
  Q tt (heap_set (<[p := OCtx (f c)]> (cm_heap m)) m) → wp (upd_ctx p f) Q m.
Proof. intros. apply wp_bind. eapply wp_load_ctx; eauto. eapply wp_store; eauto. Qed.
Lemma wp_upd_sctx p s f (Q : unit → cmem → Prop) m :
  p ≠ NULL → cm_heap m !! p = Some (OSctx s) →
  Q tt (heap_set (<[p := OSctx (f s)]> (cm_heap m)) m) → wp (upd_sctx p f) Q m.
Proof. intros. apply wp_bind. eapply wp_load_sctx; eauto. eapply wp_store; eauto. Qed.
Lemma wp_upd_pev p r f (Q : unit → cmem → Prop) m :
  p ≠ NULL → cm_heap m !! p = Some (OPev r) →
  Q tt (heap_set (<[p := OPev (f r)]> (cm_heap m)) m) → wp (upd_pev p f) Q m.
Proof. intros. apply wp_bind. eapply wp_load_pev; eauto. eapply wp_store; eauto. Qed.

Lemma wp_mem_free p (Q : unit → cmem → Prop) m :
  (p = NULL → Q tt m) →
  (p ≠ NULL → is_Some (cm_heap m !! p) ∧ Q tt (heap_set (delete p (cm_heap m)) m)) →
  wp (mem_free p) Q m.
Proof.
  intros H0 H1. unfold wp, mem_free. destruct (Z.eqb_spec p NULL); [auto|].
  destruct H1 as [[? ->] ?]; done.
Qed.

Context `{AllocatorLaws}.

Lemma grants_less n n' m : (n ≤ n')%nat → grants n' m = true → grants n m = true.
Proof.
  unfold grants. generalize (cm_seq m), (dom (cm_heap m)).
  revert n'. induction n as [|n IH]; intros [|n'] k live Hn; simpl; try done; [lia|].
  destruct (alloc_choice k live); [|done]. apply IH. lia.
Qed.

Lemma grants_same n m m' :
  cm_seq m' = cm_seq m → dom (cm_heap m') = dom (cm_heap m) → grants n m' = grants n m.
Proof. unfold grants. by intros -> ->. Qed.

(** Either the request is refused and so the next one was not granted, or it
    is answered with a fresh address and uses up one granted request. *)
Lemma wp_alloc_cases o (Q : Z → cmem → Prop) m :
  ((∀ n, grants (Datatypes.S n) m = false) →
     Q NULL (CMem (cm_heap m) (Datatypes.S (cm_seq m)))) →
  (∀ p, cm_heap m !! p = None → 0 < p < 2 ^ 64 → p `mod` 8 = 0 →
     let m' := CMem (<[p := o]> (cm_heap m)) (Datatypes.S (cm_seq m)) in
     (∀ n, grants n m' = grants (Datatypes.S n) m) → Q p m') →
  wp (alloc o) Q m.
Proof.
  intros Hn Hp. unfold wp, alloc. destruct (alloc_choice _ _) as [p|] eqn:E.
  - apply Hp; [|by eapply alloc_u64|by eapply alloc_aligned|].
    + apply not_elem_of_dom. by eapply alloc_fresh.
    + intros n. unfold grants. simpl. rewrite E. by rewrite dom_insert_L.
  - apply Hn. intros n. unfold grants. simpl. by rewrite E.
Qed.

Lemma wp_alloc o (Q : Z → cmem → Prop) m :
  Q NULL (CMem (cm_heap m) (Datatypes.S (cm_seq m))) →
  (∀ p, cm_heap m !! p = None → 0 < p < 2 ^ 64 → p `mod` 8 = 0 →
     Q p (CMem (<[p := o]> (cm_heap m)) (Datatypes.S (cm_seq m)))) →
  wp (alloc o) Q m.
Proof. intros Hn Hp. apply wp_alloc_cases; [done|]. intros p ? ? ? m' _. by apply Hp. Qed.

(** The same, with what the allocator said. *)
Lemma wp_alloc_choice o (Q : Z → cmem → Prop) m :
  (alloc_choice (cm_seq m) (dom (cm_heap m)) = None →
     Q NULL (CMem (cm_heap m) (Datatypes.S (cm_seq m)))) →
  (∀ p, alloc_choice (cm_seq m) (dom (cm_heap m)) = Some p → cm_heap m !! p = None →
     0 < p < 2 ^ 64 → Q p (CMem (<[p := o]> (cm_heap m)) (Datatypes.S (cm_seq m)))) →
  wp (alloc o) Q m.
Proof.
  intros Hn Hp. unfold wp, alloc. destruct (alloc_choice _ _) as [p|] eqn:E; [|by apply Hn].
  apply Hp; [done| |by eapply alloc_u64]. apply not_elem_of_dom. by eapply alloc_fresh.
Qed.

Lemma wp_C_malloc o (Q : Z → cmem → Prop) m :
  (∀ p, cm_heap m !! p = None → 0 < p < 2 ^ 64 → p `mod` 8 = 0 →
     Q p (CMem (<[p := o]> (cm_heap m)) (Datatypes.S (cm_seq m)))) →
  wp (C_malloc o) Q m.
Proof.
  intros Hp. apply wp_bind, wp_alloc; [done|]. intros p H1 H2 H3.
  rewrite (proj2 (Z.eqb_neq p NULL)) by (unfold NULL; lia). by apply wp_ret, Hp.
Qed.
End heap_rules.

(** ** A reference allocator

    It answers every request with the first multiple of 8 above all live
    addresses, while there is one. *)
Module RefAllocator.
Definition top (live : gset Z) : Z := set_fold Z.max 0 live.

Definition choice (k : nat) (live : gset Z) : option Z :=
  let p := 8 * (top live / 8 + 1) in
  if p <? 2 ^ 64 then Some p else None.

Definition allocator : Allocator := {| alloc_choice := choice |}.

Lemma top_max live p : p ∈ live → p ≤ top live.
Proof.
  unfold top. revert p.
  apply (set_fold_ind_L (λ x (live : gset Z), ∀ p, p ∈ live → p ≤ x)); [set_solver|].
  intros x X y _ IH p [->%elem_of_singleton|Hp]%elem_of_union; [lia|].
  specialize (IH p Hp). lia.
Qed.

Lemma top_nonneg live : 0 ≤ top live.
Proof.
  unfold top. apply (set_fold_ind_L (λ x (live : gset Z), 0 ≤ x)); [done|]. intros. lia.
Qed.

Lemma choice_Some k live p :
  choice k live = Some p → p = 8 * (top live / 8 + 1) ∧ p < 2 ^ 64.
Proof.
  unfold choice. destruct (Z.ltb_spec (8 * (top live / 8 + 1)) (2 ^ 64)); [|done].
  by intros [= <-].
Qed.

Lemma allocator_laws : @AllocatorLaws allocator.
Proof.
  split; intros k live p [-> Hp]%choice_Some; pose proof (top_nonneg live) as H0.
  - intros Hin%top_max. pose proof (Z.div_mod (top live) 8).
    pose proof (Z.mod_pos_bound (top live) 8).
    lia.
  - pose proof (Z.div_pos (top live) 8). lia.
  - rewrite Z.mul_comm. apply Z.mod_mul. lia.
Qed.

(** An allocator that refuses every request. *)
Definition refusing : Allocator := {| alloc_choice _ _ := None |}.

Lemma refusing_laws : @AllocatorLaws refusing.
Proof. by split. Qed.
End RefAllocator.
