(* ===== verification/Wire.v ===== *)
(** * The wire format of finished tasks

    [taskQueue.Wait] serialises every finished task as 24 bytes, three 64-bit
    integers in host byte order; [ngx_grpc_client.c] reads the same memory as an
    array of [ngx_grpc_cli_task_res_t]. *)
From S2P Require Import Prelude Words Mem.
From Stdlib Require Import Strings.Byte.

Inductive endian : Type := LittleEndian | BigEndian.

#[global] Instance endian_eq_dec : EqDecision endian.
Proof. solve_decision. Defined.

(** The byte order of the machine the worker runs on. *)
Class Host := host_endian : endian.

(** ** Bytes *)

Definition byte_of_Z (v : Z) : Byte.byte :=
  default x00 (Byte.of_N (Z.to_N (v `mod` 256))).
Definition Z_of_byte (b : Byte.byte) : Z := Z.of_N (Byte.to_N b).

Lemma Z_of_byte_of_Z v : Z_of_byte (byte_of_Z v) = v `mod` 256.
Proof.
  unfold byte_of_Z, Z_of_byte. pose proof (Z.mod_pos_bound v 256).
  destruct (Byte.of_N (Z.to_N (v `mod` 256))) as [b|] eqn:E; simpl.
  - apply Byte.to_of_N in E. rewrite E. lia.
  - apply Byte.of_N_None_iff in E. lia.
Qed.

Fixpoint le_bytes (n : nat) (v : Z) : bytes :=
  match n with
  | O => []
  | Datatypes.S k => byte_of_Z v :: le_bytes k (v / 256)
  end.

Fixpoint le_value (b : bytes) : Z :=
  match b with
  | [] => 0
  | x :: b' => Z_of_byte x + 256 * le_value b'
  end.

Lemma length_le_bytes n v : length (le_bytes n v) = n.
Proof. revert v. induction n; intros; simpl; auto. Qed.

Lemma le_value_bytes n v : le_value (le_bytes n v) = v `mod` 256 ^ Z.of_nat n.
Proof.
  revert v. induction n as [|n IH]; intros v; cbn [le_bytes le_value].
  - by rewrite Z.mod_1_r.
  - rewrite IH, Z_of_byte_of_Z, Nat2Z.inj_succ, Z.pow_succ_r by lia.
    rewrite Z.rem_mul_r by lia. done.
Qed.

(** ** Go's [binary.ByteOrder] *)

Definition PutUint64 (e : endian) (v : Z) : bytes :=
  match e with
  | LittleEndian => le_bytes 8 v
  | BigEndian => rev (le_bytes 8 v)
  end.

Definition Uint64 (e : endian) (b : bytes) : Z :=
  match e with
  | LittleEndian => le_value b
  | BigEndian => le_value (rev b)
  end.

Lemma length_PutUint64 e v : length (PutUint64 e v) = 8%nat.
Proof. destruct e; unfold PutUint64; rewrite ?length_rev; apply length_le_bytes. Qed.

Lemma Uint64_Put e v : Uint64 e (PutUint64 e v) = u64 v.
Proof.
  destruct e; unfold Uint64, PutUint64; rewrite ?rev_involutive; apply le_value_bytes.
Qed.

(** A host storing the 16-bit value [v] at [&buf[0]]. *)
Definition store_uint16 (host : endian) (v : Z) : bytes :=
  match host with
  | LittleEndian => le_bytes 2 v
  | BigEndian => rev (le_bytes 2 v)
  end.

(** The [switch] of [task.init]; [None] is its panic. *)
Definition init_hostEndian (buf : bytes) : option endian :=
  if decide (buf = [xcd; xab]) then Some LittleEndian
  else if decide (buf = [xab; xcd]) then Some BigEndian
  else None.

Lemma init_hostEndian_host host :
  init_hostEndian (store_uint16 host 0xABCD) = Some host.
Proof. by destruct host. Qed.

(** [EncodePointerToBuf] *)
Definition EncodePointerToBuf (e : endian) (ptr : Z) : bytes := PutUint64 e (u64 ptr).

(** ** Records *)

(** [make([]byte, 24)], the scratch buffer of a task queue. *)
Definition new_taskIdBuf : bytes := replicate 24 x00.

(** The three [PutUint64] of the loop body, into the scratch buffer. *)
Definition encode_record (e : endian) (r : task_res) (taskIdBuf : bytes) : bytes :=
  let b := splice 0 (PutUint64 e (tr_task_id r)) taskIdBuf in
  let b := splice 8 (PutUint64 e (tr_size r)) b in
  splice 16 (PutUint64 e (tr_buf r)) b.

(** The C side: [&finished_tasks[i]], [None] when out of the buffer. *)
Definition read_task_res (e : endian) (b : bytes) (i : nat) : option task_res :=
  let at_ off := Uint64 e (take 8 (drop (24 * i + off) b)) in
  if (24 * i + 24 <=? length b)%nat
  then Some (TaskRes (at_ 0%nat) (at_ 8%nat) (at_ 16%nat))
  else None.

(** Storing to [finished_tasks[i].buf]. *)
Definition write_task_res_buf (e : endian) (v : Z) (i : nat) (b : bytes) : bytes :=
  splice (24 * i + 16) (PutUint64 e v) b.

Definition record_bytes (e : endian) (r : task_res) : bytes :=
  PutUint64 e (tr_task_id r) ++ PutUint64 e (tr_size r) ++ PutUint64 e (tr_buf r).

Definition is_task_res (r : task_res) : Prop :=
  is_u64 (tr_task_id r) ∧ is_u64 (tr_size r) ∧ is_u64 (tr_buf r).

Lemma length_record e r : length (record_bytes e r) = 24%nat.
Proof. unfold record_bytes. by rewrite !length_app, !length_PutUint64. Qed.

Lemma length_concat_records e rs :
  length (concat (map (record_bytes e) rs)) = (24 * length rs)%nat.
Proof.
  induction rs as [|r rs IH]; simpl; [done|]. rewrite length_app, length_record, IH. lia.
Qed.

(** The scratch buffer is entirely overwritten: what it held is irrelevant. *)
Lemma encode_record_bytes e r b :
  length b = 24%nat → encode_record e r b = record_bytes e r.
Proof.
  intros Hb. unfold encode_record, record_bytes, splice.
  pose proof (length_PutUint64 e (tr_task_id r)) as L1.
  pose proof (length_PutUint64 e (tr_size r)) as L2.
  pose proof (length_PutUint64 e (tr_buf r)) as L3.
  set (x := PutUint64 e (tr_task_id r)) in *. set (y := PutUint64 e (tr_size r)) in *.
  set (z := PutUint64 e (tr_buf r)) in *. clearbody x y z.
  do 25 (destruct b as [|? b]; try discriminate Hb).
  do 9 (destruct x as [|? x]; try discriminate L1).
  do 9 (destruct y as [|? y]; try discriminate L2).
  do 9 (destruct z as [|? z]; try discriminate L3).
  reflexivity.
Qed.

Lemma slice_app {A} n off (pre a x rest : list A) :
  length pre = n → length a = off →
  take (length x) (drop (n + off) (pre ++ a ++ x ++ rest)) = x.
Proof.
  intros <- <-. rewrite drop_app_add, drop_app_length. apply take_app_length.
Qed.

(** Record [i] of a buffer is the one that starts at offset [24 * i]. *)
Lemma read_task_res_at e r i pre rest :
  is_task_res r → length pre = (24 * i)%nat →
  read_task_res e (pre ++ record_bytes e r ++ rest) i = Some r.
Proof.
  intros (H1 & H2 & H3) Hpre. unfold read_task_res.
  rewrite (proj2 (Nat.leb_le _ _)) by (rewrite !length_app, length_record; lia).
  pose proof (length_PutUint64 e (tr_task_id r)) as L1.
  pose proof (length_PutUint64 e (tr_size r)) as L2.
  pose proof (length_PutUint64 e (tr_buf r)) as L3.
  pose proof (slice_app _ 0 pre [] (PutUint64 e (tr_task_id r))
    (PutUint64 e (tr_size r) ++ PutUint64 e (tr_buf r) ++ rest) Hpre eq_refl) as S1.
  pose proof (slice_app _ 8 pre _ (PutUint64 e (tr_size r))
    (PutUint64 e (tr_buf r) ++ rest) Hpre L1) as S2.
  pose proof (slice_app _ 16 pre (PutUint64 e (tr_task_id r) ++ PutUint64 e (tr_size r))
    (PutUint64 e (tr_buf r)) rest Hpre) as S3.
  rewrite L1 in S1. rewrite L2 in S2. rewrite L3, length_app, L1, L2 in S3.
  specialize (S3 eq_refl). rewrite <- !app_assoc in S3.
  unfold record_bytes. rewrite <- !app_assoc. cbn [app] in S1. rewrite S1, S2, S3.
  rewrite !Uint64_Put, !u64_id by done. by destruct r.
Qed.

(** Every record of a serialised list is read back, in order. *)
Lemma read_records e rs i r :
  Forall is_task_res rs → rs !! i = Some r →
  read_task_res e (concat (map (record_bytes e) rs)) i = Some r.
Proof.
  intros Hrs Hi. pose proof (take_drop_middle _ _ _ Hi) as <-.
  rewrite map_app, concat_app. cbn [map concat]. apply read_task_res_at.
  - by eapply Forall_lookup_1.
  - rewrite length_concat_records, length_take.
    apply lookup_lt_Some in Hi. lia.
Qed.

Lemma read_task_res_length e b i r :
  read_task_res e b i = Some r → (24 * i + 24 ≤ length b)%nat.
Proof. unfold read_task_res. destruct (Nat.leb_spec (24 * i + 24) (length b)); [done|by intros].
Qed.

Lemma read_records_out e rs i :
  (length rs ≤ i)%nat → read_task_res e (concat (map (record_bytes e) rs)) i = None.
Proof.
  intros. unfold read_task_res. rewrite length_concat_records.
  by rewrite (proj2 (Nat.leb_gt _ _)) by lia.
Qed.
