(* ===== verification/TaskQueue.v ===== *)
(** * The queue of finished tasks: [grpc-engine/task/task.go]

    The sequential operations are functions of the queue.  [tq_step] interleaves
    them as the goroutines do: one waiter (the thread of the nginx thread pool),
    any number of reporting goroutines, and the [time.AfterFunc] timers. *)
From S2P Require Import Prelude Words Mem Wire.

(** ** Data *)

Definition GrpcResTypeOk : Z := 0.
Definition GrpcResTypeErr : Z := 1.
Definition GrpcResTypeOkNotRes : Z := 2.

(** [taskResult]: [None] is Go's nil, for the slice and for the error; an error
    is its message. *)
Record taskResult := TaskResult {
  t_id : Z;
  t_result : option bytes;
  t_err : option bytes;
}.

Record taskQueue := TaskQueue {
  tq_done : bool;
  tq_taskIdBuf : bytes;
  tq_tasks : list taskResult;
}.

#[global] Instance taskResult_eq_dec : EqDecision taskResult.
Proof. solve_decision. Defined.

(** ** Operations *)

Definition NewTaskQueue : taskQueue := TaskQueue false new_taskIdBuf [].

(** [signal]: the wake-up of [cond.Signal] is in [tq_step]. *)
Definition signal (q : taskQueue) : taskQueue :=
  TaskQueue true (tq_taskIdBuf q) (tq_tasks q).

(** [Done]; [task.ReportFinishedTask] is this on the global queue. *)
Definition Done_ (id : Z) (result err : option bytes) (q : taskQueue) : taskQueue :=
  signal (TaskQueue (tq_done q) (tq_taskIdBuf q)
                    (tq_tasks q ++ [TaskResult id result err])).

Section wait.
Context `{Allocator} (hostEndian : endian).

(** The size and the tagged pointer of one finished task. *)
Definition task_record (res : taskResult) : M cmem task_res :=
  match t_err res with
  | Some errStr =>
      p ← C_malloc (OBuf errStr);
      mret (TaskRes (t_id res) (u64 (Z.of_nat (length errStr))) (Z.lor p GrpcResTypeErr))
  | None =>
      match t_result res with
      | None => mret (TaskRes (t_id res) 0 GrpcResTypeOkNotRes)
      | Some out =>
          p ← C_malloc (OBuf out);
          mret (TaskRes (t_id res) (u64 (Z.of_nat (length out))) p)
      end
  end.

(** The loop of [Wait] over [self.tasks]: the scratch buffer and [out]. *)
Fixpoint encode_tasks (tasks : list taskResult) (taskIdBuf out : bytes)
  : M cmem (bytes * bytes) :=
  match tasks with
  | [] => mret (taskIdBuf, out)
  | res :: tasks' =>
      r ← task_record res;
      let taskIdBuf := encode_record hostEndian r taskIdBuf in
      encode_tasks tasks' taskIdBuf (out ++ taskIdBuf)
  end.

(** [Wait] from the point where it finds [self.done] set: the queue it leaves,
    [out] and the number of records. *)
Definition Wait_finish (q : taskQueue) : M cmem (taskQueue * (bytes * Z)) :=
  x ← encode_tasks (tq_tasks q) (tq_taskIdBuf q) [];
  mret (TaskQueue false x.1 [], (x.2, Z.of_nat (length x.2) / 24)).
End wait.

(** ** What [Wait] returns *)

(** The C-side reading of a record [r] for the task [t], in a heap [h]: the id,
    the kind in the low bits, and a buffer of its own with the payload. *)
Definition task_kind (t : taskResult) : Z :=
  match t_err t, t_result t with
  | Some _, _ => NGX_GRPC_CLIENT_RES_TYPE_ERR
  | None, None => NGX_GRPC_CLIENT_RES_TYPE_OK_NOT_RES
  | None, Some _ => NGX_GRPC_CLIENT_RES_TYPE_OK
  end.

Definition task_payload (t : taskResult) : option bytes :=
  match t_err t with Some e => Some e | None => t_result t end.

Definition record_of (t : taskResult) (r : task_res) (h : gmap Z obj) : Prop :=
  tr_task_id r = t_id t ∧ res_type (tr_buf r) = task_kind t ∧
  match task_payload t with
  | Some b => tr_size r = Z.of_nat (length b) ∧ res_ptr (tr_buf r) ≠ NULL ∧
              h !! res_ptr (tr_buf r) = Some (OBuf b)
  | None => tr_size r = 0 ∧ res_ptr (tr_buf r) = NULL
  end.

(** A task whose id and lengths fit the machine. *)
Definition task_fits (t : taskResult) : Prop :=
  is_u64 (t_id t) ∧
  match task_payload t with Some b => Z.of_nat (length b) < 2 ^ 64 | None => True end.

Section wait_spec.
Context `{AllocatorLaws} (e : endian).

Lemma task_record_spec t m :
  task_fits t →
  wp (task_record t) (λ r m', is_task_res r ∧ record_of t r (cm_heap m') ∧
                               cm_heap m ⊆ cm_heap m') m.
Proof.
  intros [Hid Hlen]. unfold task_record, record_of, task_kind, task_payload in *.
  destruct (t_err t) as [b|]; [|destruct (t_result t) as [b|]].
  - apply wp_bind, wp_C_malloc. intros p Hp Hr Ha. apply wp_ret.
    assert (is_u64 p) by (unfold is_u64; lia).
    unfold is_task_res; simpl. unfold GrpcResTypeErr, NGX_GRPC_CLIENT_RES_TYPE_ERR.
    rewrite res_type_tagged, res_ptr_tagged, lookup_insert_eq by (done || lia).
    rewrite u64_id by (unfold is_u64; lia).
    split_and!; try done; [unfold is_u64; lia|apply tagged_u64; done || lia|
      unfold NULL; lia|by apply insert_subseteq].
  - apply wp_bind, wp_C_malloc. intros p Hp Hr Ha. apply wp_ret.
    assert (is_u64 p) by (unfold is_u64; lia).
    unfold is_task_res; simpl. rewrite res_type_mod, res_ptr_sub, Ha, Z.sub_0_r by done.
    rewrite u64_id by (unfold is_u64; lia). rewrite lookup_insert_eq.
    split_and!; try done; [unfold is_u64; lia|unfold NULL; lia|by apply insert_subseteq].
  - apply wp_ret. unfold is_task_res; simpl. split_and!; try done; unfold is_u64; lia.
Qed.

Lemma record_of_mono t r h h' : record_of t r h → h ⊆ h' → record_of t r h'.
Proof.
  unfold record_of. intros (?&?&Hp) Hs. split_and!; [done..|].
  destruct (task_payload t); [|done]. destruct Hp as (?&?&?).
  split_and!; [done..|]. by eapply lookup_weaken.
Qed.

(** The loop appends the records of the tasks, in order. *)
Lemma encode_tasks_spec ts idbuf out m :
  length idbuf = 24%nat → Forall task_fits ts →
  wp (encode_tasks e ts idbuf out) (λ x m',
    length x.1 = 24%nat ∧ cm_heap m ⊆ cm_heap m' ∧
    ∃ rs, x.2 = out ++ concat (map (record_bytes e) rs) ∧ Forall is_task_res rs ∧
          Forall2 (λ t r, record_of t r (cm_heap m')) ts rs) m.
Proof.
  revert idbuf out m. induction ts as [|t ts IH]; intros idbuf out m Hl Hts; simpl.
  - apply wp_ret. split_and!; [done..|]. exists []. by rewrite app_nil_r.
  - apply Forall_cons in Hts as [Ht Hts].
    apply wp_bind. eapply wp_mono; [by apply task_record_spec|]. cbn beta.
    intros r m1 (Hr & Hrec & Hm1). rewrite encode_record_bytes by done.
    eapply wp_mono; [apply IH; [apply length_record|done]|]. cbn beta.
    intros x m2 (Hx & Hm2 & rs & -> & Hrs & Hall). split_and!; [done|by trans (cm_heap m1)|].
    exists (r :: rs). cbn [map concat]. rewrite <- app_assoc. split_and!; [done|by constructor|].
    constructor; [by eapply record_of_mono|done].
Qed.

(** [WaitFinishedTasks]: as many records as finished tasks, each of them the
    task it stands for, and an empty queue. *)
Lemma Wait_finish_spec q m :
  length (tq_taskIdBuf q) = 24%nat → Forall task_fits (tq_tasks q) →
  wp (Wait_finish e q) (λ x m',
    length (tq_taskIdBuf x.1) = 24%nat ∧ tq_tasks x.1 = [] ∧ tq_done x.1 = false ∧
    x.2.2 = Z.of_nat (length (tq_tasks q)) ∧ cm_heap m ⊆ cm_heap m' ∧
    ∃ rs, x.2.1 = concat (map (record_bytes e) rs) ∧ Forall is_task_res rs ∧
          Forall2 (λ t r, record_of t r (cm_heap m')) (tq_tasks q) rs) m.
Proof.
  intros Hl Hts. apply wp_bind. eapply wp_mono; [by apply encode_tasks_spec|]. cbn beta.
  intros x m' (Hx & Hm & rs & Hout & Hrs & Hall). apply wp_ret. simpl.
  split_and!; try done.
  - rewrite Hout. simpl. rewrite length_concat_records, (Forall2_length _ _ _ Hall).
    rewrite Nat2Z.inj_mul, Z.mul_comm. apply Z.div_mul. lia.
  - by exists rs.
Qed.
End wait_spec.

(** ** Interleavings *)

(** The waiter of [Wait]: not in a call; at the head of the [for !self.done]
    loop, holding or about to take the lock; or parked in [cond.Wait].  The
    number is the timer its call armed. *)
Inductive waiter : Type :=
| W_idle
| W_checking (timer : nat)
| W_parked (timer : nat).

(** A timer is armed, or it has expired and its function, in a goroutine of its
    own, has yet to take the lock. *)
Record tq_sys := TqSys {
  sy_queue : taskQueue;
  sy_mem : cmem;
  sy_waiter : waiter;
  sy_armed : gset nat;
  sy_firing : gset nat;
  sy_next : nat;
}.

(** What a step shows: a task reported; the tasks a [Wait] returned with its
    output, when its own timer had already fired or not; or nothing. *)
Inductive tq_label : Type :=
| L_report (t : taskResult)
| L_deliver (ts : list taskResult) (out : bytes) (n : Z) (own_timer_fired : bool)
| L_tau.

(** [cond.Signal]: a parked waiter goes back to its loop test. *)
Definition wake (w : waiter) : waiter :=
  match w with W_parked k => W_checking k | _ => w end.

Section interleaving.
Context `{Allocator} (e : endian).

(** One critical section per step.  A delivery is labelled with the tasks of the queue,
    of which the bytes [out] are the encoding ([wait_records_read_back]). *)
Inductive tq_step : tq_sys → tq_label → tq_sys → Prop :=
| S_done q m w a f n id result err :
    tq_step (TqSys q m w a f n) (L_report (TaskResult id result err))
            (TqSys (Done_ id result err q) m (wake w) a f n)
| S_wait_begin q m a f n :
    tq_step (TqSys q m W_idle a f n) L_tau
            (TqSys q m (W_checking n) ({[n]} ∪ a) f (Datatypes.S n))
| S_park q m k a f n :
    tq_done q = false →
    tq_step (TqSys q m (W_checking k) a f n) L_tau (TqSys q m (W_parked k) a f n)
| S_wait_finish q m k a f n q' out num m' :
    tq_done q = true →
    Wait_finish e q m = Done (q', (out, num)) m' →
    tq_step (TqSys q m (W_checking k) a f n)
            (L_deliver (tq_tasks q) out num (bool_decide (k ∉ a)))
            (TqSys q' m' W_idle (a ∖ {[k]}) f n)
| S_expire q m w k a f n :
    k ∈ a →
    tq_step (TqSys q m w a f n) L_tau (TqSys q m w (a ∖ {[k]}) ({[k]} ∪ f) n)
| S_timer_func q m w k a f n :
    k ∈ f →
    tq_step (TqSys q m w a f n) L_tau (TqSys (signal q) m (wake w) a (f ∖ {[k]}) n).

Inductive tq_exec : tq_sys → list tq_label → tq_sys → Prop :=
| E_refl s : tq_exec s [] s
| E_step s l s' tr s'' : tq_exec s tr s' → tq_step s' l s'' → tq_exec s (tr ++ [l]) s''.
End interleaving.

Definition tq_init (m : cmem) : tq_sys := TqSys NewTaskQueue m W_idle ∅ ∅ 0.

Definition reported (tr : list tq_label) : list taskResult :=
  concat (map (λ l, match l with L_report t => [t] | _ => [] end) tr).
Definition delivered (tr : list tq_label) : list taskResult :=
  concat (map (λ l, match l with L_deliver ts _ _ _ => ts | _ => [] end) tr).

(** ** Invariant *)

Definition waiter_timer (w : waiter) : option nat :=
  match w with W_idle => None | W_checking k | W_parked k => Some k end.

Record tq_inv (s : tq_sys) : Prop := {
  (** a finished task always leaves the queue ready *)
  inv_ready : tq_tasks (sy_queue s) ≠ [] → tq_done (sy_queue s) = true;
  (** nobody sleeps on a ready queue *)
  inv_parked k : sy_waiter s = W_parked k → tq_done (sy_queue s) = false;
  (** the waiter's timer is still to fire, or has set the flag *)
  inv_timer k : waiter_timer (sy_waiter s) = Some k →
    k ∈ sy_armed s ∨ k ∈ sy_firing s ∨ tq_done (sy_queue s) = true;
  inv_scratch : length (tq_taskIdBuf (sy_queue s)) = 24%nat;
}.

Lemma waiter_timer_wake w : waiter_timer (wake w) = waiter_timer w.
Proof. by destruct w. Qed.

Lemma wake_not_parked w k : wake w ≠ W_parked k.
Proof. by destruct w. Qed.

#[export] Hint Resolve waiter_timer_wake wake_not_parked : grpc.

Section interleaving_proofs.
Context `{Allocator} (e : endian).

Lemma encode_tasks_scratch ts idbuf out m x m' :
  length idbuf = 24%nat → encode_tasks e ts idbuf out m = Done x m' →
  length x.1 = 24%nat.
Proof.
  revert idbuf out m. induction ts as [|t ts IH]; intros idbuf out m Hl; simpl.
  - by intros [= <- <-].
  - unfold mbind, M_bind. destruct (task_record t m) as [r m1|]; [|done].
    apply IH. rewrite encode_record_bytes by done. apply length_record.
Qed.

Lemma Wait_finish_inv q m q' o m' :
  length (tq_taskIdBuf q) = 24%nat → Wait_finish e q m = Done (q', o) m' →
  tq_done q' = false ∧ tq_tasks q' = [] ∧ length (tq_taskIdBuf q') = 24%nat.
Proof.
  intros Hl. unfold Wait_finish, mbind, M_bind.
  destruct (encode_tasks e _ _ _ m) as [x m1|] eqn:E; [|done].
  intros [= <- <- <-]. simpl. split_and!; [done..|].
  by eapply encode_tasks_scratch.
Qed.

Lemma tq_inv_init m : tq_inv (tq_init m).
Proof. by split. Qed.

Lemma tq_inv_step s l s' : tq_inv s → tq_step e s l s' → tq_inv s'.
Proof.
  intros [Hr Hp Ht Hs] Hstep.
  destruct Hstep as [| | |q m k a f n q' out num m' Hd Hw| |]; simpl in *.
  - split; simpl; [done|by intros k ?%wake_not_parked|by auto|done].
  - split; simpl; [done..| |done]. intros k [= <-]. left. set_solver.
  - split; simpl; [done|done| |done]. intros k' [= <-]. by apply Ht.
  - destruct (Wait_finish_inv _ _ _ _ _ Hs Hw) as (? & Htk & Hl).
    split; simpl; [by rewrite Htk|done..].
  - split; simpl; [done..| |done]. intros k' [|[]]%Ht; [|set_solver|auto].
    destruct (decide (k' = k)) as [->|]; [right; left|left]; set_solver.
  - split; simpl; [done|by intros k' ?%wake_not_parked|by auto|done].
Qed.

Lemma tq_inv_exec s tr s' : tq_inv s → tq_exec e s tr s' → tq_inv s'.
Proof.
  intros Hi Hex. revert Hi. induction Hex as [|s1 l s2 tr s3 Hex IH Hst]; intros Hi; [done|].
  eapply tq_inv_step; [|done]. auto.
Qed.

Lemma reported_snoc tr l : reported (tr ++ [l]) = reported tr ++ reported [l].
Proof. unfold reported. by rewrite map_app, concat_app. Qed.
Lemma delivered_snoc tr l : delivered (tr ++ [l]) = delivered tr ++ delivered [l].
Proof. unfold delivered. by rewrite map_app, concat_app. Qed.

Lemma tq_step_log s l s' :
  tq_inv s → tq_step e s l s' →
  tq_tasks (sy_queue s) ++ reported [l] = delivered [l] ++ tq_tasks (sy_queue s').
Proof.
  intros Hinv Hstep. pose proof (inv_scratch _ Hinv) as Hs. unfold reported, delivered.
  destruct Hstep as [| | |q m k a f n q' out num m' Hd Hw| |]; simpl in *;
    rewrite ?app_nil_r; try done.
  destruct (Wait_finish_inv _ _ _ _ _ Hs Hw) as (_ & -> & _). by rewrite ?app_nil_r.
Qed.

Lemma tq_exec_log s tr s' :
  tq_inv s → tq_exec e s tr s' →
  tq_tasks (sy_queue s) ++ reported tr = delivered tr ++ tq_tasks (sy_queue s').
Proof.
  intros Hinv Hex. revert Hinv.
  induction Hex as [|s l s' tr s'' Hex IH Hst]; intros Hinv; [by rewrite app_nil_r|].
  specialize (IH Hinv).
  rewrite reported_snoc, delivered_snoc, app_assoc, IH, <- !app_assoc.
  f_equal. eapply tq_step_log; [|done]. by eapply tq_inv_exec.
Qed.
End interleaving_proofs.

(** ** Properties *)

Section properties.
Context `{Allocator} (e : endian).

(** [C28] Under every interleaving of reporting goroutines, timers and calls of
    [Wait], the tasks handed to the waiter are the tasks reported, each once and
    in order; the rest is still in the queue. *)
Theorem taskqueue_fifo m tr s :
  tq_exec e (tq_init m) tr s →
  reported tr = delivered tr ++ tq_tasks (sy_queue s).
Proof. intros Hex. by apply (tq_exec_log e (tq_init m)) in Hex; [|apply tq_inv_init]. Qed.

Lemma encode_tasks_oom ts idbuf out m f :
  encode_tasks e ts idbuf out m = Crash f → f = OutOfMemory.
Proof.
  revert idbuf out m. induction ts as [|t ts IH]; intros idbuf out m; simpl; [done|].
  unfold mbind at 1, M_bind. destruct (task_record t m) as [r m'|f'] eqn:E; [by apply IH|].
  intros [= <-]. unfold task_record, mbind, M_bind in E.
  destruct (t_err t) as [b|]; [|destruct (t_result t) as [b|]; [|done]];
    destruct (C_malloc (OBuf b) m) as [p m'|g] eqn:Em; inversion E; subst;
    by eapply C_malloc_oom.
Qed.

Lemma Wait_finish_total q m :
  (∃ x m', Wait_finish e q m = Done x m') ∨ Wait_finish e q m = Crash OutOfMemory.
Proof.
  unfold Wait_finish, mbind, M_bind.
  destruct (encode_tasks _ _ _ _ m) as [x m'|f] eqn:E; [left; by eauto|].
  right. f_equal. by eapply encode_tasks_oom.
Qed.

Lemma tq_exec_cons s l s' tr s'' :
  tq_step e s l s' → tq_exec e s' tr s'' → tq_exec e s (l :: tr) s''.
Proof.
  intros Hst Hex. revert Hst. induction Hex as [s'|s1 l1 s2 tr s3 Hex IH Hs]; intros Hst.
  - apply (E_step e s l s []); [apply E_refl|done].
  - change (l :: tr ++ [l1]) with ((l :: tr) ++ [l1]). eapply E_step; eauto.
Qed.

Definition wait_over (s : tq_sys) : Prop :=
  ∃ tr s', tq_exec e s tr s' ∧ reported tr = [] ∧
    (sy_waiter s' = W_idle ∨ Wait_finish e (sy_queue s') (sy_mem s') = Crash OutOfMemory).

Lemma wait_over_step s l s' :
  tq_step e s l s' → reported [l] = [] → wait_over s' → wait_over s.
Proof.
  intros Hst Hl (tr & s'' & Hex & Hr & Hw). exists (l :: tr), s''.
  split_and!; [by eapply tq_exec_cons| |done].
  change (l :: tr) with ([l] ++ tr). unfold reported in *.
  by rewrite map_app, concat_app, Hl, Hr.
Qed.

Lemma wait_over_ready q m k a f n :
  tq_done q = true → wait_over (TqSys q m (W_checking k) a f n).
Proof.
  intros Hd. destruct (Wait_finish_total q m) as [([q' [out num]] & m' & E)|E].
  - eapply wait_over_step; [by eapply S_wait_finish|done|].
    eexists [], _. split_and!; [apply E_refl|done|by left].
  - eexists [], _. split_and!; [apply E_refl|done|by right].
Qed.

Lemma wait_over_firing q m w k a f n :
  waiter_timer w = Some k → k ∈ f → wait_over (TqSys q m w a f n).
Proof.
  intros Hw Hk. eapply wait_over_step; [by apply (S_timer_func e q m w k)|done|].
  destruct w; inversion Hw; subst; simpl; by apply wait_over_ready.
Qed.

(** [C35] A call of [Wait] comes back.  From every state in which one is under way
    there is an execution in which nobody reports a task and the call ends: its
    own timer, or a flag already set, lets it.  (A Go allocation may find the
    memory exhausted, which stops the process.) *)
Theorem wait_returns m tr s k :
  tq_exec e (tq_init m) tr s → waiter_timer (sy_waiter s) = Some k → wait_over s.
Proof.
  intros Hex Hk. apply tq_inv_exec in Hex; [|apply tq_inv_init].
  destruct s as [q mm w a f n]; simpl in *.
  destruct (inv_timer _ Hex k Hk) as [Ha|[Hf|Hd]]; simpl in *.
  - eapply wait_over_step; [by apply (S_expire e q mm w k)|done|].
    eapply wait_over_firing; [done|set_solver].
  - by eapply wait_over_firing.
  - destruct w as [|k'|k']; [done|by apply wait_over_ready|].
    pose proof (inv_parked _ Hex k' eq_refl) as Hp. simpl in Hp. congruence.
Qed.

(** [C36] No lost wake-up.  While a finished task is in the queue the flag is set and
    the waiter does not sleep. *)
Theorem no_lost_wakeup m tr s :
  tq_exec e (tq_init m) tr s → tq_tasks (sy_queue s) ≠ [] →
  tq_done (sy_queue s) = true ∧ ∀ k, sy_waiter s ≠ W_parked k.
Proof.
  intros Hex Ht. apply tq_inv_exec in Hex; [|apply tq_inv_init].
  pose proof (inv_ready _ Hex Ht) as Hd. split; [done|].
  intros k Hk. apply (inv_parked _ Hex) in Hk. congruence.
Qed.

(** [timer.Stop] does not wait for a timer that has expired: its function still
    sets the flag, and the next call of [Wait] returns no task before its own
    timeout. *)
Theorem stale_timer_ends_next_wait (m : cmem) (id : Z) :
  ∃ tr s, tq_exec e (tq_init m) tr s ∧ last tr = Some (L_deliver [] [] 0 false).
Proof.
  eexists _, _. split.
  - (* begin, a task, the timer expires, return; its function; begin, return *)
    eapply tq_exec_cons; [apply S_wait_begin|].
    eapply tq_exec_cons; [apply (S_done e _ _ _ _ _ _ id None None)|].
    eapply tq_exec_cons; [apply (S_expire e _ _ _ 0); set_solver|].
    eapply tq_exec_cons; [by apply S_wait_finish|].
    eapply tq_exec_cons; [apply (S_timer_func e _ _ _ 0); set_solver|].
    eapply tq_exec_cons; [apply S_wait_begin|].
    eapply tq_exec_cons; [by apply S_wait_finish|apply E_refl].
  - cbn -[difference union singleton]. rewrite bool_decide_eq_false_2 by set_solver. done.
Qed.
End properties.

(** ** The records the C side reads *)

Section records.
Context `{AllocatorLaws} `{Host}.

(** [C29] What [WaitFinishedTasks] writes with the byte order [task.init] found is
    what the module reads as an array of [ngx_grpc_cli_task_res_t]: as many
    records as finished tasks, record [i] with the id, the kind, the size and the
    payload of task [i], in a buffer of its own; and the queue is empty. *)
Theorem wait_records_read_back e q m :
  init_hostEndian (store_uint16 host_endian 0xABCD) = Some e →
  length (tq_taskIdBuf q) = 24%nat → Forall task_fits (tq_tasks q) →
  wp (Wait_finish e q) (λ x m',
    tq_tasks x.1 = [] ∧ tq_done x.1 = false ∧
    x.2.2 = Z.of_nat (length (tq_tasks q)) ∧
    ∀ i t, tq_tasks q !! i = Some t →
      ∃ r, read_task_res host_endian x.2.1 i = Some r ∧ record_of t r (cm_heap m')) m.
Proof.
  rewrite init_hostEndian_host. intros [= <-] Hl Hts.
  eapply wp_mono; [by apply Wait_finish_spec|]. cbn beta.
  intros x m' (_ & Htk & Hd & Hn & _ & rs & -> & Hrs & Hall). split_and!; [done..|].
  intros i t Hi. destruct (Forall2_lookup_l _ _ _ _ _ Hall Hi) as (r & Hr & Hrec).
  exists r. split; [by apply read_records|done].
Qed.
End records.
