(* ===== verification/Ngx.v ===== *)
(** * What the module uses of nginx and of lua-nginx-module

    nginx is not part of the repository: its queues, red-black tree, events,
    thread pool and string formatting are operations of the class [Nginx], and
    what their documentation promises is the class [NginxLaws].  A reference
    instance at the end shows that the promises can be kept. *)
From S2P Require Import Prelude Words Mem.

(** ** Return codes *)

Definition NGX_OK : Z := 0.
Definition NGX_ERROR : Z := -1.
Definition NGX_AGAIN : Z := -2.
Definition NGX_DONE : Z := -4.

(** ** Queue heads

    The four [ngx_queue_t] that serve as heads.  An element is named by the
    address of the structure its link is embedded in, which is what
    [ngx_queue_data] computes. *)
Inductive qhead : Type :=
| q_opening (ctx : Z)     (** [ctx->opening] *)
| q_free (ctx : Z)        (** [ctx->free] *)
| q_occupied              (** [thctx->occupied] *)
| q_th_free.              (** [thctx->free] *)

#[global] Instance qhead_eq_dec : EqDecision qhead.
Proof. solve_decision. Defined.

#[global] Instance qhead_countable : Countable qhead.
Proof.
  refine (inj_countable'
    (λ h, match h with
          | q_opening c => (0%nat, c) | q_free c => (1%nat, c)
          | q_occupied => (2%nat, 0) | q_th_free => (3%nat, 0) end)
    (λ p : nat * Z, match p.1 with
          | 0%nat => q_opening p.2 | 1%nat => q_free p.2
          | 2%nat => q_occupied | _ => q_th_free end) _).
  by intros [].
Defined.

(** ** The red-black tree

    The module walks the tree itself ([ngx_grpc_cli_lookup_task]), so the nodes
    are visible: address, key, left and right. *)
Inductive rbtree : Type :=
| rb_sentinel
| rb_node (addr key : Z) (left right : rbtree).

Fixpoint rb_entries (t : rbtree) : list (Z * Z) :=
  match t with
  | rb_sentinel => []
  | rb_node a k l r => rb_entries l ++ (a, k) :: rb_entries r
  end.

(** The search-tree order that [ngx_rbtree_insert_value] keeps. *)
Fixpoint rb_bst (t : rbtree) : Prop :=
  match t with
  | rb_sentinel => True
  | rb_node a k l r =>
      rb_bst l ∧ rb_bst r ∧
      Forall (λ e, e.2 ≤ k) (rb_entries l) ∧ Forall (λ e, k ≤ e.2) (rb_entries r)
  end.

(** ** Operations *)

Class Nginx := {
  (* ngx_queue.h *)
  qstore : Type;
  ngx_queue_init : qhead → qstore → qstore;
  ngx_queue_empty : qhead → qstore → bool;
  ngx_queue_head : qhead → qstore → Z;
  ngx_queue_last : qhead → qstore → Z;
  ngx_queue_insert_head : qhead → Z → qstore → qstore;
  ngx_queue_insert_tail : qhead → Z → qstore → qstore;
  ngx_queue_remove : Z → qstore → qstore;
  queue_of : qstore → qhead → option (list Z);

  (* ngx_rbtree.h *)
  ngx_rbtree_insert : Z → Z → rbtree → rbtree;
  ngx_rbtree_delete : Z → rbtree → rbtree;

  (* ngx_event.h, ngx_thread_pool.h *)
  ngx_event : Type;
  ev_zero : ngx_event;
  ev_timer_set : ngx_event → bool;
  ev_active : ngx_event → bool;
  ev_posted : ngx_event → bool;
  (** of a task of the thread pool: a thread has run its handler, and nginx has
      not been notified yet *)
  ev_ran : ngx_event → bool;
  ngx_add_timer : Z → ngx_event → ngx_event;
  ngx_del_timer : ngx_event → ngx_event;
  ngx_post_event : ngx_event → ngx_event;
  (** what nginx does to a posted event before it runs the handler *)
  ngx_delete_posted_event : ngx_event → ngx_event;
  (** [None] when [ngx_thread_task_post] does not return [NGX_OK] *)
  ngx_thread_task_post : nat → ngx_event → option ngx_event;
  (** what nginx does to the event of an expired timer before it runs the handler *)
  ngx_timer_expired : ngx_event → ngx_event;
  (** [ngx_thread_pool_cycle] has run the handler of a task *)
  ngx_task_ran : ngx_event → ngx_event;
  (** what [ngx_thread_pool_handler] does to the event of a finished task before
      it runs the event's handler *)
  ngx_task_finished : ngx_event → ngx_event;

  (* ngx_string.h: what is written of a formatted message into [n] bytes *)
  ngx_snprintf : nat → bytes → bytes;

  (* lua-nginx-module: [None] when the check returns [NGX_OK] *)
  NGX_HTTP_LUA_CONTEXT_YIELDABLE : Z;
  NGX_STREAM_LUA_CONTEXT_PREREAD : Z;
  NGX_STREAM_LUA_CONTEXT_CONTENT : Z;
  NGX_STREAM_LUA_CONTEXT_TIMER : Z;
  NGX_STREAM_LUA_CONTEXT_SSL_CLIENT_HELLO : Z;
  NGX_STREAM_LUA_CONTEXT_SSL_CERT : Z;
  ngx_http_lua_ffi_check_context : Z → Z → option bytes;
  ngx_stream_lua_ffi_check_context : Z → Z → option bytes;
}.

(** An element is linked into some queue. *)
Definition linked `{Nginx} (qs : qstore) (x : Z) : Prop :=
  ∃ h l, queue_of qs h = Some l ∧ x ∈ l.

(** ** Documented behaviour *)

Class NginxLaws `{Nginx} : Prop := {
  queue_init h qs : queue_of (ngx_queue_init h qs) h = Some [];
  queue_init_ne h h' qs :
    h' ≠ h → queue_of (ngx_queue_init h qs) h' = queue_of qs h';
  queue_empty_nil h qs l :
    queue_of qs h = Some l → ngx_queue_empty h qs = bool_decide (l = []);
  queue_head_cons h qs x l :
    queue_of qs h = Some (x :: l) → ngx_queue_head h qs = x;
  queue_last_snoc h qs l x :
    queue_of qs h = Some (l ++ [x]) → ngx_queue_last h qs = x;
  (** inserting an element that is in no queue *)
  queue_insert_head h x qs l :
    queue_of qs h = Some l → ¬ linked qs x →
    queue_of (ngx_queue_insert_head h x qs) h = Some (x :: l);
  queue_insert_head_ne h h' x qs l :
    queue_of qs h = Some l → ¬ linked qs x → h' ≠ h →
    queue_of (ngx_queue_insert_head h x qs) h' = queue_of qs h';
  queue_insert_tail h x qs l :
    queue_of qs h = Some l → ¬ linked qs x →
    queue_of (ngx_queue_insert_tail h x qs) h = Some (l ++ [x]);
  queue_insert_tail_ne h h' x qs l :
    queue_of qs h = Some l → ¬ linked qs x → h' ≠ h →
    queue_of (ngx_queue_insert_tail h x qs) h' = queue_of qs h';
  (** removing an element that is in one queue, once *)
  queue_remove h x qs l1 l2 :
    queue_of qs h = Some (l1 ++ x :: l2) → x ∉ l1 → x ∉ l2 →
    (∀ h' l', h' ≠ h → queue_of qs h' = Some l' → x ∉ l') →
    queue_of (ngx_queue_remove x qs) h = Some (l1 ++ l2);
  queue_remove_ne h h' x qs l1 l2 :
    queue_of qs h = Some (l1 ++ x :: l2) → x ∉ l1 → x ∉ l2 →
    (∀ h' l', h' ≠ h → queue_of qs h' = Some l' → x ∉ l') → h' ≠ h →
    queue_of (ngx_queue_remove x qs) h' = queue_of qs h';

  rbtree_insert_bst a k t : rb_bst t → rb_bst (ngx_rbtree_insert a k t);
  rbtree_insert_entries a k t :
    rb_entries (ngx_rbtree_insert a k t) ≡ₚ (a, k) :: rb_entries t;
  rbtree_delete_bst a k t :
    rb_bst t → (a, k) ∈ rb_entries t → rb_bst (ngx_rbtree_delete a t);
  rbtree_delete_entries a k t :
    rb_bst t → NoDup (map fst (rb_entries t)) → (a, k) ∈ rb_entries t →
    rb_entries t ≡ₚ (a, k) :: rb_entries (ngx_rbtree_delete a t);

  ev_zero_timer : ev_timer_set ev_zero = false;
  ev_add_timer t ev : ev_timer_set (ngx_add_timer t ev) = true;
  ev_del_timer ev : ev_timer_set (ngx_del_timer ev) = false;
  ev_post ev : ev_posted (ngx_post_event ev) = true;
  ev_delete_posted ev : ev_posted (ngx_delete_posted_event ev) = false;
  (** posting a task activates it, and does not run it *)
  ev_task_post k ev ev' :
    ngx_thread_task_post k ev = Some ev' →
    ev_active ev' = true ∧ ev_ran ev' = ev_ran ev;
  ev_timer_expired ev : ev_timer_set (ngx_timer_expired ev) = false;
  ev_zero_ran : ev_ran ev_zero = false;
  ev_task_ran ev : ev_ran (ngx_task_ran ev) = true;
  ev_task_finished ev :
    ev_active (ngx_task_finished ev) = false ∧ ev_ran (ngx_task_finished ev) = false;
  (** a task that is already active is refused *)
  ev_task_post_active k ev : ev_active ev = true → ngx_thread_task_post k ev = None;

  snprintf_take n s : ngx_snprintf n s = take n s;
}.

(** ** Queues as disjoint lists *)

(** Every element is in at most one queue, at most once. *)
Definition queues_wf `{Nginx} (qs : qstore) : Prop :=
  (∀ h l, queue_of qs h = Some l → NoDup l) ∧
  (∀ h h' l l' x, queue_of qs h = Some l → queue_of qs h' = Some l' →
     x ∈ l → x ∈ l' → h = h').

Section queue_lemmas.
Context `{NginxLaws}.
Implicit Types qs : qstore.

Lemma queues_wf_init h qs :
  queues_wf qs → queues_wf (ngx_queue_init h qs).
Proof.
  intros [Hn Hd]. split.
  - intros h1 l1. destruct (decide (h1 = h)) as [->|Hne].
    + rewrite queue_init. intros [= <-]. constructor.
    + rewrite queue_init_ne by done. apply Hn.
  - intros h1 h2 l1 l2 x.
    destruct (decide (h1 = h)) as [->|]; [rewrite queue_init; intros [= <-]; set_solver|].
    destruct (decide (h2 = h)) as [->|]; [rewrite queue_init; intros ? [= <-]; set_solver|].
    rewrite !queue_init_ne by done. apply Hd.
Qed.

(** Either insertion adds one element to one queue. *)
Lemma queues_wf_insert h x qs qs' l l' :
  queues_wf qs → ¬ linked qs x → queue_of qs h = Some l → l' ≡ₚ x :: l →
  queue_of qs' h = Some l' → (∀ h', h' ≠ h → queue_of qs' h' = queue_of qs h') →
  queues_wf qs'.
Proof.
  intros [Hn Hd] Hx Hl Hp Hh Hne. split.
  - intros h1 l1. destruct (decide (h1 = h)) as [->|].
    + rewrite Hh. intros [= <-]. rewrite Hp. constructor; [|by eapply Hn].
      intros Hin. apply Hx. by exists h, l.
    + rewrite Hne by done. apply Hn.
  - intros h1 h2 l1 l2 y H1 H2 Hy1 Hy2.
    destruct (decide (h1 = h)) as [->|Hn1], (decide (h2 = h)) as [->|Hn2]; try done.
    + rewrite Hh in H1. injection H1 as <-. rewrite Hne in H2 by done.
      rewrite Hp in Hy1. apply elem_of_cons in Hy1 as [->|Hy1].
      * destruct Hx. by exists h2, l2.
      * by eapply Hd.
    + rewrite Hh in H2. injection H2 as <-. rewrite Hne in H1 by done.
      rewrite Hp in Hy2. apply elem_of_cons in Hy2 as [->|Hy2].
      * destruct Hx. by exists h1, l1.
      * by eapply Hd.
    + rewrite Hne in H1, H2 by done. by eapply Hd.
Qed.

Lemma queues_wf_insert_head h x qs l :
  queues_wf qs → ¬ linked qs x → queue_of qs h = Some l →
  queues_wf (ngx_queue_insert_head h x qs).
Proof.
  intros. eapply queues_wf_insert; eauto using queue_insert_head, queue_insert_head_ne.
Qed.

Lemma queues_wf_insert_tail h x qs l :
  queues_wf qs → ¬ linked qs x → queue_of qs h = Some l →
  queues_wf (ngx_queue_insert_tail h x qs).
Proof.
  intros Hwf Hx Hl.
  refine (queues_wf_insert h x qs _ l (l ++ [x]) Hwf Hx Hl _ _ _);
    eauto using queue_insert_tail, queue_insert_tail_ne.
  by rewrite <- Permutation_cons_append.
Qed.

(** In well-formed queues an element can be removed from where it is. *)
Lemma queue_remove_wf h x qs l1 l2 :
  queues_wf qs → queue_of qs h = Some (l1 ++ x :: l2) →
  queue_of (ngx_queue_remove x qs) h = Some (l1 ++ l2) ∧
  (∀ h', h' ≠ h → queue_of (ngx_queue_remove x qs) h' = queue_of qs h') ∧
  queues_wf (ngx_queue_remove x qs) ∧ ¬ linked (ngx_queue_remove x qs) x.
Proof.
  intros [Hn Hd] Hl. pose proof (Hn _ _ Hl) as Hnd.
  apply NoDup_app in Hnd as (Hnd1 & Hdis & Hnd2).
  apply NoDup_cons in Hnd2 as [Hx2 Hnd2].
  assert (x ∉ l1) as Hx1 by set_solver.
  assert (∀ h' l', h' ≠ h → queue_of qs h' = Some l' → x ∉ l') as Ho.
  { intros h' l' Hne Hl' Hin. apply Hne. eapply Hd; eauto. set_solver. }
  assert (queue_of (ngx_queue_remove x qs) h = Some (l1 ++ l2)) as Hq
    by by apply queue_remove.
  assert (∀ h', h' ≠ h → queue_of (ngx_queue_remove x qs) h' = queue_of qs h') as Hq'
    by (intros; by eapply queue_remove_ne).
  split_and!; [done|done|split|].
  - intros h1 k1. destruct (decide (h1 = h)) as [->|]; [|rewrite Hq' by done; apply Hn].
    rewrite Hq. intros [= <-]. apply NoDup_app. set_solver.
  - intros h1 h2 k1 k2 y H1 H2 Hy1 Hy2.
    destruct (decide (h1 = h)) as [->|], (decide (h2 = h)) as [->|]; try done;
      rewrite ?Hq, ?Hq' in H1 by done; rewrite ?Hq, ?Hq' in H2 by done.
    + injection H1 as <-. refine (Hd _ _ _ _ y Hl H2 _ Hy2). set_solver.
    + injection H2 as <-. refine (Hd _ _ _ _ y H1 Hl Hy1 _). set_solver.
    + by eapply Hd.
  - intros (h' & l' & Hl' & Hin). destruct (decide (h' = h)) as [->|].
    + rewrite Hq in Hl'. injection Hl' as <-. set_solver.
    + rewrite Hq' in Hl' by done. by eapply Ho.
Qed.
End queue_lemmas.

(** ** A reference instance *)

Module RefNginx.
(** Queues as lists, by head. *)
Definition insert_head (h : qhead) (x : Z) (qs : gmap qhead (list Z)) :=
  alter (cons x) h qs.
Definition insert_tail (h : qhead) (x : Z) (qs : gmap qhead (list Z)) :=
  alter (λ l, l ++ [x]) h qs.
Definition remove (x : Z) (qs : gmap qhead (list Z)) :=
  filter (λ y, y ≠ x) <$> qs.

(** An unbalanced search tree. *)
Fixpoint rb_insert (a k : Z) (t : rbtree) : rbtree :=
  match t with
  | rb_sentinel => rb_node a k rb_sentinel rb_sentinel
  | rb_node a' k' l r =>
      if k <? k' then rb_node a' k' (rb_insert a k l) r
      else rb_node a' k' l (rb_insert a k r)
  end.

(** The subtree without its rightmost node, and that node. *)
Fixpoint rb_pop_max (a k : Z) (l r : rbtree) : rbtree * (Z * Z) :=
  match r with
  | rb_sentinel => (l, (a, k))
  | rb_node a' k' l' r' =>
      let x := rb_pop_max a' k' l' r' in (rb_node a k l x.1, x.2)
  end.

Fixpoint rb_delete (a : Z) (t : rbtree) : rbtree :=
  match t with
  | rb_sentinel => rb_sentinel
  | rb_node a' k' l r =>
      if a =? a' then
        match l with
        | rb_sentinel => r
        | rb_node al kl ll lr =>
            let x := rb_pop_max al kl ll lr in rb_node x.2.1 x.2.2 x.1 r
        end
      else rb_node a' k' (rb_delete a l) (rb_delete a r)
  end.

Record event := Event {
  e_timer_set : bool; e_active : bool; e_posted : bool; e_ran : bool;
}.

Definition nginx : Nginx := {|
  qstore := gmap qhead (list Z);
  ngx_queue_init h qs := <[h := []]> qs;
  ngx_queue_empty h qs := bool_decide (default [] (qs !! h) = []);
  ngx_queue_head h qs := default 0 (head (default [] (qs !! h)));
  ngx_queue_last h qs := default 0 (last (default [] (qs !! h)));
  ngx_queue_insert_head := insert_head;
  ngx_queue_insert_tail := insert_tail;
  ngx_queue_remove := remove;
  queue_of qs h := qs !! h;
  ngx_rbtree_insert := rb_insert;
  ngx_rbtree_delete := rb_delete;
  ngx_event := event;
  ev_zero := Event false false false false;
  ev_timer_set := e_timer_set;
  ev_active := e_active;
  ev_posted := e_posted;
  ev_ran := e_ran;
  ngx_add_timer _ ev := Event true (e_active ev) (e_posted ev) (e_ran ev);
  ngx_del_timer ev := Event false (e_active ev) (e_posted ev) (e_ran ev);
  ngx_post_event ev := Event (e_timer_set ev) (e_active ev) true (e_ran ev);
  ngx_delete_posted_event ev := Event (e_timer_set ev) (e_active ev) false (e_ran ev);
  ngx_thread_task_post _ ev :=
    if e_active ev then None else Some (Event (e_timer_set ev) true (e_posted ev) (e_ran ev));
  ngx_timer_expired ev := Event false (e_active ev) (e_posted ev) (e_ran ev);
  ngx_task_ran ev := Event (e_timer_set ev) (e_active ev) (e_posted ev) true;
  ngx_task_finished ev := Event (e_timer_set ev) false (e_posted ev) false;
  ngx_snprintf := take;
  NGX_HTTP_LUA_CONTEXT_YIELDABLE := 1;
  NGX_STREAM_LUA_CONTEXT_PREREAD := 1;
  NGX_STREAM_LUA_CONTEXT_CONTENT := 2;
  NGX_STREAM_LUA_CONTEXT_TIMER := 4;
  NGX_STREAM_LUA_CONTEXT_SSL_CLIENT_HELLO := 8;
  NGX_STREAM_LUA_CONTEXT_SSL_CERT := 16;
  ngx_http_lua_ffi_check_context c f :=
    if Z.land c f =? 0 then Some (lit "API disabled") else None;
  ngx_stream_lua_ffi_check_context c f :=
    if Z.land c f =? 0 then Some (lit "API disabled") else None;
|}.

Lemma filter_ne_id (x : Z) (l : list Z) : x ∉ l → filter (λ y, y ≠ x) l = l.
Proof.
  induction l as [|y l IH]; intros Hx; [done|].
  rewrite filter_cons_True by set_solver. rewrite IH by set_solver. done.
Qed.

Lemma remove_one (x : Z) (l1 l2 : list Z) :
  x ∉ l1 → x ∉ l2 → filter (λ y, y ≠ x) (l1 ++ x :: l2) = l1 ++ l2.
Proof.
  intros H1 H2. rewrite filter_app, filter_cons_False by naive_solver.
  by rewrite !filter_ne_id.
Qed.

Lemma rb_insert_entries a k t : rb_entries (rb_insert a k t) ≡ₚ (a, k) :: rb_entries t.
Proof.
  induction t as [|a' k' l IHl r IHr]; simpl; [done|].
  destruct (k <? k'); simpl.
  - by rewrite IHl.
  - rewrite IHr. rewrite Permutation_swap. by rewrite Permutation_middle.
Qed.

Lemma rb_insert_bst a k t : rb_bst t → rb_bst (rb_insert a k t).
Proof.
  induction t as [|a' k' l IHl r IHr]; simpl; [done|]. intros (Hl & Hr & Fl & Fr).
  destruct (Z.ltb_spec k k'); simpl; split_and!; auto; rewrite rb_insert_entries;
    constructor; simpl; auto; lia.
Qed.

Lemma rb_pop_max_entries a k l r :
  rb_entries (rb_node a k l r) =
    rb_entries (rb_pop_max a k l r).1 ++ [(rb_pop_max a k l r).2].
Proof.
  revert a k l. induction r as [|a' k' l' IHl r IHr]; intros a k l; simpl; [done|].
  pose proof (IHr a' k' l') as E. simpl in E. rewrite E. by rewrite <- app_assoc.
Qed.

Lemma rb_pop_max_bst a k l r :
  rb_bst (rb_node a k l r) →
  rb_bst (rb_pop_max a k l r).1 ∧
  Forall (λ e, e.2 ≤ (rb_pop_max a k l r).2.2) (rb_entries (rb_pop_max a k l r).1).
Proof.
  revert a k l. induction r as [|a' k' l' IHl r IHr]; intros a k l; [simpl; tauto|].
  intros (Hl & Hr & Fl & Fr). pose proof (IHr a' k' l' Hr) as [Hb Hf].
  rewrite rb_pop_max_entries, Forall_app, Forall_singleton in Fr.
  destruct Fr as [Fr Fm]. cbn [rb_pop_max fst snd]. split; [done|].
  cbn [rb_entries]. rewrite Forall_app, Forall_cons. split_and!; [|done|done].
  eapply Forall_impl; [exact Fl|]. simpl. intros. lia.
Qed.

Lemma rb_delete_sub a t : rb_entries (rb_delete a t) ⊆ rb_entries t.
Proof.
  induction t as [|a' k' l IHl r IHr]; simpl; [done|].
  destruct (a =? a'); [|simpl; set_solver].
  destruct l as [|al kl ll lr]; [set_solver|].
  rewrite (rb_pop_max_entries al kl ll lr). simpl.
  destruct (rb_pop_max al kl ll lr) as [t' [x y]]. simpl. set_solver.
Qed.

Lemma rb_delete_bst a t : rb_bst t → rb_bst (rb_delete a t).
Proof.
  induction t as [|a' k' l IHl r IHr]; simpl; [done|]. intros (Hl & Hr & Fl & Fr).
  destruct (a =? a').
  - destruct l as [|al kl ll lr]; [done|].
    pose proof (rb_pop_max_bst _ _ _ _ Hl) as [Hb Hf].
    rewrite rb_pop_max_entries, Forall_app, Forall_singleton in Fl. destruct Fl as [_ Fm].
    simpl. split_and!; [done..|]. eapply Forall_impl; [exact Fr|]. simpl. intros. lia.
  - simpl. split_and!; auto.
    + apply list.Forall_forall. intros x ?%rb_delete_sub. by eapply list.Forall_forall in Fl.
    + apply list.Forall_forall. intros x ?%rb_delete_sub. by eapply list.Forall_forall in Fr.
Qed.

Lemma rb_delete_id a t : a ∉ map fst (rb_entries t) → rb_delete a t = t.
Proof.
  induction t as [|a' k' l IHl r IHr]; simpl; [done|]. rewrite map_app. simpl. intros Ha.
  rewrite (proj2 (Z.eqb_neq a a')) by set_solver.
  rewrite IHl, IHr by set_solver. done.
Qed.

Lemma rb_delete_entries a k t :
  NoDup (map fst (rb_entries t)) → (a, k) ∈ rb_entries t →
  rb_entries t ≡ₚ (a, k) :: rb_entries (rb_delete a t).
Proof.
  induction t as [|a' k' l IHl r IHr]; simpl; [set_solver|].
  rewrite map_app. simpl. intros (Hl & Hd & Hr)%NoDup_app Hin.
  apply NoDup_cons in Hr as [Ha' Hr].
  assert (∀ a k t, (a, k) ∈ rb_entries t → a ∈ map fst (rb_entries t)) as Hfst.
  { intros a0 k0 t0 ?. apply list_elem_of_fmap. by exists (a0, k0). }
  destruct (Z.eqb_spec a a') as [->|Hne].
  - assert (k = k') as ->.
    { apply elem_of_app in Hin as [Hin%Hfst|[[= ->]|Hin%Hfst]%elem_of_cons]; set_solver. }
    destruct l as [|al kl ll lr]; [done|].
    rewrite (rb_pop_max_entries al kl ll lr). simpl.
    destruct (rb_pop_max al kl ll lr) as [t' [x y]]. simpl.
    by rewrite <- Permutation_middle, <- app_assoc.
  - simpl. apply elem_of_app in Hin as [Hin|[[= -> ->]|Hin]%elem_of_cons]; [| done|].
    + rewrite (rb_delete_id a r); [by rewrite (IHl Hl Hin) at 1|].
      apply Hfst in Hin. set_solver.
    + rewrite (rb_delete_id a l); [rewrite (IHr Hr Hin) at 1|].
      * rewrite Permutation_swap. by rewrite Permutation_middle.
      * apply Hfst in Hin. intros ?. eapply Hd; [done|]. set_solver.
Qed.

Lemma nginx_laws : @NginxLaws nginx.
Proof.
  split; simpl.
  - intros. apply lookup_insert_eq.
  - intros. by apply lookup_insert_ne.
  - by intros h qs l ->.
  - by intros h qs x l ->.
  - intros h qs l x ->. simpl. by rewrite last_snoc.
  - intros h x qs l Hl _. unfold insert_head. by rewrite lookup_alter_eq, Hl.
  - intros h h' x qs l Hl _ Hne. by apply lookup_alter_ne.
  - intros h x qs l Hl _. unfold insert_tail. by rewrite lookup_alter_eq, Hl.
  - intros h h' x qs l Hl _ Hne. by apply lookup_alter_ne.
  - intros h x qs l1 l2 Hl H1 H2 _. unfold remove. rewrite lookup_fmap, Hl. simpl.
    by rewrite remove_one.
  - intros h h' x qs l1 l2 Hl H1 H2 Ho Hne. unfold remove. rewrite lookup_fmap.
    destruct (qs !! h') as [l|] eqn:E; simpl; [|done].
    rewrite filter_ne_id; [done|]. by eapply Ho.
  - apply rb_insert_bst.
  - apply rb_insert_entries.
  - intros. by apply rb_delete_bst.
  - intros a k t _. apply rb_delete_entries.
  - done.
  - done.
  - done.
  - done.
  - done.
  - intros k ev ev'. destruct (e_active ev); [done|]. by intros [= <-].
  - done.
  - done.
  - done.
  - done.
  - by intros k ev ->.
  - done.
Qed.
End RefNginx.
