(* ===== verification/World.v ===== *)
(** * The state of an nginx worker, and the interface of the engine

    One record holds what the module reads and writes: its own globals, the
    heap, the queues, the contexts of lua-nginx-module it follows pointers
    into, and the engine.  Operations are programs of [M world]. *)
From S2P Require Import Prelude Words Mem Wire Ngx.

(** ** The engine *)

(** [DialOpt] and [CallOpt], the structures Lua fills in; a [char *] with its
    length is a byte string. *)
Record dial_opt := DialOpt {
  do_insecure : bool;
  do_tls_verify : bool;
  do_max_recv_msg_size : Z;
  do_client_cert : bytes;
  do_client_key : bytes;
  do_trusted_ca : bytes;
}.

Record call_opt := CallOpt {
  co_timeout : Z;
  co_metadata : list (bytes * bytes);
}.

(** The functions the module resolves with [dlsym].  They run on the engine's
    own state and on the heap. *)
Class GrpcEngine := {
  engine : Type;
  (** the reference, or NULL and what was reported to [err_buf] *)
  grpc_engine_connect : bytes → dial_opt → M (engine * cmem) (Z * option bytes);
  grpc_engine_close : Z → M (engine * cmem) unit;
  grpc_engine_call : Z → Z → bytes → bytes → call_opt → M (engine * cmem) unit;
  grpc_engine_new_stream :
    Z → Z → bytes → bytes → call_opt → Z → M (engine * cmem) unit;
  grpc_engine_close_stream : Z → M (engine * cmem) unit;
  grpc_engine_stream_recv : Z → M (engine * cmem) unit;
  grpc_engine_stream_send : Z → bytes → M (engine * cmem) unit;
  grpc_engine_stream_close_send : Z → M (engine * cmem) unit;
  grpc_engine_free : Z → M (engine * cmem) unit;
  (** the array of finished tasks and their number *)
  grpc_engine_wait : Z → M (engine * cmem) (Z * Z);
}.

(** ** Structures of nginx and lua-nginx-module *)

(** What a [cleanup] or a [resume_handler] slot points to. *)
Inductive handler : Type :=
| H_none                 (** NULL *)
| H_grpc_cleanup         (** [ngx_(http|stream)_grpc_cli_cleanup] *)
| H_grpc_resume          (** [ngx_(http|stream)_grpc_cli_resume] *)
| H_wev_handler          (** [ngx_(http|stream)_lua_wev_handler] *)
| H_grpc_timeout         (** [ngx_grpc_cli_timeout_handler] *)
| H_other.

#[global] Instance handler_eq_dec : EqDecision handler.
Proof. solve_decision. Defined.

(** A value pushed on a coroutine's stack. *)
Inductive lua_val : Type :=
| L_nil
| L_bool (b : bool)
| L_str (s : bytes).

#[global] Instance lua_val_eq_dec : EqDecision lua_val.
Proof. solve_decision. Defined.

(** [ngx_(http|stream)_lua_ctx_t] *)
Record lua_ctx := LuaCtx {
  lx_context : Z;
  lx_cur_co_ctx : Z;
  lx_entered_content_phase : bool;
  lx_resume_handler : handler;
}.

(** A request: its connection's request count and its Lua context. *)
Record request := Request {
  rq_conn_requests : Z;
  rq_lctx : option lua_ctx;
}.

(** Calls into nginx and Lua that the module makes for their effect. *)
Inductive ext_call : Type :=
| X_run_thread (is_http : bool) (r co : Z) (args : list lua_val)
| X_run_posted_threads (is_http : bool) (r nreqs : Z)
| X_finalize_request (is_http : bool) (r rc : Z)
| X_run_phases (is_http : bool) (r : Z)
| X_run_posted_requests (r : Z)
| X_dlopen (path : bytes)
| X_dlclose (engine : Z).

#[global] Instance ext_call_eq_dec : EqDecision ext_call.
Proof. solve_decision. Defined.

(** [ngx_grpc_client_conf_t] *)
Record client_conf := ClientConf {
  cf_engine_path : bytes;
  cf_engine : Z;
  cf_thread_pool : Z;
  cf_task : Z;
}.

Section world.
Context `{Nginx} `{GrpcEngine}.

(** [ngx_(http|stream)_lua_co_ctx_t], with the values pushed on [co] since it
    was last run. *)
Record co_ctx := CoCtx {
  co_data : Z;
  co_cleanup : handler;
  co_sleep : ngx_event;
  co_sleep_handler : handler;
  co_sleep_data : Z;
  co_pushed : list lua_val;
}.

(** [ngx_grpc_cli_thread_ctx_t]; its queues are [q_occupied] and [q_th_free],
    [th_task_event] is the [event] of [thctx->task]. *)
Record thread_ctx := ThreadCtx {
  th_thread_pool : Z;
  th_finished_tasks : Z;
  th_finished_task_num : Z;
  th_posted_ev : ngx_event;
  th_task_event : ngx_event;
}.

Record world := World {
  w_mem : cmem;
  w_eng : engine;
  w_qs : qstore;
  w_tree : rbtree;               (** [ngx_grpc_cli_ongoing_tasks] *)
  w_num : Z;                     (** [ngx_grpc_cli_ongoing_tasks_num] *)
  w_conf : option client_conf;
  w_th : thread_ctx;
  w_reqs : gmap (bool * Z) request;
  w_cos : gmap (bool * Z) co_ctx;
  w_err_buf : bytes;
  w_err_len : Z;
  w_exiting : bool;              (** [ngx_exiting] *)
  w_terminate : bool;            (** [ngx_terminate] *)
  w_quit : bool;                 (** [ngx_quit] *)
  w_out : list ext_call;
}.
End world.

Section setters.
Context `{Nginx} `{GrpcEngine}.
Implicit Types w : world.

Definition set_co_data x c := CoCtx x (co_cleanup c) (co_sleep c)
  (co_sleep_handler c) (co_sleep_data c) (co_pushed c).
Definition set_co_cleanup x c := CoCtx (co_data c) x (co_sleep c)
  (co_sleep_handler c) (co_sleep_data c) (co_pushed c).
Definition set_co_sleep x c := CoCtx (co_data c) (co_cleanup c) x
  (co_sleep_handler c) (co_sleep_data c) (co_pushed c).
Definition set_co_sleep_handler x c := CoCtx (co_data c) (co_cleanup c) (co_sleep c)
  x (co_sleep_data c) (co_pushed c).
Definition set_co_sleep_data x c := CoCtx (co_data c) (co_cleanup c) (co_sleep c)
  (co_sleep_handler c) x (co_pushed c).
Definition set_co_pushed x c := CoCtx (co_data c) (co_cleanup c) (co_sleep c)
  (co_sleep_handler c) (co_sleep_data c) x.

Definition set_finished x n t := ThreadCtx (th_thread_pool t) x n
  (th_posted_ev t) (th_task_event t).
Definition set_posted_ev x t := ThreadCtx (th_thread_pool t) (th_finished_tasks t)
  (th_finished_task_num t) x (th_task_event t).
Definition set_task_event x t := ThreadCtx (th_thread_pool t) (th_finished_tasks t)
  (th_finished_task_num t) (th_posted_ev t) x.

Definition set_mem x w := World x (w_eng w) (w_qs w) (w_tree w) (w_num w) (w_conf w)
  (w_th w) (w_reqs w) (w_cos w) (w_err_buf w) (w_err_len w) (w_exiting w)
  (w_terminate w) (w_quit w) (w_out w).
Definition set_eng x w := World (w_mem w) x (w_qs w) (w_tree w) (w_num w) (w_conf w)
  (w_th w) (w_reqs w) (w_cos w) (w_err_buf w) (w_err_len w) (w_exiting w)
  (w_terminate w) (w_quit w) (w_out w).
Definition set_qs x w := World (w_mem w) (w_eng w) x (w_tree w) (w_num w) (w_conf w)
  (w_th w) (w_reqs w) (w_cos w) (w_err_buf w) (w_err_len w) (w_exiting w)
  (w_terminate w) (w_quit w) (w_out w).
Definition set_tree x w := World (w_mem w) (w_eng w) (w_qs w) x (w_num w) (w_conf w)
  (w_th w) (w_reqs w) (w_cos w) (w_err_buf w) (w_err_len w) (w_exiting w)
  (w_terminate w) (w_quit w) (w_out w).
Definition set_num x w := World (w_mem w) (w_eng w) (w_qs w) (w_tree w) x (w_conf w)
  (w_th w) (w_reqs w) (w_cos w) (w_err_buf w) (w_err_len w) (w_exiting w)
  (w_terminate w) (w_quit w) (w_out w).
Definition set_conf x w := World (w_mem w) (w_eng w) (w_qs w) (w_tree w) (w_num w) x
  (w_th w) (w_reqs w) (w_cos w) (w_err_buf w) (w_err_len w) (w_exiting w)
  (w_terminate w) (w_quit w) (w_out w).
Definition set_th x w := World (w_mem w) (w_eng w) (w_qs w) (w_tree w) (w_num w)
  (w_conf w) x (w_reqs w) (w_cos w) (w_err_buf w) (w_err_len w) (w_exiting w)
  (w_terminate w) (w_quit w) (w_out w).
Definition set_reqs x w := World (w_mem w) (w_eng w) (w_qs w) (w_tree w) (w_num w)
  (w_conf w) (w_th w) x (w_cos w) (w_err_buf w) (w_err_len w) (w_exiting w)
  (w_terminate w) (w_quit w) (w_out w).
Definition set_cos x w := World (w_mem w) (w_eng w) (w_qs w) (w_tree w) (w_num w)
  (w_conf w) (w_th w) (w_reqs w) x (w_err_buf w) (w_err_len w) (w_exiting w)
  (w_terminate w) (w_quit w) (w_out w).
Definition set_err b n w := World (w_mem w) (w_eng w) (w_qs w) (w_tree w) (w_num w)
  (w_conf w) (w_th w) (w_reqs w) (w_cos w) b n (w_exiting w)
  (w_terminate w) (w_quit w) (w_out w).
Definition set_out x w := World (w_mem w) (w_eng w) (w_qs w) (w_tree w) (w_num w)
  (w_conf w) (w_th w) (w_reqs w) (w_cos w) (w_err_buf w) (w_err_len w) (w_exiting w)
  (w_terminate w) (w_quit w) x.
End setters.

(** ** Primitive programs *)

Section programs.
Context `{Nginx} `{GrpcEngine}.

Definition mem {A} (m : M cmem A) : M world A := zoom w_mem set_mem m.

Definition eng {A} (m : M (engine * cmem) A) : M world A :=
  zoom (λ w, (w_eng w, w_mem w)) (λ em w, set_mem em.2 (set_eng em.1 w)) m.

Definition queue (f : qstore → qstore) : M world unit :=
  modify (λ w, set_qs (f (w_qs w)) w).

Definition emit (x : ext_call) : M world unit := modify (λ w, set_out (w_out w ++ [x]) w).

(** [*err_len = ngx_snprintf(err_buf, *err_len, s) - err_buf;] *)
Definition snprintf_err (s : bytes) : M world unit := modify (λ w,
  let out := ngx_snprintf (Z.to_nat (w_err_len w)) s in
  set_err (splice 0 out (w_err_buf w)) (Z.of_nat (length out)) w).

(** What Lua reads back: [ffi.string(err_buf, err_len[0])]. *)
Definition err_string (w : world) : bytes := take (Z.to_nat (w_err_len w)) (w_err_buf w).

Definition get_req (h : bool) (r : Z) : M world request :=
  if r =? NULL then crash NullDeref else
  w ← get;
  match w_reqs w !! (h, r) with Some q => mret q | None => crash (BadDeref r) end.

(** [ngx_(http|stream)_get_module_ctx] *)
Definition get_lctx (h : bool) (r : Z) : M world (option lua_ctx) :=
  q ← get_req h r; mret (rq_lctx q).

Definition upd_lctx (h : bool) (r : Z) (f : lua_ctx → lua_ctx) : M world unit :=
  q ← get_req h r;
  match rq_lctx q with
  | None => crash NullDeref
  | Some x => modify (λ w,
      set_reqs (<[(h, r) := Request (rq_conn_requests q) (Some (f x))]> (w_reqs w)) w)
  end.

Definition get_co (h : bool) (c : Z) : M world co_ctx :=
  if c =? NULL then crash NullDeref else
  w ← get;
  match w_cos w !! (h, c) with Some x => mret x | None => crash (BadDeref c) end.

Definition upd_co (h : bool) (c : Z) (f : co_ctx → co_ctx) : M world unit :=
  x ← get_co h c; modify (λ w, set_cos (<[(h, c) := f x]> (w_cos w)) w).
End programs.

Section program_rules.
Context `{Nginx} `{GrpcEngine}.
Implicit Types w : world.

Lemma wp_mem {A} (m : M cmem A) (Q : A → world → Prop) w :
  wp m (λ a s, Q a (set_mem s w)) (w_mem w) → wp (mem m) Q w.
Proof. apply wp_zoom. Qed.

Lemma wp_get_req h r q (Q : request → world → Prop) w :
  r ≠ NULL → w_reqs w !! (h, r) = Some q → Q q w → wp (get_req h r) Q w.
Proof.
  intros Hr Hq HQ. unfold get_req. rewrite (proj2 (Z.eqb_neq _ _) Hr).
  apply wp_bind, wp_get. by rewrite Hq.
Qed.

Lemma wp_get_co h c x (Q : co_ctx → world → Prop) w :
  c ≠ NULL → w_cos w !! (h, c) = Some x → Q x w → wp (get_co h c) Q w.
Proof.
  intros Hr Hq HQ. unfold get_co. rewrite (proj2 (Z.eqb_neq _ _) Hr).
  apply wp_bind, wp_get. by rewrite Hq.
Qed.

Lemma wp_upd_co h c x f (Q : unit → world → Prop) w :
  c ≠ NULL → w_cos w !! (h, c) = Some x →
  Q tt (set_cos (<[(h, c) := f x]> (w_cos w)) w) → wp (upd_co h c f) Q w.
Proof. intros. apply wp_bind. eapply wp_get_co; eauto. Qed.

Lemma wp_upd_lctx h r q x f (Q : unit → world → Prop) w :
  r ≠ NULL → w_reqs w !! (h, r) = Some q → rq_lctx q = Some x →
  Q tt (set_reqs (<[(h, r) := Request (rq_conn_requests q) (Some (f x))]> (w_reqs w)) w) →
  wp (upd_lctx h r f) Q w.
Proof.
  intros ?? Hx ?. apply wp_bind. eapply wp_get_req; eauto. by rewrite Hx.
Qed.

Lemma set_mem_id w : set_mem (w_mem w) w = w.
Proof. by destruct w. Qed.

(** Reading the heap leaves the state as it is. *)
Lemma wp_mem_read {A} (m : M cmem A) (P : A → Prop) (Q : A → world → Prop) w :
  wp m (λ a s, P a ∧ s = w_mem w) (w_mem w) → (∀ a, P a → Q a w) → wp (mem m) Q w.
Proof.
  intros Hm HQ. apply wp_mem. eapply wp_mono; [exact Hm|]. cbn beta.
  intros a s [Ha ->]. rewrite set_mem_id. by apply HQ.
Qed.

Lemma wp_w_load_buf p b (Q : bytes → world → Prop) w :
  p ≠ NULL → cm_heap (w_mem w) !! p = Some (OBuf b) → Q b w → wp (mem (load_buf p)) Q w.
Proof.
  intros. apply wp_mem. eapply wp_load_buf; [done..|]. by rewrite set_mem_id.
Qed.
Lemma wp_w_load_ctx p c (Q : cli_ctx → world → Prop) w :
  p ≠ NULL → cm_heap (w_mem w) !! p = Some (OCtx c) → Q c w → wp (mem (load_ctx p)) Q w.
Proof.
  intros. apply wp_mem. eapply wp_load_ctx; [done..|]. by rewrite set_mem_id.
Qed.
Lemma wp_w_load_sctx p s (Q : stream_ctx → world → Prop) w :
  p ≠ NULL → cm_heap (w_mem w) !! p = Some (OSctx s) → Q s w → wp (mem (load_sctx p)) Q w.
Proof.
  intros. apply wp_mem. eapply wp_load_sctx; [done..|]. by rewrite set_mem_id.
Qed.
Lemma wp_w_load_pev p r (Q : task_res → world → Prop) w :
  p ≠ NULL → cm_heap (w_mem w) !! p = Some (OPev r) → Q r w → wp (mem (load_pev p)) Q w.
Proof.
  intros. apply wp_mem. eapply wp_load_pev; [done..|]. by rewrite set_mem_id.
Qed.
End program_rules.
