(* ===== verification/Waiters.v ===== *)
(** * The abstract worker: coroutines that wait, are run, or are given up

    What the module promises to Lua, without heap, queues or engine: a coroutine
    that starts a task waits for it on behalf of a request; it is then run once,
    for that request, or given up. *)
From S2P Require Import Prelude Ngx World.

(** A coroutine, of the HTTP or of the stream subsystem. *)
Abbreviation coroutine := (bool * Z)%type.

(** The task it waits for, and the request it serves. *)
Record waiter := Waiter { wt_task : Z; wt_r : Z }.

#[global] Instance waiter_eq_dec : EqDecision waiter.
Proof. solve_decision. Defined.

Abbreviation waiters := (gmap coroutine waiter).

(** ** Steps *)

Inductive wevent : Type :=
| E_start (co : coroutine) (x : waiter)
| E_run (co : coroutine) (r : Z) (args : list lua_val)
| E_drop (co : coroutine).

Definition event_co (e : wevent) : coroutine :=
  match e with E_start co _ | E_run co _ _ | E_drop co => co end.

Inductive wait_step : waiters → wevent → waiters → Prop :=
| WS_start σ co x :
    σ !! co = None → (∀ co' y, σ !! co' = Some y → wt_task y ≠ wt_task x) →
    wait_step σ (E_start co x) (<[co := x]> σ)
| WS_run σ co x args :
    σ !! co = Some x → wait_step σ (E_run co (wt_r x) args) (delete co σ)
| WS_drop σ co x :
    σ !! co = Some x → wait_step σ (E_drop co) (delete co σ).

Inductive wait_run : waiters → list wevent → waiters → Prop :=
| WR_nil σ : wait_run σ [] σ
| WR_cons σ1 e σ2 tr σ3 :
    wait_step σ1 e σ2 → wait_run σ2 tr σ3 → wait_run σ1 (e :: tr) σ3.

Lemma wait_run_app σ1 σ2 σ3 tr1 tr2 :
  wait_run σ1 tr1 σ2 → wait_run σ2 tr2 σ3 → wait_run σ1 (tr1 ++ tr2) σ3.
Proof. induction 1; [done|]. intros. econstructor; eauto. Qed.

Lemma wait_run_one σ e σ' : wait_step σ e σ' → wait_run σ [e] σ'.
Proof. intros. econstructor; [done|constructor]. Qed.

Lemma wait_run_app_inv σ1 σ3 tr1 tr2 :
  wait_run σ1 (tr1 ++ tr2) σ3 → ∃ σ2, wait_run σ1 tr1 σ2 ∧ wait_run σ2 tr2 σ3.
Proof.
  revert σ1. induction tr1 as [|e tr1 IH]; intros σ1 Hr.
  - exists σ1. split; [constructor|done].
  - inversion Hr as [|? ? σ ? ? He Hr']; subst. destruct (IH _ Hr') as (σ2 & ? & ?).
    exists σ2. split; [by econstructor|done].
Qed.

#[export] Hint Constructors wait_step wait_run : grpc.
#[export] Hint Resolve wait_run_app wait_run_one : grpc.

(** ** What is seen of them: the calls that run a coroutine *)

Definition event_call (e : wevent) : option ext_call :=
  match e with
  | E_run (h, co) r args => Some (X_run_thread h r co args)
  | _ => None
  end.

Definition run_of (x : ext_call) : option ext_call :=
  match x with X_run_thread _ _ _ _ => Some x | _ => None end.

(** The runs of coroutines in a log of calls. *)
Definition runs (l : list ext_call) : list ext_call := omap run_of l.

Lemma runs_app l1 l2 : runs (l1 ++ l2) = runs l1 ++ runs l2.
Proof. apply omap_app. Qed.

(** Everything but loading and closing the engine. *)
Definition lua_call (x : ext_call) : bool :=
  match x with X_dlopen _ | X_dlclose _ => false | _ => true end.

(** ** What the abstract worker guarantees *)

(** A coroutine that waits has started, and nothing happened to it since. *)
Definition waits_since (tr : list wevent) (co : coroutine) (x : waiter) : Prop :=
  ∃ tr1 tr2, tr = tr1 ++ E_start co x :: tr2 ∧ Forall (λ e, event_co e ≠ co) tr2.

Lemma waits_since_snoc tr co x e :
  waits_since tr co x → event_co e ≠ co → waits_since (tr ++ [e]) co x.
Proof.
  intros (tr1 & tr2 & -> & Hf) He. exists tr1, (tr2 ++ [e]). split; [by rewrite <- app_assoc|].
  apply Forall_app. auto.
Qed.

Lemma wait_run_snoc_inv σ1 σ3 tr e :
  wait_run σ1 (tr ++ [e]) σ3 → ∃ σ2, wait_run σ1 tr σ2 ∧ wait_step σ2 e σ3.
Proof.
  intros (σ2 & Hr & He)%wait_run_app_inv. exists σ2. split; [done|].
  inversion He as [|? ? ? ? ? ? Hn]; subst. by inversion Hn; subst.
Qed.

Lemma wait_run_since tr σ co x :
  wait_run ∅ tr σ → σ !! co = Some x → waits_since tr co x.
Proof.
  revert σ. induction tr as [|e tr IH] using rev_ind; intros σ Hr Hco.
  { inversion Hr; subst. done. }
  apply wait_run_snoc_inv in Hr as (σ' & Hr & He).
  inversion He as [? co' y Hn Hk|? co' y args Hy|? co' y Hy]; subst.
  - apply lookup_insert_Some in Hco as [[-> ->]|[Hne Hco]].
    + exists tr, []. split; [done|constructor].
    + apply waits_since_snoc; [by eapply IH|done].
  - apply lookup_delete_Some in Hco as [Hne Hco]. apply waits_since_snoc; [by eapply IH|done].
  - apply lookup_delete_Some in Hco as [Hne Hco]. apply waits_since_snoc; [by eapply IH|done].
Qed.

(** A coroutine that is run had started a task for the same request, and was
    neither run nor given up since. *)
Lemma run_answers_start tr1 co r args tr2 σ :
  wait_run ∅ (tr1 ++ E_run co r args :: tr2) σ →
  ∃ k, waits_since tr1 co (Waiter k r).
Proof.
  intros (σ1 & Hr1 & Hr2)%wait_run_app_inv. inversion Hr2 as [|? ? ? ? ? He]; subst.
  inversion He as [|? ? [k r'] ? Hx|]; subst. exists k. by eapply wait_run_since.
Qed.

(** The event behind a call of the log. *)
Lemma calls_split tr h r co args l1 l2 :
  omap event_call tr = l1 ++ X_run_thread h r co args :: l2 →
  ∃ tr1 tr2, tr = tr1 ++ E_run (h, co) r args :: tr2 ∧
    omap event_call tr1 = l1 ∧ omap event_call tr2 = l2.
Proof.
  revert l1. induction tr as [|e tr IH]; intros l1 E; [by destruct l1|].
  destruct (event_call e) as [x|] eqn:Ee; simpl in E; rewrite Ee in E.
  - destruct l1 as [|y l1]; injection E as -> E.
    + exists [], tr. split_and!; [|done..]. destruct e as [|[] |]; by simplify_eq/=.
    + destruct (IH _ E) as (tr1 & tr2 & -> & <- & <-).
      exists (e :: tr1), tr2. split_and!; [done| |done]. simpl. by rewrite Ee.
  - destruct (IH _ E) as (tr1 & tr2 & -> & <- & <-).
    exists (e :: tr1), tr2. split_and!; [done| |done]. simpl. by rewrite Ee.
Qed.
