(* ===== verification/Tasks.v ===== *)
(** * Ongoing tasks: [ngx_grpc_cli_(lookup|keep|unkeep)_task]

    A stream that waits for the engine is kept in a red-black tree under its own
    address, which is also the task id the engine reports back. *)
From S2P Require Import Prelude Words Mem Ngx World.

(** ** Operations *)

Section tasks.
Context `{Allocator} `{Nginx} `{GrpcEngine}.

(** The loop of [ngx_grpc_cli_lookup_task]: the address of the node, or NULL. *)
Fixpoint lookup_walk (key : Z) (node : rbtree) : Z :=
  match node with
  | rb_sentinel => NULL
  | rb_node addr node_key node_left node_right =>
      if key <? node_key then lookup_walk key node_left
      else if key >? node_key then lookup_walk key node_right
      else addr
  end.

Definition ngx_grpc_cli_lookup_task (key : Z) : M world Z :=
  gets (λ w, lookup_walk key (w_tree w)).

Definition ngx_grpc_cli_task_num : M world Z := gets w_num.

Definition ngx_grpc_cli_keep_task (ctx : Z) : M world Z :=
  node ← mem (alloc (ONode 0));
  if node =? NULL then mret NGX_ERROR else
  _ ← mem (store node (ONode ctx));
  _ ← modify (λ w, set_num (s32 (w_num w + 1)) w);
  _ ← modify (λ w, set_tree (ngx_rbtree_insert node ctx (w_tree w)) w);
  _ ← mem (upd_sctx ctx (set_node node));
  mret NGX_OK.

Definition ngx_grpc_cli_unkeep_task (ctx : Z) : M world unit :=
  s ← mem (load_sctx ctx);
  if sc_node s =? NULL then mret tt else
  _ ← modify (λ w, set_num (s32 (w_num w - 1)) w);
  _ ← modify (λ w, set_tree (ngx_rbtree_delete (sc_node s) (w_tree w)) w);
  _ ← mem (mem_free (sc_node s));
  mem (upd_sctx ctx (set_node NULL)).
End tasks.

(** ** The walk is a search *)

Lemma lookup_walk_in key t :
  rb_bst t → lookup_walk key t ≠ NULL → (lookup_walk key t, key) ∈ rb_entries t.
Proof.
  induction t as [|a k l IHl r IHr]; simpl; [done|]. intros (Hl & Hr & _ & _).
  destruct (Z.ltb_spec key k); [set_solver|]. rewrite Z.gtb_ltb.
  destruct (Z.ltb_spec k key); [set_solver|]. intros _.
  replace k with key by lia. set_solver.
Qed.

Lemma lookup_walk_found key t :
  rb_bst t → (∀ a k, (a, k) ∈ rb_entries t → a ≠ NULL) →
  key ∈ map snd (rb_entries t) → lookup_walk key t ≠ NULL.
Proof.
  induction t as [|a k l IHl r IHr]; simpl; [set_solver|].
  intros (Hl & Hr & Fl & Fr) Hnn. rewrite map_app. simpl. intros Hin.
  rewrite list.Forall_forall in Fl, Fr.
  assert (∀ t', key ∈ map snd (rb_entries t') → ∃ a', (a', key) ∈ rb_entries t') as Hex.
  { intros t' ([a' k'] & -> & ?)%list_elem_of_fmap. by exists a'. }
  destruct (Z.ltb_spec key k) as [Hlt|Hge].
  { apply IHl; [done|set_solver|].
    apply elem_of_app in Hin as [?|[->|Hr']%elem_of_cons]; [done|lia|].
    apply Hex in Hr' as (a' & ?%Fr). simpl in *. lia. }
  rewrite Z.gtb_ltb. destruct (Z.ltb_spec k key) as [Hlt|].
  { apply IHr; [done|set_solver|].
    apply elem_of_app in Hin as [Hl'|[->|?]%elem_of_cons]; [|lia|done].
    apply Hex in Hl' as (a' & ?%Fl). simpl in *. lia. }
  apply (Hnn a k). set_solver.
Qed.

(** ** The invariant of the tree

    Its entries are exactly the streams that hold a node, under their address;
    the nodes are live and distinct; the counter counts them. *)
Definition tree_inv_raw (h : gmap Z obj) (t : rbtree) (num : Z) : Prop :=
  rb_bst t ∧
  NoDup (map fst (rb_entries t)) ∧
  NoDup (map snd (rb_entries t)) ∧
  num = s32 (Z.of_nat (length (rb_entries t))) ∧
  (∀ n k, (n, k) ∈ rb_entries t →
     n ≠ NULL ∧ k ≠ NULL ∧ h !! n = Some (ONode k) ∧
     ∃ s, h !! k = Some (OSctx s) ∧ sc_node s = n) ∧
  (∀ k s, h !! k = Some (OSctx s) → sc_node s ≠ NULL → (sc_node s, k) ∈ rb_entries t).

Definition tree_inv `{Nginx} `{GrpcEngine} (w : world) : Prop :=
  tree_inv_raw (cm_heap (w_mem w)) (w_tree w) (w_num w).

Lemma s32_succ n : s32 (s32 n + 1) = s32 (n + 1).
Proof.
  unfold s32. f_equal.
  replace ((n + 2 ^ 31) `mod` 2 ^ 32 - 2 ^ 31 + 1 + 2 ^ 31)
    with ((n + 2 ^ 31) `mod` 2 ^ 32 + 1) by lia.
  rewrite Z.add_mod_idemp_l by lia. f_equal. lia.
Qed.

Lemma s32_pred n : s32 (s32 n - 1) = s32 (n - 1).
Proof.
  unfold s32. f_equal.
  replace ((n + 2 ^ 31) `mod` 2 ^ 32 - 2 ^ 31 - 1 + 2 ^ 31)
    with ((n + 2 ^ 31) `mod` 2 ^ 32 + -1) by lia.
  rewrite Z.add_mod_idemp_l by lia. f_equal. lia.
Qed.

(** A stream is ongoing when it holds a node. *)
Lemma tree_inv_lookup `{Nginx} `{GrpcEngine} w k :
  tree_inv w →
  lookup_walk k (w_tree w) ≠ NULL ↔
  ∃ s, cm_heap (w_mem w) !! k = Some (OSctx s) ∧ sc_node s ≠ NULL.
Proof.
  intros (Hb & _ & _ & _ & He & Hs). split.
  - intros Hk. apply lookup_walk_in in Hk; [|done].
    destruct (He _ _ Hk) as (? & _ & _ & s & ? & E). exists s. by rewrite E.
  - intros (s & Hk & Hn). apply lookup_walk_found; [done|by intros ??[? _]%He|].
    apply list_elem_of_fmap. exists (sc_node s, k). eauto.
Qed.

(** Heap changes that no entry of the tree can see. *)
Lemma tree_inv_raw_frame h h' t num :
  tree_inv_raw h t num →
  (∀ n k, h !! n = Some (ONode k) → h' !! n = Some (ONode k)) →
  (∀ k s, h !! k = Some (OSctx s) → sc_node s ≠ NULL →
     ∃ s', h' !! k = Some (OSctx s') ∧ sc_node s' = sc_node s) →
  (∀ k s', h' !! k = Some (OSctx s') → sc_node s' ≠ NULL →
     ∃ s, h !! k = Some (OSctx s) ∧ sc_node s' = sc_node s) →
  tree_inv_raw h' t num.
Proof.
  intros (Hb & Hn1 & Hn2 & Hnum & He & Hs) H1 H2 H3. split_and!; try done.
  - intros n k Hin. destruct (He _ _ Hin) as (Hn & Hk & Hh & s & Hks & E).
    split_and!; [done..|by apply H1|].
    destruct (H2 _ _ Hks) as (s' & ? & E'); [by rewrite E|]. exists s'. by rewrite E'.
  - intros k s' Hk Hs'. destruct (H3 _ _ Hk Hs') as (s & ? & E). rewrite E. apply Hs; [done|].
    by rewrite <- E.
Qed.

(** ** Keeping and unkeeping *)

Section kept_states.
Context `{Nginx} `{GrpcEngine}.

(** The state after a task is kept under the fresh node [n]. *)
Definition kept (n ctx : Z) (s : stream_ctx) (w : world) : world :=
  set_mem (CMem (<[ctx := OSctx (set_node n s)]> (<[n := ONode ctx]> (cm_heap (w_mem w))))
                (Datatypes.S (cm_seq (w_mem w))))
    (set_tree (ngx_rbtree_insert n ctx (w_tree w)) (set_num (s32 (w_num w + 1)) w)).

(** The state after the task of [s], the stream at [ctx], is dropped. *)
Definition unkept (ctx : Z) (s : stream_ctx) (w : world) : world :=
  set_mem (heap_set (<[ctx := OSctx (set_node NULL s)]>
                       (delete (sc_node s) (cm_heap (w_mem w)))) (w_mem w))
    (set_tree (ngx_rbtree_delete (sc_node s) (w_tree w)) (set_num (s32 (w_num w - 1)) w)).

Definition tick (w : world) : world :=
  set_mem (CMem (cm_heap (w_mem w)) (Datatypes.S (cm_seq (w_mem w)))) w.

End kept_states.

Section keep.
Context `{AllocatorLaws} `{Nginx} `{GrpcEngine}.
Implicit Types w : world.

Lemma wp_keep_task ctx s (Q : Z → world → Prop) w :
  ctx ≠ NULL → cm_heap (w_mem w) !! ctx = Some (OSctx s) →
  Q NGX_ERROR (tick w) →
  (∀ n, cm_heap (w_mem w) !! n = None → 0 < n < 2 ^ 64 → Q NGX_OK (kept n ctx s w)) →
  wp (ngx_grpc_cli_keep_task ctx) Q w.
Proof.
  intros Hc Hs Herr Hok. apply wp_bind, wp_mem, wp_alloc; [done|].
  intros n Hn Hr Ha. rewrite (proj2 (Z.eqb_neq n NULL)) by (unfold NULL; lia).
  assert (n ≠ NULL) by (unfold NULL; lia).
  assert (n ≠ ctx) by (by intros ->; rewrite Hs in Hn).
  apply wp_bind, wp_mem. eapply wp_store; [done|by apply lookup_insert_eq|].
  cbn [cm_heap heap_set w_mem set_mem cm_seq]. rewrite insert_insert_eq.
  do 2 (apply wp_bind, wp_modify). apply wp_bind, wp_mem.
  eapply (wp_upd_sctx _ s); [done| |].
  - simpl. by rewrite lookup_insert_ne.
  - apply wp_ret. by apply Hok.
Qed.

Lemma wp_unkeep_task ctx s (Q : unit → world → Prop) w :
  ctx ≠ NULL → cm_heap (w_mem w) !! ctx = Some (OSctx s) →
  (sc_node s = NULL → Q tt w) →
  (sc_node s ≠ NULL → is_Some (cm_heap (w_mem w) !! sc_node s) ∧ sc_node s ≠ ctx ∧
     Q tt (unkept ctx s w)) →
  wp (ngx_grpc_cli_unkeep_task ctx) Q w.
Proof.
  intros Hc Hs Hz Hnz. apply wp_bind, wp_mem. eapply wp_load_sctx; [done..|].
  assert (set_mem (w_mem w) w = w) as -> by by destruct w.
  destruct (Z.eqb_spec (sc_node s) NULL) as [E|E]; [by apply wp_ret, Hz|].
  destruct (Hnz E) as (Hn & Hne & HQ).
  do 2 (apply wp_bind, wp_modify). apply wp_bind, wp_mem, wp_mem_free; [done|].
  intros _. split; [done|]. apply wp_mem.
  eapply (wp_upd_sctx _ s); [done| |exact HQ].
  simpl. by rewrite lookup_delete_ne.
Qed.

End keep.

Section keep_inv.
Context `{NginxLaws} `{GrpcEngine}.
Implicit Types w : world.

Lemma tree_inv_kept n ctx s w :
  tree_inv w → ctx ≠ NULL → cm_heap (w_mem w) !! ctx = Some (OSctx s) →
  sc_node s = NULL → cm_heap (w_mem w) !! n = None → n ≠ NULL →
  tree_inv (kept n ctx s w).
Proof.
  intros (Hb & Hn1 & Hn2 & Hnum & He & Hs) Hc Hctx Hnode Hn Hnn.
  pose proof (rbtree_insert_entries n ctx (w_tree w)) as Hp.
  assert (ctx ≠ n) as Hne by (by intros ->; rewrite Hctx in Hn).
  unfold tree_inv, tree_inv_raw. simpl. split_and!.
  - by apply rbtree_insert_bst.
  - change (map fst ?l) with (fst <$> l) in *. rewrite Hp. simpl. constructor; [|done].
    intros ([n' k] & -> & Hin)%list_elem_of_fmap.
    destruct (He _ _ Hin) as (_ & _ & E & _). simpl in *. congruence.
  - change (map snd ?l) with (snd <$> l) in *. rewrite Hp. simpl. constructor; [|done].
    intros ([n' k] & -> & Hin)%list_elem_of_fmap.
    destruct (He _ _ Hin) as (? & _ & _ & s' & E & E'). simpl in *. congruence.
  - rewrite Hp, Hnum, s32_succ. simpl. f_equal. lia.
  - intros n' k. rewrite Hp. intros [[= -> ->]|Hin]%elem_of_cons.
    + rewrite lookup_insert_ne, lookup_insert_eq by done. split_and!; [done..|].
      exists (set_node n s). by rewrite lookup_insert_eq.
    + destruct (He _ _ Hin) as (? & ? & E & s' & E' & E'').
      assert (n' ≠ n) by congruence. assert (n' ≠ ctx) by congruence.
      assert (k ≠ ctx) by (intros ->; congruence). assert (k ≠ n) by congruence.
      rewrite !lookup_insert_ne by done. eauto 6.
  - intros k s' Hk Hs'. rewrite Hp. destruct (decide (k = ctx)) as [->|Hkc].
    + rewrite lookup_insert_eq in Hk. injection Hk as <-. simpl. by left.
    + rewrite lookup_insert_ne in Hk by done. right.
      destruct (decide (k = n)) as [->|]; [by rewrite lookup_insert_eq in Hk|].
      rewrite lookup_insert_ne in Hk by done. by apply Hs.
Qed.

Lemma tree_inv_unkept ctx s w :
  tree_inv w → cm_heap (w_mem w) !! ctx = Some (OSctx s) → sc_node s ≠ NULL →
  is_Some (cm_heap (w_mem w) !! sc_node s) ∧ sc_node s ≠ ctx ∧ tree_inv (unkept ctx s w).
Proof.
  intros (Hb & Hn1 & Hn2 & Hnum & He & Hs) Hctx Hnode.
  pose proof (Hs _ _ Hctx Hnode) as Hin.
  destruct (He _ _ Hin) as (_ & Hc & Hn & _). split; [by eauto|].
  assert (sc_node s ≠ ctx) as Hne by congruence. split; [done|].
  pose proof (rbtree_delete_entries _ _ _ Hb Hn1 Hin) as Hp.
  pose proof (rbtree_delete_bst _ _ _ Hb Hin) as Hb'.
  assert (map fst (rb_entries (w_tree w)) ≡ₚ
    sc_node s :: map fst (rb_entries (ngx_rbtree_delete (sc_node s) (w_tree w)))) as Hp1.
  { change (map fst ?l) with (fst <$> l). by rewrite Hp at 1. }
  assert (map snd (rb_entries (w_tree w)) ≡ₚ
    ctx :: map snd (rb_entries (ngx_rbtree_delete (sc_node s) (w_tree w)))) as Hp2.
  { change (map snd ?l) with (snd <$> l). by rewrite Hp at 1. }
  rewrite Hp1 in Hn1. rewrite Hp2 in Hn2.
  apply NoDup_cons in Hn1 as [Hx1 Hn1]. apply NoDup_cons in Hn2 as [Hx2 Hn2].
  unfold tree_inv, tree_inv_raw. simpl. split_and!; [done..| | |].
  - rewrite Hnum, s32_pred. rewrite Hp at 1. simpl. f_equal. lia.
  - intros n k Hin'. assert ((n, k) ∈ rb_entries (w_tree w)) as Hin0 by (rewrite Hp; set_solver).
    assert (n ≠ sc_node s) by (intros ->; apply Hx1, list_elem_of_fmap; by eexists (_, _)).
    assert (k ≠ ctx) by (intros ->; apply Hx2, list_elem_of_fmap; by eexists (_, _)).
    destruct (He _ _ Hin0) as (? & ? & E & s' & E' & E'').
    assert (n ≠ ctx) by congruence.
    assert (k ≠ sc_node s) by congruence.
    rewrite !lookup_insert_ne, !lookup_delete_ne by done. eauto 6.
  - intros k s' Hk Hs'. destruct (decide (k = ctx)) as [->|].
    { rewrite lookup_insert_eq in Hk. by injection Hk as <-. }
    rewrite lookup_insert_ne in Hk by done. apply lookup_delete_Some in Hk as [Hkn Hk].
    pose proof (Hs _ _ Hk Hs') as Hin'. rewrite Hp in Hin'.
    apply elem_of_cons in Hin' as [[= ? ->]|?]; done.
Qed.

(** Dropping a task just kept. *)
Lemma unkept_kept_num k n s w :
  tree_inv w → w_num (unkept k (set_node n s) (kept n k s w)) = w_num w.
Proof.
  intros (_ & _ & _ & Hnum & _). simpl. rewrite s32_pred, Hnum, Z.add_simpl_r.
  apply s32_small, s32_range.
Qed.

Lemma unkept_kept_entries n k s w :
  tree_inv w → cm_heap (w_mem w) !! n = None →
  rb_entries (w_tree (unkept k (set_node n s) (kept n k s w))) ≡ₚ rb_entries (w_tree w).
Proof.
  intros (Hb & Hn1 & _ & _ & He & _) Hn. simpl.
  pose proof (rbtree_insert_entries n k (w_tree w)) as Hp.
  assert ((n, k) ∈ rb_entries (ngx_rbtree_insert n k (w_tree w))) as Hin
    by (rewrite Hp; by left).
  assert (NoDup (map fst (rb_entries (ngx_rbtree_insert n k (w_tree w))))) as Hnd.
  { change (map fst ?l) with (fst <$> l) in *. rewrite Hp. simpl. constructor; [|done].
    intros ([n' k'] & -> & Hin')%list_elem_of_fmap.
    destruct (He _ _ Hin') as (_ & _ & E & _). simpl in *. congruence. }
  pose proof (rbtree_delete_entries _ _ _ (rbtree_insert_bst n k _ Hb) Hnd Hin) as Hd.
  rewrite Hp in Hd. by apply Permutation_cons_inv in Hd.
Qed.
End keep_inv.
