(* ===== verification/Conn.v ===== *)
(** * Connections: [ngx_grpc_cli_connect], [ngx_grpc_cli_close] *)
From S2P Require Import Prelude Words Mem Ngx World Tasks.

Section conn.
Context `{Allocator} `{Nginx} `{GrpcEngine}.

(** [ngx_grpc_cli_get_req_logger]: only its dereference of the request. *)
Definition ngx_grpc_cli_get_req_logger (r : Z) (is_http : bool) : M world unit :=
  get_req is_http r ≫= λ _, mret tt.

(** Reading a queue whose head is in the [ngx_grpc_cli_ctx_t] at [ctx]. *)
Definition ctx_queue {A} (ctx : Z) (f : qstore → A) : M world A :=
  _ ← mem (load_ctx ctx); gets (λ w, f (w_qs w)).

Definition ctx_queue_upd (ctx : Z) (f : qstore → qstore) : M world unit :=
  _ ← mem (load_ctx ctx); queue f.

(** The engine's report: [copy(pp[:], s); *errLen = C.size_t(len(s))]. *)
Definition engine_err (err : option bytes) : M world unit :=
  match err with
  | Some s => modify (λ w, set_err (splice 0 s (w_err_buf w)) (Z.of_nat (length s)) w)
  | None => mret tt
  end.

Definition ngx_grpc_cli_connect (r : Z) (is_http : bool) (target : bytes)
    (opt : dial_opt) : M world Z :=
  _ ← ngx_grpc_cli_get_req_logger r is_http;
  ctx ← mem (alloc (OCtx zero_cli_ctx));
  if ctx =? NULL then mret NULL else
  _ ← ctx_queue_upd ctx (ngx_queue_init (q_free ctx));
  _ ← ctx_queue_upd ctx (ngx_queue_init (q_opening ctx));
  '(engine_ctx, err) ← eng (grpc_engine_connect target opt);
  _ ← engine_err err;
  if engine_ctx =? NULL then
    _ ← mem (mem_free ctx);
    mret NULL
  else
    _ ← mem (upd_ctx ctx (set_engine_ctx engine_ctx));
    mret ctx.

(** The [while] loop of [ngx_grpc_cli_free_conn]; every round frees one object
    of the heap. *)
Fixpoint free_conn_loop (fuel : nat) (ctx : Z) : M world unit :=
  e ← ctx_queue ctx (ngx_queue_empty (q_free ctx));
  if (e : bool) then mret tt else
  match fuel with
  | O => crash OutOfFuel
  | Datatypes.S n =>
      q ← ctx_queue ctx (ngx_queue_last (q_free ctx));
      _ ← mem (load_sctx q);
      _ ← queue (ngx_queue_remove q);
      _ ← mem (mem_free q);
      free_conn_loop n ctx
  end.

Definition ngx_grpc_cli_free_conn (ctx : Z) : M world unit :=
  w ← get;
  _ ← free_conn_loop (size (cm_heap (w_mem w))) ctx;
  mem (mem_free ctx).

Definition ngx_grpc_cli_close (ctx : Z) (r : Z) (is_http : bool) : M world unit :=
  gc ← (if negb (r =? NULL)
        then _ ← ngx_grpc_cli_get_req_logger r is_http; mret false
        else mret true);
  c ← mem (load_ctx ctx);
  _ ← when (negb (cx_engine_ctx c =? NULL))
        (_ ← eng (grpc_engine_close (cx_engine_ctx c));
         mem (upd_ctx ctx (set_engine_ctx NULL)));
  if negb gc then mret tt else
  e ← ctx_queue ctx (ngx_queue_empty (q_opening ctx));
  if negb (e : bool) then mem (upd_ctx ctx (set_free_delayed true)) else
  ngx_grpc_cli_free_conn ctx.
End conn.
