(* ===== verification/Stream.v ===== *)
(** * Calls and streams: from [ngx_grpc_cli_kick_off_task] to
    [ngx_grpc_cli_stream_close_send] *)
From S2P Require Import Prelude Words Mem Wire Ngx World Tasks Conn.

(** The error messages of the module. *)
Definition MSG_no_request_ctx : bytes := lit "no request ctx found".
Definition MSG_task_post_failed : bytes := lit "task post failed".
Definition MSG_no_memory : bytes := lit "no memory".
Definition MSG_closed : bytes := lit "closed".
Definition MSG_timeout : bytes := lit "timeout".
Definition MSG_bad_request : bytes := lit "bad request".
Definition MSG_busy_waiting : bytes := lit "busy waiting".

Section stream.
Context `{Allocator} `{Nginx} `{GrpcEngine} `{Host}.

(** [ngx_cycle_get_main_conf], dereferenced. *)
Definition get_conf : M world client_conf :=
  w ← get; match w_conf w with Some c => mret c | None => crash NullDeref end.

(** [ngx_thread_task_post] on the module's task: whether it was posted. *)
Definition task_post : M world bool :=
  w ← get;
  _ ← modify tick;
  match ngx_thread_task_post (cm_seq (w_mem w)) (th_task_event (w_th w)) with
  | Some ev => _ ← modify (λ w, set_th (set_task_event ev (w_th w)) w); mret true
  | None => mret false
  end.

Definition ngx_grpc_cli_schedule_task_thread_if_needed (gccf : client_conf) : M world Z :=
  if cf_task gccf =? NULL then crash NullDeref else
  w ← get;
  if negb (ev_active (th_task_event (w_th w))) then
    posted ← task_post;
    if negb posted then mret NGX_ERROR else mret NGX_OK
  else mret NGX_OK.

(** The context checks that open [ngx_grpc_cli_kick_off_task]: the [lctx], or
    [None] after an error. *)
Definition kick_off_check (r : Z) (is_http : bool) : M world (option lua_ctx) :=
  lctx ← get_lctx is_http r;
  match lctx with
  | None => _ ← snprintf_err MSG_no_request_ctx; mret None
  | Some x =>
      let err :=
        if is_http
        then ngx_http_lua_ffi_check_context (lx_context x) NGX_HTTP_LUA_CONTEXT_YIELDABLE
        else ngx_stream_lua_ffi_check_context (lx_context x)
               (Z.lor (Z.lor (Z.lor (Z.lor NGX_STREAM_LUA_CONTEXT_PREREAD
                  NGX_STREAM_LUA_CONTEXT_CONTENT) NGX_STREAM_LUA_CONTEXT_TIMER)
                  NGX_STREAM_LUA_CONTEXT_SSL_CLIENT_HELLO)
                  NGX_STREAM_LUA_CONTEXT_SSL_CERT) in
      match err with
      | Some msg => _ ← snprintf_err msg; mret None
      | None => mret (Some x)
      end
  end.

(** Parking the coroutine: the timer, the cleanup handler and the back
    pointers. *)
Definition park (is_http : bool) (co sctx timeout : Z) : M world unit :=
  _ ← mem (upd_sctx sctx (set_wait_co_ctx co));
  _ ← upd_co is_http co (set_co_data sctx);
  _ ← upd_co is_http co (set_co_sleep_handler H_grpc_timeout);
  _ ← upd_co is_http co (set_co_sleep_data sctx);
  _ ← upd_co is_http co (λ c, set_co_sleep (ngx_add_timer timeout (co_sleep c)) c);
  upd_co is_http co (set_co_cleanup H_grpc_cleanup).

Definition ngx_grpc_cli_kick_off_task (r : Z) (gccf : client_conf) (sctx : Z)
    (opt : call_opt) : M world Z :=
  s ← mem (load_sctx sctx);
  lctx ← kick_off_check r (sc_is_http s);
  match lctx with
  | None => mret NGX_ERROR
  | Some x =>
      rc ← ngx_grpc_cli_schedule_task_thread_if_needed gccf;
      if negb (rc =? NGX_OK) then _ ← snprintf_err MSG_task_post_failed; mret NGX_ERROR else
      rc ← ngx_grpc_cli_keep_task sctx;
      if negb (rc =? NGX_OK) then _ ← snprintf_err MSG_no_memory; mret NGX_ERROR else
      _ ← mem (upd_sctx sctx (set_state NGX_GRPC_CLIENT_STATE_OK));
      _ ← park (sc_is_http s) (lx_cur_co_ctx x) sctx (co_timeout opt);
      mret NGX_OK
  end.

(** A stream context for a new call: reused from [ctx->free] or allocated. *)
Definition take_sctx (ctx : Z) : M world Z :=
  e ← ctx_queue ctx (ngx_queue_empty (q_free ctx));
  if negb (e : bool) then
    q ← ctx_queue ctx (ngx_queue_last (q_free ctx));
    _ ← queue (ngx_queue_remove q);
    _ ← mem (upd_sctx q (λ _, zero_stream_ctx));
    mret q
  else mem (alloc (OSctx zero_stream_ctx)).

Definition ngx_grpc_cli_new_stream (r : Z) (is_http : bool) (ctx : Z)
    (method req : bytes) (opt : call_opt) (stream_type : Z) : M world Z :=
  gccf ← get_conf;
  _ ← ngx_grpc_cli_get_req_logger r is_http;
  c ← mem (load_ctx ctx);
  if cx_engine_ctx c =? NULL then _ ← snprintf_err MSG_closed; mret NULL else
  sctx ← take_sctx ctx;
  if sctx =? NULL then _ ← snprintf_err MSG_no_memory; mret NULL else
  _ ← mem (upd_sctx sctx (set_r r));
  _ ← mem (upd_sctx sctx (set_is_http is_http));
  _ ← mem (upd_sctx sctx (set_parent ctx));
  _ ← mem (upd_sctx sctx (set_type stream_type));
  rc ← ngx_grpc_cli_kick_off_task r gccf sctx opt;
  if negb (rc =? NGX_OK) then
    _ ← ctx_queue_upd ctx (ngx_queue_insert_head (q_free ctx) sctx);
    mret NULL
  else
  c ← mem (load_ctx ctx);
  let engine_ctx := cx_engine_ctx c in
  _ ← (if negb (stream_type =? NGX_GRPC_CLIENT_STREAM_TYPE_UNARY) then
         _ ← eng (grpc_engine_new_stream sctx engine_ctx method req opt stream_type);
         ctx_queue_upd ctx (ngx_queue_insert_head (q_opening ctx) sctx)
       else
         eng (grpc_engine_call sctx engine_ctx method req opt));
  mret sctx.

(** Reading [size] bytes at [p]. *)
Definition load_bytes (p size : Z) : M cmem bytes :=
  b ← load_buf p;
  if Z.of_nat (length b) <? size then crash (BadDeref (p + size))
  else mret (take (Z.to_nat size) b).

(** [((ngx_grpc_cli_task_res_t * ) arr)[i]] *)
Definition read_array (arr : Z) (i : nat) : M cmem task_res :=
  b ← load_buf arr;
  match read_task_res host_endian b i with
  | Some r => mret r
  | None => crash (BadDeref (arr + 24 * Z.of_nat i))
  end.

Definition write_array_buf (arr : Z) (i : nat) (v : Z) : M cmem unit :=
  b ← load_buf arr;
  store arr (OBuf (write_task_res_buf host_endian v i b)).

(** The blocking branch of [ngx_grpc_cli_call]; [sctx] is the address of its
    local variable.  The second result is what is stored in
    [*blocking_call_output]: data and len. *)
Definition blocking_call (ctx sctx : Z) (method req : bytes) (opt : call_opt)
  : M world (Z * option (Z * Z)) :=
  c ← mem (load_ctx ctx);
  if cx_engine_ctx c =? NULL then _ ← snprintf_err MSG_closed; mret (NGX_ERROR, None) else
  _ ← eng (grpc_engine_call sctx (cx_engine_ctx c) method req opt);
  '(n_res, n) ← eng (grpc_engine_wait (600 * 1000));
  if n =? 0 then _ ← snprintf_err MSG_timeout; mret (NGX_ERROR, None) else
  res ← mem (read_array n_res 0);
  if tr_buf res =? NULL then crash AssertFail else
  let type := res_type (tr_buf res) in
  let buf := res_ptr (tr_buf res) in
  _ ← mem (write_array_buf n_res 0 buf);
  out ← (if type =? NGX_GRPC_CLIENT_RES_TYPE_OK then mret (Some (buf, tr_size res))
         else if negb (type =? NGX_GRPC_CLIENT_RES_TYPE_ERR) then crash AssertFail
         else
           s ← mem (load_bytes buf (tr_size res));
           _ ← snprintf_err s;
           _ ← eng (grpc_engine_free buf);
           mret None);
  _ ← eng (grpc_engine_free n_res);
  mret (if type =? NGX_GRPC_CLIENT_RES_TYPE_ERR then NGX_ERROR else NGX_OK, out).

(** [blocking] is [Some sctx] when [blocking_call_output] is not NULL. *)
Definition ngx_grpc_cli_call (r : Z) (is_http : bool) (ctx : Z) (method req : bytes)
    (opt : call_opt) (blocking : option Z) : M world (Z * option (Z * Z)) :=
  match blocking with
  | Some local_sctx => blocking_call ctx local_sctx method req opt
  | None =>
      sctx ← ngx_grpc_cli_new_stream r is_http ctx method req opt
               NGX_GRPC_CLIENT_STREAM_TYPE_UNARY;
      mret (if sctx =? NULL then NGX_ERROR else NGX_OK, None)
  end.

Definition ngx_grpc_cli_close_stream (sctx r : Z) (is_http : bool) : M world unit :=
  gc ← (if negb (r =? NULL)
        then _ ← ngx_grpc_cli_get_req_logger r is_http; mret false
        else mret true);
  _ ← eng (grpc_engine_close_stream sctx);
  if negb gc then mret tt else
  s ← mem (load_sctx sctx);
  let ctx := sc_parent s in
  _ ← queue (ngx_queue_remove sctx);
  _ ← ctx_queue_upd ctx (ngx_queue_insert_head (q_free ctx) sctx);
  _ ← mem (upd_sctx sctx (set_r NULL));
  c ← mem (load_ctx ctx);
  e ← ctx_queue ctx (ngx_queue_empty (q_opening ctx));
  if cx_free_delayed c && e then ngx_grpc_cli_free_conn ctx else mret tt.

Definition ngx_grpc_cli_check_stream_status (sctx r : Z) : M world Z :=
  s ← mem (load_sctx sctx);
  if sc_r s =? NULL then _ ← snprintf_err MSG_closed; mret NGX_ERROR else
  if negb (sc_r s =? r) then _ ← snprintf_err MSG_bad_request; mret NGX_ERROR else
  if negb (sc_wait_co_ctx s =? NULL) then
    _ ← snprintf_err MSG_busy_waiting; mret NGX_ERROR
  else mret NGX_OK.

(** The common shape of the three operations on an open stream. *)
Definition stream_op (r : Z) (is_http : bool) (sctx : Z) (opt : call_opt)
    (engine_op : M (engine * cmem) unit) : M world Z :=
  gccf ← get_conf;
  _ ← ngx_grpc_cli_get_req_logger r is_http;
  rc ← ngx_grpc_cli_check_stream_status sctx r;
  if negb (rc =? NGX_OK) then mret NGX_ERROR else
  rc ← ngx_grpc_cli_kick_off_task r gccf sctx opt;
  if negb (rc =? NGX_OK) then mret NGX_ERROR else
  _ ← eng engine_op;
  mret NGX_OK.

Definition ngx_grpc_cli_stream_recv (r : Z) (is_http : bool) (sctx : Z)
    (opt : call_opt) : M world Z :=
  stream_op r is_http sctx opt (grpc_engine_stream_recv sctx).

Definition ngx_grpc_cli_stream_send (r : Z) (is_http : bool) (sctx : Z)
    (opt : call_opt) (req : bytes) : M world Z :=
  stream_op r is_http sctx opt (grpc_engine_stream_send sctx req).

Definition ngx_grpc_cli_stream_close_send (r : Z) (is_http : bool) (sctx : Z)
    (opt : call_opt) : M world Z :=
  stream_op r is_http sctx opt (grpc_engine_stream_close_send sctx).

Definition ngx_grpc_cli_free_buf (buf : Z) : M world unit := eng (grpc_engine_free buf).
End stream.
