(* ===== verification/Binding.v ===== *)
(** * The Lua library: [lib/resty/grpc.lua]

    What user code calls.  An operation either finishes, or starts a task and
    yields: the rest of it is run with the values the module resumes the coroutine
    with.  lua-protobuf and protoc are parameters.  A table with a mutable [ctx]
    field has an address, since aliases of it see [close]; [nil] is [NULL] there.
    The finalizers [ffi.gc] registers are part of the state, and an operation for the
    collector runs one.  [get_request], [ngx.get_phase] and the subsystem are
    arguments; the check of [ngx_grpc_cli_is_engine_inited] when the library is
    loaded is the hypothesis [engine_ready] of what is proved about it. *)
From Stdlib Require Import QArith_base.
From S2P Require Import Prelude Words Mem Wire Ngx World Tasks Conn Stream.
Open Scope Z_scope.

(** ** Lua values *)

(** A Lua number, and its conversion to a C integer: towards zero. *)
Definition trunc (x : Q) : Z := Z.quot (Qnum x) (Zpos (Qden x)).
Definition positive_num (x : Q) : bool := 0 <? Qnum x.

(** [type] of [pb.option]. *)
Inductive int64_option : Type := int64_as_number | int64_as_string | int64_as_hexstring.

(** A method of a service, and what protoc makes of a file: its package, if it
    declares one, and its services. *)
Record pb_method := PbMethod { m_input_type : bytes; m_output_type : bytes }.
Record proto_file := ProtoFile {
  pf_package : option bytes;
  pf_service : list (bytes * list (bytes * pb_method));
}.

(** lua-protobuf and protoc.  [pb.state] switches the state the other functions work
    on; [pb.state(nil)] switches to a new one.  Loading, encoding and decoding are
    called through [pcall]: an error is its message. *)
Class LuaPb := {
  pb_state : Type;
  pb_value : Type;
  pb_new : pb_state;
  pb_option : int64_option → pb_state → pb_state;
  pb_encode : bytes → pb_value → pb_state → (bytes + bytes) * pb_state;
  pb_decode : bytes → lua_val → pb_state → (bytes + pb_value) * pb_state;
  (** the instance [protoc.new()] *)
  protoc_state : Type;
  protoc_new : protoc_state;
  protoc_reload : pb_state → pb_state;
  protoc_loadfile : bytes → protoc_state → pb_state → (bytes + proto_file) * protoc_state * pb_state;
  protoc_load : bytes → protoc_state → pb_state → (bytes + proto_file) * protoc_state * pb_state;
}.

(** *** What the caller passes *)

Record lua_dial_opt := LuaDialOpt {
  ld_insecure : option bool;
  ld_tls_verify : option bool;
  ld_max_recv_msg_size : option Q;
  ld_client_cert : option bytes;
  ld_client_key : option bytes;
  ld_trusted_ca : option bytes;
}.

(** A Lua number is given by its value, a rational.  NaN and the infinities have none;
    what FFI's conversion of those to an integer gives is undefined. *)
Record lua_call_opt := LuaCallOpt {
  lc_timeout : option Q;
  lc_metadata : option (list (bytes * bytes));
  lc_int64_encoding : option Z;
}.

Definition PROTO_TYPE_FILE : Z := 1.
Definition INT64_AS_NUMBER : Z := 1.
Definition INT64_AS_STRING : Z := 2.

Definition MAX_INIT32 : Z := 2147483647.
Definition LUA_ERR_BUF_SIZE : Z := 512.

(** [opt_ptr], as [connect] fills it in. *)
Definition dial_opt_of (o : lua_dial_opt) : dial_opt := DialOpt
  (match ld_insecure o with Some false => false | _ => true end)
  (match ld_tls_verify o with Some false => false | _ => true end)
  (match ld_max_recv_msg_size o with
   | Some x => if Z.pos (Qden x) * MAX_INIT32 <? Qnum x then MAX_INIT32 else s32 (trunc x)
   | None => 0
   end)
  (default [] (ld_client_cert o)) (default [] (ld_client_key o)) (default [] (ld_trusted_ca o)).

(** [opt_buf], as [call_with_pb_state] and [new_stream] fill it in. *)
Definition call_opt_of (o : lua_call_opt) : call_opt := CallOpt
  (match lc_timeout o with
   | Some x => if positive_num x then u64 (trunc x) else 60 * 1000
   | None => 60 * 1000
   end)
  (default [] (lc_metadata o)).

Definition int64_of (o : lua_call_opt) : int64_option :=
  match lc_int64_encoding o with
  | None => int64_as_number
  | Some e => if e =? INT64_AS_NUMBER then int64_as_number
              else if e =? INT64_AS_STRING then int64_as_string else int64_as_hexstring
  end.

(** ** Messages *)

Definition MSG_not_loaded : bytes := lit "proto files not loaded".
Definition MSG_lua_closed : bytes := lit "closed".
Definition MSG_service (s : bytes) : bytes := lit "service " ++ s ++ lit " not found".
Definition MSG_method (m : bytes) : bytes := lit "method " ++ m ++ lit " not found".
Definition MSG_certs (cert key : bytes) : bytes :=
  lit "client_cert and client_key must both be present or both absent: cert: " ++ cert ++
  lit " key: " ++ key.

(** ** The library's state *)

Section binding.
Context `{Allocator} `{Nginx} `{GrpcEngine} `{Host} `{!LuaPb}.

(** The table [stream]; [opt_buf] is [call_opt_of ls_opt]. *)
Record lua_stream := LuaStream {
  ls_ctx : Z;
  ls_type : Z;
  ls_input_type : bytes;
  ls_output_type : bytes;
  ls_opt : lua_call_opt;
}.
Definition set_ls_ctx x s := LuaStream x (ls_type s) (ls_input_type s) (ls_output_type s) (ls_opt s).

(** [protoc_inst], and its field [index]: the methods of the services loaded. *)
Definition method_index : Type := bytes → option pb_method.
Definition service_index : Type := bytes → option method_index.
Record protoc_inst := ProtocInst { pi_state : protoc_state; pi_index : service_index }.

(** What [ffi.gc] registers for a connection and for a stream; a context has at most
    one. *)
Inductive finalizer : Type := Ctx_gc (ctx : Z) | Stream_gc (ctx : Z).

#[export] Instance finalizer_eq_dec : EqDecision finalizer.
Proof. solve_decision. Defined.

(** The active state of lua-protobuf belongs to whoever runs; [current_pb_state] is
    the library's own, once something was loaded.  [lb_conns] holds the field [ctx]
    of each connection. *)
Record lib := Lib {
  lb_active : pb_state;
  lb_current : option pb_state;
  lb_protoc : option protoc_inst;
  lb_conns : gmap Z Z;
  lb_streams : gmap Z lua_stream;
  lb_gc : list finalizer;
}.

Definition set_lb_pb active current l :=
  Lib active current (lb_protoc l) (lb_conns l) (lb_streams l) (lb_gc l).
Definition set_lb_protoc x l :=
  Lib (lb_active l) (lb_current l) x (lb_conns l) (lb_streams l) (lb_gc l).
Definition set_lb_conns x l :=
  Lib (lb_active l) (lb_current l) (lb_protoc l) x (lb_streams l) (lb_gc l).
Definition set_lb_streams x l :=
  Lib (lb_active l) (lb_current l) (lb_protoc l) (lb_conns l) x (lb_gc l).
Definition set_lb_gc x l :=
  Lib (lb_active l) (lb_current l) (lb_protoc l) (lb_conns l) (lb_streams l) x.

(** ** Lua programs *)

Definition L (A : Type) : Type := M (world * lib) A.
Definition on_world {A} (m : M world A) : L A := zoom fst (λ w s, (w, s.2)) m.
Definition on_lib (f : lib → lib) : L unit := modify (λ s, (s.1, f s.2)).

(** What the library returns: [true], a decoded message, the table of a
    connection or a stream. *)
Inductive lua_ret : Type :=
| R_nothing
| R_true
| R_message (v : pb_value)
| R_conn (t : Z)
| R_stream (t : Z).

(** Return values, [nil] and a message, or a Lua error. *)
Inductive lua_res : Type :=
| Ok (v : lua_ret)
| Fail (err : bytes)
| Raise.

Inductive lua_run : Type :=
| Finished (r : lua_res)
| Yields (resume : list lua_val → L lua_res).

Definition finish (r : lua_res) : L lua_run := mret (Finished r).

(** [pb.state(current_pb_state)], work, [pb.state(old_state)]: the library's state is
    an object the work changes; without one, a new state is used and dropped. *)
Definition worked (l : lib) (st : pb_state) : option pb_state :=
  match lb_current l with Some _ => Some st | None => None end.

(** [load_state] around [pb.encode] or [pb.decode]. *)
Definition load_state {A} (opt : lua_call_opt) (f : pb_state → (bytes + A) * pb_state)
  : L (bytes + A) :=
  s ← get;
  let old := lb_active s.2 in
  let x := f (pb_option (int64_of opt) (default pb_new (lb_current s.2))) in
  _ ← on_lib (λ l, set_lb_pb old (worked l x.2) l);
  mret x.1.

(** [err_len[0] = ERR_BUF_SIZE], before a call of the module. *)
Definition reset_err_len : L unit :=
  on_world (modify (λ w, set_err (w_err_buf w) LUA_ERR_BUF_SIZE w)).

(** [nil, prefix .. ffi.string(err_buf, err_len[0])] *)
Definition module_error (prefix : bytes) : L lua_res :=
  s ← get; mret (Fail (prefix ++ err_string s.1)).

(** The values of [coroutine._yield()]: [ok] decides; [prefix .. err] raises an
    error when [err] is no string. *)
Definition resumed (prefix : bytes) (vs : list lua_val) (k : lua_val → L lua_res) : L lua_res :=
  let err := default L_nil (vs !! 1%nat) in
  match vs with
  | [] | L_nil :: _ | L_bool false :: _ =>
      match err with L_str e => mret (Fail (prefix ++ e)) | _ => mret Raise end
  | _ => k err
  end.

Definition decoded (opt : lua_call_opt) (output_type : bytes) (resp : lua_val) : L lua_res :=
  d ← load_state opt (pb_decode output_type resp);
  match d with
  | inl err => mret (Fail (lit "failed to decode: " ++ err))
  | inr v => mret (Ok (R_message v))
  end.

(** ** Loading definitions *)

Definition methods_of (ms : list (bytes * pb_method)) : method_index := λ name,
  foldl (λ found m, if bool_decide (m.1 = name) then Some m.2 else found) None ms.

(** [index[package .. '.' .. s.name] = method_index], service after service. *)
Definition add_services (package : bytes) (ss : list (bytes * list (bytes * pb_method)))
    (index : service_index) : service_index :=
  foldl (λ idx s name, if bool_decide (name = package ++ lit "." ++ s.1)
                       then Some (methods_of s.2) else idx name) index ss.

(** [_M.load].  A file without a package has [nil] there: joining it to the name of
    a service raises an error, with the library's state still active (it is then
    one object with the active one). *)
Definition load (def : bytes) (proto_type : option Z) : L lua_res :=
  s ← get;
  let l := s.2 in
  let old := lb_active l in
  let '(inst, st) := match lb_protoc l with
                     | None => (ProtocInst protoc_new (λ _, None), protoc_reload pb_new)
                     | Some inst => (inst, default pb_new (lb_current l))
                     end in
  let kept st' := match lb_protoc l with None => lb_current l | Some _ => worked l st' end in
  let run := if default PROTO_TYPE_FILE proto_type =? PROTO_TYPE_FILE
             then protoc_loadfile else protoc_load in
  let '(r, ps, st') := run def (pi_state inst) st in
  match r with
  | inl err =>
      _ ← on_lib (set_lb_protoc (Some (ProtocInst ps (pi_index inst))));
      _ ← on_lib (set_lb_pb old (kept st'));
      mret (Fail (lit "failed to load protobuf: " ++ err))
  | inr file =>
      match pf_package file, pf_service file with
      | None, _ :: _ =>
          _ ← on_lib (set_lb_protoc (Some (ProtocInst ps (pi_index inst))));
          _ ← on_lib (set_lb_pb st' (kept st'));
          mret Raise
      | _, _ =>
          let index := add_services (default [] (pf_package file)) (pf_service file)
                         (pi_index inst) in
          _ ← on_lib (set_lb_protoc (Some (ProtocInst ps index)));
          _ ← on_lib (set_lb_pb old (Some st'));
          mret (Ok R_true)
      end
  end.

(** ** Finalizers *)

(** [is_http]. *)
Context (is_http : bool).

Definition ctx_gc_handler (ctx : Z) : L unit := on_world (ngx_grpc_cli_close ctx NULL is_http).
Definition stream_gc_handler (ctx : Z) : L unit :=
  on_world (ngx_grpc_cli_close_stream ctx NULL is_http).

(** A new table with its context, for which [ffi.gc] registers a finalizer. *)
Definition with_conn (ctx : Z) (l : lib) : lib :=
  set_lb_gc (Ctx_gc ctx :: lb_gc l)
    (set_lb_conns (<[Z.of_nat (size (lb_conns l)) := ctx]> (lb_conns l)) l).
Definition with_stream (st : lua_stream) (l : lib) : lib :=
  set_lb_gc (Stream_gc (ls_ctx st) :: lb_gc l)
    (set_lb_streams (<[Z.of_nat (size (lb_streams l)) := st]> (lb_streams l)) l).

(** [self.ctx = nil]. *)
Definition without_conn (self : Z) (l : lib) : lib :=
  set_lb_conns (<[self := NULL]> (lb_conns l)) l.
Definition without_stream (self : Z) (l : lib) : lib :=
  set_lb_streams (alter (set_ls_ctx NULL) self (lb_streams l)) l.

(** The collector finds a context no one can reach, and runs its finalizer; a table
    that holds the context cannot be reached either. *)
Definition unreached (f : finalizer) (l : lib) : lib :=
  let l := set_lb_gc (filter (λ g, g ≠ f) (lb_gc l)) l in
  match f with
  | Ctx_gc ctx => set_lb_conns ((λ c, if c =? ctx then NULL else c) <$> lb_conns l) l
  | Stream_gc ctx =>
      set_lb_streams ((λ st, if ls_ctx st =? ctx then set_ls_ctx NULL st else st) <$> lb_streams l) l
  end.

Definition collect (f : finalizer) : L lua_res :=
  s ← get;
  if bool_decide (f ∈ lb_gc s.2) then
    _ ← on_lib (unreached f);
    _ ← match f with Ctx_gc ctx => ctx_gc_handler ctx | Stream_gc ctx => stream_gc_handler ctx end;
    mret (Ok R_nothing)
  else mret (Ok R_nothing).

(** ** Connections *)

Definition conn_ctx (self : Z) : L Z := gets (λ s, default NULL (lb_conns s.2 !! self)).
Definition stream_tbl (self : Z) : L (option lua_stream) := gets (λ s, lb_streams s.2 !! self).

(** [r] is the request [get_request()] returns. *)
Definition connect (r : Z) (target : bytes) (opt : lua_dial_opt) : L lua_res :=
  if negb (Bool.eqb (bool_decide (ld_client_cert opt = None)) (bool_decide (ld_client_key opt = None)))
  then mret (Fail (MSG_certs (default [] (ld_client_cert opt)) (default [] (ld_client_key opt))))
  else
  _ ← reset_err_len;
  ctx ← on_world (ngx_grpc_cli_connect r is_http target (dial_opt_of opt));
  if ctx =? NULL then module_error [] else
  s ← get;
  _ ← on_lib (with_conn ctx);
  mret (Ok (R_conn (Z.of_nat (size (lb_conns s.2))))).

Definition Conn_close (self r : Z) : L lua_res :=
  ctx ← conn_ctx self;
  if ctx =? NULL then mret (Ok R_nothing) else
  _ ← on_lib (without_conn self);
  _ ← on_world (ngx_grpc_cli_close ctx r is_http);
  mret (Ok R_nothing).

(** The checks that [Conn:call] and [new_stream] begin with: the connection's
    [ctx] and the method. *)
Definition find_method (self : Z) (service method : bytes) : L (bytes + Z * pb_method) :=
  s ← get;
  match lb_protoc s.2 with
  | None => mret (inl MSG_not_loaded)
  | Some inst =>
      ctx ← conn_ctx self;
      if ctx =? NULL then mret (inl MSG_lua_closed) else
      match pi_index inst service with
      | None => mret (inl (MSG_service service))
      | Some serv =>
          match serv method with
          | None => mret (inl (MSG_method method))
          | Some m => mret (inr (ctx, m))
          end
      end
  end.

Definition path_of (service method : bytes) : bytes := lit "/" ++ service ++ lit "/" ++ method.

(** [blocking] is where the module's local variable is, in the [init_worker]
    phase. *)
Definition call_with_pb_state (r ctx : Z) (m : pb_method) (path : bytes) (req : pb_value)
    (opt : lua_call_opt) (blocking : option Z) : L lua_run :=
  encoded ← load_state opt (pb_encode (m_input_type m) req);
  match encoded with
  | inl err => finish (Fail (lit "failed to encode: " ++ err))
  | inr data =>
      _ ← reset_err_len;
      '(rc, out) ← on_world (ngx_grpc_cli_call r is_http ctx path data (call_opt_of opt) blocking);
      if negb (rc =? NGX_OK) then
        e ← module_error (lit "failed to call: "); finish e
      else
      match blocking with
      | Some _ =>
          let '(p, len) := default (NULL, 0) out in
          resp ← on_world (mem (load_bytes p len));
          _ ← on_world (ngx_grpc_cli_free_buf p);
          res ← decoded opt (m_output_type m) (L_str resp);
          finish res
      | None =>
          mret (Yields (λ vs, resumed (lit "failed to call: ") vs
                                (decoded opt (m_output_type m))))
      end
  end.

Definition Conn_call (self r : Z) (service method : bytes) (req : pb_value)
    (opt : lua_call_opt) (blocking : option Z) : L lua_run :=
  x ← find_method self service method;
  match x with
  | inl err => finish (Fail err)
  | inr (ctx, m) =>
      call_with_pb_state r ctx m (path_of service method) req opt blocking
  end.

(** ** Streams *)

Definition new_stream (self r : Z) (service method : bytes) (req : pb_value)
    (opt : lua_call_opt) (stream_type : Z) : L lua_run :=
  x ← find_method self service method;
  match x with
  | inl err => finish (Fail err)
  | inr (ctx, m) =>
      encoded ← load_state opt (pb_encode (m_input_type m) req);
      match encoded with
      | inl err => finish (Fail (lit "failed to encode: " ++ err))
      | inr data =>
          _ ← reset_err_len;
          sctx ← on_world (ngx_grpc_cli_new_stream r is_http ctx (path_of service method) data
                             (call_opt_of opt) stream_type);
          if sctx =? NULL then
            e ← module_error (lit "failed to new stream: "); finish e
          else
          mret (Yields (λ vs, resumed (lit "failed to new stream: ") vs (λ _,
            s ← get;
            _ ← on_lib (with_stream (LuaStream sctx stream_type
                          (m_input_type m) (m_output_type m) opt));
            mret (Ok (R_stream (Z.of_nat (size (lb_streams s.2))))))))
      end
  end.

Definition Conn_new_client_stream self r service method req opt : L lua_run :=
  new_stream self r service method req opt NGX_GRPC_CLIENT_STREAM_TYPE_CLIENT_STREAM.
Definition Conn_new_server_stream self r service method req opt : L lua_run :=
  new_stream self r service method req opt NGX_GRPC_CLIENT_STREAM_TYPE_SERVER_STREAM.
Definition Conn_new_bidirectional_stream self r service method req opt : L lua_run :=
  new_stream self r service method req opt NGX_GRPC_CLIENT_STREAM_TYPE_BIDIRECTIONAL_STREAM.

Definition stream_close (self r : Z) : L lua_res :=
  t ← stream_tbl self;
  match t with
  | None => mret Raise
  | Some st =>
      if ls_ctx st =? NULL then mret (Ok R_nothing) else
      _ ← on_lib (without_stream self);
      _ ← on_world (ngx_grpc_cli_close_stream (ls_ctx st) r is_http);
      mret (Ok R_nothing)
  end.

(** The body shared by [stream_recv], [stream_send] and [stream_close_send] once
    the request is encoded: the module's operation, then [k] on what the coroutine
    is resumed with. *)
Definition stream_operation (prefix : bytes) (op : M world Z) (k : lua_val → L lua_res)
  : L lua_run :=
  _ ← reset_err_len;
  rc ← on_world op;
  if negb (rc =? NGX_OK) then e ← module_error prefix; finish e
  else mret (Yields (λ vs, resumed prefix vs k)).

Definition stream_recv (self r : Z) : L lua_run :=
  t ← stream_tbl self;
  match t with
  | None => finish Raise
  | Some st =>
      if ls_ctx st =? NULL then finish (Fail MSG_lua_closed) else
      stream_operation (lit "failed to recv: ")
        (ngx_grpc_cli_stream_recv r is_http (ls_ctx st) (call_opt_of (ls_opt st)))
        (decoded (ls_opt st) (ls_output_type st))
  end.

Definition stream_send (self r : Z) (req : pb_value) : L lua_run :=
  t ← stream_tbl self;
  match t with
  | None => finish Raise
  | Some st =>
      if ls_ctx st =? NULL then finish (Fail MSG_lua_closed) else
      encoded ← load_state (ls_opt st) (pb_encode (ls_input_type st) req);
      match encoded with
      | inl err => finish (Fail (lit "failed to encode: " ++ err))
      | inr data =>
          stream_operation (lit "failed to send: ")
            (ngx_grpc_cli_stream_send r is_http (ls_ctx st) (call_opt_of (ls_opt st)) data)
            (λ _, mret (Ok R_true))
      end
  end.

Definition stream_close_send (self r : Z) : L lua_run :=
  t ← stream_tbl self;
  match t with
  | None => finish Raise
  | Some st =>
      if ls_ctx st =? NULL then finish (Fail MSG_lua_closed) else
      stream_operation (lit "failed to close send: ")
        (ngx_grpc_cli_stream_close_send r is_http (ls_ctx st) (call_opt_of (ls_opt st)))
        (λ _, mret (Ok R_true))
  end.

(** [local res, err = stream_recv(self); if not res then return nil, err end;
    stream_close(self); return res], where the yield is inside [stream_recv]. *)
Definition close_after (self r : Z) (res : lua_res) : L lua_res :=
  match res with
  | Ok v => c ← stream_close self r; match c with Raise => mret Raise | _ => mret (Ok v) end
  | _ => mret res
  end.

Definition stream_recv_close (self r : Z) : L lua_run :=
  x ← stream_recv self r;
  match x with
  | Finished res => y ← close_after self r res; finish y
  | Yields k => mret (Yields (λ vs, res ← k vs; close_after self r res))
  end.

(** ** The operations, by name *)

Inductive lua_op : Type :=
| O_load (def : bytes) (proto_type : option Z)
| O_connect (target : bytes) (opt : lua_dial_opt)
| O_close (self : Z)
| O_call (self : Z) (service method : bytes) (req : pb_value) (opt : lua_call_opt)
    (blocking : option Z)
| O_new_stream (self : Z) (service method : bytes) (req : pb_value) (opt : lua_call_opt)
    (stream_type : Z)
| O_stream_close (self : Z)
| O_recv (self : Z)
| O_send (self : Z) (req : pb_value)
| O_close_send (self : Z)
| O_recv_close (self : Z)
| O_collect (f : finalizer).

Definition run_op (r : Z) (op : lua_op) : L lua_run :=
  match op with
  | O_load def proto_type => x ← load def proto_type; finish x
  | O_connect target opt => x ← connect r target opt; finish x
  | O_close self => x ← Conn_close self r; finish x
  | O_call self service method req opt blocking =>
      Conn_call self r service method req opt blocking
  | O_new_stream self service method req opt stream_type =>
      new_stream self r service method req opt stream_type
  | O_stream_close self => x ← stream_close self r; finish x
  | O_recv self => stream_recv self r
  | O_send self req => stream_send self r req
  | O_close_send self => stream_close_send self r
  | O_recv_close self => stream_recv_close self r
  | O_collect f => x ← collect f; finish x
  end.
End binding.
