(* ===== verification/BindingState.v ===== *)
(** * The state of the Lua library

    What [lib/resty/grpc.lua] keeps for itself: a closed object refuses every
    operation; a relation on its state that the elementary changes respect
    ([LibRel]) is respected by every operation, before it yields and after.  Two of
    them: the active state of lua-protobuf, and the finalizers of open objects. *)
From Stdlib Require Import QArith_base.
From S2P Require Import Prelude Words Mem Wire Ngx World Tasks Conn Stream Binding.
Open Scope Z_scope.

Section binding_state.
Context `{Allocator} `{Nginx} `{GrpcEngine} `{Host} `{!LuaPb}.
Implicit Types (w : world) (l : lib) (R : relation lib).

Context (h : bool).

(** ** Closed objects *)

(** The connection, or the stream, an operation is a method of. *)
Definition op_conn (op : lua_op) : option Z :=
  match op with
  | O_close self | O_call self _ _ _ _ _ | O_new_stream self _ _ _ _ _ => Some self
  | _ => None
  end.
Definition op_stream (op : lua_op) : option Z :=
  match op with
  | O_stream_close self | O_recv self | O_send self _ | O_close_send self | O_recv_close self =>
      Some self
  | _ => None
  end.

(** The answer of a closed object. *)
Definition refusal l (op : lua_op) : lua_res :=
  match op with
  | O_close _ | O_stream_close _ => Ok R_nothing
  | O_call _ _ _ _ _ _ | O_new_stream _ _ _ _ _ _ =>
      Fail (match lb_protoc l with Some _ => MSG_lua_closed | None => MSG_not_loaded end)
  | _ => Fail MSG_lua_closed
  end.

Lemma closed_conn_refuses r op self (s : world * lib) :
  op_conn op = Some self → default NULL (lb_conns s.2 !! self) = NULL →
  run_op h r op s = Done (Finished (refusal s.2 op)) s.
Proof.
  intros Hop Hc. destruct s as [w l]. cbn [snd] in *.
  assert (∀ service method, find_method self service method (w, l) =
    Done (inl (match lb_protoc l with Some _ => MSG_lua_closed | None => MSG_not_loaded end)) (w,
      l))
    as Hfind.
  { intros service method. unfold find_method, conn_ctx, mbind, M_bind, get, gets. cbn [snd].
    destruct (lb_protoc l); [|done]. cbn [snd]. by rewrite Hc. }
  destruct op; try done; injection Hop as ->; cbn [run_op refusal].
  - unfold Conn_close, conn_ctx, mbind, M_bind, gets. cbn [snd]. by rewrite Hc.
  - unfold Conn_call. by rewrite (bind_done _ _ _ _ _ (Hfind _ _)).
  - unfold new_stream. by rewrite (bind_done _ _ _ _ _ (Hfind _ _)).
Qed.

Lemma closed_stream_refuses r op self st (s : world * lib) :
  op_stream op = Some self → lb_streams s.2 !! self = Some st → ls_ctx st = NULL →
  run_op h r op s = Done (Finished (refusal s.2 op)) s.
Proof.
  intros Hop Hs Hc. destruct s as [w l]. cbn [snd] in *.
  assert (∀ A (k : option lua_stream → L A), (stream_tbl self ≫= k) (w, l) =
    k (Some st) (w, l)) as Htbl.
  { intros A k. unfold stream_tbl, mbind, M_bind, gets. cbn [snd]. by rewrite Hs. }
  destruct op; try done; injection Hop as ->; cbn [run_op refusal];
    unfold stream_close, stream_send, stream_close_send, stream_recv_close, stream_recv.
  - unfold mbind at 1, M_bind at 1. rewrite Htbl. by rewrite Hc.
  - rewrite Htbl. by rewrite Hc.
  - rewrite Htbl. by rewrite Hc.
  - rewrite Htbl. by rewrite Hc.
  - unfold mbind at 1, M_bind at 1. rewrite Htbl. by rewrite Hc.
Qed.

Lemma Conn_close_closes self r :
  gives (λ _ s, default NULL (lb_conns s.2 !! self) = NULL) (Conn_close h self r).
Proof.
  intros [w l] x s'. unfold Conn_close, conn_ctx, on_lib, on_world, zoom, mbind, M_bind, gets,
    modify.
  cbn [fst snd]. case_match eqn:E; [intros [= _ <-]; by apply Z.eqb_eq|]. cbn [fst snd].
  destruct (ngx_grpc_cli_close _ _ _ _) as [[] w'|]; [|done]. intros [= _ <-]. simpl.
  by rewrite lookup_insert_eq.
Qed.

Lemma stream_close_closes self r :
  gives (λ x s, x = Raise ∨ ∃ st, lb_streams s.2 !! self = Some st ∧ ls_ctx st = NULL)
    (stream_close h self r).
Proof.
  intros [w l] x s'.
  unfold stream_close, stream_tbl, on_lib, on_world, zoom, mbind, M_bind, gets, modify.
  cbn [fst snd].
  destruct (lb_streams l !! self) as [st|] eqn:Est; [|intros [= <- _]; by left].
  case_match eqn:E; [intros [= _ <-]; right; exists st; split; [done|by apply Z.eqb_eq]|].
  cbn [fst snd]. destruct (ngx_grpc_cli_close_stream _ _ _ _) as [[] w'|]; [|done].
  intros [= _ <-]. simpl.
  right. eexists. rewrite lookup_alter_eq, Est. by split.
Qed.

(** ** Relations that every operation respects *)

(** The changes an operation other than [load] makes to the library's state. *)
Class LibRel R : Prop := {
  #[global] rel_preorder :: PreOrder R;
  rel_pb : ∀ l current, R l (set_lb_pb (lb_active l) current l);
  rel_with_conn : ∀ l ctx, R l (with_conn ctx l);
  rel_with_stream : ∀ l st, R l (with_stream st l);
  rel_without_conn : ∀ l self, R l (without_conn self l);
  rel_without_stream : ∀ l self, R l (without_stream self l);
  rel_unreached : ∀ l f, R l (unreached f l);
}.

Definition on_snd R : relation (world * lib) := λ s s', R s.2 s'.2.

Section rel.
Context R `{!LibRel R}.

#[local] Instance on_snd_preorder : PreOrder (on_snd R).
Proof.
  split; [intros s; unfold on_snd; reflexivity|].
  intros s1 s2 s3 E1 E2. unfold on_snd in *. by etrans.
Qed.

Lemma rel_on_world {A} (m : M world A) : leads (on_snd R) (on_world m).
Proof. apply leads_zoom. intros w s. unfold on_snd. reflexivity. Qed.
Lemma rel_on_lib f : (∀ l, R l (f l)) → leads (on_snd R) (on_lib f).
Proof. intros Hf. apply leads_modify. intros s. apply Hf. Qed.
Lemma rel_load_state {A} opt (f : pb_state → (bytes + A) * pb_state) :
  leads (on_snd R) (load_state opt f).
Proof. intros [w l] x s' [= _ <-]. apply rel_pb. Qed.
#[local] Hint Resolve rel_on_world rel_load_state : grpc.
#[local] Hint Extern 1 (leads (on_snd R) (on_lib _)) =>
  apply rel_on_lib; intros; apply rel_with_conn : grpc.
#[local] Hint Extern 1 (leads (on_snd R) (on_lib _)) =>
  apply rel_on_lib; intros; apply rel_with_stream : grpc.
#[local] Hint Extern 1 (leads (on_snd R) (on_lib _)) =>
  apply rel_on_lib; intros; apply rel_without_conn : grpc.
#[local] Hint Extern 1 (leads (on_snd R) (on_lib _)) =>
  apply rel_on_lib; intros; apply rel_without_stream : grpc.
#[local] Hint Extern 1 (leads (on_snd R) (on_lib _)) =>
  apply rel_on_lib; intros; apply rel_unreached : grpc.

(** An operation that yields leaves a rest that respects the relation too. *)
Definition rest_respects (r : lua_run) : Prop :=
  match r with Finished _ => True | Yields k => ∀ vs, leads (on_snd R) (k vs) end.

Lemma rel_decoded opt ty v : leads (on_snd R) (decoded opt ty v).
Proof. unfold decoded. solve_leads. Qed.
Lemma rel_resumed prefix vs k :
  (∀ v, leads (on_snd R) (k v)) → leads (on_snd R) (resumed prefix vs k).
Proof. intros Hk. unfold resumed. solve_leads. Qed.
#[local] Hint Resolve rel_decoded rel_resumed : grpc.

Lemma rel_module_error prefix : leads (on_snd R) (module_error prefix).
Proof. unfold module_error. solve_leads. Qed.
Lemma rel_find_method self service method : leads (on_snd R) (find_method self service method).
Proof. unfold find_method, conn_ctx. solve_leads. Qed.
#[local] Hint Resolve rel_module_error rel_find_method : grpc.

Lemma rel_stream_close self r : leads (on_snd R) (stream_close h self r).
Proof. unfold stream_close, stream_tbl. solve_leads. Qed.
#[local] Hint Resolve rel_stream_close : grpc.
Lemma rel_stream_recv self r : leads (on_snd R) (stream_recv h self r).
Proof. unfold stream_recv, stream_tbl, stream_operation, reset_err_len, finish. solve_leads. Qed.
Lemma rel_close_after self r res : leads (on_snd R) (close_after h self r res).
Proof. unfold close_after. solve_leads. Qed.
#[local] Hint Resolve rel_stream_recv rel_close_after : grpc.

(** Every operation but [load] leads to a related state. *)
Lemma rel_run_op r op :
  (∀ def ty, op ≠ O_load def ty) → leads (on_snd R) (run_op h r op).
Proof.
  intros Hop. destruct op; try by destruct (Hop def proto_type).
  all: cbn [run_op]; unfold connect, Conn_close, Conn_call, call_with_pb_state, new_stream,
    stream_send, stream_close_send, stream_recv_close, stream_operation, reset_err_len, conn_ctx,
    collect, ctx_gc_handler, stream_gc_handler, stream_tbl, finish; solve_leads.
Qed.

(** What every path of a program yields. *)
Lemma rest_finish r : gives (λ x _, rest_respects x) (finish r).
Proof. by apply gives_ret. Qed.
Lemma rest_operation prefix op k :
  (∀ v, leads (on_snd R) (k v)) →
  gives (λ x _, rest_respects x) (stream_operation prefix op k).
Proof.
  intros Hk. unfold stream_operation. do 2 (apply gives_bind; intros ?). case_match.
  - apply gives_bind. intros. apply rest_finish.
  - apply gives_ret. intros _ vs. by apply rel_resumed.
Qed.

Ltac solve_rest :=
  repeat first
    [ progress intros | apply rest_finish | apply rest_operation; solve_leads
    | apply gives_ret; intros ? ?; cbn beta; apply rel_resumed; intros; solve_leads
    | apply gives_bind | case_match ].

Lemma rest_stream_recv self r : gives (λ x _, rest_respects x) (stream_recv h self r).
Proof. unfold stream_recv. solve_rest. Qed.

Lemma rest_run_op r op : gives (λ x _, rest_respects x) (run_op h r op).
Proof.
  destruct op; cbn [run_op];
    unfold Conn_call, call_with_pb_state, new_stream, stream_send, stream_close_send;
    try solve [solve_rest | apply rest_stream_recv].
  apply (gives_after _ (λ x _, rest_respects x)); [apply rest_stream_recv|].
  intros [res|k] s x s' Hk Hx.
  - eapply (gives_bind _ _ _ (λ res, rest_finish res)), Hx.
  - injection Hx as <- _. intros vs. apply leads_bind; [apply _|apply Hk|]. solve_leads.
Qed.
End rel.

(** ** Loading *)

(** Loading leaves the tables and the finalizers alone, and lua-protobuf's active
    state too unless it raises an error. *)
Lemma load_frame def ty s x s' :
  load def ty s = Done x s' →
  lb_conns s'.2 = lb_conns s.2 ∧ lb_streams s'.2 = lb_streams s.2 ∧ lb_gc s'.2 = lb_gc s.2 ∧
  (x = Raise ∨ lb_active s'.2 = lb_active s.2).
Proof.
  unfold load, mbind, M_bind, get, on_lib, modify, mret, M_ret. destruct s as [w l]. cbn [fst snd].
  destruct (lb_protoc l) as [inst|]; cbn;
  match goal with |- context [match ?run with _ => _ end] =>
    match type of run with (_ * _ * _)%type => destruct run as [[[e|f] ps] st'] end end;
  try (intros E; injection E as <- <-; cbn; by auto);
  destruct (pf_package f), (pf_service f); intros E; injection E as <- <-; cbn; by auto.
Qed.

Lemma run_load def ty r s res s' :
  run_op h r (O_load def ty) s = Done res s' →
  ∃ x, res = Finished x ∧ load def ty s = Done x s'.
Proof.
  cbn [run_op]. unfold mbind, M_bind. destruct (load def ty s) as [x s1|]; [|done].
  intros [= <- <-]. by eexists.
Qed.

Definition loads (op : lua_op) : option (bytes * option Z) :=
  match op with O_load def ty => Some (def, ty) | _ => None end.

(** ** The active state of lua-protobuf *)

Definition same_active : relation lib := λ l l', lb_active l' = lb_active l.

#[global] Instance same_active_rel : LibRel same_active.
Proof.
  split; try by intros; try match goal with f : finalizer |- _ => destruct f end.
  split; [done|]. intros l1 l2 l3 E1 E2. unfold same_active in *. congruence.
Qed.

(** ** Finalizers *)

(** What a table holds is released once the table cannot be reached. *)
Definition finalized l : Prop :=
  (∀ t ctx, lb_conns l !! t = Some ctx → ctx ≠ NULL → Ctx_gc ctx ∈ lb_gc l) ∧
  (∀ t st, lb_streams l !! t = Some st → ls_ctx st ≠ NULL → Stream_gc (ls_ctx st) ∈ lb_gc l).

Definition keeps_finalized : relation lib := λ l l', finalized l → finalized l'.

Lemma finalized_tables l l' :
  lb_conns l' = lb_conns l → lb_streams l' = lb_streams l → lb_gc l' = lb_gc l →
  finalized l → finalized l'.
Proof. unfold finalized. by intros -> -> ->. Qed.

Lemma finalized_unreached l f : finalized l → finalized (unreached f l).
Proof.
  intros [Hc Hs]. destruct f as [c|k]; split; intros t x; cbn; rewrite list_elem_of_filter;
    try (rewrite lookup_fmap; intros (y & Hy & ->)%fmap_Some).
  - destruct (Z.eqb_spec y c); [done|]. intros Hn. split; [congruence|by eapply Hc].
  - intros Hx Hn. split; [done|by eapply Hs].
  - intros Hx Hn. split; [done|by eapply Hc].
  - destruct (Z.eqb_spec (ls_ctx y) k); [done|]. intros Hn. split; [congruence|by eapply Hs].
Qed.

#[global] Instance keeps_finalized_rel : LibRel keeps_finalized.
Proof.
  split.
  - split; [by intros l Hl|]. intros l1 l2 l3 E1 E2 Hl. by apply E2, E1.
  - by intros l x Hl.
  - intros l ctx [Hc Hs]. split; intros t x; cbn.
    + rewrite lookup_insert_Some. intros [[_ ->]|[_ Hx]] Hn; [left|right; by eapply Hc].
    + intros Hx Hn. right. by eapply Hs.
  - intros l st [Hc Hs]. split; intros t x; cbn.
    + intros Hx Hn. right. by eapply Hc.
    + rewrite lookup_insert_Some. intros [[_ ->]|[_ Hx]] Hn; [left|right; by eapply Hs].
  - intros l self [Hc Hs]. split; intros t x; cbn; [|by apply Hs].
    rewrite lookup_insert_Some. intros [[_ <-]|[_ Hx]]; [done|by eapply Hc].
  - intros l self [Hc Hs]. split; intros t x; cbn; [by apply Hc|].
    rewrite lookup_alter_Some. intros [(_ & y & _ & ->)|[_ Hx]]; [done|by eapply Hs].
  - intros l f Hl. by apply finalized_unreached.
Qed.
End binding_state.
