(* ===== verification/Handlers.v ===== *)
(** * Results: the background thread, the posted event, resumption, timeouts *)
From S2P Require Import Prelude Words Mem Wire Ngx World Tasks Conn Stream.

(** Running Lua code, and nginx's phase engine, may call back into the module;
    [ngx_core_run_phases] is given the resume handler it reaches through
    [lctx->resume_handler]. *)
Class LuaRuntime `{Nginx} `{GrpcEngine} := {
  lua_run_thread : bool → Z → Z → list lua_val → M world Z;
  lua_run_posted_threads : bool → Z → Z → M world Z;
  lua_finalize_request : bool → Z → Z → M world unit;
  ngx_core_run_phases : bool → Z → M world Z → M world unit;
  ngx_http_run_posted_requests : Z → M world unit;
}.

Section handlers.
Context `{Allocator} `{Nginx} `{GrpcEngine} `{Host} `{!LuaRuntime}.

(** ** The background thread *)

Definition ngx_grpc_cli_thread_handler : M world unit :=
  '(tasks, num) ← eng (grpc_engine_wait 100);
  _ ← modify (λ w, set_th (set_finished tasks num (w_th w)) w);
  w ← get;
  if w_exiting w || w_terminate w then
    _ ← for_upto (Z.to_nat num) (λ i,
      res ← mem (read_array tasks i);
      if tr_buf res =? NULL then crash AssertFail else
      _ ← mem (write_array_buf tasks i (res_ptr (tr_buf res)));
      eng (grpc_engine_free (res_ptr (tr_buf res))));
    when (negb (tasks =? NULL)) (eng (grpc_engine_free tasks))
  else mret tt.

Definition ngx_grpc_cli_insert_posted_event_ctx (res : task_res) : M world unit :=
  w ← get;
  ctx ← (if negb (ngx_queue_empty q_th_free (w_qs w)) then
           let q := ngx_queue_head q_th_free (w_qs w) in
           _ ← queue (ngx_queue_remove q);
           mret q
         else mem (alloc (OPev zero_task_res)));
  if ctx =? NULL then mret tt else
  _ ← mem (upd_pev ctx (λ _, res));
  queue (ngx_queue_insert_tail q_occupied ctx).

(** Run in the main thread when the task of the thread pool is over. *)
Definition ngx_grpc_cli_thread_event_handler : M world unit :=
  w ← get;
  let tasks := th_finished_tasks (w_th w) in
  let num := th_finished_task_num (w_th w) in
  _ ← for_upto (Z.to_nat num) (λ i,
    res ← mem (read_array tasks i);
    ngx_grpc_cli_insert_posted_event_ctx res);
  _ ← when (num >? 0)
    (_ ← eng (grpc_engine_free tasks);
     modify (λ w, set_th (set_posted_ev (ngx_post_event (th_posted_ev (w_th w)))
                           (set_finished NULL num (w_th w))) w));
  w ← get;
  if w_quit w || w_exiting w then mret tt else
  n ← ngx_grpc_cli_task_num;
  if n <=? num then mret tt else
  task_post ≫= λ _, mret tt.

(** ** Resuming a coroutine *)

Definition lua_push (is_http : bool) (co : Z) (v : lua_val) : M world unit :=
  upd_co is_http co (λ c, set_co_pushed (co_pushed c ++ [v]) c).

(** [co] is the coroutine of the context [co]. *)
Definition ngx_grpc_cli_put_res (sctx : Z) (is_http : bool) (co : Z) : M world unit :=
  s ← mem (load_sctx sctx);
  _ ← (if sc_state s =? NGX_GRPC_CLIENT_STATE_TIMEOUT then
         _ ← lua_push is_http co (L_bool false);
         lua_push is_http co (L_str MSG_timeout)
       else
         let buf := tr_buf (sc_res s) in
         let size := tr_size (sc_res s) in
         if buf =? NULL then crash AssertFail else
         let type := res_type buf in
         _ ← mem (upd_sctx sctx (λ s, set_res (set_tr_buf (res_ptr buf) (sc_res s)) s));
         _ ← (if type =? NGX_GRPC_CLIENT_RES_TYPE_OK then
                _ ← lua_push is_http co (L_bool true);
                b ← mem (load_bytes (res_ptr buf) size);
                lua_push is_http co (L_str b)
              else if type =? NGX_GRPC_CLIENT_RES_TYPE_OK_NOT_RES then
                _ ← lua_push is_http co (L_bool true);
                lua_push is_http co L_nil
              else
                _ ← lua_push is_http co (L_bool false);
                b ← mem (load_bytes (res_ptr buf) size);
                lua_push is_http co (L_str b));
         eng (grpc_engine_free (res_ptr buf)));
  s ← mem (load_sctx sctx);
  when (sc_type s =? NGX_GRPC_CLIENT_STREAM_TYPE_UNARY)
    (ctx_queue_upd (sc_parent s) (ngx_queue_insert_head (q_free (sc_parent s)) sctx)).

(** Running the coroutine of the context [co] with what was pushed on it. *)
Definition run_thread (is_http : bool) (r co : Z) : M world Z :=
  c ← get_co is_http co;
  _ ← upd_co is_http co (set_co_pushed []);
  _ ← emit (X_run_thread is_http r co (co_pushed c));
  lua_run_thread is_http r co (co_pushed c).

Definition run_posted_threads (is_http : bool) (r nreqs : Z) : M world Z :=
  _ ← emit (X_run_posted_threads is_http r nreqs);
  lua_run_posted_threads is_http r nreqs.

Definition finalize_request (is_http : bool) (r rc : Z) : M world unit :=
  _ ← emit (X_finalize_request is_http r rc);
  lua_finalize_request is_http r rc.

(** [ngx_http_grpc_cli_resume] and [ngx_stream_grpc_cli_resume]. *)
Definition grpc_cli_resume (is_http : bool) (r : Z) : M world Z :=
  lctx ← get_lctx is_http r;
  match lctx with
  | None => mret NGX_ERROR
  | Some x =>
      let co := lx_cur_co_ctx x in
      c ← get_co is_http co;
      let sctx := co_data c in
      s ← mem (load_sctx sctx);
      _ ← upd_co is_http co (set_co_data (sc_prev_data s));
      _ ← upd_lctx is_http r (λ x, LuaCtx (lx_context x) (lx_cur_co_ctx x)
                                  (lx_entered_content_phase x) H_wev_handler);
      q ← get_req is_http r;
      let nreqs := rq_conn_requests q in
      _ ← ngx_grpc_cli_put_res sctx is_http co;
      rc ← run_thread is_http r co;
      if rc =? NGX_AGAIN then run_posted_threads is_http r nreqs else
      if rc =? NGX_DONE then
        _ ← finalize_request is_http r NGX_DONE;
        run_posted_threads is_http r nreqs
      else
      lctx ← get_lctx is_http r;
      match lctx with
      | None => crash NullDeref
      | Some x =>
          if lx_entered_content_phase x then
            _ ← finalize_request is_http r rc; mret NGX_DONE
          else mret rc
      end
  end.

Definition ngx_http_grpc_cli_resume (r : Z) : M world Z := grpc_cli_resume true r.
Definition ngx_stream_grpc_cli_resume (r : Z) : M world Z := grpc_cli_resume false r.

(** One of the two symmetric branches of [ngx_grpc_cli_to_resume]. *)
Definition to_resume_in (is_http : bool) (ctx r : Z) (resume : Z → M world Z)
  : M world unit :=
  lctx ← get_lctx is_http r;
  match lctx with
  | None => crash NullDeref
  | Some x =>
      s ← mem (load_sctx ctx);
      let co := sc_wait_co_ctx s in
      _ ← upd_lctx is_http r (λ x, LuaCtx (lx_context x) co
                                  (lx_entered_content_phase x) (lx_resume_handler x));
      _ ← mem (upd_sctx ctx (set_wait_co_ctx NULL));
      c ← get_co is_http co;
      _ ← mem (upd_sctx ctx (set_prev_data (co_data c)));
      _ ← upd_co is_http co (set_co_data ctx);
      if lx_entered_content_phase x then
        resume r ≫= λ _, mret tt
      else
        _ ← upd_lctx is_http r (λ x, LuaCtx (lx_context x) (lx_cur_co_ctx x)
                                    (lx_entered_content_phase x) H_grpc_resume);
        _ ← emit (X_run_phases is_http r);
        ngx_core_run_phases is_http r (resume r)
  end.

Definition ngx_grpc_cli_to_resume (ctx : Z) : M world unit :=
  _ ← ngx_grpc_cli_unkeep_task ctx;
  s ← mem (load_sctx ctx);
  if sc_is_http s then
    _ ← to_resume_in true ctx (sc_r s) ngx_http_grpc_cli_resume;
    _ ← emit (X_run_posted_requests (sc_r s));
    ngx_http_run_posted_requests (sc_r s)
  else to_resume_in false ctx (sc_r s) ngx_stream_grpc_cli_resume.

(** Disarming the coroutine a finished task waits in. *)
Definition disarm (is_http : bool) (co : Z) : M world unit :=
  c ← get_co is_http co;
  _ ← when (ev_timer_set (co_sleep c))
        (upd_co is_http co (λ c, set_co_sleep (ngx_del_timer (co_sleep c)) c));
  upd_co is_http co (set_co_cleanup H_none).

(** The body of the [while] loop of the posted event handler, for the element
    at the head of [thctx->occupied]. *)
Definition post_event_one (q : Z) : M world unit :=
  _ ← queue (ngx_queue_remove q);
  _ ← queue (ngx_queue_insert_tail q_th_free q);
  res ← mem (load_pev q);
  node ← ngx_grpc_cli_lookup_task (tr_task_id res);
  if node =? NULL then
    _ ← mem (upd_pev q (set_tr_buf (res_ptr (tr_buf res))));
    eng (grpc_engine_free (res_ptr (tr_buf res)))
  else
    let ctx := tr_task_id res in
    _ ← mem (upd_sctx ctx (set_res res));
    s ← mem (load_sctx ctx);
    _ ← disarm (sc_is_http s) (sc_wait_co_ctx s);
    ngx_grpc_cli_to_resume ctx.

Fixpoint post_event_loop (fuel : nat) : M world unit :=
  w ← get;
  if ngx_queue_empty q_occupied (w_qs w) then mret tt else
  match fuel with
  | O => crash OutOfFuel
  | Datatypes.S n =>
      _ ← post_event_one (ngx_queue_head q_occupied (w_qs w));
      post_event_loop n
  end.

Definition ngx_grpc_cli_thread_post_event_handler : M world unit :=
  w ← get; post_event_loop (size (cm_heap (w_mem w))).

(** [ev->data] is the stream. *)
Definition ngx_grpc_cli_timeout_handler (ctx : Z) : M world unit :=
  _ ← mem (upd_sctx ctx (set_state NGX_GRPC_CLIENT_STATE_TIMEOUT));
  s ← mem (load_sctx ctx);
  _ ← upd_co (sc_is_http s) (sc_wait_co_ctx s) (set_co_cleanup H_none);
  ngx_grpc_cli_to_resume ctx.

(** [ngx_http_grpc_cli_cleanup] and [ngx_stream_grpc_cli_cleanup]; [data] is
    the coroutine's context. *)
Definition grpc_cli_cleanup (is_http : bool) (wait_co_ctx : Z) : M world unit :=
  c ← get_co is_http wait_co_ctx;
  let ctx := co_data c in
  _ ← when (ev_timer_set (co_sleep c))
        (upd_co is_http wait_co_ctx (λ c, set_co_sleep (ngx_del_timer (co_sleep c)) c));
  ngx_grpc_cli_unkeep_task ctx.

Definition ngx_http_grpc_cli_cleanup (data : Z) : M world unit := grpc_cli_cleanup true data.
Definition ngx_stream_grpc_cli_cleanup (data : Z) : M world unit := grpc_cli_cleanup false data.
End handlers.
