(* ===== verification/Worker.v ===== *)
(** * The worker process: configuration, loading of the engine, exit *)
From S2P Require Import Prelude Words Mem Wire Ngx World Tasks Stream.
From Stdlib Require Import Strings.Byte.

(** What the module asks of the build, of nginx's cycle and of [dlfcn.h]. *)
Class Loader := {
  (** the tokens of [-DNGX_GRPC_CLI_ENGINE_PATH=...], if it is given *)
  build_engine_path : option bytes;
  (** the pool named [thread_pool_name] in the configuration, or NULL *)
  ngx_thread_pool_get : Z;
  dlopen : bytes → Z;
  (** whether [dlerror] reports something after [dlsym] *)
  dlsym_fails : Z → string → bool;
}.

(** [#define NGX_GRPC_CLI_ENGINE_PATH] followed by two double quotes: the empty
    string literal, which is two characters as a token. *)
Definition NGX_GRPC_CLI_ENGINE_PATH `{Loader} : bytes :=
  match build_engine_path with
  | None => [x22; x22]
  | Some tokens => tokens
  end.

(** [#x] spells the tokens of [x]: the characters of the resulting array,
    without its NUL, are the characters of the tokens. *)
Definition STRINGIFY (tokens : bytes) : bytes := tokens.

Definition engine_path `{Loader} : bytes := STRINGIFY NGX_GRPC_CLI_ENGINE_PATH.

(** The symbols [ngx_grpc_cli_init_worker] resolves, in its order. *)
Definition engine_symbols : list string := [
  "grpc_engine_connect"; "grpc_engine_close"; "grpc_engine_close_stream";
  "grpc_engine_free"; "grpc_engine_call"; "grpc_engine_new_stream";
  "grpc_engine_stream_recv"; "grpc_engine_stream_send";
  "grpc_engine_stream_close_send"; "grpc_engine_wait" ]%string.

Section worker.
Context `{Allocator} `{Nginx} `{GrpcEngine} `{Loader}.

(** The configuration nginx keeps, or NULL. *)
Definition ngx_grpc_cli_create_main_conf : M world (option client_conf) :=
  conf ← mem (alloc (OBuf []));
  if conf =? NULL then mret None
  else mret (Some (ClientConf engine_path NULL NULL NULL)).

Definition upd_conf (f : client_conf → client_conf) : M world unit :=
  modify (λ w, World.set_conf (f <$> w_conf w) w).

Definition ngx_grpc_cli_thread : M world Z :=
  let thread_pool := ngx_thread_pool_get in
  task ← mem (alloc (OBuf []));
  if task =? NULL then mret NGX_ERROR else
  posted_ev ← mem (alloc (OBuf []));
  if posted_ev =? NULL then mret NGX_ERROR else
  _ ← modify (λ w, set_th (ThreadCtx thread_pool NULL 0 ev_zero ev_zero) w);
  _ ← queue (ngx_queue_init q_th_free);
  _ ← queue (ngx_queue_init q_occupied);
  _ ← upd_conf (λ c, ClientConf (cf_engine_path c) (cf_engine c) thread_pool task);
  mret NGX_OK.

(** The [must_resolve_symbol] sequence: whether every symbol is found. *)
Definition resolve_symbols (hd : Z) (symbols : list string) : bool :=
  forallb (λ f, negb (dlsym_fails hd f)) symbols.

Definition ngx_grpc_cli_init_worker : M world Z :=
  w ← get;
  match w_conf w with
  | None => mret NGX_OK
  | Some gccf =>
      if (length (cf_engine_path gccf) =? 0)%nat then mret NGX_OK else
      if ngx_thread_pool_get =? NULL then mret NGX_OK else
      _ ← emit (X_dlopen (cf_engine_path gccf));
      let hd := dlopen (cf_engine_path gccf) in
      _ ← upd_conf (λ c, ClientConf (cf_engine_path c) hd (cf_thread_pool c) (cf_task c));
      if hd =? NULL then mret NGX_ERROR else
      if negb (resolve_symbols hd engine_symbols) then mret NGX_ERROR else
      _ ← modify (λ w, set_tree rb_sentinel (set_num 0 w));
      ngx_grpc_cli_thread
  end.

Definition ngx_grpc_cli_exit_worker : M world unit :=
  w ← get;
  match w_conf w with
  | None => mret tt
  | Some gccf =>
      when (negb (cf_engine gccf =? NULL)) (emit (X_dlclose (cf_engine gccf)))
  end.

(** [ngx_module_t]: the functions nginx calls in the life of its processes; None
    is NULL. *)
Record ngx_module := NgxModule {
  init_master : option (M world Z);
  init_module : option (M world Z);
  init_process : option (M world Z);
  init_thread : option (M world Z);
  exit_thread : option (M world unit);
  exit_process : option (M world unit);
  exit_master : option (M world unit);
}.

Definition ngx_grpc_client_module : ngx_module := {|
  init_master := None;
  init_module := None;
  init_process := Some ngx_grpc_cli_init_worker;
  init_thread := None;
  exit_thread := None;
  exit_process := None;
  exit_master := Some ngx_grpc_cli_exit_worker;
|}.

Definition ngx_grpc_cli_is_engine_inited : M world bool :=
  gccf ← get_conf; mret (negb (cf_engine gccf =? NULL)).
End worker.
