(* ===== verification/Codec.v ===== *)
(** * The codec of [grpc-engine/conn/proto.go]

    grpc-go encodes the messages of every call with the codec registered under the
    name ["proto"].  The engine registers one that hands byte slices through: Lua
    has encoded them already. *)
From S2P Require Import Prelude.

(** A value behind [interface{}], as far as the codec looks at it: a byte slice, the
    contents of a [*bytes.Buffer], or a value of another type, known by its name. *)
Inductive go_any : Type :=
| Any_bytes (b : bytes)
| Any_buffer (written : bytes)
| Any_other (type_name : bytes).

(** [%T] *)
Definition type_name_of (v : go_any) : bytes :=
  match v with
  | Any_bytes _ => lit "[]uint8"
  | Any_buffer _ => lit "*bytes.Buffer"
  | Any_other name => name
  end.

Definition Name : bytes := lit "proto".

(** An error, or the bytes. *)
Definition Marshal (v : go_any) : bytes + bytes :=
  match v with
  | Any_bytes vv => inr vv
  | _ => inl (lit "failed to marshal, message is " ++ type_name_of v ++ lit ", want []byte")
  end.

(** An error, or [v] after the bytes were written to it; a buffer's [Write] returns
    no error. *)
Definition Unmarshal (data : bytes) (v : go_any) : bytes + go_any :=
  match v with
  | Any_buffer vv => inr (Any_buffer (vv ++ data))
  | _ => inl (lit "failed to unmarshal, message is " ++ type_name_of v ++
              lit ", want *bytes.Buffer")
  end.

(** [out.Bytes()] of a buffer nothing was written to is Go's nil. *)
Definition buffer_bytes (written : bytes) : option bytes :=
  if bool_decide (written = []) then None else Some written.

(** A message sent as a slice and received into a fresh buffer arrives as it was,
    but for an empty one, which arrives as nil. *)
Lemma codec_round_trip req :
  ∃ data out, Marshal (Any_bytes req) = inr data ∧
    Unmarshal data (Any_buffer []) = inr (Any_buffer out) ∧
    buffer_bytes out = if bool_decide (req = []) then None else Some req.
Proof. by exists req, req. Qed.

(** What arrives in pieces is their concatenation. *)
Lemma unmarshal_app data1 data2 v v1 :
  Unmarshal data1 v = inr v1 → Unmarshal data2 v1 = Unmarshal (data1 ++ data2) v.
Proof. destruct v; try done. intros [= <-]. simpl. by rewrite app_assoc. Qed.
