(* ===== verification/EngineSpec.v ===== *)
(** * What the engine promises to the C module

    The interface between [ngx_grpc_client.c] and [grpc-engine]: which
    references and streams the engine knows, and what each exported function
    does to them and to the heap they share.  The module is proved against this
    class; [Engine] proves that the Go code keeps it. *)
From S2P Require Import Prelude Words Mem Wire TaskQueue Ngx World.

(** ** What an engine call may do to the heap: add buffers *)
Definition extends (h h' : gmap Z obj) : Prop :=
  h ⊆ h' ∧
  ∀ p o, h' !! p = Some o → h !! p = Some o ∨ (h !! p = None ∧ 0 < p < 2 ^ 64 ∧ (∃ b, o = OBuf b)).

#[global] Instance extends_refl : Reflexive extends.
Proof. split; [done|]. by left. Qed.

#[global] Instance extends_trans : Transitive extends.
Proof.
  intros h1 h2 h3 [S1 E1] [S2 E2]. split; [by trans h2|].
  intros p o Ho. destruct (E2 _ _ Ho) as [Ho'|(Hn & Hp & Hb)]; [by apply E1|].
  right. split; [|done]. destruct (h1 !! p) as [o'|] eqn:E; [|done].
  rewrite (lookup_weaken _ _ _ _ E S1) in Hn. done.
Qed.

(** The result a record carries, in a heap: a tag and nothing, or a tagged
    pointer to a buffer of the announced size. *)
Definition res_ok (h : gmap Z obj) (r : task_res) : Prop :=
  is_u64 (tr_buf r) ∧ tr_buf r ≠ NULL ∧
  if decide (res_ptr (tr_buf r) = NULL)
  then res_type (tr_buf r) = NGX_GRPC_CLIENT_RES_TYPE_OK_NOT_RES
  else (res_type (tr_buf r) = NGX_GRPC_CLIENT_RES_TYPE_OK ∨
        res_type (tr_buf r) = NGX_GRPC_CLIENT_RES_TYPE_ERR) ∧
       ∃ b, h !! res_ptr (tr_buf r) = Some (OBuf b) ∧ tr_size r = Z.of_nat (length b).

Lemma res_ok_mono h h' r :
  res_ok h r →
  (∀ p b, p ≠ NULL → p = res_ptr (tr_buf r) → h !! p = Some (OBuf b) → h' !! p = Some (OBuf b)) →
  res_ok h' r.
Proof.
  intros (Hu & Hn & Hr) Hh. split_and!; [done..|].
  destruct (decide _); [done|]. destruct Hr as (Ht & b & Hb & Hl).
  split; [done|]. exists b. split; [|done]. by apply Hh.
Qed.

(** The buffers a list of results owns. *)
Definition res_bufs (rs : list task_res) : list Z :=
  filter (λ p, p ≠ NULL) (map (λ r, res_ptr (tr_buf r)) rs).

Lemma res_bufs_live h rs p :
  Forall (res_ok h) rs → p ∈ res_bufs rs → p ≠ NULL ∧ ∃ b, h !! p = Some (OBuf b).
Proof.
  rewrite list.Forall_forall. intros Hrs [Hp (r & -> & Hr)%list_elem_of_fmap]%list_elem_of_filter.
  split; [done|]. destruct (Hrs _ Hr) as (_ & _ & Hok).
  rewrite decide_False in Hok by done. destruct Hok as (_ & b & ? & _). eauto.
Qed.

(** The buffers of the results are left alone. *)
Lemma results_mono h h' rs :
  Forall (res_ok h) rs →
  (∀ p b, p ∈ res_bufs rs → h !! p = Some (OBuf b) → h' !! p = Some (OBuf b)) →
  Forall (res_ok h') rs.
Proof.
  rewrite !list.Forall_forall. intros Hok Hh r Hr. eapply res_ok_mono; [by apply Hok|].
  intros p b Hp -> Hb. apply Hh; [|done]. apply list_elem_of_filter. split; [done|].
  apply list_elem_of_fmap. by exists r.
Qed.

(** The ids of a list of results, with repetitions. *)
Definition res_ids (rs : list task_res) : gmultiset Z := list_to_set_disj (map tr_task_id rs).

Lemma res_ids_app rs1 rs2 : res_ids (rs1 ++ rs2) = res_ids rs1 ⊎ res_ids rs2.
Proof. unfold res_ids. by rewrite map_app, list_to_set_disj_app. Qed.

Lemma elem_of_res_ids r rs : r ∈ rs → tr_task_id r ∈ res_ids rs.
Proof. unfold res_ids. induction 1; simpl; multiset_solver. Qed.

Lemma res_ids_inv k rs : k ∈ res_ids rs → ∃ r, r ∈ rs ∧ tr_task_id r = k.
Proof.
  unfold res_ids. rewrite elem_of_list_to_set_disj, list_elem_of_fmap. naive_solver.
Qed.

Lemma sublist_res_ids rs1 rs2 : rs1 `sublist_of` rs2 → res_ids rs1 ⊆ res_ids rs2.
Proof. induction 1; unfold res_ids in *; simpl; multiset_solver. Qed.

Lemma size_res_ids rs : size (res_ids rs) = length rs.
Proof. unfold res_ids. by rewrite size_list_to_set_disj, length_map. Qed.

(** One more id: [id], for a machine word. *)
Definition adds (id : Z) (X X' : gmultiset Z) : Prop :=
  ∃ id', (is_u64 id → id' = id) ∧ X' = {[+ id' +]} ⊎ X.

Definition none (_ : Z) : Prop := False.

(** What the engine says of streams stays true, and streams stay open, but for those
    that are [shut]. *)
Definition trusting `{GrpcEngine} (vouches : engine → Z → Prop) (streams : engine → gset Z)
    (shut : Z → Prop) (e e' : engine) : Prop :=
  ∀ k, ¬ shut k → (vouches e k → vouches e' k) ∧ (k ∈ streams e → k ∈ streams e').

#[global] Instance trusting_preorder `{GrpcEngine} vouches streams shut :
  PreOrder (trusting vouches streams shut).
Proof.
  split; [by intros e k _|]. intros e1 e2 e3 T1 T2 k Hk.
  destruct (T1 k Hk), (T2 k Hk). auto.
Qed.

Class GrpcEngineLaws `{GrpcEngine, Host} := {
  engine_wf : engine → Prop;
  (** the references [grpc_engine_connect] returned and nobody closed *)
  engine_refs : engine → gset Z;
  (** the streams that are open; a goroutine may open one at any time *)
  engine_streams : engine → gset Z;
  (** the ids of the tasks that were started and whose result was not handed
      over: a task may be under way, or its result may wait in the queue *)
  engine_pending : engine → gmultiset Z;
  (** every task of the stream [k] that will be reported as a success is one of a
      stream that is open *)
  engine_vouches : engine → Z → Prop;

  engine_vouches_idle e k : k ∉ engine_pending e → engine_vouches e k;
  engine_connect_trust target opt :
    leads (λ s s', trusting engine_vouches engine_streams none s.1 s'.1)
      (grpc_engine_connect target opt);
  engine_close_trust ref :
    leads (λ s s', trusting engine_vouches engine_streams none s.1 s'.1) (grpc_engine_close ref);
  engine_call_trust id ref method req opt :
    leads (λ s s', trusting engine_vouches engine_streams (λ k, ¬ is_u64 id ∨ k = id) s.1 s'.1)
      (grpc_engine_call id ref method req opt);
  engine_new_stream_trust id ref method req opt type :
    leads (λ s s', trusting engine_vouches engine_streams none s.1 s'.1)
      (grpc_engine_new_stream id ref method req opt type);
  engine_close_stream_trust sctx :
    leads (λ s s', trusting engine_vouches engine_streams (λ k, k = sctx) s.1 s'.1)
      (grpc_engine_close_stream sctx);
  engine_recv_trust sctx :
    leads (λ s s', trusting engine_vouches engine_streams none s.1 s'.1)
      (grpc_engine_stream_recv sctx);
  engine_send_trust sctx req :
    leads (λ s s', trusting engine_vouches engine_streams none s.1 s'.1)
      (grpc_engine_stream_send sctx req);
  engine_close_send_trust sctx :
    leads (λ s s', trusting engine_vouches engine_streams none s.1 s'.1)
      (grpc_engine_stream_close_send sctx);

  engine_connect_pending target opt :
    keeps (λ s, engine_pending s.1) (grpc_engine_connect target opt);
  engine_close_pending ref : keeps (λ s, engine_pending s.1) (grpc_engine_close ref);
  engine_close_stream_pending sctx :
    keeps (λ s, engine_pending s.1) (grpc_engine_close_stream sctx);
  engine_call_pending id ref method req opt :
    leads (λ s s', adds id (engine_pending s.1) (engine_pending s'.1))
      (grpc_engine_call id ref method req opt);
  engine_new_stream_pending id ref method req opt type :
    leads (λ s s', adds id (engine_pending s.1) (engine_pending s'.1))
      (grpc_engine_new_stream id ref method req opt type);
  engine_recv_pending sctx :
    leads (λ s s', adds sctx (engine_pending s.1) (engine_pending s'.1))
      (grpc_engine_stream_recv sctx);
  engine_send_pending sctx req :
    leads (λ s s', adds sctx (engine_pending s.1) (engine_pending s'.1))
      (grpc_engine_stream_send sctx req);
  engine_close_send_pending sctx :
    leads (λ s s', adds sctx (engine_pending s.1) (engine_pending s'.1))
      (grpc_engine_stream_close_send sctx);

  engine_connect_ok target opt e m :
    engine_wf e →
    (∀ ref, ref ∈ engine_refs e → is_Some (cm_heap m !! ref)) →
    wp (grpc_engine_connect target opt) (λ x s,
      engine_wf s.1 ∧ engine_streams e ⊆ engine_streams s.1 ∧
      extends (cm_heap m) (cm_heap s.2) ∧
      ((x.1 = NULL ∧ engine_refs s.1 = engine_refs e ∧
          (∃ msg, x.2 = Some msg ∧ (length msg ≤ 511)%nat)) ∨
       (x.1 ≠ NULL ∧ x.2 = None ∧ engine_refs s.1 = {[x.1]} ∪ engine_refs e ∧
          (x.1 ∉ engine_refs e) ∧ cm_heap m !! x.1 = None ∧
          (∃ b, cm_heap s.2 !! x.1 = Some (OBuf b))))) (e, m);

  engine_close_ok ref e m :
    engine_wf e → ref ≠ NULL → ref ∈ engine_refs e → is_Some (cm_heap m !! ref) →
    wp (grpc_engine_close ref) (λ _ s,
      engine_wf s.1 ∧ engine_streams e ⊆ engine_streams s.1 ∧
      engine_refs s.1 = engine_refs e ∖ {[ref]} ∧
      cm_heap s.2 = delete ref (cm_heap m)) (e, m);

  engine_call_ok id ref method req opt e m :
    engine_wf e → ref ∈ engine_refs e → is_u64 id →
    wp (grpc_engine_call id ref method req opt) (λ _ s,
      engine_wf s.1 ∧ engine_refs s.1 = engine_refs e ∧
      engine_streams e ⊆ engine_streams s.1 ∧
      extends (cm_heap m) (cm_heap s.2)) (e, m);

  engine_new_stream_ok id ref method req opt type e m :
    engine_wf e → ref ∈ engine_refs e → is_u64 id →
    wp (grpc_engine_new_stream id ref method req opt type) (λ _ s,
      engine_wf s.1 ∧ engine_refs s.1 = engine_refs e ∧
      engine_streams e ⊆ engine_streams s.1 ∧
      extends (cm_heap m) (cm_heap s.2)) (e, m);

  engine_close_stream_ok sctx e m :
    engine_wf e →
    wp (grpc_engine_close_stream sctx) (λ _ s,
      engine_wf s.1 ∧ engine_refs s.1 = engine_refs e ∧
      engine_streams e ∖ {[sctx]} ⊆ engine_streams s.1 ∧
      extends (cm_heap m) (cm_heap s.2)) (e, m);

  engine_recv_ok sctx e m :
    engine_wf e → sctx ∈ engine_streams e → is_u64 sctx →
    wp (grpc_engine_stream_recv sctx) (λ _ s,
      engine_wf s.1 ∧ engine_refs s.1 = engine_refs e ∧
      engine_streams e ⊆ engine_streams s.1 ∧
      extends (cm_heap m) (cm_heap s.2)) (e, m);

  engine_send_ok sctx req e m :
    engine_wf e → sctx ∈ engine_streams e → is_u64 sctx →
    wp (grpc_engine_stream_send sctx req) (λ _ s,
      engine_wf s.1 ∧ engine_refs s.1 = engine_refs e ∧
      engine_streams e ⊆ engine_streams s.1 ∧
      extends (cm_heap m) (cm_heap s.2)) (e, m);

  engine_close_send_ok sctx e m :
    engine_wf e → sctx ∈ engine_streams e → is_u64 sctx →
    wp (grpc_engine_stream_close_send sctx) (λ _ s,
      engine_wf s.1 ∧ engine_refs s.1 = engine_refs e ∧
      engine_streams e ⊆ engine_streams s.1 ∧
      extends (cm_heap m) (cm_heap s.2)) (e, m);

  (** [grpc_engine_free] is [C.free] *)
  engine_free_ok p e m :
    grpc_engine_free p (e, m) =
      match mem_free p m with Done _ m' => Done tt (e, m') | Crash f => Crash f end;

  (** The array is a buffer of as many records as announced; the buffers they
      point to are new, live and distinct.  Each result is that of a task that
      was pending, and no longer is; a success the engine vouched for is one of an
      open stream. *)
  engine_wait_ok timeout e m :
    engine_wf e →
    wp (grpc_engine_wait timeout) (λ x s,
      engine_wf s.1 ∧ engine_refs s.1 = engine_refs e ∧
      engine_streams e ⊆ engine_streams s.1 ∧
      extends (cm_heap m) (cm_heap s.2) ∧
      ∃ rs, Forall is_task_res rs ∧ Forall (res_ok (cm_heap s.2)) rs ∧
        NoDup (res_bufs rs) ∧ Forall (λ p, cm_heap m !! p = None) (res_bufs rs) ∧
        x.2 = s32 (Z.of_nat (length rs)) ∧
        engine_pending e = res_ids rs ⊎ engine_pending s.1 ∧
        trusting engine_vouches engine_streams none e s.1 ∧
        (∀ r, r ∈ rs → res_type (tr_buf r) ≠ NGX_GRPC_CLIENT_RES_TYPE_ERR →
           engine_vouches e (tr_task_id r) → tr_task_id r ∈ engine_streams s.1) ∧
        ((rs = [] ∧ x.1 = NULL) ∨
         (rs ≠ [] ∧ x.1 ≠ NULL ∧ cm_heap m !! x.1 = None ∧ (x.1 ∉ res_bufs rs) ∧
            cm_heap s.2 !! x.1 = Some (OBuf (concat (map (record_bytes host_endian) rs))))))
      (e, m);
}.
