(* ===== verification/Engine.v ===== *)
(** * The engine: [grpc-engine/main.go] and [grpc-engine/conn/grpc.go]

    The exported functions run on the engine's state: the maps [EngineCtxRef] and
    [StreamRef], the queue of finished tasks, and the goroutines they started
    that have not finished.  grpc-go is not part of the repository: [GrpcLib]
    are its functions the engine calls, on a network state of its own. *)
From Stdlib Require Import Strings.Byte.
From stdpp Require Import pretty.
From S2P Require Import Prelude Words Mem Wire TaskQueue World Codec.
Open Scope Z_scope.

(** ** Go functions that may panic *)

(** The result of a Go call: it returns, or it panics with a value. *)
Inductive go_res (A : Type) : Type :=
| Go_ret (a : A)
| Go_panic (msg : bytes).
Arguments Go_ret {A} a.
Arguments Go_panic {A} msg.

(** ** [conn/grpc.go] *)

Definition ClientStream : Z := 1.
Definition ServerStream : Z := 2.
Definition BidirectionalStream : Z := 3.

Record ConnectOption := ConnectOpt {
  Insecure : bool;
  TLSVerify : bool;
  MaxRecvMsgSize : Z;
  ClientCertFile : bytes;
  ClientKeyFile : bytes;
  TrustedCA : bytes;
}.

(** [Timeout] in nanoseconds. *)
Record CallOption := CallOpt_ {
  Timeout : Z;
  Metadata : list bytes;
}.

(** [tls.Config], what [Connect] sets of it: the certificate and the key read
    from two files, and the contents of the CA file. *)
Record tls_config := TlsConfig {
  InsecureSkipVerify : bool;
  Certificates : option (bytes * bytes);
  RootCAs : option bytes;
}.

Inductive dial_option : Type :=
| WithTimeout (ns : Z)
| WithMaxMsgSize (n : Z)
| WithInsecure
| WithTLS (c : tls_config).

(** [grpc.StreamDesc] *)
Record stream_desc := StreamDesc { ClientStreams : bool; ServerStreams : bool }.

(** The context of a call: its outgoing metadata and its timeout, if any. *)
Record call_ctx := CallCtx { cc_md : list bytes; cc_timeout : option Z }.

Class GrpcLib := {
  net : Type;                        (** the network, the files, the clock *)
  ClientConn : Type;
  grpc_stream : Type;                (** [grpc.ClientStream] *)
  (** [tls.LoadX509KeyPair]: an error, or nothing *)
  LoadX509KeyPair : bytes → bytes → net → option bytes;
  ReadFile : bytes → net → bytes + bytes;
  AppendCertsFromPEM : bytes → bool;
  grpc_Dial : bytes → list dial_option → net → go_res (bytes + ClientConn) * net;
  (** [c.Close] of a connection that was dialed and is closed for the first time: it
      does not panic, so the recovery of [grpc_engine_close], which only logs, is
      never taken *)
  grpc_Close : ClientConn → net → net;
  (** [c.Invoke]: an error, or what the codec wrote to the buffer *)
  Invoke : ClientConn → call_ctx → bytes → bytes → net → go_res (bytes + bytes) * net;
  c_NewStream : ClientConn → call_ctx → stream_desc → bytes → net →
    go_res (bytes + grpc_stream) * net;
  SendMsg : grpc_stream → bytes → net → go_res (option bytes) * net;
  RecvMsg : grpc_stream → net → go_res (bytes + bytes) * net;
  cs_CloseSend : grpc_stream → net → go_res (option bytes) * net;
  cancel_stream : grpc_stream → net → net;
  (** the text of a recovered panic with its stack, [fmt.Errorf] *)
  panic_text : bytes → bytes;
  (** the order in which goroutines finish: at each point, which of them *)
  scheduler : nat → list nat;
}.

(** ** Go's monad: a network, panics, early returns with an error *)

Section go_monad.
Context `{GrpcLib}.

Definition G (A : Type) : Type := net → go_res A * net.
Definition g_ret {A} (a : A) : G A := λ n, (Go_ret a, n).
Definition g_panic {A} (msg : bytes) : G A := λ n, (Go_panic msg, n).
Definition g_bind {A B} (m : G A) (k : A → G B) : G B := λ n,
  match m n with
  | (Go_ret a, n') => k a n'
  | (Go_panic msg, n') => (Go_panic msg, n')
  end.
(** A call that does not panic. *)
Definition g_do (f : net → net) : G unit := λ n, (Go_ret tt, f n).
Definition g_gets {A} (f : net → A) : G A := λ n, (Go_ret (f n), n).

(** [c, err := m; if err != nil { ...; return nil, err }]: an error on the
    left. *)
Definition g_try {A B} (m : G (bytes + A)) (on_err : G unit) (k : A → G (bytes + B))
  : G (bytes + B) :=
  g_bind m (λ r, match r with
                 | inl err => g_bind on_err (λ _, g_ret (inl err))
                 | inr a => k a
                 end).
Definition g_check {B} (m : G (option bytes)) (on_err : G unit) (k : G (bytes + B))
  : G (bytes + B) :=
  g_bind m (λ r, match r with
                 | Some err => g_bind on_err (λ _, g_ret (inl err))
                 | None => k
                 end).

Definition conn_timeout_ns : Z := 60 * 1000000000.

Definition MSG_ca_failed : bytes :=
  lit "failed to append trusted certificate to certificate pool. ".

(** The certificates of [Connect]. *)
Definition connect_certs (opt : ConnectOption) (tc : tls_config) : G (bytes + tls_config) :=
  if negb (bool_decide (ClientCertFile opt = [])) && negb (bool_decide (ClientKeyFile opt = []))
  then
    g_check (g_gets (LoadX509KeyPair (ClientCertFile opt) (ClientKeyFile opt))) (g_ret tt)
      (g_bind
        (if negb (bool_decide (TrustedCA opt = [])) then
           g_try (g_gets (ReadFile (TrustedCA opt))) (g_ret tt) (λ trustedCA,
             if negb (AppendCertsFromPEM trustedCA)
             then g_ret (inl (MSG_ca_failed ++ trustedCA))
             else g_ret (inr (Some trustedCA)))
         else g_ret (inr (RootCAs tc)))
        (λ r, match r with
              | inl err => g_ret (inl err)
              | inr ca => g_ret (inr (TlsConfig (InsecureSkipVerify tc)
                            (Some (ClientCertFile opt, ClientKeyFile opt)) ca))
              end))
  else g_ret (inr tc).

Definition Connect (target : bytes) (opt : ConnectOption) : G (bytes + ClientConn) :=
  let opts := [WithTimeout conn_timeout_ns] in
  let opts := if negb (MaxRecvMsgSize opt =? 0)
              then opts ++ [WithMaxMsgSize (MaxRecvMsgSize opt)] else opts in
  if Insecure opt then grpc_Dial target (opts ++ [WithInsecure]) else
  let tc := TlsConfig (negb (TLSVerify opt)) None None in
  g_try (connect_certs opt tc) (g_ret tt) (λ tc,
    grpc_Dial target (opts ++ [WithTLS tc])).

Definition createCtxWithMd (pairs : list bytes) : call_ctx := CallCtx pairs None.

Definition with_timeout (opt : CallOption) (ctx : call_ctx) : call_ctx :=
  if 0 <? Timeout opt then CallCtx (cc_md ctx) (Some (Timeout opt)) else ctx.

(** The error, or the slice returned with a nil error. *)
Definition Call (c : ClientConn) (method req : bytes) (opt : CallOption)
  : G (bytes + option bytes) :=
  let ctx := with_timeout opt (createCtxWithMd (Metadata opt)) in
  g_try (Invoke c ctx method req) (g_ret tt) (λ out, g_ret (inr (buffer_bytes out))).

(** [Stream]: [s_cancel] tells whether [cancel] is not nil. *)
Record Stream := StreamCs { s_cs : grpc_stream; s_cancel : bool; s_type : Z }.

Definition MSG_unknown_type (t : Z) : bytes := lit ("Unknown stream type: " +:+ pretty t).
Definition MSG_nil_call : bytes :=
  lit "runtime error: invalid memory address or nil pointer dereference".

(** Calling [cancel], which is nil without a timeout. *)
Definition call_cancel (armed : bool) (f : net → net) : G unit :=
  if armed then g_do f else g_panic MSG_nil_call.

Definition stream_desc_of (streamType : Z) : option stream_desc :=
  if streamType =? ClientStream then Some (StreamDesc true false)
  else if streamType =? ServerStream then Some (StreamDesc false true)
  else if streamType =? BidirectionalStream then Some (StreamDesc true true)
  else None.

Definition NewStream (c : ClientConn) (method req : bytes) (opt : CallOption)
    (streamType : Z) : G (bytes + Stream) :=
  let ctx := with_timeout opt (createCtxWithMd (Metadata opt)) in
  let armed := 0 <? Timeout opt in
  match stream_desc_of streamType with
  | None => g_panic (MSG_unknown_type streamType)
  | Some desc =>
      g_try (c_NewStream c ctx desc method) (call_cancel armed id) (λ cs,
      g_check (SendMsg cs req) (call_cancel armed (cancel_stream cs))
      (if streamType =? ServerStream then
         g_check (cs_CloseSend cs) (call_cancel armed (cancel_stream cs))
           (g_ret (inr (StreamCs cs armed streamType)))
       else g_ret (inr (StreamCs cs armed streamType))))
  end.

Definition Recv (s : Stream) : G (bytes + option bytes) :=
  let recv := g_try (RecvMsg (s_cs s)) (g_ret tt) (λ out, g_ret (inr (buffer_bytes out))) in
  if s_type s =? ClientStream then g_check (cs_CloseSend (s_cs s)) (g_ret tt) recv else recv.

Definition Send (s : Stream) (req : bytes) : G (bytes + unit) :=
  g_check (SendMsg (s_cs s) req) (g_ret tt) (g_ret (inr tt)).

Definition CloseSend (s : Stream) : G (bytes + unit) :=
  g_check (cs_CloseSend (s_cs s)) (g_ret tt) (g_ret (inr tt)).

Definition stream_Close (s : Stream) : net → net :=
  if s_cancel s then cancel_stream (s_cs s) else id.
End go_monad.

(** ** [main.go] *)

Definition ERR_BUF_SIZE : nat := 512.

Section engine.
Context `{GrpcLib} `{Allocator} `{Host}.

(** A goroutine an exported function started, with what it captured. *)
Inductive goroutine : Type :=
| go_call (id : Z) (c : ClientConn) (method req : bytes) (co : CallOption)
| go_new_stream (id : Z) (c : ClientConn) (method req : bytes) (co : CallOption)
    (streamType : Z)
| go_recv (id : Z) (s : Stream)
| go_send (id : Z) (s : Stream) (req : bytes)
| go_close_send (id : Z) (s : Stream).

Record go_engine := GoEngine {
  EngineCtxRef : gmap Z ClientConn;
  StreamRef : gmap Z Stream;
  finishedTaskQueue : taskQueue;
  ge_running : list goroutine;
  ge_net : net;
  ge_time : nat;                  (** scheduling points passed *)
}.

Definition set_EngineCtxRef x g := GoEngine x (StreamRef g) (finishedTaskQueue g)
  (ge_running g) (ge_net g) (ge_time g).
Definition set_StreamRef x g := GoEngine (EngineCtxRef g) x (finishedTaskQueue g)
  (ge_running g) (ge_net g) (ge_time g).
Definition set_queue x g := GoEngine (EngineCtxRef g) (StreamRef g) x
  (ge_running g) (ge_net g) (ge_time g).
Definition set_running x g := GoEngine (EngineCtxRef g) (StreamRef g) (finishedTaskQueue g)
  x (ge_net g) (ge_time g).
Definition set_net x g := GoEngine (EngineCtxRef g) (StreamRef g) (finishedTaskQueue g)
  (ge_running g) x (ge_time g).
Definition set_time x g := GoEngine (EngineCtxRef g) (StreamRef g) (finishedTaskQueue g)
  (ge_running g) (ge_net g) x.

Definition ReportFinishedTask (id : Z) (result err : option bytes) (g : go_engine) : go_engine :=
  set_queue (Done_ id result err (finishedTaskQueue g)) g.

(** The body of a goroutine: what it runs, and what it does with the result;
    [defer reportPanic(id)] turns a panic into a result. *)
Definition run_reporting {A} (id : Z) (m : G (bytes + A))
    (report : bytes + A → go_engine → go_engine) (g : go_engine) : go_engine :=
  let x := m (ge_net g) in
  let g := set_net x.2 g in
  match x.1 with
  | Go_ret r => report r g
  | Go_panic msg => ReportFinishedTask id None (Some (panic_text msg)) g
  end.

Definition report_bytes (id : Z) (r : bytes + option bytes) : go_engine → go_engine :=
  match r with
  | inl err => ReportFinishedTask id None (Some err)
  | inr out => ReportFinishedTask id out None
  end.

Definition report_unit (id : Z) (r : bytes + unit) : go_engine → go_engine :=
  match r with
  | inl err => ReportFinishedTask id None (Some err)
  | inr _ => ReportFinishedTask id None None
  end.

Definition report_stream (id : Z) (r : bytes + Stream) (g : go_engine) : go_engine :=
  match r with
  | inl err => ReportFinishedTask id None (Some err) g
  | inr s => ReportFinishedTask id None None (set_StreamRef (<[id := s]> (StreamRef g)) g)
  end.

Definition run_goroutine (t : goroutine) : go_engine → go_engine :=
  match t with
  | go_call id c method req co => run_reporting id (Call c method req co) (report_bytes id)
  | go_new_stream id c method req co streamType =>
      run_reporting id (NewStream c method req co streamType) (report_stream id)
  | go_recv id s => run_reporting id (Recv s) (report_bytes id)
  | go_send id s req => run_reporting id (Send s req) (report_unit id)
  | go_close_send id s => run_reporting id (CloseSend s) (report_unit id)
  end.

(** Some goroutines finish: those at the given positions, one after another. *)
Fixpoint run_goroutines (is_ : list nat) (g : go_engine) : go_engine :=
  match is_ with
  | [] => g
  | i :: is' =>
      match ge_running g !! i with
      | Some t => run_goroutines is' (run_goroutine t (set_running (delete i (ge_running g)) g))
      | None => run_goroutines is' g
      end
  end.

Definition progress (g : go_engine) : go_engine :=
  let g' := run_goroutines (scheduler (ge_time g)) g in
  set_time (Datatypes.S (ge_time g')) g'.

Definition E (A : Type) : Type := M (go_engine * cmem) A.
Definition on_engine (f : go_engine → go_engine) : E unit := modify (λ s, (f s.1, s.2)).
Definition on_heap {A} (m : M cmem A) : E A := zoom snd (λ t s, (s.1, t)) m.
Definition start (t : goroutine) : E unit :=
  on_engine (λ g, set_running (ge_running g ++ [t]) g).

Definition MSG_cant_find : bytes := lit "can't find with ref".

(** [mustFind]: nobody recovers the panic of an exported function. *)
Definition mustFind {A} (m : gmap Z A) (ref : Z) : E A :=
  match m !! ref with
  | Some a => mret a
  | None => crash (GoPanic MSG_cant_find)
  end.

(** [reportErr]: what is copied to [errBuf]. *)
Definition reportErr (err : bytes) : bytes := take (ERR_BUF_SIZE - 1) err.

Definition connect_option (opt : dial_opt) : ConnectOption :=
  ConnectOpt (do_insecure opt) (do_tls_verify opt) (do_max_recv_msg_size opt)
    (do_client_cert opt) (do_client_key opt) (do_trusted_ca opt).

(** The C [int] [metadata_len * 2] does not overflow: the pairs come from the array of a
    LuaJIT table, which has fewer than 2^28 elements. *)
Definition convertMetadata (opt : call_opt) : list bytes :=
  concat (map (λ kv, [kv.1; kv.2]) (co_metadata opt)).

Definition call_option (opt : call_opt) : CallOption :=
  CallOpt_ (s64 (co_timeout opt * 1000000)) (convertMetadata opt).

Definition go_connect (target : bytes) (opt : dial_opt) : E (Z * option bytes) :=
  _ ← on_engine progress;
  s ← get;
  let x := Connect target (connect_option opt) (ge_net s.1) in
  _ ← on_engine (set_net x.2);
  match x.1 with
  | Go_panic msg => mret (NULL, Some (reportErr (panic_text msg)))
  | Go_ret (inl err) => mret (NULL, Some (reportErr err))
  | Go_ret (inr c) =>
      ref ← on_heap (C_malloc (OBuf [x00]));
      _ ← on_engine (λ g, set_EngineCtxRef (<[ref := c]> (EngineCtxRef g)) g);
      mret (ref, None)
  end.

Definition go_close (ref : Z) : E unit :=
  _ ← on_engine progress;
  s ← get;
  match EngineCtxRef s.1 !! ref with
  | None => mret tt
  | Some c =>
      _ ← on_engine (λ g, set_EngineCtxRef (delete ref (EngineCtxRef g)) g);
      _ ← on_engine (λ g, set_net (grpc_Close c (ge_net g)) g);
      on_heap (mem_free ref)
  end.

(** The task id goes through [C.long] and back. *)
Definition go_engine_call (taskId ref : Z) (method req : bytes) (opt : call_opt) : E unit :=
  _ ← on_engine progress;
  s ← get;
  c ← mustFind (EngineCtxRef s.1) ref;
  start (go_call (u64 (s64 taskId)) c method req (call_option opt)).

Definition go_engine_new_stream (sctx ref : Z) (method req : bytes) (opt : call_opt)
    (streamType : Z) : E unit :=
  _ ← on_engine progress;
  s ← get;
  c ← mustFind (EngineCtxRef s.1) ref;
  start (go_new_stream sctx c method req (call_option opt) streamType).

Definition go_engine_close_stream (sctx : Z) : E unit :=
  _ ← on_engine progress;
  s ← get;
  match StreamRef s.1 !! sctx with
  | None => mret tt
  | Some st =>
      _ ← on_engine (λ g, set_StreamRef (delete sctx (StreamRef g)) g);
      on_engine (λ g, set_net (stream_Close st (ge_net g)) g)
  end.

(** Starting a goroutine for an open stream. *)
Definition on_stream (sctx : Z) (t : Stream → goroutine) : E unit :=
  _ ← on_engine progress;
  s ← get;
  st ← mustFind (StreamRef s.1) sctx;
  start (t st).

Definition go_engine_stream_recv (sctx : Z) : E unit := on_stream sctx (go_recv sctx).
Definition go_engine_stream_send (sctx : Z) (req : bytes) : E unit :=
  on_stream sctx (λ st, go_send sctx st req).
Definition go_engine_stream_close_send (sctx : Z) : E unit := on_stream sctx (go_close_send sctx).

Definition go_engine_free (ptr : Z) : E unit := on_heap (mem_free ptr).

(** [grpc_engine_wait]: some goroutines finish while it waits; then the flag is
    set, by one of them or by the timer. *)
Definition go_engine_wait (timeoutMSec : Z) : E (Z * Z) :=
  _ ← on_engine progress;
  _ ← on_engine (λ g, set_queue (signal (finishedTaskQueue g)) g);
  s ← get;
  '(q, (out, n)) ← on_heap (Wait_finish host_endian (finishedTaskQueue s.1));
  _ ← on_engine (set_queue q);
  if n =? 0 then mret (NULL, s32 n) else
  p ← on_heap (C_malloc (OBuf out));
  mret (p, s32 n).

#[global] Instance go_GrpcEngine : GrpcEngine := {|
  engine := go_engine;
  grpc_engine_connect := go_connect;
  grpc_engine_close := go_close;
  grpc_engine_call := go_engine_call;
  grpc_engine_new_stream := go_engine_new_stream;
  grpc_engine_close_stream := go_engine_close_stream;
  grpc_engine_stream_recv := go_engine_stream_recv;
  grpc_engine_stream_send := go_engine_stream_send;
  grpc_engine_stream_close_send := go_engine_stream_close_send;
  grpc_engine_free := go_engine_free;
  grpc_engine_wait := go_engine_wait;
|}.
End engine.
