(* ===== verification/EngineProof.v ===== *)
(** * The Go engine keeps its promises to the module

    [go_GrpcEngine] satisfies [GrpcEngineLaws]: the theorems proved about the C
    module against the interface hold of the module running on this engine. *)
From Stdlib Require Import Strings.Byte.
From S2P Require Import Prelude Words Mem Wire TaskQueue Ngx World Codec EngineSpec Engine.

(** A slice whose length is a 64-bit integer. *)
Definition fits (b : bytes) : Prop := Z.of_nat (length b) < 2 ^ 64.

Definition res_fits {A} (P : A → Prop) (r : bytes + A) : Prop :=
  match r with inl e => fits e | inr a => P a end.
Definition opt_fits (o : option bytes) : Prop :=
  match o with Some b => fits b | None => True end.

(** A Go computation whose results all satisfy a predicate. *)
Definition g_ok `{GrpcLib} {A} (m : G A) (P : A → Prop) : Prop :=
  ∀ n, match (m n).1 with Go_ret a => P a | Go_panic _ => True end.

(** The lengths of Go slices and strings are of type [int]. *)
Class GrpcLibLaws `{GrpcLib} : Prop := {
  Invoke_fits c ctx method req : g_ok (Invoke c ctx method req) (res_fits fits);
  c_NewStream_fits c ctx d method : g_ok (c_NewStream c ctx d method) (res_fits (λ _, True));
  SendMsg_fits s req : g_ok (SendMsg s req) opt_fits;
  RecvMsg_fits s : g_ok (RecvMsg s) (res_fits fits);
  cs_CloseSend_fits s : g_ok (cs_CloseSend s) opt_fits;
  panic_text_fits msg : fits (panic_text msg);
}.

Section go_monad_rules.
Context `{GrpcLib}.

Lemma g_ok_ret {A} (a : A) (P : A → Prop) : P a → g_ok (g_ret a) P.
Proof. by intros ? n. Qed.

Lemma g_ok_panic {A} msg (P : A → Prop) : g_ok (g_panic msg) P.
Proof. by intros n. Qed.

Lemma g_ok_bind {A B} (m : G A) (k : A → G B) P Q :
  g_ok m P → (∀ a, P a → g_ok (k a) Q) → g_ok (g_bind m k) Q.
Proof.
  intros Hm Hk n. unfold g_bind. specialize (Hm n). destruct (m n) as [[a|msg] n']; [|done].
  by apply Hk.
Qed.

Lemma g_ok_true {A} (m : G A) : g_ok m (λ _, True).
Proof. intros n. by destruct (m n).1. Qed.

Lemma g_ok_try {A B} (m : G (bytes + A)) on_err (k : A → G (bytes + B)) P Q :
  g_ok m (res_fits P) → (∀ a, P a → g_ok (k a) (res_fits Q)) →
  g_ok (g_try m on_err k) (res_fits Q).
Proof.
  intros Hm Hk. eapply g_ok_bind; [exact Hm|]. intros [e|a] Ha; [|by apply Hk].
  eapply g_ok_bind; [apply g_ok_true|]. intros [] _. by apply g_ok_ret.
Qed.

Lemma g_ok_check {B} (m : G (option bytes)) on_err (k : G (bytes + B)) Q :
  g_ok m opt_fits → g_ok k (res_fits Q) → g_ok (g_check m on_err k) (res_fits Q).
Proof.
  intros Hm Hk. eapply g_ok_bind; [exact Hm|]. intros [e|] Ha; [|done].
  eapply g_ok_bind; [apply g_ok_true|]. intros [] _. by apply g_ok_ret.
Qed.
End go_monad_rules.

(** ** The operations of [conn] return slices that fit *)

Section conn_fits.
Context `{GrpcLibLaws}.

Lemma buffer_bytes_fits b : fits b → opt_fits (buffer_bytes b).
Proof. unfold buffer_bytes. by case_bool_decide. Qed.

Lemma Call_fits c method req opt : g_ok (Call c method req opt) (res_fits opt_fits).
Proof.
  eapply g_ok_try; [apply Invoke_fits|]. intros out Ho. apply g_ok_ret. by apply buffer_bytes_fits.
Qed.

Lemma Recv_fits s : g_ok (Recv s) (res_fits opt_fits).
Proof.
  assert (g_ok (g_try (RecvMsg (s_cs s)) (g_ret tt) (λ out, g_ret (inr (buffer_bytes out))))
    (res_fits opt_fits)) as Hr.
  { eapply g_ok_try; [apply RecvMsg_fits|]. intros out Ho. apply g_ok_ret.
    by apply buffer_bytes_fits. }
  unfold Recv. destruct (s_type s =? ClientStream); [|done].
  apply g_ok_check; [apply cs_CloseSend_fits|done].
Qed.

Lemma Send_fits s req : g_ok (Send s req) (res_fits (λ _, True)).
Proof. apply g_ok_check; [apply SendMsg_fits|]. by apply g_ok_ret. Qed.

Lemma CloseSend_fits s : g_ok (CloseSend s) (res_fits (λ _, True)).
Proof. apply g_ok_check; [apply cs_CloseSend_fits|]. by apply g_ok_ret. Qed.

Lemma NewStream_fits c method req opt t :
  g_ok (NewStream c method req opt t) (res_fits (λ _, True)).
Proof.
  unfold NewStream. destruct (stream_desc_of t); [|apply g_ok_panic].
  eapply g_ok_try; [apply c_NewStream_fits|]. intros cs _.
  apply g_ok_check; [apply SendMsg_fits|]. destruct (t =? ServerStream); [|by apply g_ok_ret].
  apply g_ok_check; [apply cs_CloseSend_fits|by apply g_ok_ret].
Qed.
End conn_fits.

(** ** Goroutines *)

Section goroutines.
Context `{GrpcLibLaws}.

Definition goroutine_id (t : goroutine) : Z :=
  match t with
  | go_call id _ _ _ _ | go_new_stream id _ _ _ _ _ | go_recv id _ | go_send id _ _
  | go_close_send id _ => id
  end.

Record go_wf (g : go_engine) : Prop := {
  gw_scratch : length (tq_taskIdBuf (finishedTaskQueue g)) = 24%nat;
  gw_tasks : Forall task_fits (tq_tasks (finishedTaskQueue g));
  gw_running : Forall (λ t, is_u64 (goroutine_id t)) (ge_running g);
}.

(** The tasks under way, and those whose result waits in the queue. *)
Definition go_pending (g : go_engine) : gmultiset Z :=
  list_to_set_disj (map goroutine_id (ge_running g)) ⊎
  list_to_set_disj (map t_id (tq_tasks (finishedTaskQueue g))).

(** What goroutines may change behind the module's back. *)
Record evolves (g g' : go_engine) : Prop := {
  ev_wf : go_wf g';
  ev_refs : EngineCtxRef g' = EngineCtxRef g;
  ev_streams : dom (StreamRef g) ⊆ dom (StreamRef g');
}.

Lemma evolves_refl g : go_wf g → evolves g g.
Proof. by split. Qed.

Lemma evolves_trans g1 g2 g3 : evolves g1 g2 → evolves g2 g3 → evolves g1 g3.
Proof. intros [W1 R1 S1] [W2 R2 S2]. split; [done|congruence|by etrans]. Qed.

Lemma report_evolves id result err g :
  go_wf g → is_u64 id → opt_fits result → opt_fits err →
  evolves g (ReportFinishedTask id result err g).
Proof.
  intros [Hs Ht Hr] Hid Hres Herr. split; [|done|done]. split; [done| |done]. simpl.
  apply Forall_app. split; [done|]. apply Forall_singleton. split; [done|].
  unfold task_payload. simpl. destruct err as [e|]; [exact Herr|].
  destruct result as [b|]; [exact Hres|done].
Qed.

Lemma run_reporting_evolves {A} id (m : G (bytes + A)) P
    (report : bytes + A → go_engine → go_engine) g :
  go_wf g → is_u64 id → g_ok m (res_fits P) →
  (∀ r g, res_fits P r → go_wf g → evolves g (report r g)) →
  evolves g (run_reporting id m report g).
Proof.
  intros Hg Hid Hm Hrep. unfold run_reporting. specialize (Hm (ge_net g)).
  destruct (m (ge_net g)) as [[r|msg] n]; simpl in *.
  - assert (go_wf (set_net n g)) as Hg1 by (destruct Hg; by split).
    eapply evolves_trans; [|by apply Hrep]. by split.
  - assert (go_wf (set_net n g)) as Hg1 by (destruct Hg; by split).
    eapply evolves_trans; [by split|]. apply report_evolves; try done. apply panic_text_fits.
Qed.

Lemma run_goroutine_evolves t g :
  go_wf g → is_u64 (goroutine_id t) → evolves g (run_goroutine t g).
Proof.
  intros Hg Hid.
  assert (∀ id r g, is_u64 id → res_fits opt_fits r → go_wf g →
    evolves g (report_bytes id r g)) as Hb.
  { intros id [e|o] g1 Hi Hr Hg1; simpl in *; by apply report_evolves. }
  assert (∀ id r g, is_u64 id → res_fits (λ _, True) r → go_wf g →
    evolves g (report_unit id r g)) as Hu.
  { intros id [e|o] g1 Hi Hr Hg1; simpl in *; by apply report_evolves. }
  destruct t as [id c method req co|id c method req co ty|id s|id s req|id s]; simpl in *.
  - eapply run_reporting_evolves; [done..|apply Call_fits|auto].
  - eapply run_reporting_evolves; [done..|apply NewStream_fits|].
    intros [e|s] g1 Hr Hg1; simpl in *; [by apply report_evolves|].
    assert (go_wf (set_StreamRef (<[id:=s]> (StreamRef g1)) g1)) as Hg2 by (destruct Hg1; by split).
    eapply evolves_trans; [|by apply report_evolves]. split; [done|done|]. simpl.
    rewrite dom_insert_L. set_solver.
  - eapply run_reporting_evolves; [done..|apply Recv_fits|auto].
  - eapply run_reporting_evolves; [done..|apply Send_fits|auto].
  - eapply run_reporting_evolves; [done..|apply CloseSend_fits|auto].
Qed.

Lemma run_goroutines_evolves is_ g : go_wf g → evolves g (run_goroutines is_ g).
Proof.
  revert g. induction is_ as [|i is_ IH]; intros g Hg; simpl; [by apply evolves_refl|].
  destruct (ge_running g !! i) as [t|] eqn:E; [|by apply IH].
  assert (go_wf (set_running (delete i (ge_running g)) g)) as Hg1.
  { destruct Hg as [Hs Ht Hr]. split; [done..|]. simpl. by apply Forall_delete. }
  assert (is_u64 (goroutine_id t)) as Hid.
  { apply (Forall_lookup_1 _ _ _ _ (gw_running _ Hg) E). }
  pose proof (run_goroutine_evolves t _ Hg1 Hid) as Hev.
  eapply evolves_trans; [|apply IH, Hev]. eapply evolves_trans; [|exact Hev]. by split.
Qed.

Lemma progress_evolves g : go_wf g → evolves g (progress g).
Proof.
  intros Hg. eapply evolves_trans; [by apply run_goroutines_evolves|].
  pose proof (run_goroutines_evolves (scheduler (ge_time g)) g Hg) as [[] _ _]. by split.
Qed.

(** ** Goroutines lose no task, and make none up *)

Lemma report_pending id result err g :
  go_pending (ReportFinishedTask id result err g) = {[+ id +]} ⊎ go_pending g.
Proof.
  unfold go_pending. simpl. rewrite map_app, list_to_set_disj_app. simpl. multiset_solver.
Qed.

Lemma run_reporting_pending {A} id (m : G (bytes + A)) (report : bytes + A → go_engine → go_engine) g :
  (∀ r g, go_pending (report r g) = {[+ id +]} ⊎ go_pending g) →
  go_pending (run_reporting id m report g) = {[+ id +]} ⊎ go_pending g.
Proof.
  intros Hr. unfold run_reporting. destruct (m (ge_net g)) as [[r|msg] n]; simpl.
  - by rewrite Hr.
  - by rewrite report_pending.
Qed.

Lemma run_goroutine_pending t g :
  go_pending (run_goroutine t g) = {[+ goroutine_id t +]} ⊎ go_pending g.
Proof.
  destruct t; apply run_reporting_pending; intros [e|o] g1; simpl; by rewrite report_pending.
Qed.

Lemma run_goroutines_pending is_ g : go_pending (run_goroutines is_ g) = go_pending g.
Proof.
  revert g. induction is_ as [|i is_ IH]; intros g; simpl; [done|].
  destruct (ge_running g !! i) as [t|] eqn:E; [|apply IH].
  rewrite IH, run_goroutine_pending. unfold go_pending. simpl.
  rewrite (delete_Permutation _ _ _ E) at 2. simpl. multiset_solver.
Qed.

Lemma progress_pending g : go_pending (progress g) = go_pending g.
Proof. apply run_goroutines_pending. Qed.

(** ** Successes of streams *)

(** A goroutine that reports a success only of an open stream. *)
Definition backed (g : go_engine) (t : goroutine) : Prop :=
  match t with
  | go_call _ _ _ _ _ => False
  | go_new_stream _ _ _ _ _ _ => True
  | go_recv id _ | go_send id _ _ | go_close_send id _ => id ∈ dom (StreamRef g)
  end.

Definition go_vouches (g : go_engine) (k : Z) : Prop :=
  (∀ t, t ∈ ge_running g → goroutine_id t = k → backed g t) ∧
  (∀ x, x ∈ tq_tasks (finishedTaskQueue g) → t_id x = k → t_err x = None → k ∈ dom (StreamRef g)).

(** The stream [k] stays open, and what is added is said of an open stream. *)
Lemma vouches_grow g g' k :
  (k ∈ dom (StreamRef g) → k ∈ dom (StreamRef g')) →
  (∀ t, t ∈ ge_running g' → goroutine_id t = k → t ∈ ge_running g ∨ backed g' t) →
  (∀ x, x ∈ tq_tasks (finishedTaskQueue g') → t_id x = k → t_err x = None →
     x ∈ tq_tasks (finishedTaskQueue g) ∨ k ∈ dom (StreamRef g')) →
  go_vouches g k → go_vouches g' k.
Proof.
  intros Hs Hr Hq [Vr Vq]. split.
  - intros t Ht Ek. destruct (Hr t Ht Ek) as [Ht'|]; [|done].
    specialize (Vr t Ht' Ek). subst k. destruct t; simpl in *; auto.
  - intros x Hx Ek Ee. destruct (Hq x Hx Ek Ee) as [Hx'|]; [|done]. by apply Hs, (Vq x).
Qed.

(** Streams stay, and what is said of [k] stays true. *)
Definition go_keeps (k : Z) (g g' : go_engine) : Prop :=
  (k ∈ dom (StreamRef g) → k ∈ dom (StreamRef g')) ∧ (go_vouches g k → go_vouches g' k).

#[global] Instance go_keeps_preorder k : PreOrder (go_keeps k).
Proof.
  split; [by intros g; split|]. intros g1 g2 g3 [S1 V1] [S2 V2]. split; auto.
Qed.

Lemma report_keeps id result err k g :
  (id = k → err = None → k ∈ dom (StreamRef g)) → go_keeps k g (ReportFinishedTask id result err g).
Proof.
  intros Hk. split; [done|]. apply vouches_grow; [done|by intros t Ht _; left|].
  intros x [Hx| ->%list_elem_of_singleton]%elem_of_app Ek Ee; [by left|right]. by apply Hk.
Qed.

Lemma run_reporting_keeps {A} id (m : G (bytes + A)) (report : bytes + A → go_engine → go_engine)
    k g :
  (∀ r g', StreamRef g' = StreamRef g → go_keeps k g' (report r g')) →
  go_keeps k g (run_reporting id m report g).
Proof.
  intros Hr. unfold run_reporting. destruct (m (ge_net g)) as [[r|msg] n]; simpl;
    trans (set_net n g); try done; [by apply Hr|by apply report_keeps].
Qed.

Lemma run_goroutine_keeps t k g :
  (goroutine_id t = k → backed g t) → go_keeps k g (run_goroutine t g).
Proof.
  intros Hb. destruct t; apply run_reporting_keeps; intros [e|o] g1 E1; simpl in *;
    try (by apply report_keeps); try (apply report_keeps; intros Ek _; rewrite E1; subst k);
    try (by apply Hb).
  trans (set_StreamRef (<[id:=o]> (StreamRef g1)) g1).
  - split; [simpl; rewrite dom_insert_L; set_solver|].
    apply vouches_grow; [simpl; rewrite dom_insert_L; set_solver|by intros; left..].
  - apply report_keeps. intros -> _. simpl. rewrite dom_insert_L. set_solver.
Qed.

Lemma run_goroutine_streams t g : dom (StreamRef g) ⊆ dom (StreamRef (run_goroutine t g)).
Proof.
  destruct t; simpl; unfold run_reporting;
    match goal with |- context [(?m (ge_net g)).1] => destruct (m (ge_net g)) as [[[e|o]|msg] n]
      end;
    try done. simpl. rewrite dom_insert_L. set_solver.
Qed.

Lemma run_goroutines_keeps is_ k g : go_keeps k g (run_goroutines is_ g).
Proof.
  revert g. induction is_ as [|i is_ IH]; intros g; simpl; [done|].
  destruct (ge_running g !! i) as [t|] eqn:E; [|apply IH].
  set (g1 := set_running (delete i (ge_running g)) g). etrans; [|apply IH].
  split; [apply (run_goroutine_streams t g1)|]. intros Hv.
  apply (run_goroutine_keeps t k g1).
  { intros Ek. apply Hv; [by eapply list_elem_of_lookup_2|done]. }
  eapply vouches_grow, Hv; [done| |by intros; left]. intros t' Ht _. left.
  eapply elem_of_submseteq; [exact Ht|]. apply submseteq_delete.
Qed.

Lemma progress_keeps k g : go_keeps k g (progress g).
Proof.
  etrans; [apply (run_goroutines_keeps (scheduler (ge_time g)))|]. split; [done|].
  apply vouches_grow; [done|by intros; left..].
Qed.
End goroutines.

(** ** The records [Wait] writes *)

Section records.
Context `{AllocatorLaws} (e : endian).

(** Records whose buffers are new, live and distinct. *)
Definition fresh_records (h h' : gmap Z obj) (rs : list task_res) : Prop :=
  extends h h' ∧ Forall is_task_res rs ∧ Forall (res_ok h') rs ∧
  NoDup (res_bufs rs) ∧ Forall (λ p, h !! p = None) (res_bufs rs).

Lemma extends_insert_buf h p b :
  h !! p = None → 0 < p < 2 ^ 64 → extends h (<[p := OBuf b]> h).
Proof.
  intros Hp Hr. split; [by apply insert_subseteq|]. intros q o Hq.
  apply lookup_insert_Some in Hq as [[<- <-]|[_ Hq]]; [right|by left]. eauto.
Qed.

Lemma res_bufs_nil r : res_ptr (tr_buf r) = NULL → res_bufs [r] = [].
Proof. intros E. unfold res_bufs. simpl. rewrite filter_cons_False by (intros ?; done). done. Qed.

Lemma res_bufs_one r : res_ptr (tr_buf r) ≠ NULL → res_bufs [r] = [res_ptr (tr_buf r)].
Proof. intros E. unfold res_bufs. simpl. by rewrite filter_cons_True. Qed.

(** One buffer [b] with the kind [t] in its pointer. *)
Lemma tagged_record id b p t h :
  is_u64 id → fits b → h !! p = None → 0 < p < 2 ^ 64 → p `mod` 8 = 0 →
  t = NGX_GRPC_CLIENT_RES_TYPE_OK ∨ t = NGX_GRPC_CLIENT_RES_TYPE_ERR →
  fresh_records h (<[p := OBuf b]> h) [TaskRes id (u64 (Z.of_nat (length b))) (Z.lor p t)].
Proof.
  intros Hid Hb Hp Hr Ha Ht. assert (is_u64 p) by (unfold is_u64; lia).
  assert (0 ≤ t < 8) as Ht8.
  { destruct Ht as [->| ->]; unfold NGX_GRPC_CLIENT_RES_TYPE_OK, NGX_GRPC_CLIENT_RES_TYPE_ERR;
      lia. }
  assert (is_u64 (Z.of_nat (length b))) as Hlen by (unfold is_u64, fits in *; lia).
  set (r := TaskRes _ _ _).
  assert (res_ptr (tr_buf r) = p) as Eptr by by apply res_ptr_tagged.
  assert (p ≠ NULL) by (unfold NULL; lia).
  unfold fresh_records. rewrite res_bufs_one, Eptr by congruence.
  split_and!; [by apply extends_insert_buf| | | |].
  - apply Forall_singleton. split_and!; simpl; [done|apply u64_range|by apply tagged_u64].
  - apply Forall_singleton. split_and!; simpl; [by apply tagged_u64| |].
    + rewrite lor_tag by done. unfold NULL. lia.
    + change (Z.lor p t) with (tr_buf r). rewrite Eptr, decide_False by done.
      simpl. rewrite res_type_tagged by done. split; [tauto|].
      exists b. rewrite lookup_insert_eq. split; [done|by apply u64_id].
  - apply NoDup_singleton.
  - by apply Forall_singleton.
Qed.

(** The record [r] is for the task [t]; only an error is tagged as one. *)
Definition stands_for (r : task_res) (t : taskResult) : Prop :=
  tr_task_id r = t_id t ∧
  (res_type (tr_buf r) ≠ NGX_GRPC_CLIENT_RES_TYPE_ERR → t_err t = None).

Lemma stands_for_ids rs ts : Forall2 stands_for rs ts → map tr_task_id rs = map t_id ts.
Proof. induction 1 as [|r t rs ts [E _] _ IH]; simpl; congruence. Qed.

Lemma stands_for_in rs ts r : Forall2 stands_for rs ts → r ∈ rs → ∃ t, t ∈ ts ∧ stands_for r t.
Proof.
  induction 1 as [|r' t rs ts Hr _ IH]; [by intros ?%elem_of_nil|].
  intros [->|(t' & Ht & ?)%IH]%elem_of_cons; [exists t|exists t']; (split; [|done]);
    [by left|by right].
Qed.

Lemma task_record_fresh t m :
  task_fits t →
  wp (task_record t) (λ r m', stands_for r t ∧
    fresh_records (cm_heap m) (cm_heap m') [r]) m.
Proof.
  intros [Hid Hlen]. unfold task_record, task_payload in *.
  unfold stands_for. destruct (t_err t) as [b|]; [|destruct (t_result t) as [b|]].
  - apply wp_bind, wp_C_malloc. intros p Hp Hr Ha. apply wp_ret. split.
    { split; [done|]. simpl. unfold GrpcResTypeErr, NGX_GRPC_CLIENT_RES_TYPE_ERR.
      by rewrite res_type_tagged. }
    apply tagged_record; try done. by right.
  - apply wp_bind, wp_C_malloc. intros p Hp Hr Ha. apply wp_ret. split; [done|].
    replace (TaskRes _ _ p) with
      (TaskRes (t_id t) (u64 (Z.of_nat (length b))) (Z.lor p NGX_GRPC_CLIENT_RES_TYPE_OK))
      by (f_equal; apply Z.lor_0_r).
    apply tagged_record; try done. by left.
  - apply wp_ret. split; [done|]. unfold fresh_records. rewrite res_bufs_nil by done.
    split_and!; try done; [apply Forall_singleton; by split_and!| |constructor].
    apply Forall_singleton. split_and!; done.
Qed.

Lemma fresh_records_app h1 h2 h3 rs1 rs2 :
  fresh_records h1 h2 rs1 → fresh_records h2 h3 rs2 → fresh_records h1 h3 (rs1 ++ rs2).
Proof.
  intros (X1 & I1 & O1 & N1 & F1) (X2 & I2 & O2 & N2 & F2).
  rewrite list.Forall_forall in F1, F2.
  split_and!; [by etrans|by apply Forall_app| |..].
  - apply Forall_app. split; [|done]. eapply Forall_impl; [exact O1|]. intros r Hr.
    destruct Hr as (Hu & Hn & Hr). split_and!; [done..|]. destruct (decide _); [done|].
    destruct Hr as (Ht & b & Hb & Hl). split; [done|]. exists b. split; [|done].
    eapply lookup_weaken; [exact Hb|apply X2].
  - unfold res_bufs in *. rewrite map_app, filter_app. apply NoDup_app.
    split_and!; [done| |done]. intros p Hp Hp'. apply F2 in Hp'.
    destruct (res_bufs_live _ _ _ O1 Hp) as (_ & b & Hb). congruence.
  - apply list.Forall_forall. intros p. unfold res_bufs. rewrite map_app, filter_app, elem_of_app.
    intros [Hp|Hp]; [by apply F1|]. apply F2 in Hp. destruct (h1 !! p) as [o|] eqn:E; [|done].
    rewrite (lookup_weaken _ _ _ _ E (proj1 X1)) in Hp. done.
Qed.

Lemma fresh_records_nil h : fresh_records h h [].
Proof.
  split; [done|]. split; [by constructor|]. split; [by constructor|]. split; by constructor.
Qed.

Lemma encode_tasks_fresh ts idbuf out m :
  length idbuf = 24%nat → Forall task_fits ts →
  wp (encode_tasks e ts idbuf out) (λ x m', length x.1 = 24%nat ∧
    ∃ rs, x.2 = out ++ concat (map (record_bytes e) rs) ∧
      Forall2 stands_for rs ts ∧ fresh_records (cm_heap m) (cm_heap m') rs) m.
Proof.
  revert idbuf out m. induction ts as [|t ts IH]; intros idbuf out m Hl Hts; simpl.
  - apply wp_ret. split; [done|]. exists []. rewrite app_nil_r.
    split; [done|]. split; [constructor|]. apply fresh_records_nil.
  - apply Forall_cons in Hts as [Ht Hts].
    apply wp_bind. eapply wp_mono; [by apply task_record_fresh|]. cbn beta.
    intros r m1 [Hid Hf1]. rewrite encode_record_bytes by done.
    eapply wp_mono; [apply IH; [apply length_record|done]|]. cbn beta.
    intros x m2 (Hx & rs & -> & Hids & Hf2). split; [done|]. exists (r :: rs).
    cbn [map concat]. rewrite <- app_assoc. split_and!; [done|by constructor|].
    by apply (fresh_records_app _ (cm_heap m1) _ [r]).
Qed.
End records.

(** ** The laws *)

Section laws.
Context `{GrpcLibLaws} `{AllocatorLaws} `{Host}.
Implicit Types g : go_engine.

Definition go_refs g : gset Z := dom (EngineCtxRef g).
Definition go_streams g : gset Z := dom (StreamRef g).

(** Every exported function first lets goroutines finish. *)
Lemma wp_progress (Q : unit → go_engine * cmem → Prop) g m :
  go_wf g → (∀ g', evolves g g' → go_pending g' = go_pending g → Q tt (g', m)) →
  wp (on_engine progress) Q (g, m).
Proof. intros Hg HQ. apply wp_modify.
apply HQ; [by apply progress_evolves|apply progress_pending]. Qed.

Lemma wp_on_heap {A} (p : M cmem A) (Q : A → go_engine * cmem → Prop) g m :
  wp p (λ a m', Q a (g, m')) m → wp (on_heap p) Q (g, m).
Proof. intros Hp. by apply wp_zoom. Qed.

Lemma wp_mustFind {A} (f : gmap Z A) ref (Q : A → go_engine * cmem → Prop) s :
  ref ∈ dom f → (∀ a, f !! ref = Some a → Q a s) → wp (mustFind f ref) Q s.
Proof. intros [a Ha]%elem_of_dom HQ. unfold mustFind. rewrite Ha. by apply HQ. Qed.

Lemma evolves_refs g g' : evolves g g' → go_refs g' = go_refs g.
Proof. intros [_ E _]. unfold go_refs. by rewrite E. Qed.

Lemma evolves_set_net g g' n : evolves g g' → evolves g (set_net n g').
Proof. intros [[] E S]. by split. Qed.

Lemma go_connect_ok target opt g m :
  go_wf g → (∀ ref, ref ∈ go_refs g → is_Some (cm_heap m !! ref)) →
  wp (go_connect target opt) (λ x s,
    go_wf s.1 ∧ go_streams g ⊆ go_streams s.1 ∧
    extends (cm_heap m) (cm_heap s.2) ∧
    ((x.1 = NULL ∧ go_refs s.1 = go_refs g ∧
        (∃ msg, x.2 = Some msg ∧ (length msg ≤ 511)%nat)) ∨
     (x.1 ≠ NULL ∧ x.2 = None ∧ go_refs s.1 = {[x.1]} ∪ go_refs g ∧
        (x.1 ∉ go_refs g) ∧ cm_heap m !! x.1 = None ∧
        (∃ b, cm_heap s.2 !! x.1 = Some (OBuf b))))) (g, m).
Proof.
  intros Hg Hlive. apply wp_bind, wp_progress; [done|]. intros g1 Hev Hpend.
  apply wp_bind, wp_get. cbv zeta. apply wp_bind, wp_modify. cbn [fst snd].
  destruct (Connect _ _ (ge_net g1)) as [r n]. cbn [fst snd].
  apply (evolves_set_net _ _ n) in Hev. set (g2 := set_net n g1) in *.
  pose proof (evolves_refs _ _ Hev) as Hrefs. destruct Hev as [Hwf _ Hst].
  assert (∀ err, (length (reportErr err) ≤ 511)%nat) as Hlen.
  { intros err. unfold reportErr. rewrite length_take. unfold ERR_BUF_SIZE. lia. }
  destruct r as [[err|c]|msg].
  - apply wp_ret. split_and!; [done..|]. left. eauto.
  - apply wp_bind, wp_on_heap, wp_C_malloc. intros p Hp Hr _.
    apply wp_bind, wp_modify, wp_ret. simpl.
    split_and!; [by destruct Hwf|done|by apply extends_insert_buf|]. right.
    split_and!; try done.
    + unfold NULL. lia.
    + rewrite <- Hrefs. unfold go_refs. simpl. by rewrite dom_insert_L.
    + intros Hin. destruct (Hlive _ Hin) as [o Ho]. congruence.
    + exists [x00]. apply lookup_insert_eq.
  - apply wp_ret. split_and!; [done..|]. left. eauto.
Qed.

Lemma go_close_ok ref g m :
  go_wf g → ref ≠ NULL → ref ∈ go_refs g → is_Some (cm_heap m !! ref) →
  wp (go_close ref) (λ _ s,
    go_wf s.1 ∧ go_streams g ⊆ go_streams s.1 ∧ go_refs s.1 = go_refs g ∖ {[ref]} ∧
    cm_heap s.2 = delete ref (cm_heap m)) (g, m).
Proof.
  intros Hg Hr0 Href Hlive. apply wp_bind, wp_progress; [done|]. intros g1 Hev Hpend.
  apply wp_bind, wp_get. cbn [fst snd]. pose proof (evolves_refs _ _ Hev) as Hrefs.
  destruct Hev as [Hwf _ Hst]. rewrite <- Hrefs in Href.
  apply (elem_of_dom (EngineCtxRef g1)) in Href as [c Hc].
  rewrite Hc. do 2 (apply wp_bind, wp_modify). apply wp_on_heap, wp_mem_free.
  - done.
  - intros _. split; [done|]. split_and!; [by destruct Hwf|done| |done].
    rewrite <- Hrefs. unfold go_refs. simpl. by rewrite dom_delete_L.
Qed.

Lemma evolves_start g g' t :
  evolves g g' → is_u64 (goroutine_id t) →
  evolves g (set_running (ge_running g' ++ [t]) g').
Proof.
  intros [[W1 W2 W3] E S] Ht. split; [|done|done]. split; [done|done|]. simpl.
  apply Forall_app. split; [done|]. by apply Forall_singleton.
Qed.

(** The postcondition of the functions that start a goroutine. *)
Definition started g m (s : go_engine * cmem) : Prop :=
  go_wf s.1 ∧ go_refs s.1 = go_refs g ∧ go_streams g ⊆ go_streams s.1 ∧
  extends (cm_heap m) (cm_heap s.2).

Lemma wp_start t g g' m :
  evolves g g' → is_u64 (goroutine_id t) → wp (start t) (λ _ s, started g m s) (g', m).
Proof.
  intros Hev Ht. apply wp_modify. cbn [fst snd]. apply (evolves_start _ _ t) in Hev; [|done].
  split_and!; [apply Hev|by apply evolves_refs|apply Hev|done].
Qed.

Lemma go_call_ok id ref method req opt g m :
  go_wf g → ref ∈ go_refs g → is_u64 id →
  wp (go_engine_call id ref method req opt) (λ _ s, started g m s) (g, m).
Proof.
  intros Hg Href Hid. apply wp_bind, wp_progress; [done|]. intros g1 Hev Hpend.
  apply wp_bind, wp_get. apply wp_bind, wp_mustFind.
  - cbn [fst snd]. change (ref ∈ go_refs g1). by rewrite (evolves_refs _ _ Hev).
  - intros c Hc. apply wp_start; [done|]. simpl. apply u64_range.
Qed.

Lemma go_new_stream_ok id ref method req opt type g m :
  go_wf g → ref ∈ go_refs g → is_u64 id →
  wp (go_engine_new_stream id ref method req opt type) (λ _ s, started g m s) (g, m).
Proof.
  intros Hg Href Hid. apply wp_bind, wp_progress; [done|]. intros g1 Hev Hpend.
  apply wp_bind, wp_get. apply wp_bind, wp_mustFind.
  - cbn [fst snd]. change (ref ∈ go_refs g1). by rewrite (evolves_refs _ _ Hev).
  - intros c Hc. by apply wp_start.
Qed.

Lemma go_on_stream_ok sctx t g m :
  go_wf g → sctx ∈ go_streams g → (∀ st, is_u64 (goroutine_id (t st))) →
  wp (on_stream sctx t) (λ _ s, started g m s) (g, m).
Proof.
  intros Hg Hin Ht. apply wp_bind, wp_progress; [done|]. intros g1 Hev Hpend.
  apply wp_bind, wp_get. apply wp_bind, wp_mustFind.
  - by apply (ev_streams _ _ Hev).
  - intros c Hc. by apply wp_start.
Qed.

Lemma go_close_stream_ok sctx g m :
  go_wf g →
  wp (go_engine_close_stream sctx) (λ _ s,
    go_wf s.1 ∧ go_refs s.1 = go_refs g ∧ go_streams g ∖ {[sctx]} ⊆ go_streams s.1 ∧
    extends (cm_heap m) (cm_heap s.2)) (g, m).
Proof.
  intros Hg. apply wp_bind, wp_progress; [done|]. intros g1 Hev Hpend.
  apply wp_bind, wp_get. cbn [fst snd]. pose proof (evolves_refs _ _ Hev) as Hrefs.
  destruct Hev as [Hwf _ Hst]. unfold go_streams. destruct (StreamRef g1 !! sctx) as [st|].
  - apply wp_bind, wp_modify, wp_modify. cbn [fst snd].
    split_and!; [by destruct Hwf|done| |done]. simpl. rewrite dom_delete_L. set_solver.
  - apply wp_ret. split_and!; [done|done| |done]. simpl. set_solver.
Qed.

Lemma go_wait_ok timeout g m :
  go_wf g →
  wp (go_engine_wait timeout) (λ x s,
    go_wf s.1 ∧ go_refs s.1 = go_refs g ∧ go_streams g ⊆ go_streams s.1 ∧
    extends (cm_heap m) (cm_heap s.2) ∧
    ∃ rs, Forall is_task_res rs ∧ Forall (res_ok (cm_heap s.2)) rs ∧
      NoDup (res_bufs rs) ∧ Forall (λ p, cm_heap m !! p = None) (res_bufs rs) ∧
      x.2 = s32 (Z.of_nat (length rs)) ∧
      go_pending g = res_ids rs ⊎ go_pending s.1 ∧
      trusting (go_vouches : engine → Z → Prop) (go_streams : engine → gset Z) none g s.1 ∧
      (∀ r, r ∈ rs → res_type (tr_buf r) ≠ NGX_GRPC_CLIENT_RES_TYPE_ERR →
         go_vouches g (tr_task_id r) → tr_task_id r ∈ go_streams s.1) ∧
      ((rs = [] ∧ x.1 = NULL) ∨
       (rs ≠ [] ∧ x.1 ≠ NULL ∧ cm_heap m !! x.1 = None ∧ (x.1 ∉ res_bufs rs) ∧
          cm_heap s.2 !! x.1 = Some (OBuf (concat (map (record_bytes host_endian) rs))))))
    (g, m).
Proof.
  intros Hg. apply wp_bind, wp_modify. cbn [fst snd].
  pose proof (progress_evolves g Hg) as Hev. pose proof (progress_pending g) as Hpend.
  pose proof (λ k, progress_keeps k g) as Hkeep. set (g1 := progress g) in *.
  pose proof (evolves_refs _ _ Hev) as Hrefs. destruct Hev as [[Hs Ht Hr] _ Hstr].
  apply wp_bind, wp_modify, wp_bind, wp_get, wp_bind, wp_on_heap, wp_bind. cbn [fst snd].
  eapply wp_mono; [by apply encode_tasks_fresh|]. cbn beta.
  intros [buf out] m1 (Hbuf & rs & Hout & Hids & X & I1 & O1 & N1 & F1). apply wp_ret.
  cbn [fst snd] in *. apply wp_bind, wp_modify. cbn [fst snd].
  assert (Z.of_nat (length out) / 24 = Z.of_nat (length rs)) as ->.
  { rewrite Hout. simpl. rewrite length_concat_records, Nat2Z.inj_mul, Z.mul_comm.
    apply Z.div_mul. lia. }
  set (g2 := set_queue _ _). assert (go_wf g2) as Hg2 by (split; [done|by constructor|done]).
  assert (go_pending g = res_ids rs ⊎ go_pending g2) as Hpend2.
  { rewrite <- Hpend. unfold go_pending, res_ids. rewrite (stands_for_ids _ _ Hids). simpl.
    multiset_solver. }
  assert (∀ k, (go_vouches g k → go_vouches g2 k) ∧ (k ∈ go_streams g → k ∈ go_streams g2)) as Htr.
  { intros k. destruct (Hkeep k) as [_ Hv]. split; [|apply Hstr]. intros [Vr _]%Hv.
    split; [exact Vr|by intros x ?%elem_of_nil]. }
  assert (∀ r, r ∈ rs → res_type (tr_buf r) ≠ NGX_GRPC_CLIENT_RES_TYPE_ERR →
    go_vouches g (tr_task_id r) → tr_task_id r ∈ go_streams g2) as Hsay.
  { intros r Hin Hty Hv. destruct (stands_for_in _ _ _ Hids Hin) as (t & Hin' & Eid & Ety).
    apply Hkeep in Hv as [_ Vq]. by eapply (Vq t); [|symmetry|apply Ety]. }
  destruct rs as [|r rs].
  - simpl. apply wp_ret. split_and!; [done..|]. exists [].
    split_and!; try done; [by intros k _; apply Htr|by left].
  - rewrite (proj2 (Z.eqb_neq _ _)) by (simpl; lia).
    apply wp_bind, wp_on_heap, wp_C_malloc. intros p Hp Hrange _. apply wp_ret. simpl in Hout.
    split_and!; [done..| |].
    + etrans; [exact X|]. by apply extends_insert_buf.
    + exists (r :: rs). cbn [fst snd cm_heap]. split_and!; try done.
      * eapply Forall_impl; [exact O1|]. intros x Hx. eapply res_ok_mono; [exact Hx|].
        intros q b _ _ Hq. rewrite lookup_insert_ne; [done|congruence].
      * intros k _. apply Htr.
      * right. split_and!; [done|unfold NULL; lia| | |].
        -- destruct (cm_heap m !! p) as [o|] eqn:E; [|done].
           rewrite (lookup_weaken _ _ _ _ E (proj1 X)) in Hp. done.
        -- intros Hin. destruct (res_bufs_live _ _ _ O1 Hin) as (_ & b & Hb). congruence.
        -- rewrite lookup_insert_eq. by rewrite Hout.
Qed.

Lemma go_free_ok p g m :
  go_engine_free p (g, m) =
    match mem_free p m with Done _ m' => Done tt (g, m') | Crash f => Crash f end.
Proof. unfold go_engine_free, on_heap, zoom. simpl. by destruct (mem_free p m) as [[] m'|f]. Qed.

(** The other functions. *)
Lemma on_heap_pending {A} (p : M cmem A) : keeps (λ s : go_engine * cmem, go_pending s.1) (on_heap p).
Proof. by apply leads_zoom. Qed.
Lemma on_progress_pending : keeps (λ s : go_engine * cmem, go_pending s.1) (on_engine progress).
Proof. apply leads_modify. intros s. apply progress_pending. Qed.
Lemma mustFind_pending {A} (f : gmap Z A) ref :
  keeps (λ s : go_engine * cmem, go_pending s.1) (mustFind f ref).
Proof. unfold mustFind. solve_leads. Qed.
#[local] Hint Resolve on_heap_pending on_progress_pending mustFind_pending : grpc.

Lemma go_connect_pending target opt :
  keeps (λ s : go_engine * cmem, go_pending s.1) (go_connect target opt).
Proof. unfold go_connect, on_engine. solve_leads. Qed.
Lemma go_close_pending ref : keeps (λ s : go_engine * cmem, go_pending s.1) (go_close ref).
Proof. unfold go_close, on_engine. solve_leads. Qed.
Lemma go_close_stream_pending sctx :
  keeps (λ s : go_engine * cmem, go_pending s.1) (go_engine_close_stream sctx).
Proof. unfold go_engine_close_stream, on_engine. solve_leads. Qed.

(** What they do to what is said of streams. *)
Section trust.
Context (k : Z).

Definition on_fst (R : relation go_engine) : relation (go_engine * cmem) := λ s s', R s.1 s'.1.
#[local] Instance on_fst_preorder : PreOrder (on_fst (go_keeps k)).
Proof.
  split; [intros s; unfold on_fst; reflexivity|].
  intros s1 s2 s3 E1 E2. unfold on_fst in *. by etrans.
Qed.

Lemma trust_heap {A} (p : M cmem A) : leads (on_fst (go_keeps k)) (on_heap p).
Proof. apply leads_zoom. intros t s. unfold on_fst. by simpl. Qed.
Lemma trust_progress : leads (on_fst (go_keeps k)) (on_engine progress).
Proof. apply leads_modify. intros s. apply progress_keeps. Qed.
Lemma trust_mustFind {A} (f : gmap Z A) ref : leads (on_fst (go_keeps k)) (mustFind f ref).
Proof. unfold mustFind. solve_leads. Qed.
(** The references and the network do not matter. *)
Lemma trust_modify f :
  (∀ g, StreamRef (f g) = StreamRef g) → (∀ g, ge_running (f g) = ge_running g) →
  (∀ g, finishedTaskQueue (f g) = finishedTaskQueue g) →
  leads (on_fst (go_keeps k)) (on_engine f).
Proof.
  intros Es Er Eq. apply leads_modify. intros [g m]. unfold on_fst, go_keeps. cbn [fst].
  split; [by rewrite Es|]. apply vouches_grow; [by rewrite Es|intros; left; by rewrite <- Er|].
  intros; left. by rewrite <- Eq.
Qed.
#[local] Hint Resolve trust_heap trust_progress trust_mustFind : grpc.
#[local] Hint Extern 1 (leads (on_fst _) (on_engine _)) => apply trust_modify; done : grpc.

Lemma go_connect_keeps target opt : leads (on_fst (go_keeps k)) (go_connect target opt).
Proof. unfold go_connect. solve_leads. Qed.
Lemma go_close_keeps ref : leads (on_fst (go_keeps k)) (go_close ref).
Proof. unfold go_close. solve_leads. Qed.

(** A goroutine that is backed, or whose id is another. *)
Lemma start_keeps {A} (f : go_engine * cmem → gmap Z A) ref (t : A → goroutine) :
  (∀ s a, f s !! ref = Some a → goroutine_id (t a) = k → backed s.1 (t a)) →
  leads (on_fst (go_keeps k))
    (_ ← on_engine progress; s ← get; a ← mustFind (f s) ref; start (t a)).
Proof.
  intros Ht [g m] [] s'. unfold mbind, M_bind, on_engine, modify, get, mustFind. cbn [fst snd].
  destruct (f (progress g, m) !! ref) as [a|] eqn:E; [|done]. unfold mret, M_ret, start.
  intros [= <-]. unfold on_fst. cbn [fst]. etrans; [apply progress_keeps|]. split; [done|].
  apply vouches_grow; [done| |by intros; left].
  intros t' [Hin| ->%list_elem_of_singleton]%elem_of_app Ek; [by left|right].
  exact (Ht _ _ E Ek).
Qed.

Lemma go_close_stream_keeps sctx :
  k ≠ sctx → leads (on_fst (go_keeps k)) (go_engine_close_stream sctx).
Proof.
  intros Hne. unfold go_engine_close_stream. apply leads_bind; [apply _|apply trust_progress|].
  intros _. apply leads_bind; [apply _|solve_leads|]. intros s0.
  destruct (StreamRef s0.1 !! sctx); [|solve_leads].
  apply leads_bind; [apply _| |intros _; auto with grpc]. apply leads_modify. intros [g m].
  unfold on_fst. cbn [fst].
  assert (go_keeps k g (set_StreamRef (delete sctx (StreamRef g)) g)) as Hk.
  { assert (k ∈ dom (StreamRef g) → k ∈ dom (delete sctx (StreamRef g))) as Hd.
    { rewrite dom_delete_L. set_solver. }
    split; [exact Hd|]. apply vouches_grow; [exact Hd|by intros; left..]. }
  exact Hk.
Qed.
End trust.

(** A goroutine is started once others had their turn. *)
Lemma start_pending {A} (f : go_engine * cmem → gmap Z A) ref (t : A → goroutine) id :
  (∀ a, is_u64 id → goroutine_id (t a) = id) →
  leads (λ s s', adds id (go_pending s.1) (go_pending s'.1))
    (_ ← on_engine progress; s ← get; a ← mustFind (f s) ref; start (t a)).
Proof.
  intros Ht [g m] [] s'. unfold mbind, M_bind, on_engine, modify, get, mustFind. cbn [fst snd].
  destruct (f (progress g, m) !! ref) as [a|]; [|done]. unfold mret, M_ret, start.
  intros [= <-]. exists (goroutine_id (t a)). split; [apply Ht|]. rewrite <- (progress_pending g).
  unfold go_pending. simpl. rewrite map_app, list_to_set_disj_app. simpl. multiset_solver.
Qed.

Lemma go_vouches_idle g k : k ∉ go_pending g → go_vouches g k.
Proof.
  unfold go_pending. rewrite gmultiset_elem_of_disj_union, !elem_of_list_to_set_disj,
    !list_elem_of_fmap. intros Hk.
  split; [intros t Ht E|intros x Hx E]; destruct Hk; [left|right]; by eexists.
Qed.

Lemma go_trust {A} shut (m : E A) :
  (∀ k, ¬ shut k → leads (on_fst (go_keeps k)) m) →
  leads (λ s s', trusting (go_vouches : engine → Z → Prop) (go_streams : engine → gset Z) shut
    s.1 s'.1) m.
Proof. intros Hm s a s' E k Hk. destruct (Hm k Hk _ _ _ E) as [Hs Hv]. by split. Qed.

Lemma go_call_trust id ref method req opt :
  leads (λ s s', trusting (go_vouches : engine → Z → Prop) (go_streams : engine → gset Z)
    (λ k, ¬ is_u64 id ∨ k = id) s.1 s'.1) (go_engine_call id ref method req opt).
Proof.
  apply go_trust. intros k Hk.
  apply (start_keeps k (λ s, EngineCtxRef s.1) ref
    (λ c, go_call (u64 (s64 id)) c method req (call_option opt))).
  intros s a _ E. destruct Hk. simpl in E. unfold is_u64 in *.
  destruct (decide (0 ≤ id < 2 ^ 64)) as [Hu|]; [right|by left]. by rewrite <- E, u64_s64.
Qed.

Lemma go_new_stream_trust id ref method req opt type :
  leads (λ s s', trusting (go_vouches : engine → Z → Prop) (go_streams : engine → gset Z) none
    s.1 s'.1) (go_engine_new_stream id ref method req opt type).
Proof.
  apply go_trust. intros k _. apply (start_keeps k (λ s, EngineCtxRef s.1) ref
    (λ c, go_new_stream id c method req (call_option opt) type)). done.
Qed.

Lemma go_on_stream_trust sctx t :
  (∀ g st, sctx ∈ dom (StreamRef g) → backed g (t st)) →
  leads (λ s s', trusting (go_vouches : engine → Z → Prop) (go_streams : engine → gset Z) none
    s.1 s'.1) (on_stream sctx t).
Proof.
  intros Ht. apply go_trust. intros k _. apply (start_keeps k (λ s, StreamRef s.1) sctx t).
  intros s st Hst _. apply Ht. by eapply elem_of_dom_2.
Qed.

#[global] Instance go_GrpcEngineLaws : GrpcEngineLaws := {|
  engine_wf := go_wf : engine → Prop;
  engine_refs := go_refs : engine → gset Z;
  engine_streams := go_streams : engine → gset Z;
  engine_pending := go_pending : engine → gmultiset Z;
  engine_vouches := go_vouches : engine → Z → Prop;
  engine_vouches_idle := go_vouches_idle;
  engine_connect_trust := λ target opt, go_trust none _ (λ k _, go_connect_keeps k target opt);
  engine_close_trust := λ ref, go_trust none _ (λ k _, go_close_keeps k ref);
  engine_call_trust := go_call_trust;
  engine_new_stream_trust := go_new_stream_trust;
  engine_close_stream_trust := λ sctx,
    go_trust (λ k, k = sctx) _ (λ k Hk, go_close_stream_keeps k sctx Hk);
  engine_recv_trust := λ sctx, go_on_stream_trust sctx (go_recv sctx) (λ _ _ Hs, Hs);
  engine_send_trust := λ sctx req,
    go_on_stream_trust sctx (λ st, go_send sctx st req) (λ _ _ Hs, Hs);
  engine_close_send_trust := λ sctx,
    go_on_stream_trust sctx (go_close_send sctx) (λ _ _ Hs, Hs);
  engine_connect_pending := go_connect_pending;
  engine_close_pending := go_close_pending;
  engine_close_stream_pending := go_close_stream_pending;
  engine_call_pending := λ id ref method req opt,
    start_pending (λ s, EngineCtxRef s.1) ref
      (λ c, go_call (u64 (s64 id)) c method req (call_option opt)) id (λ _ Hu, u64_s64 id Hu);
  engine_new_stream_pending := λ id ref method req opt type,
    start_pending (λ s, EngineCtxRef s.1) ref
      (λ c, go_new_stream id c method req (call_option opt) type) id (λ _ _, eq_refl);
  engine_recv_pending := λ sctx,
    start_pending (λ s, StreamRef s.1) sctx (go_recv sctx) sctx (λ _ _, eq_refl);
  engine_send_pending := λ sctx req,
    start_pending (λ s, StreamRef s.1) sctx (λ st, go_send sctx st req) sctx (λ _ _, eq_refl);
  engine_close_send_pending := λ sctx,
    start_pending (λ s, StreamRef s.1) sctx (go_close_send sctx) sctx (λ _ _, eq_refl);
  engine_connect_ok := go_connect_ok;
  engine_close_ok := go_close_ok;
  engine_call_ok := go_call_ok;
  engine_new_stream_ok := go_new_stream_ok;
  engine_close_stream_ok := go_close_stream_ok;
  engine_recv_ok := λ sctx e m He Hs Hu, go_on_stream_ok sctx (go_recv sctx) e m He Hs (λ _, Hu);
  engine_send_ok := λ sctx req e m He Hs Hu,
    go_on_stream_ok sctx (λ st, go_send sctx st req) e m He Hs (λ _, Hu);
  engine_close_send_ok := λ sctx e m He Hs Hu,
    go_on_stream_ok sctx (go_close_send sctx) e m He Hs (λ _, Hu);
  engine_free_ok := go_free_ok;
  engine_wait_ok := go_wait_ok;
|}.
End laws.
