(* ===== verification/Heaps.v ===== *)
(** * Heaps that agree on some kinds of objects

    Most steps of the module change objects of one kind only: a stream, a
    connection, a buffer.  [agree P] says that two heaps hold the same objects of
    the kinds [P]; the invariant's clauses depend on a few kinds each. *)
From S2P Require Import Prelude Words Mem Wire TaskQueue Ngx World Tasks EngineSpec.

Implicit Types (P : obj → bool) (h : gmap Z obj).

Definition agree P h h' : Prop := ∀ p o, P o = true → h' !! p = Some o ↔ h !! p = Some o.

#[global] Instance agree_equivalence P : Equivalence (agree P).
Proof.
  split; [done| |].
  - intros h h' Ha p o Ho. symmetry. by apply Ha.
  - intros h1 h2 h3 H12 H23 p o Ho. rewrite (H23 p o Ho). by apply H12.
Qed.

Lemma agree_weaken P P' h h' : (∀ o, P o = true → P' o = true) → agree P' h h' → agree P h h'.
Proof. intros HP Ha p o Ho. by apply Ha, HP. Qed.

(** Only an object of another kind is replaced. *)
Lemma agree_insert P h p o :
  (∀ o', h !! p = Some o' → P o' = false) → P o = false → agree P h (<[p := o]> h).
Proof.
  intros Hp Ho q o' Hq. destruct (decide (q = p)) as [->|]; [|by rewrite lookup_insert_ne].
  rewrite lookup_insert_eq. split.
  - intros [= <-]. congruence.
  - intros Hq'%Hp. congruence.
Qed.

Lemma agree_delete P h p :
  (∀ o', h !! p = Some o' → P o' = false) → agree P h (delete p h).
Proof.
  intros Hp q o' Hq. destruct (decide (q = p)) as [->|]; [|by rewrite lookup_delete_ne].
  rewrite lookup_delete_eq. split; [done|]. intros Hq'%Hp. congruence.
Qed.

Lemma agree_at P h p o o' :
  h !! p = Some o → P o = false → h !! p = Some o' → P o' = false.
Proof. congruence. Qed.

Lemma agree_fresh P h p o' : h !! p = None → h !! p = Some o' → P o' = false.
Proof. congruence. Qed.

Lemma agree_extends P h h' : (∀ b, P (OBuf b) = false) → extends h h' → agree P h h'.
Proof.
  intros HP [Hs Hn] p o Ho. split; intros Hp; [|by eapply lookup_weaken].
  destruct (Hn _ _ Hp) as [|(_ & _ & b & ->)]; [done|]. by rewrite HP in Ho.
Qed.

#[export] Hint Resolve agree_at agree_fresh agree_extends : grpc.

(** The kinds left alone. *)
Definition but_bufs (o : obj) : bool := match o with OBuf _ => false | _ => true end.
Definition but_ctxs (o : obj) : bool := match o with OCtx _ => false | _ => true end.
Definition but_streams (o : obj) : bool := match o with OSctx _ => false | _ => true end.
Definition but_pevs (o : obj) : bool := match o with OPev _ => false | _ => true end.
Definition but_nodes (o : obj) : bool := match o with ONode _ => false | _ => true end.
Definition but_tasks (o : obj) : bool :=
  match o with OSctx _ | ONode _ => false | _ => true end.
(** [plain] objects are those a waiting coroutine does not see. *)
Definition not_plain (o : obj) : bool := match o with OBuf _ | OCtx _ => false | _ => true end.

Lemma extends_nonbuf h h' p o :
  extends h h' → (∀ b, o ≠ OBuf b) → h' !! p = Some o ↔ h !! p = Some o.
Proof.
  intros Hx Ho. apply (agree_extends but_bufs); [done..|]. destruct o; try done.
  by destruct (Ho b).
Qed.

(** ** What stays in use *)

(** Every address in use in the second heap was in use, or is a fresh one the
    allocator may return. *)
Definition in_range h h' : Prop :=
  ∀ p o, h' !! p = Some o → is_Some (h !! p) ∨ 0 < p < 2 ^ 64.

Lemma in_range_insert h p o : is_Some (h !! p) ∨ 0 < p < 2 ^ 64 → in_range h (<[p := o]> h).
Proof. intros Hp q o' [[<- _]|[_ Hq]]%lookup_insert_Some; [done|]. left. by eexists. Qed.

Lemma in_range_delete h p : in_range h (delete p h).
Proof. intros q o [_ Hq]%lookup_delete_Some. left. by eexists. Qed.

Lemma in_range_extends h h' : extends h h' → in_range h h'.
Proof. intros [_ Hn] p o [Hp|(_ & Hp & _)]%Hn; [left; by eexists|by right]. Qed.

Lemma in_range_trans h1 h2 h3 : in_range h1 h2 → in_range h2 h3 → in_range h1 h3.
Proof. intros H12 H23 p o [[o' Ho']|Hp]%H23; [by eapply H12|by right]. Qed.

(** ** The tree of ongoing tasks *)

Lemma tree_inv_agree P h h' t num :
  (∀ k, P (ONode k) = true) → (∀ s, P (OSctx s) = true) → agree P h h' →
  tree_inv_raw h t num → tree_inv_raw h' t num.
Proof.
  intros Hn Hs Ha Ht. eapply tree_inv_raw_frame; [exact Ht|..].
  - intros n k Hk. by apply Ha.
  - intros k s Hk _. exists s. split; [by apply Ha|done].
  - intros k s Hk _. exists s. split; [by apply Ha|done].
Qed.

(** A stream replaced by one with the same node. *)
Lemma tree_inv_sctx h t num k s s' :
  h !! k = Some (OSctx s) → sc_node s' = sc_node s →
  tree_inv_raw h t num → tree_inv_raw (<[k := OSctx s']> h) t num.
Proof.
  intros Hk Hn Ht. eapply tree_inv_raw_frame; [exact Ht|..].
  - intros n key Hn'. rewrite lookup_insert_ne; [done|congruence].
  - intros k1 s1 Hk1 _. destruct (decide (k1 = k)) as [->|].
    + rewrite lookup_insert_eq. exists s'. split; [done|congruence].
    + rewrite lookup_insert_ne by done. eauto.
  - intros k1 s1 Hk1 _. destruct (decide (k1 = k)) as [->|].
    + rewrite lookup_insert_eq in Hk1. exists s. split; [done|congruence].
    + rewrite lookup_insert_ne in Hk1 by done. eauto.
Qed.
