(* ===== verification/Inv.v ===== *)
(** * The invariant of a worker

    [winv] relates the heap, the queues, the tree of ongoing tasks, the
    coroutines and the engine between two calls into the module. *)
From S2P Require Import Prelude Words Mem Wire TaskQueue Ngx World Tasks EngineSpec Heaps.

Section inv.
Context `{Nginx} `{GrpcEngineLaws}.

Definition stream_at (w : world) (k : Z) (s : stream_ctx) : Prop :=
  cm_heap (w_mem w) !! k = Some (OSctx s).
Definition ctx_at (w : world) (c : Z) (x : cli_ctx) : Prop :=
  cm_heap (w_mem w) !! c = Some (OCtx x).
Definition pev_at (w : world) (q : Z) (r : task_res) : Prop :=
  cm_heap (w_mem w) !! q = Some (OPev r).

(** A stream with a task under way. *)
Definition ongoing (w : world) (k : Z) (s : stream_ctx) : Prop :=
  stream_at w k s ∧ sc_node s ≠ NULL.

(** The coroutine an ongoing stream waits in: its timer is armed for the
    stream, its cleanup handler is the module's, its request is alive, and it has
    not timed out. *)
Definition parked (w : world) (k : Z) (s : stream_ctx) : Prop :=
  sc_wait_co_ctx s ≠ NULL ∧ sc_r s ≠ NULL ∧
  (∃ c, w_cos w !! (sc_is_http s, sc_wait_co_ctx s) = Some c ∧
     co_data c = k ∧ co_cleanup c = H_grpc_cleanup ∧
     ev_timer_set (co_sleep c) = true ∧
     co_sleep_handler c = H_grpc_timeout ∧ co_sleep_data c = k) ∧
  (∃ q x, w_reqs w !! (sc_is_http s, sc_r s) = Some q ∧ rq_lctx q = Some x) ∧
  sc_state s = NGX_GRPC_CLIENT_STATE_OK.

(** What may be linked into which queue. *)
Definition elem_ok (w : world) (h : qhead) (k : Z) : Prop :=
  match h with
  | q_free c => (∃ x, ctx_at w c x) ∧ ∃ s, stream_at w k s ∧ sc_node s = NULL
  | q_opening c => (∃ x, ctx_at w c x) ∧
      ∃ s, stream_at w k s ∧ sc_parent s = c ∧
           sc_type s ≠ NGX_GRPC_CLIENT_STREAM_TYPE_UNARY
  | q_occupied | q_th_free => ∃ r, pev_at w k r
  end.

(** The results waiting in [thctx->occupied], in order. *)
Definition pev_res (w : world) (q : Z) : task_res :=
  match cm_heap (w_mem w) !! q with Some (OPev r) => r | _ => zero_task_res end.
Definition occupied_results (w : world) : list task_res :=
  map (pev_res w) (default [] (queue_of (w_qs w) q_occupied)).

(** An array of results [rs] at [arr]: a live buffer, and results whose buffers
    nobody else owns. *)
Definition array_owned (w : world) (arr : Z) (rs : list task_res) : Prop :=
  Forall (res_ok (cm_heap (w_mem w))) rs ∧
  NoDup (res_bufs (occupied_results w ++ rs)) ∧
  (∀ p, p ∈ res_bufs rs → p ∉ engine_refs (w_eng w)) ∧
  (rs ≠ [] →
     arr ≠ NULL ∧ (arr ∉ engine_refs (w_eng w)) ∧
     (arr ∉ res_bufs (occupied_results w ++ rs)) ∧
     ∃ b, cm_heap (w_mem w) !! arr = Some (OBuf b) ∧
       ∀ i r, rs !! i = Some r → read_task_res host_endian b i = Some r).

(** The array the background thread left for the event handler. *)
Definition finished_array (w : world) (rs : list task_res) : Prop :=
  Z.to_nat (th_finished_task_num (w_th w)) = length rs ∧
  array_owned w (th_finished_tasks (w_th w)) rs.

(** From the end of the thread's handler to the start of the event handler, the
    array and its length. *)
Definition th_array (th : thread_ctx) : option (Z * nat) :=
  if ev_ran (th_task_event th) && (0 <? th_finished_task_num th)
  then Some (th_finished_tasks th, Z.to_nat (th_finished_task_num th)) else None.

(** The results in that array. *)
Definition flight_results (w : world) : list task_res :=
  match th_array (w_th w) with
  | Some (arr, n) =>
      match cm_heap (w_mem w) !! arr with
      | Some (OBuf b) => omap (read_task_res host_endian b) (seq 0 n)
      | _ => []
      end
  | None => []
  end.

(** The buffers that are in flight with it. *)
Definition flight_bufs (w : world) : list Z :=
  match th_array (w_th w) with
  | Some (arr, _) => arr :: res_bufs (flight_results w)
  | None => []
  end.

Definition flight_inv (w : world) : Prop := ∀ arr n,
  th_array (w_th w) = Some (arr, n) →
  length (flight_results w) = n ∧ array_owned w arr (flight_results w).

Record winv (w : world) : Prop := {
  wi_null : cm_heap (w_mem w) !! NULL = None;
  wi_u64 p o : cm_heap (w_mem w) !! p = Some o → is_u64 p;
  wi_tree : tree_inv w;
  wi_queues : queues_wf (w_qs w);
  wi_heads c x : ctx_at w c x →
    is_Some (queue_of (w_qs w) (q_free c)) ∧ is_Some (queue_of (w_qs w) (q_opening c));
  wi_th : is_Some (queue_of (w_qs w) q_occupied) ∧ is_Some (queue_of (w_qs w) q_th_free);
  wi_elems h l k : queue_of (w_qs w) h = Some l → k ∈ l → elem_ok w h k;
  wi_parked k s : stream_at w k s → sc_node s ≠ NULL → parked w k s;
  (** an ongoing stream's connection is alive, and a stream that can be
      received from is in its connection's opening queue *)
  wi_parent k s : stream_at w k s → sc_node s ≠ NULL → ∃ x, ctx_at w (sc_parent s) x;
  wi_engine : engine_wf (w_eng w);
  wi_refs ref : ref ∈ engine_refs (w_eng w) →
    ∃ b, cm_heap (w_mem w) !! ref = Some (OBuf b);
  wi_conn c x : ctx_at w c x → cx_engine_ctx x ≠ NULL →
    cx_engine_ctx x ∈ engine_refs (w_eng w);
  wi_conn_inj c c' x x' : ctx_at w c x → ctx_at w c' x' → cx_engine_ctx x ≠ NULL →
    cx_engine_ctx x = cx_engine_ctx x' → c = c';
  (** only a closed connection waits for its streams *)
  wi_delayed c x : ctx_at w c x → cx_free_delayed x = true → cx_engine_ctx x = NULL;
  wi_results : Forall (res_ok (cm_heap (w_mem w))) (occupied_results w);
  wi_bufs : NoDup (res_bufs (occupied_results w));
  wi_bufs_refs p : p ∈ res_bufs (occupied_results w) → p ∉ engine_refs (w_eng w);
  (** what the background thread left for the event handler is untouched *)
  wi_flight : flight_inv w;
}.

(** A buffer neither the engine nor a result owns. *)
Definition spare (w : world) (p : Z) : Prop :=
  (p ∉ engine_refs (w_eng w)) ∧ (p ∉ res_bufs (occupied_results w)) ∧ (p ∉ flight_bufs w).

(** A stream in no queue that waits for nothing: what [take_sctx] hands out. *)
Definition detached (w : world) (k : Z) (s : stream_ctx) : Prop :=
  stream_at w k s ∧ sc_node s = NULL ∧ ¬ linked (w_qs w) k.

(** ** Consequences *)

Lemma winv_live_nonnull w p o : winv w → cm_heap (w_mem w) !! p = Some o → p ≠ NULL.
Proof. intros Hw Hp ->. by rewrite (wi_null _ Hw) in Hp. Qed.

Lemma winv_linked_live w k : winv w → linked (w_qs w) k → is_Some (cm_heap (w_mem w) !! k).
Proof.
  intros Hw (h & l & Hl & Hk). pose proof (wi_elems _ Hw _ _ _ Hl Hk) as He.
  destruct h; simpl in He.
  - destruct He as (_ & s & ? & _). by eexists.
  - destruct He as (_ & s & ? & _). by eexists.
  - destruct He as [r ?]. by eexists.
  - destruct He as [r ?]. by eexists.
Qed.

Lemma winv_ctx_queues w c x :
  winv w → ctx_at w c x →
  ∃ lf lo, queue_of (w_qs w) (q_free c) = Some lf ∧ queue_of (w_qs w) (q_opening c) = Some lo.
Proof. intros Hw Hc. destruct (wi_heads _ Hw _ _ Hc) as [[lf ?] [lo ?]]. eauto. Qed.

(** A stream that is ongoing and unary is in no queue. *)
Lemma winv_unary_unlinked w k s :
  winv w → stream_at w k s → sc_node s ≠ NULL →
  sc_type s = NGX_GRPC_CLIENT_STREAM_TYPE_UNARY → ¬ linked (w_qs w) k.
Proof.
  intros Hw Hs Hn Ht (h & l & Hl & Hk). pose proof (wi_elems _ Hw _ _ _ Hl Hk) as He.
  unfold stream_at in Hs. destruct h; simpl in He; unfold stream_at, pev_at in He.
  - destruct He as (_ & s' & Hs' & _ & ?). congruence.
  - destruct He as (_ & s' & Hs' & ?). congruence.
  - destruct He as [r ?]. congruence.
  - destruct He as [r ?]. congruence.
Qed.

Lemma winv_stream_res w q r k s :
  pev_at w q r → stream_at w k s → q ≠ k.
Proof. unfold pev_at, stream_at. intros ?? ->. congruence. Qed.
End inv.

(** ** Frames

    [winv] depends on the heap only through the typed objects; most steps of the
    module change one stream, or add objects. *)
Section frames.
Context `{NginxLaws} `{GrpcEngineLaws}.
Implicit Types w : world.

(** Two states that agree on everything but the heap, and whose heaps agree
    on the connections, the posted events, the nodes, and on the streams up to
    what the invariant says of them. *)
Lemma pev_res_ext w w' q :
  (∀ r, pev_at w q r → pev_at w' q r) → (∃ r, pev_at w q r) → pev_res w' q = pev_res w q.
Proof.
  intros Hr (r & Hq). pose proof (Hr _ Hq) as Hq'. unfold pev_at in *. unfold pev_res.
  by rewrite Hq, Hq'.
Qed.

Lemma occupied_results_ext w w' :
  winv w → queue_of (w_qs w') q_occupied = queue_of (w_qs w) q_occupied →
  (∀ q r, pev_at w q r → pev_at w' q r) →
  occupied_results w' = occupied_results w.
Proof.
  intros Hw Hq Hr. unfold occupied_results. rewrite Hq.
  destruct (queue_of (w_qs w) q_occupied) as [l|] eqn:E; [|done]. simpl.
  apply map_ext_in. intros q Hin. apply pev_res_ext; [auto|].
  apply (wi_elems _ Hw q_occupied l); [done|]. by apply list_elem_of_In.
Qed.

(** *** The array in flight *)
Lemma th_array_pos th arr n : th_array th = Some (arr, n) → (0 < n)%nat.
Proof.
  unfold th_array. destruct (ev_ran _); [|done]. simpl.
  destruct (Z.ltb_spec 0 (th_finished_task_num th)); [|done]. intros [= _ <-]. lia.
Qed.

Lemma flight_none w : th_array (w_th w) = None → flight_inv w ∧ flight_results w = [].
Proof. intros E. unfold flight_inv, flight_results. by rewrite E. Qed.

Lemma array_owned_frame w w' arr rs :
  occupied_results w' = occupied_results w →
  (∀ p b, p ∈ arr :: res_bufs rs → cm_heap (w_mem w) !! p = Some (OBuf b) →
     cm_heap (w_mem w') !! p = Some (OBuf b)) →
  (∀ p b, p ∈ arr :: res_bufs rs → cm_heap (w_mem w) !! p = Some (OBuf b) →
     p ∉ engine_refs (w_eng w) → p ∉ engine_refs (w_eng w')) →
  array_owned w arr rs → array_owned w' arr rs.
Proof.
  intros Hocc Hh Hr (Hok & Hnd & Hrefs & Harr). unfold array_owned. rewrite Hocc.
  split_and!; [|done| |].
  - eapply results_mono; [done|]. intros p b Hp Hb. apply Hh; [by right|done].
  - intros p Hp. destruct (res_bufs_live _ _ _ Hok Hp) as (_ & b & Hb).
    apply (Hr p b); [by right|done|by apply Hrefs].
  - intros Hne. destruct (Harr Hne) as (? & ? & ? & b & Hb & ?).
    split_and!; [done|apply (Hr arr b); [by left|done|done]|done|].
    exists b. split; [|done]. apply Hh; [by left|done].
Qed.

(** Buffers in flight that are left alone hold the same results. *)
Lemma flight_results_eq w w' :
  flight_inv w → th_array (w_th w') = th_array (w_th w) →
  (∀ p b, p ∈ flight_bufs w → cm_heap (w_mem w) !! p = Some (OBuf b) →
     cm_heap (w_mem w') !! p = Some (OBuf b)) →
  flight_results w' = flight_results w.
Proof.
  intros Hf Et Hh. unfold flight_results, flight_bufs in *. rewrite Et.
  destruct (th_array (w_th w)) as [[arr n]|] eqn:Ea; [|done].
  destruct (Hf _ _ Ea) as [Hn (_ & _ & _ & Harr)]. pose proof (th_array_pos _ _ _ Ea).
  destruct Harr as (_ & _ & _ & b & Hb & _).
  { intros E. rewrite E in Hn. simpl in Hn. lia. }
  by rewrite Hb, (Hh arr b (list_elem_of_here _ _) Hb).
Qed.

(** A step that leaves the buffers in flight alone. *)
Lemma flight_frame w w' :
  flight_inv w → th_array (w_th w') = th_array (w_th w) →
  occupied_results w' = occupied_results w →
  (∀ p b, p ∈ flight_bufs w → cm_heap (w_mem w) !! p = Some (OBuf b) →
     cm_heap (w_mem w') !! p = Some (OBuf b)) →
  (∀ p b, p ∈ flight_bufs w → cm_heap (w_mem w) !! p = Some (OBuf b) →
     p ∉ engine_refs (w_eng w) → p ∉ engine_refs (w_eng w')) →
  flight_inv w' ∧ flight_results w' = flight_results w.
Proof.
  intros Hf Ht Hocc Hh Hr. pose proof (flight_results_eq _ _ Hf Ht Hh) as E.
  split; [|done]. intros arr n Ea. rewrite E. rewrite Ht in Ea.
  destruct (Hf _ _ Ea) as [Hn Hown]. split; [done|]. unfold flight_bufs in *. rewrite Ea in *.
  by apply (array_owned_frame w).
Qed.

Lemma flight_bufs_live w p :
  flight_inv w → p ∈ flight_bufs w →
  p ≠ NULL ∧ (p ∉ engine_refs (w_eng w)) ∧ (p ∉ res_bufs (occupied_results w)) ∧
  ∃ b, cm_heap (w_mem w) !! p = Some (OBuf b).
Proof.
  intros Hf. unfold flight_bufs. destruct (th_array (w_th w)) as [[arr n]|] eqn:Ea; [|set_solver].
  destruct (Hf _ _ Ea) as [Hn (Hok & Hnd & Hrefs & Harr)]. pose proof (th_array_pos _ _ _ Ea).
  unfold res_bufs in Hnd. rewrite map_app, filter_app in Hnd.
  apply NoDup_app in Hnd as (_ & Hdis & _).
  intros [->|Hp]%elem_of_cons.
  - destruct Harr as (? & ? & Ha & b & Hb & _).
    { intros E. rewrite E in Hn. simpl in Hn. lia. }
    split_and!; [done..| |by exists b]. unfold res_bufs in *.
    rewrite map_app, filter_app in Ha. set_solver.
  - destruct (res_bufs_live _ _ _ Hok Hp) as (? & b & Hb).
    split_and!; [done|by apply Hrefs| |by exists b]. intros Hp'. by apply (Hdis p).
Qed.

Lemma flight_frame_del w w' p :
  flight_inv w → th_array (w_th w') = th_array (w_th w) →
  occupied_results w' = occupied_results w → p ∉ flight_bufs w →
  (∀ q b, q ≠ p → cm_heap (w_mem w) !! q = Some (OBuf b) →
     cm_heap (w_mem w') !! q = Some (OBuf b)) →
  engine_refs (w_eng w') ⊆ engine_refs (w_eng w) →
  flight_inv w' ∧ flight_results w' = flight_results w.
Proof.
  intros Hf Ht Hocc Hp Hh Hr. apply flight_frame; [done..| |].
  - intros q b Hq. apply Hh. by intros ->.
  - set_solver.
Qed.

(** *** What the invariant does not look at *)
Lemma winv_irrelevant w w' :
  cm_heap (w_mem w') = cm_heap (w_mem w) → w_qs w' = w_qs w → w_tree w' = w_tree w →
  w_num w' = w_num w → w_reqs w' = w_reqs w → w_cos w' = w_cos w → w_eng w' = w_eng w →
  th_array (w_th w') = th_array (w_th w) → winv w → winv w'.
Proof.
  intros Eh Eq Et En Er Ec Ee Ea Hw.
  assert (flight_inv w') as Hf.
  { eapply flight_frame; [apply Hw|done|unfold occupied_results, pev_res; by rewrite Eh, Eq|..].
    - intros p b _. by rewrite Eh.
    - by rewrite Ee. }
  revert Hf. clear Ea. destruct w as [[h q]], w' as [[h' q']]; simpl in *. subst.
  destruct Hw. split; assumption.
Qed.

(** *** What is linked stays fit for its queue *)

(** What a queue asks of a stream that is linked into it. *)
Definition queue_fits (h : qhead) (s : stream_ctx) : Prop :=
  match h with
  | q_free _ => sc_node s = NULL
  | q_opening c => sc_parent s = c ∧ sc_type s ≠ NGX_GRPC_CLIENT_STREAM_TYPE_UNARY
  | q_occupied | q_th_free => True
  end.

Lemma elem_ok_change w w' h k :
  (∀ c x, h = q_free c ∨ h = q_opening c → ctx_at w c x → ∃ x', ctx_at w' c x') →
  (∀ r, pev_at w k r → ∃ r', pev_at w' k r') →
  (∀ s, stream_at w k s → queue_fits h s → ∃ s', stream_at w' k s' ∧ queue_fits h s') →
  elem_ok w h k → elem_ok w' h k.
Proof.
  intros Hc Hp Hs. destruct h as [c|c| |]; simpl in *.
  1, 2: intros ([x Hx] & s & Hk & Hf); split; [eapply Hc; eauto|by eapply Hs].
  all: intros [r Hr]; by eapply Hp.
Qed.

(** The streams and the posted events are the same. *)
Lemma elem_ok_agree P w w' h k :
  (∀ s, P (OSctx s) = true) → (∀ r, P (OPev r) = true) →
  agree P (cm_heap (w_mem w)) (cm_heap (w_mem w')) →
  (∀ c x, h = q_free c ∨ h = q_opening c → ctx_at w c x → ∃ x', ctx_at w' c x') →
  elem_ok w h k → elem_ok w' h k.
Proof.
  intros Hs Hp Ha Hc. apply elem_ok_change; [done|..].
  - intros r Hr. exists r. by apply Ha.
  - intros s Hk Hf. exists s. split; [by apply Ha|done].
Qed.

(** *** Changing the heap under unchanged queues and engine *)
Lemma winv_in_range w w' :
  winv w → in_range (cm_heap (w_mem w)) (cm_heap (w_mem w')) →
  cm_heap (w_mem w') !! NULL = None ∧ ∀ p o, cm_heap (w_mem w') !! p = Some o → is_u64 p.
Proof.
  intros Hw Hr. split.
  - destruct (_ !! NULL) as [o|] eqn:E; [|done]. destruct (Hr _ _ E) as [[o' Ho]|];
      [by rewrite (wi_null _ Hw) in Ho|unfold NULL in *; lia].
  - intros p o [[o' Ho]|]%Hr; [by eapply (wi_u64 _ Hw)|unfold is_u64; lia].
Qed.

Lemma winv_heap_change w w' :
  winv w → w_qs w' = w_qs w → w_eng w' = w_eng w → th_array (w_th w') = th_array (w_th w) →
  in_range (cm_heap (w_mem w)) (cm_heap (w_mem w')) →
  tree_inv w' →
  (∀ c x, ctx_at w' c x → ctx_at w c x) →
  occupied_results w' = occupied_results w →
  (∀ p b, cm_heap (w_mem w) !! p = Some (OBuf b) → cm_heap (w_mem w') !! p = Some (OBuf b)) →
  (∀ h l x, queue_of (w_qs w) h = Some l → x ∈ l → elem_ok w' h x) →
  (∀ k s, stream_at w' k s → sc_node s ≠ NULL →
     parked w' k s ∧ ∃ x, ctx_at w' (sc_parent s) x) →
  winv w'.
Proof.
  intros Hw Hqs He Ha Hrange Htree Hctx Hocc Hbuf Helem Hst.
  destruct (winv_in_range _ _ Hw Hrange) as [Hnull Hu].
  split; rewrite ?Hqs, ?He, ?Hocc; try apply Hw; try done.
  - intros c x Hc. by eapply (wi_heads _ Hw), Hctx.
  - intros k s Hk Hn. by destruct (Hst k s Hk Hn).
  - intros k s Hk Hn. by destruct (Hst k s Hk Hn).
  - intros ref Hr. destruct (wi_refs _ Hw _ Hr) as [b Hb]. eauto.
  - intros c x Hc. by apply (wi_conn _ Hw c), Hctx.
  - intros c c' x x' Hc Hc'. eapply (wi_conn_inj _ Hw); by apply Hctx.
  - intros c x Hc. by apply (wi_delayed _ Hw c), Hctx.
  - eapply results_mono; [apply Hw|]. eauto.
  - eapply flight_frame; [apply Hw|done|done|eauto|]. by rewrite He.
Qed.

(** The connections, the posted events and the buffers are the same. *)
Lemma winv_heap_intro P w w' :
  winv w → w_qs w' = w_qs w → w_eng w' = w_eng w → th_array (w_th w') = th_array (w_th w) →
  in_range (cm_heap (w_mem w)) (cm_heap (w_mem w')) →
  tree_inv w' →
  (∀ r, P (OPev r) = true) → (∀ b, P (OBuf b) = true) →
  agree P (cm_heap (w_mem w)) (cm_heap (w_mem w')) →
  (∀ c x, ctx_at w' c x → ctx_at w c x) →
  (∀ h l x, queue_of (w_qs w) h = Some l → x ∈ l → elem_ok w' h x) →
  (∀ k s, stream_at w' k s → sc_node s ≠ NULL →
     parked w' k s ∧ ∃ x, ctx_at w' (sc_parent s) x) →
  winv w'.
Proof.
  intros Hw Hqs He Ht Hrange Htree Hpev Hbuf Ha Hctx Helem Hst.
  apply (winv_heap_change w); try done.
  - apply occupied_results_ext; [done|by rewrite Hqs|]. intros q r Hq. by apply Ha.
  - intros p b Hp. by apply Ha.
Qed.

(** The heap is the same, and the coroutines that wait go on waiting. *)
Lemma winv_same_heap w w' :
  winv w → cm_heap (w_mem w') = cm_heap (w_mem w) → w_qs w' = w_qs w → w_eng w' = w_eng w →
  w_tree w' = w_tree w → w_num w' = w_num w → th_array (w_th w') = th_array (w_th w) →
  (∀ k s, ongoing w k s → parked w k s → parked w' k s) → winv w'.
Proof.
  intros Hw Hh Hqs He Ht Hn Hta Hp.
  assert (∀ P, agree P (cm_heap (w_mem w)) (cm_heap (w_mem w'))) as Ha by by rewrite Hh.
  apply (winv_heap_intro (λ _, true) w); try done; unfold tree_inv, ctx_at, stream_at;
    rewrite ?Hh, ?Ht, ?Hn; try apply Hw; try done.
  - intros p o Hp'. left. by eexists.
  - intros h l x Hl Hx. eapply (elem_ok_agree (λ _, true) w); [done..| |by eapply (wi_elems _ Hw)].
    intros c y _ Hc. exists y. by apply (Ha (λ _, true) c (OCtx y) eq_refl).
  - intros k s Hk Hs. split; [|by eapply (wi_parent _ Hw)].
    apply Hp; [done|by apply (wi_parked _ Hw)].
Qed.

(** Everything but one object is the same. *)
Definition heap_upd (k : Z) (o : obj) w : world :=
  set_mem (heap_set (<[k := o]> (cm_heap (w_mem w))) (w_mem w)) w.

Lemma wp_w_upd_sctx k s f (Q : unit → world → Prop) w :
  k ≠ NULL → stream_at w k s → Q tt (heap_upd k (OSctx (f s)) w) →
  wp (mem (upd_sctx k f)) Q w.
Proof. intros. apply wp_mem. by eapply wp_upd_sctx. Qed.
Lemma wp_w_upd_ctx c x f (Q : unit → world → Prop) w :
  c ≠ NULL → ctx_at w c x → Q tt (heap_upd c (OCtx (f x)) w) →
  wp (mem (upd_ctx c f)) Q w.
Proof. intros. apply wp_mem. by eapply wp_upd_ctx. Qed.

Lemma heap_upd_ne k o w p : p ≠ k → cm_heap (w_mem (heap_upd k o w)) !! p = cm_heap (w_mem w) !! p.
Proof. intros Hp. simpl. by rewrite lookup_insert_ne. Qed.

Lemma heap_upd_twice k o o' w : heap_upd k o (heap_upd k o' w) = heap_upd k o w.
Proof. unfold heap_upd, set_mem, heap_set. simpl. by rewrite insert_insert_eq. Qed.

(** Changing one stream, and the nodes of the tree with it. *)
Lemma winv_stream_change h w w' k s s' :
  winv w → stream_at w k s → agree but_nodes (cm_heap (w_mem w)) h →
  in_range (cm_heap (w_mem w)) h → cm_heap (w_mem w') = <[k := OSctx s']> h →
  w_qs w' = w_qs w → w_eng w' = w_eng w → th_array (w_th w') = th_array (w_th w) →
  tree_inv w' →
  (∀ q l, queue_of (w_qs w) q = Some l → k ∈ l → queue_fits q s → queue_fits q s') →
  (∀ k1 s1, k1 ≠ k → stream_at w k1 s1 → sc_node s1 ≠ NULL → parked w' k1 s1) →
  (sc_node s' ≠ NULL → parked w' k s' ∧ ∃ x, ctx_at w (sc_parent s') x) →
  winv w'.
Proof.
  intros Hw Hs Hn Hrange Hh Hqs He Hta Htree Hfits Hoth Hself.
  assert (h !! k = Some (OSctx s)) as Hk by by apply Hn.
  assert (agree but_tasks (cm_heap (w_mem w)) (cm_heap (w_mem w'))) as Ha.
  { rewrite Hh. trans h; [by eapply agree_weaken; [|exact Hn]; intros []|].
    apply agree_insert; [eauto with grpc|done]. }
  assert (∀ c x, ctx_at w' c x ↔ ctx_at w c x) as Hctx.
  { intros c x. apply (Ha c (OCtx x) eq_refl). }
  assert (∀ p s1, p ≠ k → stream_at w' p s1 ↔ stream_at w p s1) as Hst.
  { intros p s1 Hp. unfold stream_at. rewrite Hh, lookup_insert_ne by done. by apply Hn. }
  assert (stream_at w' k s') as Hk' by (unfold stream_at; rewrite Hh; apply lookup_insert_eq).
  apply (winv_heap_intro but_tasks w); try done.
  - rewrite Hh. eapply in_range_trans; [done|]. apply in_range_insert. left. by eexists.
  - intros c x. apply Hctx.
  - intros q l x Hl Hx. eapply elem_ok_change; [| | |by eapply (wi_elems _ Hw)].
    + intros c y _ Hc. exists y. by apply Hctx.
    + intros r Hr. exists r. by apply (Ha x (OPev r) eq_refl).
    + intros s1 Hs1 Hf. destruct (decide (x = k)) as [->|].
      * exists s'. split; [done|]. apply (Hfits q l); [done..|].
        unfold stream_at in *. by simplify_eq.
      * exists s1. split; [|done]. by apply Hst.
  - intros k1 s1 Hk1 Hn1. destruct (decide (k1 = k)) as [->|].
    + unfold stream_at in *. simplify_eq. destruct (Hself Hn1) as [? [x ?]].
      split; [done|]. exists x. by apply Hctx.
    + apply Hst in Hk1; [|done]. split; [by apply Hoth|].
      destruct (wi_parent _ Hw _ _ Hk1 Hn1) as [x ?]. exists x. by apply Hctx.
Qed.

(** Changing one stream that waits for nothing. *)
Lemma winv_upd_idle w k s s' :
  winv w → stream_at w k s → sc_node s = NULL → sc_node s' = NULL →
  (∀ c l, queue_of (w_qs w) (q_opening c) = Some l → k ∈ l → queue_fits (q_opening c) s') →
  winv (heap_upd k (OSctx s') w).
Proof.
  intros Hw Hs Hn Hn' Hop. eapply (winv_stream_change (cm_heap (w_mem w)) w); try done.
  - intros p o Ho. left. by eexists.
  - eapply tree_inv_sctx; [done|congruence|apply Hw].
  - intros q l Hl Hk _. destruct q; try done. by eapply Hop.
  - intros k1 s1 _ Hk1 Hn1. by apply (wi_parked _ Hw).
Qed.

(** *** Changing only connections *)
Lemma winv_ctxs_change w w' :
  winv w → w_qs w' = w_qs w → w_tree w' = w_tree w → w_num w' = w_num w →
  w_reqs w' = w_reqs w → w_cos w' = w_cos w → w_eng w' = w_eng w →
  th_array (w_th w') = th_array (w_th w) →
  in_range (cm_heap (w_mem w)) (cm_heap (w_mem w')) →
  agree but_ctxs (cm_heap (w_mem w)) (cm_heap (w_mem w')) →
  (∀ c x, ctx_at w c x → ∃ x', ctx_at w' c x') →
  (∀ c x, ctx_at w' c x →
     is_Some (queue_of (w_qs w) (q_free c)) ∧ is_Some (queue_of (w_qs w) (q_opening c)) ∧
     (cx_engine_ctx x ≠ NULL → cx_engine_ctx x ∈ engine_refs (w_eng w)) ∧
     (cx_free_delayed x = true → cx_engine_ctx x = NULL)) →
  (∀ c c' x x', ctx_at w' c x → ctx_at w' c' x' → cx_engine_ctx x ≠ NULL →
     cx_engine_ctx x = cx_engine_ctx x' → c = c') →
  winv w'.
Proof.
  intros Hw Hqs Ht Hn Hreq Hco He Hta Hrange Ha Hfw Hctx Hinj.
  destruct (winv_in_range _ _ Hw Hrange) as [Hnull Hu].
  assert (∀ p b, cm_heap (w_mem w) !! p = Some (OBuf b) →
    cm_heap (w_mem w') !! p = Some (OBuf b)) as Hbuf by (intros; by apply Ha).
  assert (occupied_results w' = occupied_results w) as Hocc.
  { apply occupied_results_ext; [done|by rewrite Hqs|]. intros q r Hq. by apply Ha. }
  assert (∀ k s, stream_at w' k s → stream_at w k s) as Hst.
  { intros k s Hk. by apply (Ha k (OSctx s) eq_refl). }
  split; rewrite ?Hqs, ?He, ?Hocc; try apply Hw; try done.
  - unfold tree_inv. rewrite Ht, Hn. by eapply (tree_inv_agree but_ctxs); [..|apply Hw].
  - intros c x Hc. by destruct (Hctx c x Hc) as (? & ? & _).
  - intros h l k Hl Hk. eapply (elem_ok_agree but_ctxs); [done..| |by eapply (wi_elems _ Hw)].
    intros c x _. apply Hfw.
  - intros k s Hk%Hst Hk'. pose proof (wi_parked _ Hw _ _ Hk Hk') as Hp. unfold parked.
    by rewrite Hco, Hreq.
  - intros k s Hk%Hst Hk'. destruct (wi_parent _ Hw _ _ Hk Hk') as [x Hx]. by eapply Hfw.
  - intros ref Href. destruct (wi_refs _ Hw _ Href) as [b Hb]. eauto.
  - intros c x Hc. by destruct (Hctx c x Hc) as (_ & _ & ? & _).
  - intros c x Hc. by destruct (Hctx c x Hc) as (_ & _ & _ & ?).
  - eapply results_mono; [apply Hw|]. eauto.
  - eapply flight_frame; [apply Hw|done|done|eauto|]. by rewrite He.
Qed.

(** *** Changing only buffers, and the engine's state *)
Lemma winv_bufs_change w w' :
  winv w → w_qs w' = w_qs w → w_tree w' = w_tree w → w_num w' = w_num w →
  w_reqs w' = w_reqs w → w_cos w' = w_cos w → th_array (w_th w') = th_array (w_th w) →
  in_range (cm_heap (w_mem w)) (cm_heap (w_mem w')) →
  agree but_bufs (cm_heap (w_mem w)) (cm_heap (w_mem w')) →
  engine_wf (w_eng w') →
  (∀ ref, ref ∈ engine_refs (w_eng w') → ∃ b, cm_heap (w_mem w') !! ref = Some (OBuf b)) →
  (∀ c x, ctx_at w c x → cx_engine_ctx x ≠ NULL → cx_engine_ctx x ∈ engine_refs (w_eng w')) →
  (∀ p b, p ∈ res_bufs (occupied_results w) ∨ p ∈ flight_bufs w →
     cm_heap (w_mem w) !! p = Some (OBuf b) → p ∉ engine_refs (w_eng w) →
     cm_heap (w_mem w') !! p = Some (OBuf b) ∧ p ∉ engine_refs (w_eng w')) →
  winv w'.
Proof.
  intros Hw Hqs Ht Hn Hreq Hco Hta Hrange Ha Hwf Hrefs Hconn Hown.
  destruct (winv_in_range _ _ Hw Hrange) as [Hnull Hu].
  assert (occupied_results w' = occupied_results w) as Hocc.
  { apply occupied_results_ext; [done|by rewrite Hqs|]. intros q r Hq. by apply Ha. }
  assert (∀ c x, ctx_at w' c x → ctx_at w c x) as Hctx.
  { intros c x Hc. by apply (Ha c (OCtx x) eq_refl). }
  assert (∀ c x, ctx_at w c x → ctx_at w' c x) as Hfw.
  { intros c x Hc. by apply (Ha c (OCtx x) eq_refl). }
  assert (∀ k s, stream_at w' k s → stream_at w k s) as Hst.
  { intros k s Hk. by apply (Ha k (OSctx s) eq_refl). }
  split; rewrite ?Hqs, ?Hocc; try apply Hw; try done.
  - unfold tree_inv. rewrite Ht, Hn. by eapply (tree_inv_agree but_bufs); [..|apply Hw].
  - intros c x Hc. by eapply (wi_heads _ Hw), Hctx.
  - intros h l k Hl Hk. eapply (elem_ok_agree but_bufs); [done..| |by eapply (wi_elems _ Hw)].
    eauto.
  - intros k s Hk%Hst Hk'. pose proof (wi_parked _ Hw _ _ Hk Hk') as Hp. unfold parked.
    by rewrite Hco, Hreq.
  - intros k s Hk%Hst Hk'. destruct (wi_parent _ Hw _ _ Hk Hk') as [x Hx]. eauto.
  - intros c x Hc. by apply (Hconn c), Hctx.
  - intros c c' x x' Hc Hc'. eapply (wi_conn_inj _ Hw); by apply Hctx.
  - intros c x Hc. by apply (wi_delayed _ Hw c), Hctx.
  - eapply results_mono; [apply Hw|]. intros p b Hp Hb.
    eapply Hown; [by left|done|by apply (wi_bufs_refs _ Hw)].
  - intros p Hp. destruct (res_bufs_live _ _ _ (wi_results _ Hw) Hp) as (_ & b & Hb).
    eapply Hown; [by left|done|by apply (wi_bufs_refs _ Hw)].
  - eapply flight_frame; [apply Hw|done|done|..]; intros p b Hp Hb; [|intros Hr];
      apply (Hown p b); auto; by eapply flight_bufs_live; [apply Hw|].
Qed.
End frames.

(** ** What the main thread sees of a step

    [calm]: the results posted and in flight are as they were, and so are the buffers
    they point to; [steady]: the tasks under way too. *)
Section steady.
Context `{NginxLaws} `{GrpcEngineLaws}.
Implicit Types w : world.

(** The buffers of the results that are posted and in flight hold what they held. *)
Definition data_kept w w' : Prop := ∀ p b,
  p ∈ res_bufs (occupied_results w ++ flight_results w) →
  cm_heap (w_mem w) !! p = Some (OBuf b) → cm_heap (w_mem w') !! p = Some (OBuf b).

Definition untouched w w' : Prop := flight_results w' = flight_results w ∧ data_kept w w'.

Lemma res_bufs_pevs w w' p :
  queue_of (w_qs w') q_occupied = queue_of (w_qs w) q_occupied →
  (∀ q r, pev_at w q r → pev_at w' q r) →
  p ∈ res_bufs (occupied_results w) → p ∈ res_bufs (occupied_results w').
Proof.
  intros Eq Hp. unfold res_bufs, occupied_results. rewrite Eq.
  rewrite !list_elem_of_filter. intros [Hn Hin]. split; [done|]. revert Hin.
  rewrite !map_map, !list_elem_of_fmap. intros (q & -> & Hq). exists q. split; [|done].
  unfold pev_res in *. destruct (cm_heap (w_mem w) !! q) as [[| | |r|]|] eqn:E; try done.
  by rewrite (Hp q r E).
Qed.

Lemma untouched_trans w1 w2 w3 :
  (∀ p, p ∈ res_bufs (occupied_results w1) → p ∈ res_bufs (occupied_results w2)) →
  untouched w1 w2 → untouched w2 w3 → untouched w1 w3.
Proof.
  intros Hocc [F1 D1] [F2 D2]. split; [congruence|]. intros p b Hp Hb.
  apply D2; [|by apply D1]. rewrite F1. unfold res_bufs in *. rewrite map_app, filter_app in *.
  apply elem_of_app in Hp as [Hp|Hp]; apply elem_of_app; [left; by apply Hocc|by right].
Qed.

Record calm w w' : Prop := {
  cm_occ : queue_of (w_qs w') q_occupied = queue_of (w_qs w) q_occupied;
  cm_pev q r : pev_at w q r → pev_at w' q r;
  cm_flight : untouched w w';
}.

Lemma untouched_refl w : untouched w w.
Proof. by split; [|intros p b]. Qed.

#[global] Instance calm_refl : Reflexive calm.
Proof. split; [done|done|apply untouched_refl]. Qed.

#[global] Instance calm_trans : Transitive calm.
Proof.
  intros w1 w2 w3 [E1 P1 F1] [E2 P2 F2]. split; [congruence|auto|].
  apply (untouched_trans w1 w2); [|done..]. intros p. by apply res_bufs_pevs.
Qed.

Lemma calm_results w w' : winv w → calm w w' → occupied_results w' = occupied_results w.
Proof. intros Hw [Hq Hp _]. by apply occupied_results_ext. Qed.

Lemma untouched_same w w' :
  th_array (w_th w') = th_array (w_th w) → cm_heap (w_mem w') = cm_heap (w_mem w) →
  untouched w w'.
Proof.
  intros Et Eh. split; [unfold flight_results; by rewrite Et, Eh|]. intros p b _. by rewrite Eh.
Qed.

(** Changes to objects other than buffers. *)
Lemma untouched_bufs w w' :
  th_array (w_th w') = th_array (w_th w) →
  (∀ p b, cm_heap (w_mem w') !! p = Some (OBuf b) ↔ cm_heap (w_mem w) !! p = Some (OBuf b)) →
  untouched w w'.
Proof.
  intros Et Hh. split; [|intros p b _ Hb; by apply Hh]. unfold flight_results. rewrite Et.
  destruct (th_array (w_th w)) as [[arr n]|]; [|done].
  destruct (cm_heap (w_mem w) !! arr) as [[b| | | |]|] eqn:E;
    [by rewrite (proj2 (Hh arr b) E)|..];
    destruct (cm_heap (w_mem w') !! arr) as [[b| | | |]|] eqn:E'; try done;
    apply Hh in E'; congruence.
Qed.

Lemma winv_untouched w w' :
  winv w → th_array (w_th w') = th_array (w_th w) →
  (∀ p b, cm_heap (w_mem w) !! p = Some (OBuf b) → cm_heap (w_mem w') !! p = Some (OBuf b)) →
  untouched w w'.
Proof.
  intros Hw Et Hh. split; [|intros p b _; apply Hh].
  apply flight_results_eq; [apply Hw|done|]. intros p b _. apply Hh.
Qed.

Lemma flight_bufs_same w w' :
  th_array (w_th w') = th_array (w_th w) → flight_results w' = flight_results w →
  flight_bufs w' = flight_bufs w.
Proof. intros Et Ef. unfold flight_bufs. by rewrite Et, Ef. Qed.

Lemma spare_same w w' p :
  engine_refs (w_eng w') = engine_refs (w_eng w) →
  occupied_results w' = occupied_results w → th_array (w_th w') = th_array (w_th w) →
  flight_results w' = flight_results w → spare w p → spare w' p.
Proof.
  intros Er Eo Et Ef. unfold spare. by rewrite Er, Eo, (flight_bufs_same _ _ Et Ef).
Qed.

Lemma res_bufs_flight w p : p ∈ res_bufs (flight_results w) → p ∈ flight_bufs w.
Proof.
  unfold flight_bufs. intros Hp. destruct (th_array (w_th w)) as [[arr n]|] eqn:E; [by right|].
  by rewrite (proj2 (flight_none w E)) in Hp.
Qed.

Lemma winv_untouched_del w w' p :
  winv w → th_array (w_th w') = th_array (w_th w) → p ∉ flight_bufs w →
  p ∉ res_bufs (occupied_results w) →
  (∀ q b, q ≠ p → cm_heap (w_mem w) !! q = Some (OBuf b) →
     cm_heap (w_mem w') !! q = Some (OBuf b)) →
  untouched w w'.
Proof.
  intros Hw Et Hp Ho Hh. split.
  - apply flight_results_eq; [apply Hw|done|]. intros q b Hq. apply Hh. by intros ->.
  - intros q b Hq. apply Hh. intros ->. unfold res_bufs in Hq. rewrite map_app, filter_app in Hq.
    apply elem_of_app in Hq as [Hq|Hq]; [by apply Ho|by apply Hp, res_bufs_flight].
Qed.

Definition steady w w' : Prop :=
  calm w w' ∧ ∀ p s, ongoing w' p s ↔ ongoing w p s.

#[global] Instance steady_refl : Reflexive steady.
Proof. intros w. by split. Qed.

#[global] Instance steady_trans : Transitive steady.
Proof.
  intros w1 w2 w3 [C1 O1] [C2 O2]. split; [by trans w2|]. intros p s. by rewrite O2, O1.
Qed.

Lemma calm_same w w' :
  w_qs w' = w_qs w → cm_heap (w_mem w') = cm_heap (w_mem w) →
  th_array (w_th w') = th_array (w_th w) → calm w w'.
Proof.
  intros Eq Eh Et. split; [by rewrite Eq|unfold pev_at; by rewrite Eh|by apply untouched_same].
Qed.

Lemma steady_objs w w' :
  queue_of (w_qs w') q_occupied = queue_of (w_qs w) q_occupied →
  agree not_plain (cm_heap (w_mem w)) (cm_heap (w_mem w')) →
  untouched w w' → steady w w'.
Proof.
  intros Hq Ho Hf. split; [split; [done| |done]|].
  - intros q r Hr. by apply (Ho q (OPev r)).
  - intros p s. unfold ongoing, stream_at. by rewrite (Ho p (OSctx s) eq_refl).
Qed.

Lemma steady_extends w w' :
  winv w → w_qs w' = w_qs w → w_th w' = w_th w →
  extends (cm_heap (w_mem w)) (cm_heap (w_mem w')) → steady w w'.
Proof.
  intros Hw Hq Ht Hx. apply steady_objs; [by rewrite Hq|by apply agree_extends|].
  apply winv_untouched; [done|by rewrite Ht|]. intros p b Hp. eapply lookup_weaken; [done|apply Hx].
Qed.

Lemma steady_same w w' :
  w_qs w' = w_qs w → cm_heap (w_mem w') = cm_heap (w_mem w) →
  th_array (w_th w') = th_array (w_th w) → steady w w'.
Proof.
  intros Eq Eh Et. apply steady_objs; rewrite ?Eq, ?Eh; [done..|]. by apply untouched_same.
Qed.
End steady.

#[export] Hint Resolve steady_same : grpc.

(** ** What the worker owes to the coroutines that wait

    A task was started; its result is with the engine, in flight, or posted. *)
Section owed.
Context `{NginxLaws} `{GrpcEngineLaws}.
Implicit Types w : world.

Definition pending w : gmultiset Z := engine_pending (w_eng w).

Definition owed w : gmultiset Z :=
  pending w ⊎ res_ids (flight_results w ++ occupied_results w).

(** A task is under way, and nothing will ever wake its coroutine but the
    timeout. *)
Definition untracked w (k : Z) : Prop := (∃ s, ongoing w k s) ∧ k ∉ owed w.

(** A step after which no other task is in that state. *)
Definition tracks w w' : Prop := ∀ k, untracked w' k → untracked w k.

#[global] Instance tracks_preorder : PreOrder tracks.
Proof. split; [by intros w k|]. intros w1 w2 w3 H12 H23 k Hk. by apply H12, H23. Qed.

Lemma tracks_owed w w' :
  owed w ⊆ owed w' →
  (∀ k s', ongoing w' k s' → (∃ s, ongoing w k s) ∨ k ∈ pending w') → tracks w w'.
Proof.
  intros Hsub Hon k [[s' Hk] Hno].
  assert (k ∉ owed w) as Hno' by multiset_solver. split; [|done].
  destruct (Hon _ _ Hk) as [|Hp]; [done|]. destruct Hno. unfold owed. multiset_solver.
Qed.

(** The results posted and in flight are left alone. *)
Lemma tracks_same w w' :
  flight_results w' = flight_results w → occupied_results w' = occupied_results w →
  pending w ⊆ pending w' →
  (∀ k s', ongoing w' k s' → (∃ s, ongoing w k s) ∨ k ∈ pending w') → tracks w w'.
Proof.
  intros Ef Eo Hp. apply tracks_owed. unfold owed. rewrite Ef, Eo. multiset_solver.
Qed.

(** No result is owed twice, and none to a task nobody waits for. *)
Definition orderly w : Prop :=
  ∀ k, k ∈ owed w → multiplicity k (owed w) = 1%nat ∧ ∃ s, ongoing w k s.

Lemma orderly_less w w' :
  owed w' ⊆ owed w → (∀ k s, ongoing w k s → ∃ s', ongoing w' k s') → orderly w → orderly w'.
Proof.
  intros Hsub Hon Ho k Hk. destruct (Ho k) as [Hm [s Hs]]; [multiset_solver|].
  split; [|by eapply Hon]. rewrite elem_of_multiplicity in Hk. specialize (Hsub k). lia.
Qed.

(** A task is started: it is owed once more. *)
Lemma orderly_start w w' k :
  owed w' = {[+ k +]} ⊎ owed w → (¬ ∃ s, ongoing w k s) → (∃ s, ongoing w' k s) →
  (∀ p s, p ≠ k → ongoing w p s → ongoing w' p s) → orderly w → orderly w'.
Proof.
  intros E Hno Hk Hoth Ho p Hp. rewrite E in Hp |- *. rewrite multiplicity_disj_union.
  destruct (decide (p = k)) as [->|Hne].
  - rewrite multiplicity_singleton_eq. destruct (decide (k ∈ owed w)) as [[_ []%Hno]%Ho|Hn].
    rewrite elem_of_multiplicity in Hn. split; [lia|done].
  - rewrite multiplicity_singleton_ne by done. destruct (Ho p) as [Hm [s Hs]]; [multiset_solver|].
    split; [done|]. exists s. by apply Hoth.
Qed.

(** A result is taken, with the task it was owed to. *)
Lemma orderly_end w w' k :
  owed w = {[+ k +]} ⊎ owed w' → (∀ p s, p ≠ k → ongoing w p s → ongoing w' p s) →
  orderly w → orderly w'.
Proof.
  intros E Hoth Ho p Hp. destruct (Ho p) as [Hm [s Hs]]; [rewrite E; multiset_solver|].
  rewrite E, multiplicity_disj_union in Hm. rewrite elem_of_multiplicity in Hp.
  destruct (decide (p = k)) as [->|Hne].
  - rewrite multiplicity_singleton_eq in Hm. lia.
  - rewrite multiplicity_singleton_ne in Hm by done. split; [done|]. exists s. by apply Hoth.
Qed.

(** A thread of the pool waits for the engine, or has finished and its event is due. *)
Definition busy w : bool :=
  ev_active (th_task_event (w_th w)) || ev_ran (th_task_event (w_th w)).
Definition quitting w : bool := w_quit w || w_exiting w.

(** nginx is to run the handler of posted results. *)
Definition alerted w : bool := ev_posted (th_posted_ev (w_th w)).

(** The thread is not called off, nor is the posted event, and a worker that quits
    goes on doing so. *)
Definition staffed w w' : Prop :=
  (busy w = true → busy w' = true) ∧ (quitting w = true → quitting w' = true) ∧
  (alerted w = true → alerted w' = true).

#[global] Instance staffed_preorder : PreOrder staffed.
Proof.
  split; [by intros w|]. intros w1 w2 w3 (B1 & Q1 & A1) (B2 & Q2 & A2). split_and!; auto.
Qed.

Lemma staffed_same w w' :
  w_th w' = w_th w → w_quit w' = w_quit w → w_exiting w' = w_exiting w → staffed w w'.
Proof. intros Et Eq Ee. unfold staffed, busy, quitting, alerted. by rewrite Et, Eq, Ee. Qed.

(** What the engine has is waited for. *)
Definition watched w : Prop := quitting w = false → pending w ≠ ∅ → busy w = true.

Lemma watched_same w w' : pending w' = pending w → staffed w w' → watched w → watched w'.
Proof.
  intros Ep (Hb & Hq & _) Hw Hq' Hp. apply Hb, Hw; [|by rewrite <- Ep].
  destruct (quitting w); [|done]. by rewrite Hq in Hq'.
Qed.

(** Results that are posted will be looked at. *)
Definition announced w : Prop := occupied_results w ≠ [] → alerted w = true.

Lemma announced_same w w' :
  occupied_results w' = occupied_results w → (alerted w = true → alerted w' = true) →
  announced w → announced w'.
Proof. intros Eo Ha Hw Hne. apply Ha, Hw. by rewrite <- Eo. Qed.

(** Between two states the engine keeps its word on streams, but for those that are
    [shut]. *)
Definition trusted (shut : Z → Prop) w w' : Prop :=
  trusting engine_vouches engine_streams shut (w_eng w) (w_eng w').

#[global] Instance trusted_preorder shut : PreOrder (trusted shut).
Proof. split; [by intros w|]. intros w1 w2 w3 T1 T2. unfold trusted in *. by etrans. Qed.

Lemma trusted_weaken (shut shut' : Z → Prop) w w' :
  (∀ k, shut k → shut' k) → trusted shut w w' → trusted shut' w w'.
Proof. intros Hs Ht k Hk. apply Ht. auto. Qed.

Lemma trusted_none shut w w' : trusted none w w' → trusted shut w w'.
Proof. apply trusted_weaken. by intros k []. Qed.

Lemma trusted_same shut w w' : w_eng w' = w_eng w → trusted shut w w'.
Proof. intros E. unfold trusted. by rewrite E. Qed.

(** An operation of the stream [k] is under way. *)
Definition streaming w (k : Z) : Prop :=
  ∃ s, ongoing w k s ∧ sc_type s ≠ NGX_GRPC_CLIENT_STREAM_TYPE_UNARY.

(** Operations of streams that succeed are of streams that are open: the engine says
    so of those it has, and it is so for the results that were handed over. *)
Definition truthful w : Prop := ∀ k, streaming w k →
  engine_vouches (w_eng w) k ∧
  ∀ r, r ∈ flight_results w ++ occupied_results w → tr_task_id r = k →
    res_type (tr_buf r) ≠ NGX_GRPC_CLIENT_RES_TYPE_ERR → k ∈ engine_streams (w_eng w).

(** No result is new, and no operation that is still under way. *)
Lemma truthful_less shut w w' :
  trusted shut w w' →
  (∀ r, r ∈ flight_results w' ++ occupied_results w' →
     r ∈ flight_results w ++ occupied_results w) →
  (∀ k, streaming w' k → streaming w k ∧ ¬ shut k) → truthful w → truthful w'.
Proof.
  intros Ht Hr Hk Hw k [Hs Hn]%Hk. destruct (Hw k Hs) as [Hv Hres]. destruct (Ht k Hn) as [Tv Ts].
  split; [by apply Tv|]. intros r Hin E Hok. eapply Ts, Hres; [by apply Hr|done..].
Qed.

(** An operation is started that no result is owed to. *)
Lemma truthful_start shut w w' k :
  trusted shut w w' →
  (∀ r, r ∈ flight_results w' ++ occupied_results w' →
     r ∈ flight_results w ++ occupied_results w) →
  (k ∉ owed w) → (∀ p, streaming w' p → (p = k ∨ streaming w p) ∧ ¬ shut p) →
  truthful w → truthful w'.
Proof.
  intros Ht Hr Hno Hk Hw p [Hs Hn]%Hk. destruct (Ht p Hn) as [Tv Ts].
  destruct (decide (p = k)) as [->|Hpk].
  - split; [apply Tv, engine_vouches_idle; unfold owed, pending in *; multiset_solver|].
    intros r Hin E _. destruct Hno. unfold owed. rewrite <- E.
    apply gmultiset_elem_of_disj_union. right. by apply elem_of_res_ids, Hr.
  - destruct Hs as [|Hs]; [done|]. destruct (Hw p Hs) as [Hv Hres].
    split; [by apply Tv|]. intros r Hin E Hok. eapply Ts, Hres; [by apply Hr|done..].
Qed.

(** A step nobody outside sees: it logs no call, the engine has the same tasks and
    keeps its word, and the thread stays on duty. *)
Definition hushed (shut : Z → Prop) w w' : Prop :=
  w_out w' = w_out w ∧ pending w' = pending w ∧ staffed w w' ∧ trusted shut w w'.

#[global] Instance hushed_preorder shut : PreOrder (hushed shut).
Proof.
  split; [by split|]. intros w1 w2 w3 (O1 & P1 & S1 & T1) (O2 & P2 & S2 & T2).
  split; [congruence|]. split; [congruence|]. split; by etrans.
Qed.

(** A program that logs no call, leaves the engine's tasks as [R] says of its
    result, and has the engine keep its word but for what the result [shut]s. *)
Definition starts {A} (shut : A → Z → Prop) (R : A → relation (gmultiset Z)) (m : M world A) :
  Prop := ∀ w a w', m w = Done a w' →
    w_out w' = w_out w ∧ R a (pending w) (pending w') ∧ staffed w w' ∧ trusted (shut a) w w'.

Lemma starts_ret {A} shut (R : A → relation (gmultiset Z)) a :
  Reflexive (R a) → starts shut R (mret a).
Proof. intros HR w b w' [= <- <-]. by split. Qed.
Lemma starts_bind {A B} shut (R : B → relation (gmultiset Z)) (m : M world A) (k : A → M world B) :
  leads (hushed none) m → (∀ a, starts shut R (k a)) → starts shut R (m ≫= k).
Proof.
  intros Hm Hk w b w'. unfold mbind, M_bind. destruct (m w) as [a w1|] eqn:E; [|done].
  intros E'. destruct (Hm _ _ _ E) as (O1 & P1 & S1 & T1).
  destruct (Hk _ _ _ _ E') as (O2 & P2 & S2 & T2).
  split; [congruence|]. rewrite P1 in P2. split; [done|]. split; [by etrans|].
  trans w1; [by apply trusted_none|done].
Qed.
Lemma starts_then {A B} (shut : Z → Prop) (shut' : B → Z → Prop) (R : relation (gmultiset Z))
    (R' : B → relation (gmultiset Z)) (m : M world A) (k : A → M world B) :
  starts (λ _, shut) (λ _, R) m →
  (∀ a w b w', k a w = Done b w' → hushed none w w' ∧ (∀ X X', R X X' → R' b X X') ∧
     ∀ p, shut p → shut' b p) →
  starts shut' R' (m ≫= k).
Proof.
  intros Hm Hk w b w'. unfold mbind, M_bind. destruct (m w) as [a w1|] eqn:E; [|done].
  intros E'. destruct (Hm _ _ _ E) as (O1 & P1 & S1 & T1).
  destruct (Hk _ _ _ _ E') as ((O2 & P2 & S2 & T2) & HR & Hsh).
  split; [congruence|]. rewrite P2. split; [by apply HR|]. split; [by etrans|].
  trans w1; [by eapply trusted_weaken|by apply trusted_none].
Qed.
Lemma wp_starts {A} shut (R : A → relation (gmultiset Z)) (m : M world A)
    (Q : A → world → Prop) w :
  starts shut R m → wp m Q w →
  wp m (λ a w', Q a w' ∧ w_out w' = w_out w ∧ R a (pending w) (pending w') ∧ staffed w w' ∧
    trusted (shut a) w w') w.
Proof.
  intros Hm Hwp. unfold wp in *. destruct (m w) as [a w'|] eqn:E; [|done].
  split; [done|]. by apply Hm.
Qed.

Lemma hushed_same shut w w' :
  w_out w' = w_out w → w_eng w' = w_eng w → w_th w' = w_th w → w_quit w' = w_quit w →
  w_exiting w' = w_exiting w → hushed shut w w'.
Proof.
  intros Ho He Ht Eq Ee. split; [done|]. split; [unfold pending; by rewrite He|].
  split; [by apply staffed_same|by apply trusted_same].
Qed.
End owed.
