(* ===== verification/InvMoves.v ===== *)
(** * The moves of the module keep the worker invariant

    One lemma per elementary change of state: queues, allocation, release,
    keeping and dropping a task, an engine call. *)
From S2P Require Import Prelude Words Mem Wire TaskQueue Ngx World Tasks EngineSpec Heaps Inv.

Section moves.
Context `{NginxLaws} `{GrpcEngineLaws}.
Implicit Types w : world.

(** ** Queues *)

Lemma winv_queues_intro w qs' :
  winv w → queues_wf qs' →
  (∀ h, is_Some (queue_of (w_qs w) h) → is_Some (queue_of qs' h)) →
  queue_of qs' q_occupied = queue_of (w_qs w) q_occupied →
  (∀ h l k, queue_of qs' h = Some l → k ∈ l → elem_ok w h k) →
  winv (set_qs qs' w).
Proof.
  intros Hw Hwf Hh Hocc He.
  assert (occupied_results (set_qs qs' w) = occupied_results w) as Ho.
  { unfold occupied_results. simpl. by rewrite Hocc. }
  split; rewrite ?Ho; try apply Hw; try done.
  - intros c x Hc. destruct (wi_heads _ Hw _ _ Hc). split; by apply Hh.
  - destruct (wi_th _ Hw). split; by apply Hh.
  - by eapply flight_frame; [apply Hw|..].
Qed.

(** Taking a stream out of a connection's queue. *)
Lemma winv_remove w h k l1 l2 :
  winv w → queue_of (w_qs w) h = Some (l1 ++ k :: l2) → h ≠ q_occupied →
  winv (set_qs (ngx_queue_remove k (w_qs w)) w) ∧
  ¬ linked (ngx_queue_remove k (w_qs w)) k ∧
  queue_of (ngx_queue_remove k (w_qs w)) h = Some (l1 ++ l2) ∧
  (∀ h', h' ≠ h → queue_of (ngx_queue_remove k (w_qs w)) h' = queue_of (w_qs w) h').
Proof.
  intros Hw Hl Hh. destruct (queue_remove_wf h k _ l1 l2 (wi_queues _ Hw) Hl)
    as (Hq & Hne & Hwf & Hnl).
  split_and!; [|done..]. apply winv_queues_intro; [done..| |by apply Hne|].
  - intros h' [l' Hl']. destruct (decide (h' = h)) as [->|]; [by eexists|].
    rewrite Hne by done. by eexists.
  - intros h' l' x Hl' Hx. destruct (decide (h' = h)) as [->|].
    + rewrite Hq in Hl'. injection Hl' as <-. eapply (wi_elems _ Hw); [exact Hl|].
      rewrite elem_of_app, elem_of_cons. apply elem_of_app in Hx as []; auto.
    + rewrite Hne in Hl' by done. by eapply (wi_elems _ Hw).
Qed.

(** Linking an element that is in no queue. *)
Lemma winv_insert_head w h k l :
  winv w → queue_of (w_qs w) h = Some l → ¬ linked (w_qs w) k → h ≠ q_occupied →
  elem_ok w h k → winv (set_qs (ngx_queue_insert_head h k (w_qs w)) w).
Proof.
  intros Hw Hl Hnl Hh He. apply winv_queues_intro; [done|..].
  - eapply queues_wf_insert_head; [apply Hw|done..].
  - intros h' [l' Hl']. destruct (decide (h' = h)) as [->|].
    + erewrite queue_insert_head by done. by eexists.
    + erewrite queue_insert_head_ne by done. by eexists.
  - by eapply queue_insert_head_ne.
  - intros h' l' x Hl' Hx. destruct (decide (h' = h)) as [->|].
    + erewrite queue_insert_head in Hl' by done. injection Hl' as <-.
      apply elem_of_cons in Hx as [->|]; [done|]. by eapply (wi_elems _ Hw).
    + erewrite queue_insert_head_ne in Hl' by done. by eapply (wi_elems _ Hw).
Qed.

(** ** Adding an object at a fresh address *)

Definition add_obj (k : Z) (o : obj) (w : world) : world :=
  set_mem (CMem (<[k := o]> (cm_heap (w_mem w))) (Datatypes.S (cm_seq (w_mem w)))) w.

Lemma add_obj_Some k o w p o' :
  cm_heap (w_mem (add_obj k o w)) !! p = Some o' →
  (p = k ∧ o' = o) ∨ cm_heap (w_mem w) !! p = Some o'.
Proof. simpl. intros [[-> ->]|[_ Hp]]%lookup_insert_Some; auto. Qed.

Definition addable (o : obj) : Prop :=
  match o with
  | OBuf _ | OPev _ => True
  | OSctx s => sc_node s = NULL
  | OCtx _ | ONode _ => False
  end.

Lemma tree_inv_add w k o :
  tree_inv w → cm_heap (w_mem w) !! k = None →
  (∀ s, o = OSctx s → sc_node s = NULL) → tree_inv (add_obj k o w).
Proof.
  intros Ht Hk Ho. eapply tree_inv_raw_frame; [exact Ht|..]; simpl.
  - intros n key Hn. rewrite lookup_insert_ne; [done|]. intros <-. congruence.
  - intros k1 s1 Hk1 _. rewrite lookup_insert_ne; [by eauto|]. intros <-. congruence.
  - intros k1 s1 Hk1 Hn. destruct (decide (k1 = k)) as [->|].
    + rewrite lookup_insert_eq in Hk1. injection Hk1 as ->. by destruct Hn; apply Ho.
    + rewrite lookup_insert_ne in Hk1 by done. eauto.
Qed.

Lemma winv_add w k o :
  winv w → cm_heap (w_mem w) !! k = None → 0 < k < 2 ^ 64 → addable o →
  winv (add_obj k o w).
Proof.
  intros Hw Hk Hr Ho.
  assert (∀ p o', cm_heap (w_mem w) !! p = Some o' →
                  cm_heap (w_mem (add_obj k o w)) !! p = Some o') as Hmono.
  { intros p o' Hp. simpl. rewrite lookup_insert_ne; [done|]. intros <-. congruence. }
  apply (winv_heap_change w); try done.
  - apply in_range_insert. by right.
  - apply tree_inv_add; [apply Hw|done|]. by intros s ->.
  - by intros c x [[-> <-]|Hc]%add_obj_Some.
  - apply occupied_results_ext; [done..|]. intros q r. apply Hmono.
  - intros p b. apply Hmono.
  - intros h l x Hl Hx. eapply elem_ok_change; [| | |by eapply (wi_elems _ Hw)].
    + intros c y _ Hc. exists y. by apply Hmono.
    + intros r Hq. exists r. by apply Hmono.
    + intros s Hs Hf. exists s. split; [by apply Hmono|done].
  - intros k1 s1 [[-> <-]|Hk1]%add_obj_Some Hn; [done|]. split.
    + by apply (wi_parked _ Hw).
    + destruct (wi_parent _ Hw _ _ Hk1 Hn) as [x ?]. exists x. by apply Hmono.
Qed.

(** A fresh stream context, as [ngx_calloc] leaves it. *)
Lemma detached_add w k s :
  winv w → cm_heap (w_mem w) !! k = None → sc_node s = NULL →
  detached (add_obj k (OSctx s) w) k s.
Proof.
  intros Hw Hk Hs. split_and!; [apply lookup_insert_eq|done|].
  intros Hl. apply (winv_linked_live w) in Hl as [o Ho]; [congruence|done].
Qed.

(** ** Releasing an object *)

Definition del_obj (k : Z) (w : world) : world :=
  set_mem (heap_set (delete k (cm_heap (w_mem w))) (w_mem w)) w.

Lemma del_obj_Some k w p o :
  cm_heap (w_mem (del_obj k w)) !! p = Some o → cm_heap (w_mem w) !! p = Some o.
Proof. simpl. by intros [_ Hp]%lookup_delete_Some. Qed.

Lemma wp_w_free p (Q : unit → world → Prop) w :
  p ≠ NULL → is_Some (cm_heap (w_mem w) !! p) → Q tt (del_obj p w) →
  wp (mem (mem_free p)) Q w.
Proof. intros. by apply wp_mem, wp_mem_free. Qed.

(** A stream in no queue that waits for nothing can be freed. *)
Lemma winv_del_stream w k s :
  winv w → detached w k s → winv (del_obj k w).
Proof.
  intros Hw (Hk & Hn & Hnl). unfold stream_at in Hk.
  assert (agree but_streams (cm_heap (w_mem w)) (cm_heap (w_mem (del_obj k w)))) as Ha.
  { apply agree_delete. eauto with grpc. }
  assert (∀ c x, ctx_at w c x → ctx_at (del_obj k w) c x) as Hctx.
  { intros c x Hc. by apply (Ha c (OCtx x) eq_refl). }
  apply (winv_heap_intro but_streams w); try done.
  - apply in_range_delete.
  - eapply tree_inv_raw_frame; [apply (wi_tree _ Hw)|..]; simpl.
    + intros n key Hp. rewrite lookup_delete_ne; [done|congruence].
    + intros k1 s1 Hk1 Hn1. rewrite lookup_delete_ne; [by eauto|congruence].
    + intros k1 s1 [_ Hk1]%lookup_delete_Some _. eauto.
  - by intros c x Hc%del_obj_Some.
  - intros h l x Hl Hx. assert (x ≠ k) as Hne by (intros ->; apply Hnl; by exists h, l).
    eapply elem_ok_change; [| | |by eapply (wi_elems _ Hw)]; [by eauto|..].
    + intros r Hr. exists r. by apply (Ha x (OPev r) eq_refl).
    + intros s1 Hs1 Hf. exists s1. split; [|done]. unfold stream_at. simpl.
      by rewrite lookup_delete_ne.
  - intros k1 s1 Hk1%del_obj_Some Hn1. split.
    + by apply (wi_parked _ Hw).
    + destruct (wi_parent _ Hw _ _ Hk1 Hn1) as [x ?]. eauto.
Qed.

(** A connection with empty queues that no ongoing stream refers to. *)
Lemma winv_del_ctx w c x :
  winv w → ctx_at w c x → cx_engine_ctx x = NULL →
  queue_of (w_qs w) (q_free c) = Some [] → queue_of (w_qs w) (q_opening c) = Some [] →
  (∀ k s, stream_at w k s → sc_node s ≠ NULL → sc_parent s ≠ c) →
  winv (del_obj c w).
Proof.
  intros Hw Hc Hx Hf Ho Hpar. unfold ctx_at in Hc.
  assert (agree but_ctxs (cm_heap (w_mem w)) (cm_heap (w_mem (del_obj c w)))) as Ha.
  { apply agree_delete. eauto with grpc. }
  assert (∀ c' x', c' ≠ c → ctx_at w c' x' → ctx_at (del_obj c w) c' x') as Hctx.
  { intros c' x' Hne Hc'. unfold ctx_at. simpl. by rewrite lookup_delete_ne. }
  apply (winv_heap_intro but_ctxs w); try done.
  - apply in_range_delete.
  - by eapply (tree_inv_agree but_ctxs); [..|apply Hw].
  - by intros c' x' Hc'%del_obj_Some.
  - intros h l k Hl Hk. eapply (elem_ok_agree but_ctxs); [done..| |by eapply (wi_elems _ Hw)].
    intros c' x' Hh Hc'. exists x'. apply Hctx; [|done]. intros ->.
    destruct Hh as [-> | ->]; rewrite ?Hf, ?Ho in Hl; injection Hl as <-; set_solver.
  - intros k1 s1 Hk1%del_obj_Some Hn1. split.
    + by apply (wi_parked _ Hw).
    + destruct (wi_parent _ Hw _ _ Hk1 Hn1) as [y ?]. exists y. apply Hctx; [|done].
      by eapply Hpar.
Qed.

(** A buffer nobody owns. *)
Lemma winv_del_buf w p b :
  winv w → cm_heap (w_mem w) !! p = Some (OBuf b) →
  spare w p → winv (del_obj p w).
Proof.
  intros Hw Hp (Hrefs & Hbufs & Hfl). apply (winv_bufs_change w); try done.
  - apply in_range_delete.
  - apply agree_delete. eauto with grpc.
  - apply Hw.
  - intros ref Hr. destruct (wi_refs _ Hw _ Hr) as [b' Hb']. exists b'. simpl.
    rewrite lookup_delete_ne; [done|]. by intros <-.
  - apply Hw.
  - intros q b' Hq Hb' Hnr. split; [|done]. simpl. rewrite lookup_delete_ne; [done|].
    intros <-. by destruct Hq.
Qed.

(** ** Calls into the engine *)

Definition with_engine (e : engine) (m : cmem) (w : world) : world := set_mem m (set_eng e w).

Lemma wp_eng {A} (m : M (engine * cmem) A) (Q : A → world → Prop) w :
  wp m (λ a s, Q a (with_engine s.1 s.2 w)) (w_eng w, w_mem w) → wp (eng m) Q w.
Proof. unfold wp, eng, zoom. by destruct (m (w_eng w, w_mem w)). Qed.

(** What the engine does, with the call that was made. *)
Lemma wp_eng_eqn {A} (m : M (engine * cmem) A) (P : A → engine * cmem → Prop)
    (Q : A → world → Prop) w :
  wp m P (w_eng w, w_mem w) →
  (∀ a e h, P a (e, h) → eng m w = Done a (with_engine e h w) → Q a (with_engine e h w)) →
  wp (eng m) Q w.
Proof.
  unfold wp, eng, zoom. destruct (m (w_eng w, w_mem w)) as [a [e h]|f]; [|done].
  intros HP HQ. by apply HQ.
Qed.

Lemma winv_engine w e m :
  winv w → engine_wf e → engine_refs (w_eng w) ⊆ engine_refs e →
  (∀ p, p ∈ engine_refs e → p ∉ engine_refs (w_eng w) →
     cm_heap (w_mem w) !! p = None ∧ ∃ b, cm_heap m !! p = Some (OBuf b)) →
  extends (cm_heap (w_mem w)) (cm_heap m) →
  winv (with_engine e m w).
Proof.
  intros Hw He Hr Hnew Hx.
  assert (∀ p o, cm_heap (w_mem w) !! p = Some o → cm_heap m !! p = Some o) as Hmono.
  { intros p o Hp. eapply lookup_weaken; [done|apply Hx]. }
  apply (winv_bufs_change w); try done.
  - by apply in_range_extends.
  - by apply agree_extends.
  - intros ref Href. destruct (decide (ref ∈ engine_refs (w_eng w))) as [Hin|Hnin].
    + destruct (wi_refs _ Hw _ Hin) as [b ?]. exists b. by apply Hmono.
    + by destruct (Hnew _ Href Hnin) as [_ ?].
  - intros c x Hc Hne. by apply Hr, (wi_conn _ Hw c).
  - intros p b _ Hp Hnr. split; [by apply Hmono|]. intros Href.
    destruct (Hnew _ Href Hnr) as [Hnone _]. congruence.
Qed.

(** An engine call that keeps the references. *)
Lemma winv_engine_same w e m :
  winv w → engine_wf e → engine_refs e = engine_refs (w_eng w) →
  extends (cm_heap (w_mem w)) (cm_heap m) → winv (with_engine e m w).
Proof. intros Hw He Hr. apply winv_engine; [done..|by rewrite Hr|]. rewrite Hr. done. Qed.

(** ** Ongoing tasks *)

Lemma parked_mono w w' k s :
  w_cos w' = w_cos w → w_reqs w' = w_reqs w → parked w k s → parked w' k s.
Proof. unfold parked. by intros -> ->. Qed.

Lemma winv_unkept w k s :
  winv w → stream_at w k s → sc_node s ≠ NULL →
  winv (unkept k s w) ∧ stream_at (unkept k s w) k (set_node NULL s).
Proof.
  intros Hw Hk Hn. split; [|apply lookup_insert_eq].
  destruct (tree_inv_unkept k s w (wi_tree _ Hw) Hk Hn) as (_ & _ & Htree).
  destruct (wi_tree _ Hw) as (_ & _ & _ & _ & Hent & Hall).
  destruct (Hent _ _ (Hall _ _ Hk Hn)) as (_ & _ & Hnode & _).
  eapply (winv_stream_change (delete (sc_node s) (cm_heap (w_mem w))) w); try done.
  - apply agree_delete. eauto with grpc.
  - apply in_range_delete.
  - by intros [] l Hl Hin.
  - intros k1 s1 _ Hk1 Hn1. eapply parked_mono; [done..|]. by apply (wi_parked _ Hw).
Qed.

(** Keeping an idle stream and parking its coroutine, in one step. *)
Lemma winv_kept_parked w w' k s n s' :
  winv w → stream_at w k s → sc_node s = NULL →
  (∀ c l, queue_of (w_qs w) (q_free c) = Some l → k ∉ l) →
  cm_heap (w_mem w) !! n = None → 0 < n < 2 ^ 64 →
  (∃ x, ctx_at w (sc_parent s) x) →
  sc_node s' = n → sc_parent s' = sc_parent s → sc_type s' = sc_type s →
  w_qs w' = w_qs w → w_eng w' = w_eng w → th_array (w_th w') = th_array (w_th w) →
  w_reqs w' = w_reqs w →
  cm_heap (w_mem w') = <[k := OSctx s']> (<[n := ONode k]> (cm_heap (w_mem w))) →
  w_tree w' = ngx_rbtree_insert n k (w_tree w) → w_num w' = s32 (w_num w + 1) →
  (∀ k1 s1, stream_at w k1 s1 → sc_node s1 ≠ NULL →
     w_cos w' !! (sc_is_http s1, sc_wait_co_ctx s1) =
     w_cos w !! (sc_is_http s1, sc_wait_co_ctx s1)) →
  parked w' k s' → winv w'.
Proof.
  intros Hw Hk Hn Hfree Hfresh Hr Hpar Hn' Hp' Ht' Hqs He Hta Hreqs Hheap Htree Hnum Hcos Hpark.
  assert (n ≠ NULL) by (unfold NULL; lia).
  assert (k ≠ NULL) by by eapply winv_live_nonnull.
  eapply (winv_stream_change (<[n := ONode k]> (cm_heap (w_mem w))) w); try done.
  - apply agree_insert; [eauto with grpc|done].
  - apply in_range_insert. by right.
  - pose proof (tree_inv_kept n k s w (wi_tree _ Hw) ltac:(done) Hk Hn Hfresh ltac:(done)) as Hti.
    unfold tree_inv, kept in *. simpl in Hti. rewrite Htree, Hnum, Hheap.
    rewrite <- (insert_insert_eq _ k _ (OSctx (set_node n s))).
    eapply tree_inv_sctx; [apply lookup_insert_eq|done|exact Hti].
  - intros [c|c| |] l Hl Hin; simpl; [by rewrite Hp', Ht'|by edestruct Hfree|done..].
  - intros k1 s1 _ Hk1 Hn1. unfold parked. rewrite Hreqs, (Hcos _ _ Hk1 Hn1).
    by apply (wi_parked _ Hw).
  - intros _. split; [done|]. by rewrite Hp'.
Qed.
End moves.
