(* ===== verification/Handles.v ===== *)
(** * What Lua holds on to

    Lua code keeps the addresses of connections and streams in its tables and in
    their finalizers.  [handles] says that a step leaves such an address as good as
    it was: a connection the collector has not released, a stream in the opening
    queue of its connection, a stream the engine has open. *)
From S2P Require Import Prelude Words Mem Wire TaskQueue Ngx World Tasks EngineSpec Heaps Inv InvMoves.

Section handles.
Context `{NginxLaws} `{GrpcEngineLaws}.
Implicit Types w : world.

(** A connection whose finalizer has not run. *)
Definition lives w (c : Z) : Prop := ∃ x, ctx_at w c x ∧ cx_free_delayed x = false.

(** A stream opened for the subsystem [h] whose finalizer has not run. *)
Definition held w (h : bool) (k : Z) : Prop :=
  ∃ s l, stream_at w k s ∧ sc_is_http s = h ∧
    queue_of (w_qs w) (q_opening (sc_parent s)) = Some l ∧ k ∈ l.

(** All but those that are [gone] and the streams that were [shut]. *)
Record handles (gone shut : Z → Prop) w w' : Prop := {
  hd_lives c : ¬ gone c → lives w c → lives w' c;
  hd_held h k : ¬ gone k → held w h k → held w' h k;
  hd_open k : ¬ shut k → k ∈ engine_streams (w_eng w) → k ∈ engine_streams (w_eng w');
}.

#[global] Instance handles_preorder gone shut : PreOrder (handles gone shut).
Proof.
  split; [by split|]. intros w1 w2 w3 [] []. split; auto.
Qed.

Lemma handles_weaken (gone gone' shut shut' : Z → Prop) w w' :
  (∀ p, gone p → gone' p) → (∀ p, shut p → shut' p) →
  handles gone shut w w' → handles gone' shut' w w'.
Proof. intros Hg Hs [L Hh O]. split; auto. Qed.

Lemma kept_lives w w' c : handles none none w w' → lives w c → lives w' c.
Proof. intros Hh. apply (hd_lives _ _ _ _ Hh). by intros []. Qed.
Lemma kept_held w w' h k : handles none none w w' → held w h k → held w' h k.
Proof. intros Hh. apply (hd_held _ _ _ _ Hh). by intros []. Qed.

(** What nobody holds may go. *)
Lemma handles_unheld gone shut c w w' :
  ¬ lives w c → (∀ h, ¬ held w h c) → handles (λ p, gone p ∨ p = c) shut w w' →
  handles gone shut w w'.
Proof.
  intros Hc Hk [L Hh O]. split; [| |done].
  - intros p Hg Hp. apply L; [|done]. by intros [ | ->].
  - intros h p Hg Hp. apply Hh; [|done]. intros [ | ->]; [done|by eapply Hk].
Qed.

Lemma ctx_not_held w c x h : ctx_at w c x → ¬ held w h c.
Proof. intros Hc (s & l & Hs & _). unfold ctx_at, stream_at in *. congruence. Qed.

(** Streams in an opening queue keep their connection, and the queue keeps them. *)
Lemma handles_intro gone shut w w' :
  (∀ c x, ctx_at w c x → cx_free_delayed x = false → ¬ gone c → lives w' c) →
  (∀ k s l, stream_at w k s → queue_of (w_qs w) (q_opening (sc_parent s)) = Some l → k ∈ l →
     ¬ gone k → ∃ s' l', stream_at w' k s' ∧ sc_is_http s' = sc_is_http s ∧
       sc_parent s' = sc_parent s ∧
       queue_of (w_qs w') (q_opening (sc_parent s)) = Some l' ∧ k ∈ l') →
  (∀ k, ¬ shut k → k ∈ engine_streams (w_eng w) → k ∈ engine_streams (w_eng w')) →
  handles gone shut w w'.
Proof.
  intros Hc Hk Ho. split; [|intros h k Hg (s & l & Hs & <- & Hl & Hin)|done].
  - intros c Hg (x & Hx & Hd). by eapply Hc.
  - destruct (Hk _ _ _ Hs Hl Hin Hg) as (s' & l' & Hs' & Eh & Ep & Hl' & Hin').
    exists s', l'. by rewrite Ep.
Qed.

(** No connection and no stream changes. *)
Lemma handles_agree w w' :
  agree but_bufs (cm_heap (w_mem w)) (cm_heap (w_mem w')) →
  (∀ c, queue_of (w_qs w') (q_opening c) = queue_of (w_qs w) (q_opening c)) →
  engine_streams (w_eng w) ⊆ engine_streams (w_eng w') → handles none none w w'.
Proof.
  intros Ha Hq He. apply handles_intro; [..|by intros k _; apply He].
  - intros c x Hc Hd _. exists x. split; [|done]. by apply (Ha c (OCtx x)).
  - intros k s l Hs Hl Hin _. exists s, l. split_and!; [|done..|by rewrite Hq|done].
    by apply (Ha k (OSctx s)).
Qed.

Lemma handles_same w w' :
  cm_heap (w_mem w') = cm_heap (w_mem w) → w_qs w' = w_qs w → w_eng w' = w_eng w →
  handles none none w w'.
Proof. intros Eh Eq Ee. apply handles_agree; by rewrite ?Eh, ?Eq, ?Ee. Qed.

(** A new object. *)
Lemma handles_add w p o : cm_heap (w_mem w) !! p = None → handles none none w (add_obj p o w).
Proof.
  intros Hp. apply handles_intro; [| |done].
  - intros c x Hc Hd _. exists x. split; [|done]. unfold ctx_at in *. simpl.
    rewrite lookup_insert_ne; [done|congruence].
  - intros k s l Hs Hl Hin _. exists s, l. split_and!; [|done..].
    unfold stream_at in *. simpl. rewrite lookup_insert_ne; [done|congruence].
Qed.

(** The connection [c] changes; it is as alive as before. *)
Lemma handles_upd_ctx gone w c x x' :
  ctx_at w c x → (gone c ∨ cx_free_delayed x' = cx_free_delayed x) →
  handles gone none w (heap_upd c (OCtx x') w).
Proof.
  intros Hc Hd. unfold ctx_at in Hc. apply handles_intro; [| |done]; simpl.
  - intros c' y Hy Ey Hg. unfold lives, ctx_at in *. simpl. destruct (decide (c' = c)) as [->|Hne].
    + exists x'. split; [apply lookup_insert_eq|]. destruct Hd as [|Hd]; [done|congruence].
    + exists y. by rewrite lookup_insert_ne.
  - intros k s l Hs Hl Hin _. exists s, l. split_and!; [|done..].
    unfold stream_at in *. simpl. rewrite lookup_insert_ne; [done|congruence].
Qed.

(** A stream in an opening queue is in no free queue, and linked. *)
Lemma held_not_free w h k c l :
  winv w → held w h k → queue_of (w_qs w) (q_free c) = Some l → k ∉ l.
Proof.
  intros Hw (s & lo & _ & _ & Hlo & Hin) Hl Hin'.
  by pose proof (proj2 (wi_queues _ Hw) _ _ _ _ k Hlo Hl Hin Hin').
Qed.

Lemma held_linked w h k : held w h k → linked (w_qs w) k.
Proof. intros (s & l & _ & _ & Hl & Hin). by exists (q_opening (sc_parent s)), l. Qed.
End handles.
