(* ===== verification/ConnInv.v ===== *)
(** * Connections keep the invariant; what closing releases *)
From S2P Require Import Prelude Words Mem Wire TaskQueue Ngx World Tasks Conn.
From S2P Require Import EngineSpec Heaps Inv InvMoves Handles.

Lemma NoDup_length_size (l : list Z) (h : gmap Z obj) :
  NoDup l → (∀ k, k ∈ l → is_Some (h !! k)) → (length l ≤ size h)%nat.
Proof.
  intros Hn Hl. rewrite <- size_dom, <- (size_list_to_set (C := gset Z) l) by done.
  apply subseteq_size. intros k Hk. apply elem_of_dom, Hl. set_solver.
Qed.

Section conn_inv.
Context `{NginxLaws} `{GrpcEngineLaws}.
Implicit Types w : world.

(** ** Moves of connections *)

Definition new_ctx (c : Z) (w : world) : world :=
  set_qs (ngx_queue_init (q_opening c) (ngx_queue_init (q_free c) (w_qs w)))
    (add_obj c (OCtx zero_cli_ctx) w).

Lemma new_ctx_queue_ne c h w :
  h ≠ q_free c → h ≠ q_opening c → queue_of (w_qs (new_ctx c w)) h = queue_of (w_qs w) h.
Proof. intros. simpl. by rewrite !queue_init_ne. Qed.

Lemma new_ctx_free c w : queue_of (w_qs (new_ctx c w)) (q_free c) = Some [].
Proof. simpl. rewrite queue_init_ne by done. apply queue_init. Qed.

Lemma new_ctx_opening c w : queue_of (w_qs (new_ctx c w)) (q_opening c) = Some [].
Proof. apply queue_init. Qed.

Lemma new_ctx_queue c h w l :
  queue_of (w_qs (new_ctx c w)) h = Some l → l = [] ∨ queue_of (w_qs w) h = Some l.
Proof.
  destruct (decide (h = q_free c)) as [->|]; [rewrite new_ctx_free; intros [= <-]; by left|].
  destruct (decide (h = q_opening c)) as [->|];
    [rewrite new_ctx_opening; intros [= <-]; by left|].
  rewrite new_ctx_queue_ne by done. by right.
Qed.

(** Two empty queues, whose heads are in no object yet. *)
Lemma winv_new_queues w c :
  winv w → cm_heap (w_mem w) !! c = None → winv (set_qs (w_qs (new_ctx c w)) w).
Proof.
  intros Hw Hc. apply winv_queues_intro; [done|..].
  - do 2 apply queues_wf_init. apply Hw.
  - intros h [l Hl]. destruct (decide (h = q_free c)) as [->|];
      [rewrite new_ctx_free; by eexists|].
    destruct (decide (h = q_opening c)) as [->|]; [rewrite new_ctx_opening; by eexists|].
    rewrite new_ctx_queue_ne by done. by eexists.
  - by apply new_ctx_queue_ne.
  - intros h l k [->|Hl]%new_ctx_queue Hk; [set_solver|]. by eapply (wi_elems _ Hw).
Qed.

Lemma winv_new_ctx w c :
  winv w → cm_heap (w_mem w) !! c = None → 0 < c < 2 ^ 64 → winv (new_ctx c w).
Proof.
  intros Hw Hc Hr. eapply winv_ctxs_change; [by apply (winv_new_queues w c)|done..| | | | |].
  - apply in_range_insert. by right.
  - apply agree_insert; [eauto with grpc|done].
  - intros p x Hp. exists x. unfold ctx_at. simpl. rewrite lookup_insert_ne; [done|].
    intros <-. unfold ctx_at in Hp. simpl in Hp. congruence.
  - intros p x [[-> [= ->]]|Hp]%add_obj_Some.
    + split_and!; [exists []; apply new_ctx_free|exists []; apply new_ctx_opening|done..].
    + destruct (wi_heads _ (winv_new_queues w c Hw Hc) p x Hp). split_and!; [done..| |].
      * by apply (wi_conn _ Hw p).
      * by apply (wi_delayed _ Hw p).
  - intros p p' x x' [[-> [= ->]]|Hp]%add_obj_Some [[-> [= ->]]|Hp']%add_obj_Some Hx E; try done.
    by apply (wi_conn_inj _ Hw p p' x x').
Qed.

(** Changing a connection whose new engine reference is nobody else's. *)
Lemma winv_upd_ctx w c x x' :
  winv w → ctx_at w c x →
  (cx_engine_ctx x' ≠ NULL → cx_engine_ctx x' ∈ engine_refs (w_eng w)) →
  (cx_engine_ctx x' ≠ NULL → ∀ p y, ctx_at w p y → p ≠ c →
     cx_engine_ctx y ≠ cx_engine_ctx x') →
  (cx_free_delayed x' = true → cx_engine_ctx x' = NULL) →
  winv (heap_upd c (OCtx x') w).
Proof.
  intros Hw Hc Hx1 Hx2 Hx3.
  assert (∀ p y, ctx_at (heap_upd c (OCtx x') w) p y →
    (p = c ∧ y = x') ∨ (p ≠ c ∧ ctx_at w p y)) as Hback.
  { intros p y Hp. unfold ctx_at in Hp. simpl in Hp.
    apply lookup_insert_Some in Hp as [[<- [= <-]]|[? Hp]]; auto. }
  apply (winv_ctxs_change w); try done.
  - apply in_range_insert. left. by eexists.
  - apply agree_insert; [eauto with grpc|done].
  - intros p y Hp. destruct (decide (p = c)) as [->|Hne].
    + exists x'. apply lookup_insert_eq.
    + exists y. unfold ctx_at. by rewrite heap_upd_ne.
  - intros p y [[-> ->]|[_ Hp]]%Hback.
    + by destruct (wi_heads _ Hw _ _ Hc).
    + destruct (wi_heads _ Hw _ _ Hp). split_and!; [done..| |].
      * by apply (wi_conn _ Hw p).
      * by apply (wi_delayed _ Hw p).
  - intros p p' y y' [[-> ->]|[Hn Hp]]%Hback [[-> ->]|[Hn' Hp']]%Hback Hy E; try done.
    + by destruct (Hx2 Hy p' y').
    + destruct (Hx2 ltac:(by rewrite <- E) p y); done.
    + by eapply (wi_conn_inj _ Hw).
Qed.

(** Closing an engine reference no connection holds any more. *)
Lemma winv_engine_close w ref e m :
  winv w → ref ∈ engine_refs (w_eng w) →
  (∀ c x, ctx_at w c x → cx_engine_ctx x ≠ ref) →
  engine_wf e → engine_refs e = engine_refs (w_eng w) ∖ {[ref]} →
  cm_heap m = delete ref (cm_heap (w_mem w)) →
  winv (with_engine e m w).
Proof.
  intros Hw Href Hno He Hr Hm. destruct (wi_refs _ Hw _ Href) as [b Hb].
  apply (winv_bufs_change w); try done; simpl; rewrite ?Hm, ?Hr.
  - apply in_range_delete.
  - apply agree_delete. eauto with grpc.
  - intros ref' [Hin Hne]%elem_of_difference. destruct (wi_refs _ Hw _ Hin) as [b' ?].
    exists b'. rewrite lookup_delete_ne by set_solver. done.
  - intros c x Hc Hx. apply elem_of_difference. split; [by apply (wi_conn _ Hw c)|].
    apply Hno in Hc. set_solver.
  - intros p b' _ Hp Hnr. split; [|set_solver].
    rewrite lookup_delete_ne; [done|]. by intros <-.
Qed.

(** ** [ngx_grpc_cli_free_conn] *)

Lemma wp_ctx_queue {A} c x (f : qstore → A) (Q : A → world → Prop) w :
  winv w → ctx_at w c x → Q (f (w_qs w)) w → wp (ctx_queue c f) Q w.
Proof.
  intros Hw Hc HQ. apply wp_bind. eapply wp_w_load_ctx; [by eapply winv_live_nonnull|done|].
  by apply wp_gets.
Qed.

Lemma wp_ctx_queue_upd c x f (Q : unit → world → Prop) w :
  winv w → ctx_at w c x → Q tt (set_qs (f (w_qs w)) w) → wp (ctx_queue_upd c f) Q w.
Proof.
  intros Hw Hc HQ. apply wp_bind. eapply wp_w_load_ctx; [by eapply winv_live_nonnull|done|].
  by apply wp_modify.
Qed.

(** The state with the streams [l] released, under the queues [qs]. *)
Definition freed (l : list Z) (qs : qstore) (w : world) : world :=
  set_qs qs (set_mem (heap_set (foldr delete (cm_heap (w_mem w)) l) (w_mem w)) w).

Lemma lookup_foldr_delete (h : gmap Z obj) l p :
  foldr delete h l !! p = if decide (p ∈ l) then None else h !! p.
Proof.
  induction l as [|k l IH]; [by rewrite decide_False by set_solver|]. cbn [foldr].
  destruct (decide (p = k)) as [->|].
  - rewrite lookup_delete_eq, decide_True by set_solver. done.
  - rewrite lookup_delete_ne, IH by done.
    destruct (decide (p ∈ l)); [rewrite decide_True|rewrite decide_False]; set_solver.
Qed.

Lemma foldr_delete_snoc (h : gmap Z obj) l k :
  foldr delete (delete k h) l = foldr delete h (l ++ [k]).
Proof. induction l as [|y l IH]; simpl; [done|]. by rewrite IH. Qed.

Lemma freed_snoc l k qs qs1 w :
  freed l qs (del_obj k (set_qs qs1 w)) = freed (l ++ [k]) qs w.
Proof. unfold freed, del_obj. simpl. by rewrite foldr_delete_snoc. Qed.

Lemma free_conn_loop_spec fuel c x l w :
  winv w → ctx_at w c x → queue_of (w_qs w) (q_free c) = Some l → (length l ≤ fuel)%nat →
  wp (free_conn_loop fuel c) (λ _ w', ∃ qs, w' = freed l qs w ∧ winv w' ∧
    queue_of qs (q_free c) = Some [] ∧
    ∀ h, h ≠ q_free c → queue_of qs h = queue_of (w_qs w) h) w.
Proof.
  revert fuel w. induction l as [|k l IH] using rev_ind; intros fuel w Hw Hc Hl Hfuel.
  - destruct fuel; cbn [free_conn_loop]; apply wp_bind; (eapply wp_ctx_queue; [done..|]);
      rewrite (queue_empty_nil _ _ _ Hl); simpl; apply wp_ret; exists (w_qs w);
      (split_and!; [|done..]); unfold freed; simpl; by destruct w as [[]].
  - rewrite length_app in Hfuel. simpl in Hfuel. destruct fuel as [|fuel]; [lia|].
    cbn [free_conn_loop]. apply wp_bind. eapply wp_ctx_queue; [done..|].
    rewrite (queue_empty_nil _ _ _ Hl), bool_decide_eq_false_2 by (destruct l; done).
    apply wp_bind. eapply wp_ctx_queue; [done..|]. rewrite (queue_last_snoc _ _ _ _ Hl).
    assert (k ∈ l ++ [k]) as Hin by set_solver.
    destruct (wi_elems _ Hw _ _ _ Hl Hin) as (_ & s & Hs & Hn).
    assert (k ≠ NULL) as Hk0 by by eapply winv_live_nonnull.
    apply wp_bind. eapply wp_w_load_sctx; [done..|]. apply wp_bind, wp_modify.
    destruct (winv_remove _ _ _ _ _ Hw Hl ltac:(done)) as (Hw1 & Hnl & Hq & Hne).
    apply wp_bind, wp_w_free; [done|by eexists|].
    assert (c ≠ k) as Hck by (intros ->; unfold ctx_at, stream_at in *; congruence).
    set (w1 := del_obj k (set_qs (ngx_queue_remove k (w_qs w)) w)).
    assert (winv w1) as Hw2 by (eapply winv_del_stream; [done|by split_and!]).
    rewrite app_nil_r in Hq.
    eapply wp_mono; [apply (IH fuel w1); [done| |done|lia]|]; cbn beta.
    + unfold ctx_at. simpl. by rewrite lookup_delete_ne.
    + intros _ w' (qs & -> & Hw' & Hqf & Hqn). exists qs. unfold w1 in *.
      rewrite freed_snoc in *. split_and!; [done..|].
      intros h Hh. rewrite Hqn by done. simpl. by apply Hne.
Qed.

(** Every stream of the free queue is released, then the connection. *)
Lemma free_conn_spec c x l w :
  winv w → ctx_at w c x → cx_engine_ctx x = NULL →
  queue_of (w_qs w) (q_free c) = Some l → queue_of (w_qs w) (q_opening c) = Some [] →
  (∀ k s, stream_at w k s → sc_node s ≠ NULL → sc_parent s ≠ c) →
  wp (ngx_grpc_cli_free_conn c) (λ _ w', ∃ qs, w' = freed (c :: l) qs w ∧ winv w' ∧
    ∀ h, h ≠ q_free c → queue_of qs h = queue_of (w_qs w) h) w.
Proof.
  intros Hw Hc Hx Hl Ho Hpar. apply wp_bind, wp_get, wp_bind.
  assert (NoDup l) as Hnd by (by eapply (wi_queues _ Hw)).
  assert (∀ k, k ∈ l → ∃ s, stream_at w k s ∧ sc_node s = NULL) as Hels.
  { intros k Hk. by destruct (wi_elems _ Hw _ _ _ Hl Hk) as (_ & ?). }
  eapply wp_mono.
  { eapply free_conn_loop_spec; [done..|]. apply NoDup_length_size; [done|].
    intros k (s & ? & _)%Hels. by eexists. }
  cbn beta. intros _ w' (qs & -> & Hw' & Hqf & Hqn).
  assert (c ∉ l) as Hcl.
  { intros (s & Hs & _)%Hels. unfold ctx_at, stream_at in *. congruence. }
  assert (ctx_at (freed l qs w) c x) as Hc'.
  { unfold ctx_at. simpl. by rewrite lookup_foldr_delete, decide_False. }
  assert (∀ p o, cm_heap (w_mem (freed l qs w)) !! p = Some o →
                 cm_heap (w_mem w) !! p = Some o) as Hsub.
  { intros p o. simpl. rewrite lookup_foldr_delete. by case_decide. }
  apply wp_w_free; [by eapply (winv_live_nonnull w)|by eexists|].
  exists qs. split_and!; [done| |done].
  change (winv (del_obj c (freed l qs w))). eapply winv_del_ctx; [done..| |].
  - simpl. by rewrite Hqn.
  - intros k s Hs Hn. apply (Hpar k s); [by apply Hsub|done].
Qed.

(** A connection and its free streams have no task under way. *)
Lemma freed_steady c x l qs w :
  winv w → ctx_at w c x → queue_of (w_qs w) (q_free c) = Some l →
  queue_of qs q_occupied = queue_of (w_qs w) q_occupied → steady w (freed (c :: l) qs w).
Proof.
  intros Hw Hc Hl Hq.
  assert (∀ p o, p ∈ c :: l → cm_heap (w_mem w) !! p = Some o →
    o = OCtx x ∨ ∃ s, o = OSctx s ∧ sc_node s = NULL) as Hgone.
  { intros p o [->|Hp]%elem_of_cons Ho; [left; unfold ctx_at in Hc; congruence|right].
    destruct (wi_elems _ Hw _ _ _ Hl Hp) as (_ & s & Hs & Hn). unfold stream_at in Hs.
    exists s. split; [congruence|done]. }
  split; [split; [done| |]|].
  - intros q r Hr. unfold pev_at in *. unfold freed. cbn [w_mem set_qs set_mem cm_heap heap_set].
    rewrite lookup_foldr_delete, decide_False; [done|]. intros Hin.
    by destruct (Hgone _ _ Hin Hr) as [|(s & ? & _)].
  - apply winv_untouched; [done..|]. intros p b Hb. unfold freed.
    cbn [w_mem set_qs set_mem cm_heap heap_set].
    rewrite lookup_foldr_delete, decide_False; [done|]. intros Hin.
    by destruct (Hgone _ _ Hin Hb) as [|(s & ? & _)].
  - intros p s. unfold ongoing, stream_at, freed. cbn [w_mem set_qs set_mem cm_heap heap_set].
    rewrite lookup_foldr_delete. destruct (decide (p ∈ c :: l)) as [Hin|]; [|done].
    split; [by intros []|]. intros [Hp Hn].
    destruct (Hgone _ _ Hin Hp) as [|(s' & ? & ?)]; congruence.
Qed.

(** Nothing else Lua holds is released: a stream in use is in no free queue. *)
Lemma freed_handles c x l qs w :
  winv w → ctx_at w c x → queue_of (w_qs w) (q_free c) = Some l →
  (∀ h, h ≠ q_free c → queue_of qs h = queue_of (w_qs w) h) →
  handles (λ p, p = c) none w (freed (c :: l) qs w).
Proof.
  intros Hw Hc Hl Hq. unfold ctx_at in Hc. apply handles_intro; [| |done].
  - intros c' y Hy Ey Hg. exists y. split; [|done]. unfold ctx_at, freed in *.
    cbn [w_mem set_qs set_mem cm_heap heap_set].
    rewrite lookup_foldr_delete, decide_False; [done|]. intros [->|Hin]%elem_of_cons; [done|].
    destruct (wi_elems _ Hw _ _ _ Hl Hin) as (_ & s & Hs & _). unfold stream_at in Hs. congruence.
  - intros k s lo Hs Hlo Hin Hg. exists s, lo.
    split_and!; [|done..|by simpl; rewrite Hq|done]. unfold stream_at, freed in *.
    cbn [w_mem set_qs set_mem cm_heap heap_set].
    rewrite lookup_foldr_delete, decide_False; [done|]. intros [->|Hin']%elem_of_cons; [done|].
    eapply held_not_free; [done| |exact Hl|exact Hin']. by exists s, lo.
Qed.

(** Two changes that need no condition: the flag, and dropping the reference. *)
Lemma winv_set_free_delayed w c x d :
  winv w → ctx_at w c x → cx_engine_ctx x = NULL →
  winv (heap_upd c (OCtx (set_free_delayed d x)) w).
Proof.
  intros Hw Hc Hx0. eapply winv_upd_ctx; [done..| | |done]; simpl.
  - intros Hx. by apply (wi_conn _ Hw c).
  - intros Hx p y Hp Hne E. apply Hne. eapply (wi_conn_inj _ Hw); [done|exact Hc|by rewrite E|done].
Qed.

Lemma winv_drop_ref w c x :
  winv w → ctx_at w c x → winv (heap_upd c (OCtx (set_engine_ctx NULL x)) w).
Proof. intros Hw Hc. by eapply winv_upd_ctx. Qed.
End conn_inv.

(** ** The operations *)

Section conn_ops.
Context `{AllocatorLaws} `{NginxLaws} `{GrpcEngineLaws}.
Implicit Types w : world.

(** A request the caller may name. *)
Definition req_live w (h : bool) (r : Z) : Prop :=
  r ≠ NULL ∧ is_Some (w_reqs w !! (h, r)).

Lemma wp_get_req_logger r h (Q : unit → world → Prop) w :
  req_live w h r → Q tt w → wp (ngx_grpc_cli_get_req_logger r h) Q w.
Proof. intros [Hr [q Hq]] HQ. apply wp_bind. by eapply wp_get_req. Qed.

Lemma winv_tick w : winv w → winv (tick w).
Proof. by apply winv_irrelevant. Qed.

(** [calloc] in the state [w]: the address, or refused. *)
Definition next_alloc w : option Z := alloc_choice (cm_seq (w_mem w)) (dom (cm_heap (w_mem w))).

(** What [ngx_grpc_cli_connect] may return: [calloc] is refused, and nothing is done;
    the engine, called once the connection is allocated, returns NULL and a message,
    which is left in the buffer, and nothing else is left behind; or it returns the
    reference of a fresh connection. *)
Definition connect_post w (target : bytes) (opt : dial_opt) (c : Z) (w' : world) : Prop :=
  winv w' ∧ steady w w' ∧ handles none none w w' ∧
  ((next_alloc w = None ∧ c = NULL ∧ w' = tick w) ∨
   (∃ c1 w1 msg, next_alloc w = Some c1 ∧
      eng (grpc_engine_connect target opt) (new_ctx c1 w) = Done (NULL, Some msg) w1 ∧
      c = NULL ∧ w_eng w' = w_eng w1 ∧ engine_refs (w_eng w') = engine_refs (w_eng w) ∧
      (∀ p x, ctx_at w' p x → ctx_at w p x) ∧
      (length msg ≤ 511)%nat ∧ err_string w' = msg ∧
      w_err_buf w' = splice 0 msg (w_err_buf w)) ∨
   (c ≠ NULL ∧ next_alloc w = Some c ∧ cm_heap (w_mem w) !! c = None ∧
      (∃ ref w1, eng (grpc_engine_connect target opt) (new_ctx c w) = Done (ref, None) w1 ∧
         w_eng w' = w_eng w1 ∧ ctx_at w' c (set_engine_ctx ref zero_cli_ctx)) ∧
      (∃ x, ctx_at w' c x ∧ cx_engine_ctx x ≠ NULL ∧ cx_free_delayed x = false ∧
            (cx_engine_ctx x ∉ engine_refs (w_eng w)) ∧
            engine_refs (w_eng w') = {[cx_engine_ctx x]} ∪ engine_refs (w_eng w)) ∧
      queue_of (w_qs w') (q_free c) = Some [] ∧
      queue_of (w_qs w') (q_opening c) = Some [] ∧
      w_err_buf w' = w_err_buf w)).

Lemma err_string_splice w msg :
  err_string (set_err (splice 0 msg (w_err_buf w)) (Z.of_nat (length msg)) w) = msg.
Proof. unfold err_string, splice. simpl. rewrite Nat2Z.id. apply take_app_length. Qed.

(** The state after the engine has answered: the new connection has no reference
    yet. *)
Record connecting w (c : Z) w1 : Prop := {
  cg_fresh : cm_heap (w_mem w) !! c = None;
  cg_ctx : ctx_at w1 c zero_cli_ctx;
  cg_back p x : ctx_at w1 p x → p ≠ c → ctx_at w p x;
  cg_objs : agree not_plain (cm_heap (w_mem w)) (cm_heap (w_mem w1));
  cg_bufs p b : cm_heap (w_mem w) !! p = Some (OBuf b) →
    p ≠ c ∧ cm_heap (w_mem w1) !! p = Some (OBuf b);
  cg_qs : w_qs w1 = w_qs (new_ctx c w);
  cg_th : w_th w1 = w_th w;
  cg_err : w_err_buf w1 = w_err_buf w;
  cg_kept p x : ctx_at w p x → p ≠ c → ctx_at w1 p x;
  cg_streams : engine_streams (w_eng w) ⊆ engine_streams (w_eng w1);
}.

Lemma connecting_intro w c e m :
  cm_heap (w_mem w) !! c = None → engine_streams (w_eng w) ⊆ engine_streams e → extends (cm_heap (w_mem (new_ctx c w))) (cm_heap m) →
  connecting w c (with_engine e m (new_ctx c w)).
Proof.
  intros Hc Hes Hx. pose proof (agree_extends but_bufs _ _ (λ _, eq_refl) Hx) as Ha.
  split; try done.
  - apply (Ha c (OCtx zero_cli_ctx) eq_refl), lookup_insert_eq.
  - intros p x Hp Hne. apply (Ha p (OCtx x) eq_refl) in Hp. simpl in Hp.
    by rewrite lookup_insert_ne in Hp.
  - trans (cm_heap (w_mem (new_ctx c w))); [|by apply agree_extends].
    apply agree_insert; [eauto with grpc|done].
  - intros p b Hp. assert (p ≠ c) by congruence. split; [done|].
    eapply lookup_weaken; [|apply Hx]. simpl. by rewrite lookup_insert_ne.
  - intros p x Hp Hne. apply (Ha p (OCtx x) eq_refl). simpl. by rewrite lookup_insert_ne.
Qed.

Lemma connecting_handles w c w1 w2 :
  winv w → connecting w c w1 → w_qs w2 = w_qs w1 → w_eng w2 = w_eng w1 →
  (∀ p, p ≠ c → cm_heap (w_mem w2) !! p = cm_heap (w_mem w1) !! p) → handles none none w w2.
Proof.
  intros Hw [Hfresh _ _ Hobjs _ Hqs _ _ Hkept Hes] Eq Ee Hne.
  assert (∀ p o, cm_heap (w_mem w) !! p = Some o → p ≠ c) as Hc by congruence.
  apply handles_intro; [| |by rewrite Ee; intros k _; apply Hes].
  - intros p x Hp Hd _. exists x. split; [|done]. unfold ctx_at in *.
    rewrite Hne by by eapply Hc. apply Hkept; [done|by eapply Hc].
  - intros k s l Hs Hl Hin _. exists s, l.
    destruct (wi_elems _ Hw _ _ _ Hl Hin) as [[y Hy] _]. split_and!; [|done..| |done].
    + unfold stream_at in *. rewrite Hne by by eapply Hc. by apply (Hobjs k (OSctx s)).
    + rewrite Eq, Hqs, new_ctx_queue_ne; [done..|]. intros [= E]. by eapply Hc.
Qed.

Lemma connecting_steady w c w1 w2 :
  winv w → connecting w c w1 → w_qs w2 = w_qs w1 → w_th w2 = w_th w1 →
  (∀ p, p ≠ c → cm_heap (w_mem w2) !! p = cm_heap (w_mem w1) !! p) →
  (∀ o, cm_heap (w_mem w2) !! c = Some o → not_plain o = false) → steady w w2.
Proof.
  intros Hw [Hfresh Hctx _ Hobjs Hbufs Hqs Hth _ _ _] Hqs2 Hth2 Hne Hc. apply steady_objs.
  - rewrite Hqs2, Hqs. by apply new_ctx_queue_ne.
  - intros p o Ho. destruct (decide (p = c)) as [->|]; [|rewrite Hne by done; by apply Hobjs].
    rewrite Hfresh. split; [|done]. intros E%Hc. congruence.
  - apply winv_untouched; [done|congruence|]. intros p b [Hp Hb]%Hbufs. by rewrite Hne.
Qed.

(** The engine refuses. *)
Lemma connect_refused w target opt c w1 msg :
  next_alloc w = Some c →
  eng (grpc_engine_connect target opt) (new_ctx c w) = Done (NULL, Some msg) w1 →
  winv w → winv w1 → connecting w c w1 → engine_refs (w_eng w1) = engine_refs (w_eng w) →
  (length msg ≤ 511)%nat →
  connect_post w target opt NULL
    (del_obj c (set_err (splice 0 msg (w_err_buf w1)) (Z.of_nat (length msg)) w1)).
Proof.
  intros Ha Erun Hw Hw1 Hg Hr Hlen. pose proof Hg as [Hfresh Hctx Hback Hobjs _ Hqs _ Herr _ _].
  set (wf := set_err _ _ _). assert (winv wf) as Hwf by by apply (winv_irrelevant w1).
  split; [|split; [|split]].
  - eapply (winv_del_ctx wf); [done|exact Hctx|done|simpl; rewrite Hqs..|].
    + apply new_ctx_free.
    + apply new_ctx_opening.
    + intros k s Hk Hn Hp. apply (Hobjs k (OSctx s) eq_refl) in Hk.
      destruct (wi_parent _ Hw _ _ Hk Hn) as [y Hy]. rewrite Hp in Hy.
      unfold ctx_at in Hy. congruence.
  - eapply connecting_steady; [done..| |]; simpl.
    + intros p Hp. by rewrite lookup_delete_ne.
    + by rewrite lookup_delete_eq.
  - eapply connecting_handles; [done..|]. intros p Hp. simpl. by rewrite lookup_delete_ne.
  - right. left. exists c, w1, msg.
    split_and!; [done..| |done|apply (err_string_splice w1)|simpl; by rewrite Herr].
    intros p x Hp. unfold ctx_at in Hp. simpl in Hp.
    apply lookup_delete_Some in Hp as [? Hp]. by apply Hback.
Qed.

(** The engine returns a new reference. *)
Lemma connect_accepted w target opt c w1 ref :
  next_alloc w = Some c →
  eng (grpc_engine_connect target opt) (new_ctx c w) = Done (ref, None) w1 →
  winv w → winv w1 → connecting w c w1 → c ≠ NULL → ref ≠ NULL →
  ref ∉ engine_refs (w_eng w) → engine_refs (w_eng w1) = {[ref]} ∪ engine_refs (w_eng w) →
  connect_post w target opt c (heap_upd c (OCtx (set_engine_ctx ref zero_cli_ctx)) w1).
Proof.
  intros Ha Erun Hw Hw1 Hg Hc Hr0 Hnew Hr. pose proof Hg as [Hfresh Hctx Hback _ _ Hqs _ Herr _ _].
  split; [|split; [|split]].
  - eapply winv_upd_ctx; [done|exact Hctx| | |done]; intros _; simpl; rewrite ?Hr; [set_solver|].
    intros p y Hp Hpc. apply Hback in Hp; [|done].
    destruct (decide (cx_engine_ctx y = NULL)) as [->|Hy]; [done|].
    apply (wi_conn _ Hw) in Hp; [|done]. by intros <-.
  - eapply connecting_steady; [done..| |]; simpl.
    + intros p Hp. by rewrite lookup_insert_ne.
    + rewrite lookup_insert_eq. by intros o [= <-].
  - eapply connecting_handles; [done..|]. intros p Hp. simpl. by rewrite lookup_insert_ne.
  - right. right. split_and!; [done|done|done| | |..]; simpl; rewrite ?Hqs.
    + exists ref, w1. split_and!; [done|done|apply lookup_insert_eq].
    + exists (set_engine_ctx ref zero_cli_ctx). split_and!; [apply lookup_insert_eq|done..].
    + apply new_ctx_free.
    + apply new_ctx_opening.
    + done.
Qed.

Lemma connect_spec r h target opt w :
  winv w → req_live w h r →
  wp (ngx_grpc_cli_connect r h target opt) (connect_post w target opt) w.
Proof.
  intros Hw Hreq. apply wp_bind, wp_get_req_logger; [done|].
  apply wp_bind, wp_mem, wp_alloc_choice.
  { intros Ha. apply wp_ret. split; [by apply winv_tick|]. split; [by apply steady_same|].
    split; [by apply handles_same|]. by left. }
  intros c Ha Hc Hr. rewrite (proj2 (Z.eqb_neq c NULL)) by (unfold NULL; lia).
  assert (c ≠ NULL) as Hc0 by (unfold NULL; lia).
  do 2 (apply wp_bind, wp_bind; eapply wp_w_load_ctx; [done|apply lookup_insert_eq|];
        apply wp_modify).
  assert (winv (new_ctx c w)) as Hw1 by by apply winv_new_ctx.
  change (set_qs _ _) with (new_ctx c w) in *. apply wp_bind. eapply wp_eng_eqn.
  { apply engine_connect_ok; [apply Hw|]. intros ref Href.
    destruct (wi_refs _ Hw1 ref Href) as [b Hb]. by exists (OBuf b). }
  cbn beta. intros [ref err] e m (He & Hst & Hx & Hcase) Erun. cbn [fst snd] in *.
  pose proof (connecting_intro _ _ e m Hc Hst Hx) as Hg. apply wp_bind.
  destruct Hcase as [(-> & Hr' & msg & -> & Hlen)|(Hr0 & -> & Hr' & Hnew & Hfr & b & Hb)].
  - apply wp_modify. rewrite Z.eqb_refl.
    apply wp_bind, wp_w_free; [done|eexists; apply (cg_ctx _ _ _ Hg)|]. apply wp_ret.
    eapply connect_refused; [done..| |done|done|done]. by apply winv_engine_same.
  - apply wp_ret. rewrite (proj2 (Z.eqb_neq _ _) Hr0).
    apply wp_bind. eapply wp_w_upd_ctx; [done|apply (cg_ctx _ _ _ Hg)|]. apply wp_ret.
    eapply connect_accepted; try done. apply winv_engine; [done..| | |done].
    + rewrite Hr'. set_solver.
    + rewrite Hr'. intros p Hp Hnp. assert (p = ref) as -> by set_solver. eauto.
Qed.

(** ** [ngx_grpc_cli_close] *)

(** The state after the engine's connection has been closed. *)
Definition engine_closed (c : Z) (x : cli_ctx) w w1 : Prop :=
  winv w1 ∧ w_qs w1 = w_qs w ∧ w_cos w1 = w_cos w ∧ w_reqs w1 = w_reqs w ∧
  w_th w1 = w_th w ∧ engine_refs (w_eng w1) = engine_refs (w_eng w) ∖ {[cx_engine_ctx x]} ∧
  engine_streams (w_eng w) ⊆ engine_streams (w_eng w1) ∧
  cm_heap (w_mem w1) =
    <[c := OCtx (set_engine_ctx NULL x)]> (delete (cx_engine_ctx x) (cm_heap (w_mem w))).

Lemma engine_closed_ctx c x w w1 :
  engine_closed c x w w1 → ctx_at w1 c (set_engine_ctx NULL x).
Proof. intros (_ & _ & _ & _ & _ & _ & _ & Hh). unfold ctx_at. rewrite Hh. apply lookup_insert_eq.
Qed.

(** The reference is a buffer. *)
Lemma engine_closed_agree c x w w1 :
  winv w → ctx_at w c x → engine_closed c x w w1 →
  agree but_bufs (<[c := OCtx (set_engine_ctx NULL x)]> (cm_heap (w_mem w))) (cm_heap (w_mem w1)).
Proof.
  intros Hw Hc (_ & _ & _ & _ & _ & _ & _ & Hh). rewrite Hh. unfold ctx_at in Hc.
  destruct (decide (cx_engine_ctx x = NULL)) as [E|E].
  { rewrite E, delete_id; [done|apply Hw]. }
  destruct (wi_refs _ Hw _ (wi_conn _ Hw _ _ Hc E)) as [b Hb].
  rewrite <- delete_insert_ne by congruence. apply agree_delete.
  intros o. rewrite lookup_insert_ne by congruence. eauto with grpc.
Qed.

Lemma engine_closed_stream c x w w1 k s :
  winv w → ctx_at w c x → engine_closed c x w w1 → stream_at w1 k s ↔ stream_at w k s.
Proof.
  intros Hw Hc Hcl. unfold ctx_at, stream_at in *.
  rewrite (engine_closed_agree _ _ _ _ Hw Hc Hcl k (OSctx s) eq_refl).
  destruct (decide (k = c)) as [->|]; [|by rewrite lookup_insert_ne].
  rewrite lookup_insert_eq, Hc. split; congruence.
Qed.

Lemma engine_closed_handles c x w w1 :
  winv w → ctx_at w c x → engine_closed c x w w1 → handles none none w w1.
Proof.
  intros Hw Hc Hcl. pose proof (engine_closed_agree _ _ _ _ Hw Hc Hcl) as Ha.
  trans (heap_upd c (OCtx (set_engine_ctx NULL x)) w).
  { eapply handles_upd_ctx; [exact Hc|]. by right. }
  destruct Hcl as (_ & Hqs & _ & _ & _ & _ & Hes & _). apply handles_agree; [done| |done].
  intros c'. by rewrite Hqs.
Qed.

Lemma close_engine_step c x w :
  winv w → ctx_at w c x →
  wp (when (negb (cx_engine_ctx x =? NULL))
        (_ ← eng (grpc_engine_close (cx_engine_ctx x));
         mem (upd_ctx c (set_engine_ctx NULL))))
    (λ _ w1, engine_closed c x w w1) w.
Proof.
  intros Hw Hc. assert (c ≠ NULL) by by eapply winv_live_nonnull.
  apply wp_when; intros Hb.
  - apply negb_true_iff, Z.eqb_neq in Hb.
    pose proof (wi_conn _ Hw _ _ Hc Hb) as Hr. destruct (wi_refs _ Hw _ Hr) as [b Hbuf].
    assert (cx_engine_ctx x ≠ c) by (intros E; unfold ctx_at in Hc; congruence).
    apply wp_bind, wp_eng.
    eapply wp_mono; [apply engine_close_ok; [apply Hw|done|done|by eexists]|].
    cbn beta. intros _ [e m] (He & Hst & Hrefs & Hm). cbn [fst snd] in *.
    eapply wp_w_upd_ctx; [done|unfold ctx_at; simpl; rewrite Hm, lookup_delete_ne; done|].
    split_and!; try done; [|simpl; by rewrite Hm].
    pose proof (winv_drop_ref _ _ _ Hw Hc) as Hw1.
    eapply (winv_irrelevant (with_engine e
      (CMem (delete (cx_engine_ctx x) (<[c := OCtx (set_engine_ctx NULL x)]> (cm_heap (w_mem w))))
        0)
      (heap_upd c (OCtx (set_engine_ctx NULL x)) w))); try done.
    + simpl. rewrite Hm. by rewrite delete_insert_ne.
    + eapply winv_engine_close; [done|exact Hr| |done..].
      intros p y Hp Ey. unfold ctx_at in Hp. simpl in Hp.
      apply lookup_insert_Some in Hp as [[_ [= <-]]|[Hne Hp]].
      * by rewrite <- Ey in Hb.
      * apply Hne. eapply (wi_conn_inj _ Hw); [exact Hc|exact Hp|done|done].
  - apply negb_false_iff, Z.eqb_eq in Hb. split_and!; try done.
    + rewrite Hb. apply set_eq. intros p. rewrite elem_of_difference, elem_of_singleton.
      split; [|tauto]. intros Hp. split; [done|]. intros ->.
      destruct (wi_refs _ Hw _ Hp) as [b E]. by rewrite (wi_null _ Hw) in E.
    + rewrite Hb, delete_id by apply Hw. symmetry. apply insert_id. unfold ctx_at in Hc.
      rewrite Hc. f_equal. f_equal. destruct x; simpl in *. by subst.
Qed.

Lemma engine_closed_steady c x w w1 :
  winv w → ctx_at w c x → engine_closed c x w w1 → steady w w1.
Proof.
  intros Hw Hc (_ & Hqs & _ & _ & Hth & _ & _ & Hh). unfold ctx_at in Hc.
  apply steady_objs; [by rewrite Hqs| |].
  2: { apply (winv_untouched_del _ _ (cx_engine_ctx x)); [done|by rewrite Hth| | |].
    - intros Hin. apply flight_bufs_live in Hin as (? & Hnr & _); [|apply Hw].
      by apply Hnr, (wi_conn _ Hw c).
    - intros Hin. apply (wi_bufs_refs _ Hw _ Hin), (wi_conn _ Hw c); [done|].
      by apply list_elem_of_filter in Hin as [? _].
    - intros q b Hq Hb. rewrite Hh, lookup_insert_ne by congruence. by rewrite lookup_delete_ne. }
  rewrite Hh.
  assert (agree not_plain (cm_heap (w_mem w)) (delete (cx_engine_ctx x) (cm_heap (w_mem w)))) as Hd.
  { apply agree_delete. intros o Ho.
    destruct (decide (cx_engine_ctx x = NULL)) as [E|E]; [by rewrite E, (wi_null _ Hw) in Ho|].
    destruct (wi_refs _ Hw _ (wi_conn _ Hw _ _ Hc E)) as [b Hb]. by apply (agree_at _ _ _ _ _ Hb). }
  etrans; [exact Hd|]. apply agree_insert; [|done].
  intros o [_ Ho]%lookup_delete_Some. by apply (agree_at _ _ _ _ _ Hc).
Qed.

(** What closing does, explicitly ([r] is a request) or from the collector
    ([r] is NULL). *)
Definition close_post (c : Z) (x : cli_ctx) (r : Z) w w' : Prop :=
  winv w' ∧ steady w w' ∧ handles (λ p, r = NULL ∧ p = c) none w w' ∧
  engine_refs (w_eng w') = engine_refs (w_eng w) ∖ {[cx_engine_ctx x]} ∧
  ∃ w1 lf lo, engine_closed c x w w1 ∧
    queue_of (w_qs w) (q_free c) = Some lf ∧ queue_of (w_qs w) (q_opening c) = Some lo ∧
    if decide (r = NULL) then
      if decide (lo = [])
      then cm_heap (w_mem w') = foldr delete (cm_heap (w_mem w1)) (c :: lf)
      else w' = heap_upd c (OCtx (CliCtx NULL true)) w1
    else w' = w1.

Lemma close_spec c x r h w :
  winv w → ctx_at w c x → (r = NULL ∨ req_live w h r) →
  (r = NULL → queue_of (w_qs w) (q_opening c) = Some [] →
     ∀ k s, stream_at w k s → sc_node s ≠ NULL → sc_parent s ≠ c) →
  wp (ngx_grpc_cli_close c r h) (λ _ w', close_post c x r w w') w.
Proof.
  intros Hw Hc Hr Hidle. assert (c ≠ NULL) as Hc0 by by eapply winv_live_nonnull.
  destruct (winv_ctx_queues _ _ _ Hw Hc) as (lf & lo & Hf & Ho).
  assert (wp (if negb (r =? NULL) then ngx_grpc_cli_get_req_logger r h ≫= λ _, mret false
              else mret true) (λ gc w', gc = (r =? NULL) ∧ w' = w) w) as Hlog.
  { destruct (Z.eqb_spec r NULL) as [->|Hrn]; [by apply wp_ret|].
    destruct Hr as [?|Hr]; [done|]. by apply wp_bind, wp_get_req_logger, wp_ret. }
  apply wp_bind. eapply wp_mono; [exact Hlog|]. cbn beta. intros gc w' [-> ->].
  apply wp_bind. eapply wp_w_load_ctx; [done..|].
  apply wp_bind. eapply wp_mono; [by apply close_engine_step|]. cbn beta. intros _ w1 Hcl.
  pose proof (engine_closed_ctx _ _ _ _ Hcl) as Hc1.
  pose proof (engine_closed_steady _ _ _ _ Hw Hc Hcl) as Hst1.
  assert (handles (λ p, r = NULL ∧ p = c) none w w1) as Hh1.
  { by eapply (handles_weaken none), engine_closed_handles. }
  destruct (id Hcl) as (Hw1 & Hqs & _ & _ & Hth & Hrefs & _ & Hheap).
  destruct (Z.eqb_spec r NULL) as [->|Hrn].
  - cbn [negb]. apply wp_bind. eapply wp_ctx_queue; [done..|].
    rewrite Hqs, (queue_empty_nil _ _ _ Ho). case_bool_decide as Hlo; cbn [negb].
    + subst lo. eapply wp_mono.
      { eapply free_conn_spec; [done|done|done|by rewrite Hqs|by rewrite Hqs|].
        intros k s Hk Hn. apply (engine_closed_stream c x w) in Hk; [|done..].
        by apply (Hidle eq_refl Ho k s). }
      cbn beta. intros _ w' (qs & -> & Hw' & Hqn). split_and!; [done| | |done|].
      { trans w1; [done|]. eapply freed_steady; [done|done|by rewrite Hqs|by apply Hqn]. }
      { trans w1; [done|]. eapply (handles_weaken (λ p, p = c)); [done..|].
        eapply freed_handles; [done|done|by rewrite Hqs|done]. }
      exists w1, lf, []. split_and!; [done..|]. rewrite !decide_True by done. done.
    + eapply wp_w_upd_ctx; [done..|]. split_and!; [by apply winv_set_free_delayed| | |done|].
      { trans w1; [done|]. apply steady_objs; [done| |].
        - apply agree_insert; [|done]. intros o Eo. by apply (agree_at _ _ _ _ _ Hc1).
        - unfold ctx_at in Hc1. apply winv_untouched; [done..|]. intros p b Hb. simpl.
          rewrite lookup_insert_ne; [done|congruence]. }
      { trans w1; [done|]. eapply handles_upd_ctx; [done|]. by left. }
      exists w1, lf, lo. split_and!; [done..|].
      rewrite decide_True, decide_False by done. done.
  - apply wp_ret. split_and!; [done..|]. exists w1, lf, lo. split_and!; [done..|].
    by rewrite decide_False.
Qed.
End conn_ops.
