(* ===== verification/StreamInv.v ===== *)
(** * Calls and streams keep the invariant *)
From S2P Require Import Prelude Words Mem Wire TaskQueue Ngx World Tasks Conn Stream.
From S2P Require Import EngineSpec Heaps Inv InvMoves Handles ConnInv.

Section frames.
Context `{NginxLaws} `{GrpcEngineLaws}.
Implicit Types w : world.

(** What most steps leave alone. *)
Record same_env w w' : Prop := {
  se_eng : w_eng w' = w_eng w;
  se_cos : w_cos w' = w_cos w;
  se_reqs : w_reqs w' = w_reqs w;
  se_conf : w_conf w' = w_conf w;
  se_th : w_th w' = w_th w;
  se_err : w_err_buf w' = w_err_buf w ∧ w_err_len w' = w_err_len w;
  se_ctx p y : ctx_at w' p y ↔ ctx_at w p y;
  se_ongoing p s : ongoing w' p s ↔ ongoing w p s;
  se_opening c : queue_of (w_qs w') (q_opening c) = queue_of (w_qs w) (q_opening c);
  se_calm : calm w w';
  se_handles : handles none none w w';
}.

#[global] Instance same_env_refl : Reflexive same_env.
Proof. by split. Qed.

#[global] Instance same_env_trans : Transitive same_env.
Proof.
  intros w1 w2 w3 [] []. split; try congruence.
  - naive_solver congruence.
  - intros. by rewrite se_ctx1.
  - intros. by rewrite se_ongoing1.
  - by trans w2.
  - by trans w2.
Qed.
End frames.

Section stream_ops.
Context `{AllocatorLaws} `{NginxLaws} `{GrpcEngineLaws}.
Implicit Types w : world.

(** ** A stream context for a new call *)

Lemma upd_idle_ongoing w k s s' :
  stream_at w k s → sc_node s = NULL → sc_node s' = NULL →
  ∀ p s1, ongoing (heap_upd k (OSctx s') w) p s1 ↔ ongoing w p s1.
Proof.
  intros Hk Hn Hn' p s1. unfold ongoing, stream_at in *. simpl. destruct (decide (p = k)) as [->|].
  - rewrite lookup_insert_eq, Hk. split; intros [[= <-] ?]; congruence.
  - by rewrite lookup_insert_ne.
Qed.

Lemma same_env_upd_idle w k s s' :
  stream_at w k s → sc_node s = NULL → sc_node s' = NULL →
  (sc_is_http s' = sc_is_http s ∧ sc_parent s' = sc_parent s ∨ ¬ linked (w_qs w) k) →
  same_env w (heap_upd k (OSctx s') w).
Proof.
  intros Hk Hn Hn' Hsame. unfold stream_at in Hk. split; try done.
  - intros p y. unfold ctx_at. simpl. destruct (decide (p = k)) as [->|].
    + rewrite lookup_insert_eq, Hk. split; congruence.
    + by rewrite lookup_insert_ne.
  - by eapply upd_idle_ongoing.
  - split; [done| |].
    + intros q r Hq. unfold pev_at in *. simpl. rewrite lookup_insert_ne; [done|congruence].
    + apply untouched_bufs; [done|]. intros p b. simpl.
      destruct (decide (p = k)) as [->|]; [|by rewrite lookup_insert_ne].
      rewrite lookup_insert_eq, Hk. split; congruence.
  - apply handles_intro; [| |done]; simpl.
    + intros c x Hc Hd _. exists x. split; [|done]. unfold ctx_at in *. simpl.
      rewrite lookup_insert_ne; [done|congruence].
    + intros p s1 l Hs1 Hl Hin _. unfold stream_at in *. simpl.
      destruct (decide (p = k)) as [->|]; [|rewrite lookup_insert_ne by done; by exists s1, l].
      rewrite Hk in Hs1. injection Hs1 as <-.
      destruct Hsame as [[Eh Ep]|[]]; [|by exists (q_opening (sc_parent s)), l].
      exists s', l. by rewrite lookup_insert_eq.
Qed.

Lemma same_env_queue w f :
  (∀ h, (∀ c, h ≠ q_free c) → queue_of (f (w_qs w)) h = queue_of (w_qs w) h) →
  same_env w (set_qs (f (w_qs w)) w).
Proof.
  intros Hq. split; try done; [by intros c; apply Hq| |].
  - split; [by apply Hq|done|by apply untouched_same].
  - apply handles_agree; [done| |done]. intros c. by apply Hq.
Qed.

(** Changing a detached stream that stays idle. *)
Lemma detached_upd w k s s' :
  winv w → detached w k s → sc_node s' = NULL →
  winv (heap_upd k (OSctx s') w) ∧ detached (heap_upd k (OSctx s') w) k s' ∧
  same_env w (heap_upd k (OSctx s') w).
Proof.
  intros Hw (Hk & Hn & Hnl) Hn'. split_and!.
  - eapply winv_upd_idle; [done..|]. intros c l Hl Hin. destruct Hnl. by exists (q_opening c), l.
  - split_and!; [apply lookup_insert_eq|done|done].
  - eapply same_env_upd_idle; [done..|]. by right.
Qed.

Lemma take_sctx_spec c x w :
  winv w → ctx_at w c x →
  wp (take_sctx c) (λ k w', winv w' ∧ same_env w w' ∧
    (k = NULL ∨ k ≠ NULL ∧ detached w' k zero_stream_ctx)) w.
Proof.
  intros Hw Hc. destruct (winv_ctx_queues _ _ _ Hw Hc) as (lf & lo & Hf & Ho).
  apply wp_bind. eapply wp_ctx_queue; [done..|]. rewrite (queue_empty_nil _ _ _ Hf).
  case_bool_decide as Hlf; cbn [negb].
  - (* a fresh one *)
    apply wp_mem, wp_alloc.
    + split_and!; [by apply winv_tick|by split; [..|apply calm_same|]|by left].
    + intros k Hk Hr _. split_and!.
      * by apply (winv_add w k (OSctx zero_stream_ctx)).
      * split; try done.
        -- intros p y. unfold ctx_at. simpl. destruct (decide (p = k)) as [->|].
           ++ rewrite lookup_insert_eq, Hk. split; congruence.
           ++ by rewrite lookup_insert_ne.
        -- intros p s1. unfold ongoing, stream_at. simpl. destruct (decide (p = k)) as [->|].
           ++ rewrite lookup_insert_eq, Hk. split; [intros [[= <-] ?]|intros [? ?]]; done.
           ++ by rewrite lookup_insert_ne.
        -- split; [done| |].
           ++ intros q r Hq. unfold pev_at in *. simpl.
              rewrite lookup_insert_ne; [done|congruence].
           ++ apply winv_untouched; [done..|]. intros p b Hb. simpl.
              rewrite lookup_insert_ne; [done|congruence].
        -- by apply handles_add.
      * right. split; [unfold NULL; lia|]. by apply detached_add.
  - (* the last of the free queue *)
    destruct lf as [|k lf _] using rev_ind; [done|].
    apply wp_bind. eapply wp_ctx_queue; [done..|]. rewrite (queue_last_snoc _ _ _ _ Hf).
    assert (k ∈ lf ++ [k]) as Hin by set_solver.
    destruct (wi_elems _ Hw _ _ _ Hf Hin) as (_ & s & Hs & Hn).
    destruct (winv_remove _ _ _ _ _ Hw Hf ltac:(done)) as (Hw1 & Hnl & Hq & Hne).
    assert (k ≠ NULL) by by eapply winv_live_nonnull.
    apply wp_bind, wp_modify. set (w1 := set_qs _ w) in *.
    assert (detached w1 k s) as Hdet by by split_and!.
    destruct (detached_upd w1 k s zero_stream_ctx Hw1 Hdet eq_refl) as (Hw2 & Hd2 & He2).
    apply wp_bind. eapply wp_w_upd_sctx; [done|apply Hdet|]. apply wp_ret.
    split_and!; [done| |by right]. trans w1; [|done].
    apply same_env_queue. intros h Hh. by apply Hne.
Qed.

(** ** Starting a task *)

(** The coroutine that runs now: it exists, and no stream waits in it. *)
Definition co_ready w (h : bool) (co : Z) (c : co_ctx) : Prop :=
  co ≠ NULL ∧ w_cos w !! (h, co) = Some c ∧
  ∀ k s, ongoing w k s → (sc_is_http s, sc_wait_co_ctx s) ≠ (h, co).

(** The coroutine context after [park]. *)
Definition parked_co (k timeout : Z) (c : co_ctx) : co_ctx :=
  CoCtx k H_grpc_cleanup (ngx_add_timer timeout (co_sleep c)) H_grpc_timeout k (co_pushed c).

Lemma wp_park h co c k s t (Q : unit → world → Prop) w :
  k ≠ NULL → stream_at w k s → co ≠ NULL → w_cos w !! (h, co) = Some c →
  Q tt (set_cos (<[(h, co) := parked_co k t c]> (w_cos w))
          (heap_upd k (OSctx (set_wait_co_ctx co s)) w)) →
  wp (park h co k t) Q w.
Proof.
  intros Hk Hs Hco Hc HQ. apply wp_bind. eapply wp_w_upd_sctx; [done..|].
  apply wp_bind. eapply wp_upd_co; [done|exact Hc|].
  do 3 (apply wp_bind; eapply wp_upd_co; [done|simpl; apply lookup_insert_eq|];
        cbn [w_cos set_cos]).
  eapply wp_upd_co; [done|simpl; apply lookup_insert_eq|].
  cbn [w_cos set_cos heap_upd set_mem] in *. rewrite !insert_insert_eq. exact HQ.
Qed.

(** Why a task could not be started, and what is reported. *)
Inductive kick_off_failure w (h : bool) (r : Z) : bytes → Prop :=
| kf_no_ctx q :
    w_reqs w !! (h, r) = Some q → rq_lctx q = None →
    kick_off_failure w h r MSG_no_request_ctx
| kf_context q x msg :
    w_reqs w !! (h, r) = Some q → rq_lctx q = Some x →
    (if h then ngx_http_lua_ffi_check_context (lx_context x) NGX_HTTP_LUA_CONTEXT_YIELDABLE
     else ngx_stream_lua_ffi_check_context (lx_context x)
            (Z.lor (Z.lor (Z.lor (Z.lor NGX_STREAM_LUA_CONTEXT_PREREAD
               NGX_STREAM_LUA_CONTEXT_CONTENT) NGX_STREAM_LUA_CONTEXT_TIMER)
               NGX_STREAM_LUA_CONTEXT_SSL_CLIENT_HELLO)
               NGX_STREAM_LUA_CONTEXT_SSL_CERT)) = Some msg →
    kick_off_failure w h r msg
| kf_post :
    ev_active (th_task_event (w_th w)) = false →
    ngx_thread_task_post (cm_seq (w_mem w)) (th_task_event (w_th w)) = None →
    kick_off_failure w h r MSG_task_post_failed
| kf_memory : kick_off_failure w h r MSG_no_memory.

(** The stream and the state after a task has been started. *)
Definition kicked w (k : Z) (s : stream_ctx) (r : Z) (t : Z) w' : Prop :=
  ∃ n q x c,
    cm_heap (w_mem w) !! n = None ∧ n ≠ NULL ∧
    w_reqs w !! (sc_is_http s, r) = Some q ∧ rq_lctx q = Some x ∧
    w_cos w !! (sc_is_http s, lx_cur_co_ctx x) = Some c ∧
    cm_heap (w_mem w') =
      <[k := OSctx (set_wait_co_ctx (lx_cur_co_ctx x)
              (set_state NGX_GRPC_CLIENT_STATE_OK (set_node n s)))]>
        (<[n := ONode k]> (cm_heap (w_mem w))) ∧
    w_cos w' = <[(sc_is_http s, lx_cur_co_ctx x) := parked_co k t c]> (w_cos w) ∧
    lookup_walk k (w_tree w') ≠ NULL ∧
    ev_active (th_task_event (w_th w')) = true.

Definition kick_off_post w (k : Z) (s : stream_ctx) (r : Z) (t : Z) (rc : Z) w' : Prop :=
  winv w' ∧ w_eng w' = w_eng w ∧ w_qs w' = w_qs w ∧ w_reqs w' = w_reqs w ∧
  w_conf w' = w_conf w ∧ th_array (w_th w') = th_array (w_th w) ∧
  ((rc = NGX_ERROR ∧ cm_heap (w_mem w') = cm_heap (w_mem w) ∧ w_cos w' = w_cos w ∧
      ∃ msg, kick_off_failure w (sc_is_http s) r msg ∧
             err_string w' = take (Z.to_nat (w_err_len w)) msg) ∨
   (rc = NGX_OK ∧ kicked w k s r t w')).

Lemma kick_off_calm w k s r t rc w' :
  stream_at w k s → kick_off_post w k s r t rc w' → calm w w'.
Proof.
  intros Hk (_ & _ & Hqs & _ & _ & Hta & Hcase). unfold stream_at in Hk.
  split; [by rewrite Hqs| |apply untouched_bufs; [done|]]; unfold pev_at;
    [intros q y Hq|intros p b];
    destruct Hcase as [(_ & -> & _)|(_ & n & ? & ? & ? & Hn & _ & _ & _ & _ & -> & _)]; try done.
  - rewrite !lookup_insert_ne; congruence.
  - rewrite !lookup_insert_Some. naive_solver congruence.
Qed.

Lemma kick_off_handles w k s r t rc w' :
  stream_at w k s → kick_off_post w k s r t rc w' → handles none none w w'.
Proof.
  intros Hk (_ & He & Hqs & _ & _ & _ & Hcase). unfold stream_at in Hk.
  destruct Hcase as [(_ & Hh & _)|(_ & n & ? & ? & ? & Hn & _ & _ & _ & _ & Hh & _)];
    [by apply handles_same|].
  apply handles_intro; [| |by rewrite He]; unfold ctx_at, stream_at in *.
  - intros c y Hc Hd _. exists y. split; [|done]. unfold ctx_at. rewrite Hh.
    rewrite !lookup_insert_ne by congruence. done.
  - intros p s1 l Hs1 Hl Hin _. rewrite Hh, Hqs. destruct (decide (p = k)) as [->|Hp].
    + rewrite Hk in Hs1. injection Hs1 as <-. rewrite lookup_insert_eq. by eexists _, l.
    + exists s1, l. rewrite !lookup_insert_ne by congruence. done.
Qed.

Lemma wp_snprintf_err msg (Q : unit → world → Prop) w :
  Q tt (set_err (splice 0 (take (Z.to_nat (w_err_len w)) msg) (w_err_buf w))
          (Z.of_nat (length (take (Z.to_nat (w_err_len w)) msg))) w) →
  wp (snprintf_err msg) Q w.
Proof. intros HQ. apply wp_modify. by rewrite snprintf_take. Qed.

Lemma snprintf_err_ok msg w w1 :
  winv w → cm_heap (w_mem w1) = cm_heap (w_mem w) → w_qs w1 = w_qs w →
  w_tree w1 = w_tree w → w_num w1 = w_num w → w_reqs w1 = w_reqs w → w_cos w1 = w_cos w →
  w_eng w1 = w_eng w → w_conf w1 = w_conf w → w_err_len w1 = w_err_len w →
  th_array (w_th w1) = th_array (w_th w) →
  ∀ k s r t, kick_off_failure w (sc_is_http s) r msg →
  wp (snprintf_err msg) (λ _ w', kick_off_post w k s r t NGX_ERROR w') w1.
Proof.
  intros Hw E1 E2 E3 E4 E5 E6 E7 E8 E9 E10 k s r t Hf. apply wp_snprintf_err.
  split_and!; try done; [by apply (winv_irrelevant w)|].
  left. split_and!; try done. exists msg. split; [done|].
  rewrite err_string_splice. by rewrite E9.
Qed.

Lemma wp_schedule gccf w :
  cf_task gccf ≠ NULL →
  wp (ngx_grpc_cli_schedule_task_thread_if_needed gccf) (λ rc w',
    (rc = NGX_ERROR ∧ w' = tick w ∧ ev_active (th_task_event (w_th w)) = false ∧
       ngx_thread_task_post (cm_seq (w_mem w)) (th_task_event (w_th w)) = None) ∨
    (rc = NGX_OK ∧ ∃ th, (w' = set_th th w ∨ w' = set_th th (tick w)) ∧
       ev_active (th_task_event th) = true ∧ th_array th = th_array (w_th w))) w.
Proof.
  intros Ht. unfold ngx_grpc_cli_schedule_task_thread_if_needed.
  rewrite (proj2 (Z.eqb_neq _ _) Ht). apply wp_bind, wp_get.
  destruct (ev_active (th_task_event (w_th w))) eqn:Ha; cbn [negb].
  { apply wp_ret. right. split; [done|]. exists (w_th w). split; [left; by destruct w|done]. }
  apply wp_bind, wp_bind, wp_get, wp_bind, wp_modify.
  destruct (ngx_thread_task_post _ _) as [ev|] eqn:Ep.
  - apply wp_bind, wp_modify, wp_ret, wp_ret. right. split; [done|].
    exists (set_task_event ev (w_th w)). destruct (ev_task_post _ _ _ Ep) as [Hev Hran].
    split_and!; [by right|done|]. unfold th_array. simpl. by rewrite Hran.
  - apply wp_ret, wp_ret. by left.
Qed.

Lemma kicked_ok th n q x c r t k s w w1 :
  winv w → stream_at w k s → sc_node s = NULL → sc_r s = r → r ≠ NULL →
  (∀ c l, queue_of (w_qs w) (q_free c) = Some l → k ∉ l) →
  (∃ y, ctx_at w (sc_parent s) y) →
  w_reqs w !! (sc_is_http s, r) = Some q → rq_lctx q = Some x →
  co_ready w (sc_is_http s) (lx_cur_co_ctx x) c →
  cm_heap (w_mem w) !! n = None → 0 < n < 2 ^ 64 → n ≠ NULL →
  w1 = set_th th w ∨ w1 = set_th th (tick w) → ev_active (th_task_event th) = true →
  th_array th = th_array (w_th w) →
  kick_off_post w k s r t NGX_OK
    (set_cos (<[(sc_is_http s, lx_cur_co_ctx x) := parked_co k t c]> (w_cos w))
      (heap_upd k (OSctx (set_wait_co_ctx (lx_cur_co_ctx x)
                            (set_state NGX_GRPC_CLIENT_STATE_OK (set_node n s))))
        (heap_upd k (OSctx (set_state NGX_GRPC_CLIENT_STATE_OK (set_node n s)))
          (kept n k s w1)))).
Proof.
  intros Hw Hk Hn Hr Hr0 Hfree Hpar Hq Hlx (Hco0 & Hc & Hfresh) Hnone Hrange Hnn Hw1 Hact Hta.
  set (s' := set_wait_co_ctx _ _). set (w' := set_cos _ _).
  assert (cm_heap (w_mem w') = <[k := OSctx s']> (<[n := ONode k]> (cm_heap (w_mem w)))) as Hheap.
  { destruct Hw1 as [->| ->]; simpl; by rewrite !insert_insert_eq. }
  assert (w_tree w' = ngx_rbtree_insert n k (w_tree w)) as Htree
    by by destruct Hw1 as [->| ->].
  assert (winv w') as Hw'.
  { eapply (winv_kept_parked w w' k s n s'); try done; try (by destruct Hw1 as [->| ->]).
    - intros k1 s1 Hk1 Hn1. simpl. rewrite lookup_insert_ne; [done|].
      intros E. by eapply Hfresh.
    - unfold parked. subst s'. simpl. rewrite Hr. split_and!; [done|done| | |done].
      + exists (parked_co k t c). rewrite lookup_insert_eq. split_and!; try done.
        apply ev_add_timer.
      + exists q, x. split; [|done]. by destruct Hw1 as [->| ->]. }
  split_and!; try done; try (by destruct Hw1 as [->| ->]).
  right. split; [done|]. exists n, q, x, c. split_and!; try done.
  - apply tree_inv_lookup; [apply Hw'|]. exists s'. rewrite Hheap, lookup_insert_eq. done.
  - by destruct Hw1 as [->| ->].
Qed.

Lemma kick_off_spec r gccf k s opt w :
  winv w → stream_at w k s → sc_node s = NULL → sc_r s = r →
  (∀ c l, queue_of (w_qs w) (q_free c) = Some l → k ∉ l) →
  (∃ x, ctx_at w (sc_parent s) x) → req_live w (sc_is_http s) r → cf_task gccf ≠ NULL →
  (∀ q x, w_reqs w !! (sc_is_http s, r) = Some q → rq_lctx q = Some x →
     ∃ c, co_ready w (sc_is_http s) (lx_cur_co_ctx x) c) →
  wp (ngx_grpc_cli_kick_off_task r gccf k opt) (kick_off_post w k s r (co_timeout opt)) w.
Proof.
  intros Hw Hk Hn Hr Hfree Hpar [Hr0 [q Hq]] Htask Hco.
  assert (k ≠ NULL) as Hk0 by by eapply winv_live_nonnull.
  apply wp_bind. eapply wp_w_load_sctx; [done..|]. apply wp_bind, wp_bind, wp_bind.
  eapply wp_get_req; [done..|]. apply wp_ret.
  destruct (rq_lctx q) as [x|] eqn:Hlx; cycle 1.
  { apply wp_bind. eapply wp_mono; [eapply snprintf_err_ok; try done; by econstructor|].
    cbn beta. intros _ w' Hp. by do 2 apply wp_ret. }
  destruct (if sc_is_http s then _ else _) as [msg|] eqn:Hchk.
  { apply wp_bind. eapply wp_mono; [eapply snprintf_err_ok; try done; by econstructor|].
    cbn beta. intros _ w' Hp. by do 2 apply wp_ret. }
  apply wp_ret.
  destruct (Hco q x Hq Hlx) as (c & Hco0 & Hc & Hfresh).
  apply wp_bind. eapply wp_mono; [by apply wp_schedule|]. cbn beta.
  intros rc w1 [(-> & -> & Hact & Hpost)|(-> & th & Hw1 & Hact & Hta)].
  { cbn [Z.eqb NGX_ERROR NGX_OK negb]. apply wp_bind.
    eapply wp_mono; [eapply snprintf_err_ok; try done; by apply kf_post|].
    cbn beta. intros _ w' Hp. by apply wp_ret. }
  cbn [Z.eqb NGX_OK negb]. apply wp_bind.
  apply (wp_keep_task k s); [done|by destruct Hw1 as [->| ->]|..].
  { cbn [Z.eqb NGX_ERROR NGX_OK negb]. apply wp_bind.
    eapply wp_mono.
    { eapply snprintf_err_ok; [exact Hw|by destruct Hw1 as [->| ->]..|by apply kf_memory]. }
    cbn beta. intros _ w' Hp. by apply wp_ret. }
  intros n Hnone Hrange. cbn [Z.eqb NGX_OK negb].
  assert (cm_heap (w_mem w) !! n = None) as Hnone' by by destruct Hw1 as [->| ->]. apply wp_bind.
  assert (n ≠ NULL) by (unfold NULL; lia).
  eapply wp_w_upd_sctx; [done|apply lookup_insert_eq|].
  apply wp_bind. eapply wp_park; [done|apply lookup_insert_eq|done|by destruct Hw1 as [->| ->]|].
  apply wp_ret. replace (w_cos _) with (w_cos w) by by destruct Hw1 as [->| ->].
  by apply (kicked_ok th n q x c r _ k s w w1).
Qed.

(** ** [ngx_grpc_cli_new_stream] *)

Definition fresh_stream (r : Z) (h : bool) (c type : Z) : stream_ctx :=
  StreamCtx r NULL NULL zero_task_res 0 NULL c type h.

Lemma init_sctx_spec {A} k r h c type (rest : M world A) (Q : A → world → Prop) w :
  winv w → detached w k zero_stream_ctx →
  (∀ w', winv w' → detached w' k (fresh_stream r h c type) → same_env w w' →
     w_qs w' = w_qs w → wp rest Q w') →
  wp (_ ← mem (upd_sctx k (set_r r)); _ ← mem (upd_sctx k (set_is_http h));
      _ ← mem (upd_sctx k (set_parent c)); _ ← mem (upd_sctx k (set_type type)); rest) Q w.
Proof.
  intros Hw Hd HQ. assert (k ≠ NULL) by by eapply winv_live_nonnull, Hd.
  destruct (detached_upd w k _ (set_r r zero_stream_ctx) Hw Hd eq_refl) as (Hw1 & Hd1 & He1).
  apply wp_bind. eapply wp_w_upd_sctx; [done|apply Hd|].
  destruct (detached_upd _ k _ (set_is_http h (set_r r zero_stream_ctx)) Hw1 Hd1 eq_refl)
    as (Hw2 & Hd2 & He2).
  apply wp_bind. eapply wp_w_upd_sctx; [done|apply Hd1|].
  destruct (detached_upd _ k _ (set_parent c (set_is_http h (set_r r zero_stream_ctx)))
    Hw2 Hd2 eq_refl) as (Hw3 & Hd3 & He3).
  apply wp_bind. eapply wp_w_upd_sctx; [done|apply Hd2|].
  destruct (detached_upd _ k _ (fresh_stream r h c type) Hw3 Hd3 eq_refl) as (Hw4 & Hd4 & He4).
  apply wp_bind. eapply wp_w_upd_sctx; [done|apply Hd3|]. apply HQ; [done..| |done].
  etrans; [exact He1|]. etrans; [exact He2|]. by etrans.
Qed.

(** The engine calls that start a task keep the invariant and the references;
    every object but the buffers is as before. *)
Definition engine_started w w' : Prop :=
  ∃ e m, w' = with_engine e m w ∧ engine_refs e = engine_refs (w_eng w) ∧
    engine_streams (w_eng w) ⊆ engine_streams e ∧ extends (cm_heap (w_mem w)) (cm_heap m).

Lemma engine_started_obj w w' p o :
  engine_started w w' → (∀ b, o ≠ OBuf b) →
  cm_heap (w_mem w') !! p = Some o ↔ cm_heap (w_mem w) !! p = Some o.
Proof.
  intros (e & m & -> & _ & _ & Hx) Ho. by apply extends_nonbuf.
Qed.

Lemma engine_started_handles w w' : engine_started w w' → handles none none w w'.
Proof.
  intros (e & m & -> & _ & Hes & Hx). apply handles_agree; [|done..]. by apply agree_extends.
Qed.

Lemma engine_started_flight w w' :
  winv w → engine_started w w' → untouched w w'.
Proof.
  intros Hw (e & m & -> & _ & _ & Hx). by apply (steady_extends w (with_engine e m w)).
Qed.

Lemma wp_eng_started (op : M (engine * cmem) unit) w (Q : unit → world → Prop) :
  winv w →
  wp op (λ _ s, engine_wf s.1 ∧ engine_refs s.1 = engine_refs (w_eng w) ∧
    engine_streams (w_eng w) ⊆ engine_streams s.1 ∧
    extends (cm_heap (w_mem w)) (cm_heap s.2)) (w_eng w, w_mem w) →
  (∀ w', winv w' → engine_started w w' → Q tt w') →
  wp (eng op) Q w.
Proof.
  intros Hw Hop HQ. apply wp_eng. eapply wp_mono; [exact Hop|]. cbn beta.
  intros [] [e m] (He & Hr & Hs & Hx). cbn [fst snd] in *. apply HQ.
  - by apply winv_engine_same.
  - by exists e, m.
Qed.

(** Why no stream is returned. *)
Inductive new_stream_failure w (c : Z) (h : bool) (r : Z) : bytes → Prop :=
| nf_closed x :
    ctx_at w c x → cx_engine_ctx x = NULL → new_stream_failure w c h r MSG_closed
| nf_memory : new_stream_failure w c h r MSG_no_memory
| nf_kick_off w1 msg :
    same_env w w1 → kick_off_failure w1 h r msg → new_stream_failure w c h r msg.

Definition new_stream_post w (r : Z) (h : bool) (c type : Z) (k : Z) w' : Prop :=
  winv w' ∧ engine_refs (w_eng w') = engine_refs (w_eng w) ∧
  engine_streams (w_eng w) ⊆ engine_streams (w_eng w') ∧
  (∀ p s, p ≠ k → ongoing w' p s ↔ ongoing w p s) ∧
  (∀ p y, ctx_at w' p y ↔ ctx_at w p y) ∧ calm w w' ∧ handles none none w w' ∧
  ((k = NULL ∧ ∃ msg, new_stream_failure w c h r msg ∧
      err_string w' = take (Z.to_nat (w_err_len w)) msg) ∨
   (k ≠ NULL ∧ (¬ ∃ s, ongoing w k s) ∧ (∀ h', ¬ held w h' k) ∧
    (∃ s, ongoing w' k s ∧ sc_r s = r ∧ sc_is_http s = h ∧ sc_parent s = c ∧
       sc_type s = type ∧ sc_state s = NGX_GRPC_CLIENT_STATE_OK) ∧
    ∃ lo, queue_of (w_qs w) (q_opening c) = Some lo ∧
      queue_of (w_qs w') (q_opening c) =
        Some (if decide (type = NGX_GRPC_CLIENT_STREAM_TYPE_UNARY) then lo else k :: lo))).

(** What a caller of the module owes: its request is alive, and the coroutine
    that runs for it waits for no other task. *)
Definition caller_ready w (h : bool) (r : Z) : Prop :=
  req_live w h r ∧
  ∀ q x, w_reqs w !! (h, r) = Some q → rq_lctx q = Some x →
    ∃ co, co_ready w h (lx_cur_co_ctx x) co.

Lemma caller_ready_env w w' h r : same_env w w' → caller_ready w h r → caller_ready w' h r.
Proof.
  intros E [[Hr Hq] Hco]. split; [split; [done|by rewrite (se_reqs _ _ E)]|].
  intros q x Hq' Hx. rewrite (se_reqs _ _ E) in Hq'.
  destruct (Hco q x Hq' Hx) as (co & Hco0 & Hco1 & Hco2). exists co.
  split_and!; [done|by rewrite (se_cos _ _ E)|].
  intros k s Hs. apply Hco2 with k. by apply (se_ongoing _ _ E).
Qed.

(** What a started task changes, besides the coroutine. *)
Lemma kicked_obj w k s r t w' p o :
  kicked w k s r t w' → cm_heap (w_mem w) !! k = Some (OSctx s) → p ≠ k →
  (∀ y, o ≠ ONode y) →
  cm_heap (w_mem w') !! p = Some o ↔ cm_heap (w_mem w) !! p = Some o.
Proof.
  intros (n & q & x & c & Hn & _ & _ & _ & _ & Hh & _) Hk Hp Ho.
  rewrite Hh, lookup_insert_ne by done.
  destruct (decide (p = n)) as [->|]; [|by rewrite lookup_insert_ne].
  rewrite lookup_insert_eq, Hn. split; [|done]. intros [= <-]. by destruct (Ho k).
Qed.

Lemma kicked_stream w k s r t w' :
  winv w' → kicked w k s r t w' →
  ∃ s', ongoing w' k s' ∧ sc_r s' = sc_r s ∧ sc_is_http s' = sc_is_http s ∧
    sc_parent s' = sc_parent s ∧ sc_type s' = sc_type s ∧
    sc_state s' = NGX_GRPC_CLIENT_STATE_OK.
Proof.
  intros Hw' (n & q & x & c & _ & Hn & _ & _ & _ & Hh & _).
  eexists. split_and!; [split|..]; [unfold stream_at; rewrite Hh; apply lookup_insert_eq|..];
    done.
Qed.

(** The last lines of [ngx_grpc_cli_new_stream]: the engine is told, and a
    stream that is not unary is linked into the connection's opening queue. *)
Definition engine_new_task (k c engine_ctx : Z) (method req : bytes) (opt : call_opt)
    (type : Z) : M world unit :=
  if negb (type =? NGX_GRPC_CLIENT_STREAM_TYPE_UNARY) then
    _ ← eng (grpc_engine_new_stream k engine_ctx method req opt type);
    ctx_queue_upd c (ngx_queue_insert_head (q_opening c) k)
  else eng (grpc_engine_call k engine_ctx method req opt).

Definition engine_new_task_post (c k type : Z) (lo : list Z) w w' : Prop :=
  winv w' ∧ engine_refs (w_eng w') = engine_refs (w_eng w) ∧
  engine_streams (w_eng w) ⊆ engine_streams (w_eng w') ∧
  (∀ p o, (∀ b, o ≠ OBuf b) →
     cm_heap (w_mem w') !! p = Some o ↔ cm_heap (w_mem w) !! p = Some o) ∧
  (∀ h, h ≠ q_opening c → queue_of (w_qs w') h = queue_of (w_qs w) h) ∧
  untouched w w' ∧
  queue_of (w_qs w') (q_opening c) =
    Some (if decide (type = NGX_GRPC_CLIENT_STREAM_TYPE_UNARY) then lo else k :: lo).

Lemma engine_new_task_spec k s c x method req opt type lo w :
  winv w → ctx_at w c x → cx_engine_ctx x ≠ NULL → stream_at w k s → ¬ linked (w_qs w) k →
  sc_parent s = c → sc_type s = type → queue_of (w_qs w) (q_opening c) = Some lo →
  wp (engine_new_task k c (cx_engine_ctx x) method req opt type)
    (λ _ w', engine_new_task_post c k type lo w w') w.
Proof.
  intros Hw Hc Hx Hk Hnl Hp Ht Ho.
  pose proof (wi_conn _ Hw _ _ Hc Hx) as Href. pose proof (wi_u64 _ Hw _ _ Hk) as Hu.
  unfold engine_new_task, engine_new_task_post.
  destruct (Z.eqb_spec type NGX_GRPC_CLIENT_STREAM_TYPE_UNARY) as [E|E];
    cbn [negb].
  - rewrite decide_True by done.
    eapply wp_eng_started; [done|apply engine_call_ok; [apply Hw|done..]|].
    intros w' Hw' Hst. pose proof (λ p o, engine_started_obj w w' p o Hst) as Hobj.
    split; [done|].
    split_and!; [| |intros; by apply Hobj| |by apply engine_started_flight|];
      destruct Hst as (e & m & -> & ? & ? & _); done.
  - rewrite decide_False by done. apply wp_bind.
    eapply wp_eng_started; [done|apply engine_new_stream_ok; [apply Hw|done..]|].
    intros w' Hw' Hst. pose proof (λ p o, engine_started_obj w w' p o Hst) as Hobj.
    assert (w_qs w' = w_qs w) as Hqs by by destruct Hst as (e & m & -> & _).
    assert (ctx_at w' c x) as Hc' by (by apply Hobj).
    pose proof (engine_started_flight _ _ Hw Hst) as Hfl.
    eapply wp_ctx_queue_upd; [done|exact Hc'|]. rewrite Hqs.
    split_and!; try (destruct Hst as (e & m & -> & ? & ? & _); done).
    + rewrite <- Hqs. eapply winv_insert_head; [done|by rewrite Hqs|by rewrite Hqs|done|].
      split; [by exists x|]. exists s. split_and!; [by apply Hobj|done|congruence].
    + simpl. intros h Hh. by eapply queue_insert_head_ne.
    + simpl. by apply queue_insert_head.
Qed.

(** No stream is returned before a task was started. *)
Lemma new_stream_failed w w1 r h c type msg :
  winv w1 → same_env w w1 → new_stream_failure w c h r msg →
  let m := take (Z.to_nat (w_err_len w1)) msg in
  new_stream_post w r h c type NULL
    (set_err (splice 0 m (w_err_buf w1)) (Z.of_nat (length m)) w1).
Proof.
  intros Hw1 [Eeng _ _ _ _ [_ Eerr] Ectx Eon _ Ecalm Eh] Hf m.
  split; [by apply (winv_irrelevant w1)|]. simpl. rewrite Eeng. split_and!; [done..| |done| | |].
  - intros p s _. apply Eon.
  - trans w1; [done|by apply calm_same].
  - trans w1; [exact Eh|]. by apply handles_same.
  - left. split; [done|]. exists msg. split; [done|]. rewrite <- Eerr. apply err_string_splice.
Qed.

(** The task was not started: the stream context goes back to the free queue. *)
Lemma new_stream_aborted w w1 w2 r h c x type k t :
  ctx_at w c x → same_env w w1 → detached w1 k (fresh_stream r h c type) →
  kick_off_post w1 k (fresh_stream r h c type) r t NGX_ERROR w2 →
  new_stream_post w r h c type NULL
    (set_qs (ngx_queue_insert_head (q_free c) k (w_qs w2)) w2).
Proof.
  intros Hc He (Hk & Hn & Hnl) Hpost. pose proof (kick_off_calm _ _ _ _ _ _ _ Hk Hpost) as Hcalm.
  pose proof (kick_off_handles _ _ _ _ _ _ _ Hk Hpost) as Hhd.
  destruct Hpost as (Hw2 & Heng & Hqs & Hrq & Hcf & _ & [(_ & Hheap & Hcos & msg & Hf & Hmsg)|[?
    _]]);
    [|done].
  assert (ctx_at w2 c x) as Hc2 by (unfold ctx_at; rewrite Hheap; by apply (se_ctx _ _ He)).
  destruct (winv_ctx_queues _ _ _ Hw2 Hc2) as (lf & lo & Hf2 & Ho2).
  split_and!; simpl; try (by rewrite Heng, (se_eng _ _ He)).
  - eapply winv_insert_head; [done..|by rewrite Hqs|done|]. split; [by eexists|].
    eexists. split; [unfold stream_at; by rewrite Hheap|done].
  - intros p s _. rewrite <- (se_ongoing _ _ He). unfold ongoing, stream_at. simpl.
    by rewrite Hheap.
  - intros p y. rewrite <- (se_ctx _ _ He). unfold ctx_at. simpl. by rewrite Hheap.
  - trans w1; [apply He|]. trans w2; [done|]. split; [|done|by apply untouched_same].
    apply (queue_insert_head_ne (q_free c) _ k _ lf); [done|by rewrite Hqs|done].
  - trans w1; [apply He|]. trans w2; [done|]. apply handles_agree; [done| |done]. intros c'.
    apply (queue_insert_head_ne (q_free c) _ k _ lf); [done|by rewrite Hqs|done].
  - left. split; [done|]. exists msg. split; [by eapply nf_kick_off|].
    rewrite <- (proj2 (se_err _ _ He)). exact Hmsg.
Qed.

(** The task was started, and the engine told. *)
(** The new stream joins its queue; the others stay in theirs. *)
Lemma new_task_handles c k type lo w w' :
  queue_of (w_qs w) (q_opening c) = Some lo → engine_new_task_post c k type lo w w' →
  handles none none w w'.
Proof.
  intros Hlo (_ & _ & Hes & Hobj & Hq & _ & Hqc).
  apply handles_intro; [..|by intros p _; apply Hes].
  - intros p x Hp Hd _. exists x. split; [by apply Hobj|done].
  - intros p s l Hs Hl Hin _. exists s. destruct (decide (sc_parent s = c)) as [E|Hne].
    + rewrite E, Hlo in Hl. rewrite E. injection Hl as <-. eexists.
      split_and!; [by apply Hobj|done..|exact Hqc|].
      case_decide; [done|by right].
    + exists l. split_and!; [by apply Hobj|done..| |done]. rewrite Hq; [done|congruence].
Qed.

Lemma new_stream_started w w1 w2 w3 r h c type k t lo :
  same_env w w1 → detached w1 k (fresh_stream r h c type) →
  kick_off_post w1 k (fresh_stream r h c type) r t NGX_OK w2 → k ≠ NULL →
  queue_of (w_qs w) (q_opening c) = Some lo →
  engine_new_task_post c k type lo w2 w3 → new_stream_post w r h c type k w3.
Proof.
  intros He (Hk & Hn & Hnl) Hpost Hk0 Hlo Hnew.
  pose proof (kick_off_calm _ _ _ _ _ _ _ Hk Hpost) as Hcalm.
  pose proof (kick_off_handles _ _ _ _ _ _ _ Hk Hpost) as Hhd.
  destruct Hpost as (Hw2 & Heng & Hqs & _ & _ & _ & [[? _]|[_ Hkick]]); [done|].
  assert (handles none none w2 w3) as Hhd3.
  { eapply new_task_handles; [|exact Hnew]. by rewrite Hqs, (se_opening _ _ He). }
  destruct Hnew as (Hw3 & Hr3 & Hst3 & Hobj3 & Hocc3 & Hfl3 & Hq3).
  pose proof (λ p o, kicked_obj _ _ _ _ _ _ p o Hkick Hk) as Hobj.
  destruct (kicked_stream _ _ _ _ _ _ Hw2 Hkick) as (s' & [Hon Hn'] & Hs1 & Hs2 & Hs3 & Hs4 & Hs5).
  split_and!.
  - done.
  - by rewrite Hr3, Heng, (se_eng _ _ He).
  - by rewrite <- (se_eng _ _ He), <- Heng.
  - intros p s Hp. rewrite <- (se_ongoing _ _ He). unfold ongoing, stream_at.
    by rewrite Hobj3, Hobj.
  - intros p y. rewrite <- (se_ctx _ _ He). unfold ctx_at. rewrite Hobj3 by done.
    destruct (decide (p = k)) as [->|]; [|by apply Hobj].
    unfold stream_at in *. by rewrite Hk, Hon.
  - trans w1; [apply He|]. trans w2; [done|]. split; [by apply Hocc3| |done].
    intros q y Hq. by apply Hobj3.
  - trans w1; [apply He|]. by trans w2.
  - right. split_and!; [done| | | |eauto].
    + intros [s Hs]. apply (se_ongoing _ _ He) in Hs as [Hs Hsn]. unfold stream_at in *. congruence.
    + intros h' Hh'. apply Hnl, (held_linked _ h'). eapply kept_held, Hh'. apply He.
    + exists s'. split_and!; try done. split; [by apply Hobj3|done].
Qed.

Lemma new_stream_spec r h c x method req opt type gccf w :
  winv w → ctx_at w c x → w_conf w = Some gccf → cf_task gccf ≠ NULL → caller_ready w h r →
  wp (ngx_grpc_cli_new_stream r h c method req opt type) (new_stream_post w r h c type) w.
Proof.
  intros Hw Hc Hconf Htask Hcall. pose proof Hcall as [Hreq Hco].
  assert (c ≠ NULL) as Hc0 by by eapply winv_live_nonnull.
  apply wp_bind, wp_bind, wp_get. rewrite Hconf. apply wp_ret.
  apply wp_bind, wp_get_req_logger; [done|]. apply wp_bind. eapply wp_w_load_ctx; [done..|].
  destruct (Z.eqb_spec (cx_engine_ctx x) NULL) as [Hx|Hx].
  { apply wp_bind, wp_snprintf_err, wp_ret. apply new_stream_failed; [done..|].
    by eapply nf_closed. }
  apply wp_bind. eapply wp_mono; [by eapply take_sctx_spec|]. cbn beta.
  intros k w0 (Hw0 & He0 & Hk0). destruct (Z.eqb_spec k NULL) as [->|Hkn].
  { apply wp_bind, wp_snprintf_err, wp_ret. apply new_stream_failed; [done..|]. apply nf_memory. }
  destruct Hk0 as [?|[_ Hd]]; [done|].
  apply init_sctx_spec; [done..|]. intros w1 Hw1 Hd1 He1 _.
  assert (same_env w w1) as He by by trans w0.
  assert (ctx_at w1 c x) as Hc1 by by apply (se_ctx _ _ He).
  destruct (caller_ready_env _ _ _ _ He Hcall) as [Hreq1 Hco1].
  pose proof Hd1 as (Hk1 & Hn1 & Hnl1).
  apply wp_bind. eapply wp_mono.
  { eapply (kick_off_spec r gccf k (fresh_stream r h c type)); try done; [|by eexists].
    intros c' l Hl Hin. apply Hnl1. by exists (q_free c'), l. }
  cbn beta. intros rc w2 Hpost.
  pose proof Hpost as (Hw2 & _ & Hqs & _ & _ & _ & [(-> & Hheap & _)|[-> Hkick]]).
  - assert (ctx_at w2 c x) as Hc2 by (unfold ctx_at; by rewrite Hheap).
    cbn [Z.eqb NGX_ERROR NGX_OK negb]. apply wp_bind. eapply wp_ctx_queue_upd; [done..|].
    apply wp_ret. by eapply new_stream_aborted.
  - pose proof (λ p o, kicked_obj _ _ _ _ _ _ p o Hkick Hk1) as Hobj.
    assert (c ≠ k) as Hck by (intros ->; unfold ctx_at, stream_at in *; congruence).
    assert (ctx_at w2 c x) as Hc2 by (by eapply Hobj).
    destruct (kicked_stream _ _ _ _ _ _ Hw2 Hkick) as (s' & [Hon _] & _ & _ & Hs3 & Hs4 & _).
    destruct (winv_ctx_queues _ _ _ Hw Hc) as (lf & lo & _ & Hlo).
    cbn [Z.eqb NGX_OK negb]. apply wp_bind. eapply wp_w_load_ctx; [done..|]. apply wp_bind.
    eapply wp_mono; [eapply (engine_new_task_spec k s' c x); try done|].
    { by rewrite Hqs. } { rewrite Hqs, (se_opening _ _ He). exact Hlo. }
    cbn beta. intros _ w3 Hnew. apply wp_ret. by eapply new_stream_started.
Qed.
End stream_ops.
