(* ===== verification/StreamOps.v ===== *)
(** * Open streams keep the invariant: receive, send, close *)
From S2P Require Import Prelude Words Mem Wire TaskQueue Ngx World Tasks Conn Stream.
From S2P Require Import EngineSpec Heaps Inv InvMoves Handles ConnInv StreamInv.

Section open_streams.
Context `{AllocatorLaws} `{NginxLaws} `{GrpcEngineLaws}.
Implicit Types w : world.

(** ** [ngx_grpc_cli_check_stream_status] *)

(** Why an operation on a stream is refused to the request [r]. *)
Definition status_error (s : stream_ctx) (r : Z) : option bytes :=
  if decide (sc_r s = NULL) then Some MSG_closed
  else if decide (sc_r s ≠ r) then Some MSG_bad_request
  else if decide (sc_wait_co_ctx s ≠ NULL) then Some MSG_busy_waiting
  else None.

(** A message as [ngx_snprintf] leaves it in the caller's buffer. *)
Definition reported_err (msg : bytes) w : world :=
  set_err (splice 0 (take (Z.to_nat (w_err_len w)) msg) (w_err_buf w))
          (Z.of_nat (length (take (Z.to_nat (w_err_len w)) msg))) w.

Lemma reported_err_string msg w :
  err_string (reported_err msg w) = take (Z.to_nat (w_err_len w)) msg.
Proof. apply (err_string_splice w). Qed.

Lemma check_status_spec k s r w :
  k ≠ NULL → stream_at w k s →
  wp (ngx_grpc_cli_check_stream_status k r) (λ rc w',
    match status_error s r with
    | None => rc = NGX_OK ∧ w' = w
    | Some msg => rc = NGX_ERROR ∧ w' = reported_err msg w
    end) w.
Proof.
  intros Hk Hs. apply wp_bind. eapply wp_w_load_sctx; [done..|]. unfold status_error.
  destruct (Z.eqb_spec (sc_r s) NULL) as [E|E].
  { rewrite decide_True by done. by apply wp_bind, wp_snprintf_err, wp_ret. }
  rewrite decide_False by done.
  destruct (Z.eqb_spec (sc_r s) r) as [E1|E1]; cbn [negb]; cycle 1.
  { rewrite decide_True by done. by apply wp_bind, wp_snprintf_err, wp_ret. }
  rewrite decide_False by tauto.
  destruct (Z.eqb_spec (sc_wait_co_ctx s) NULL) as [E2|E2]; cbn [negb]; cycle 1.
  { rewrite decide_True by done. by apply wp_bind, wp_snprintf_err, wp_ret. }
  rewrite decide_False by tauto. by apply wp_ret.
Qed.

(** ** The operations on an open stream *)

(** A stream Lua may operate on: it hangs on its connection, and the engine
    knows it. *)
Definition stream_open w (k : Z) (s : stream_ctx) : Prop :=
  stream_at w k s ∧
  (∃ l, queue_of (w_qs w) (q_opening (sc_parent s)) = Some l ∧ k ∈ l) ∧
  k ∈ engine_streams (w_eng w).

(** On success the task was kicked off, which leads to [w2], and the engine was told
    there with [op], once: that is all that was done. *)
Definition stream_op_post w (k : Z) (s : stream_ctx) (r : Z) (gccf : client_conf)
    (opt : call_opt) (op : M (engine * cmem) unit) (rc : Z) w' : Prop :=
  winv w' ∧ w_qs w' = w_qs w ∧ calm w w' ∧
  engine_refs (w_eng w') = engine_refs (w_eng w) ∧
  handles none none w w' ∧
  (∀ p s', p ≠ k → ongoing w' p s' ↔ ongoing w p s') ∧
  ((rc = NGX_ERROR ∧ stream_at w' k s ∧ w_eng w' = w_eng w ∧ ∃ msg,
      (status_error s r = Some msg ∨
       status_error s r = None ∧ kick_off_failure w (sc_is_http s) r msg) ∧
      err_string w' = take (Z.to_nat (w_err_len w)) msg) ∨
   (rc = NGX_OK ∧ status_error s r = None ∧
      (∃ w2, ngx_grpc_cli_kick_off_task r gccf k opt w = Done NGX_OK w2 ∧
         kick_off_post w k s r (co_timeout opt) NGX_OK w2 ∧ eng op w2 = Done tt w') ∧
      ∃ s', ongoing w' k s' ∧ sc_r s' = r ∧ sc_is_http s' = sc_is_http s ∧ sc_parent s' = sc_parent s ∧
      sc_type s' = sc_type s ∧ sc_state s' = NGX_GRPC_CLIENT_STATE_OK)).

(** A call into the engine that is safe for a stream it knows. *)
Definition live_op (k : Z) (op : M (engine * cmem) unit) : Prop := ∀ e m,
  engine_wf e → k ∈ engine_streams e → is_u64 k →
  wp op (λ _ s, engine_wf s.1 ∧ engine_refs s.1 = engine_refs e ∧
    engine_streams e ⊆ engine_streams s.1 ∧ extends (cm_heap m) (cm_heap s.2)) (e, m).

Lemma live_recv k : live_op k (grpc_engine_stream_recv k).
Proof. intros e m. apply engine_recv_ok. Qed.
Lemma live_send k req : live_op k (grpc_engine_stream_send k req).
Proof. intros e m. apply engine_send_ok. Qed.
Lemma live_close_send k : live_op k (grpc_engine_stream_close_send k).
Proof. intros e m. apply engine_close_send_ok. Qed.

(** The task was started, and the engine told. *)
Lemma stream_op_started r k s gccf opt op w w2 w3 :
  stream_at w k s → sc_r s = r → status_error s r = None →
  ngx_grpc_cli_kick_off_task r gccf k opt w = Done NGX_OK w2 →
  kick_off_post w k s r (co_timeout opt) NGX_OK w2 → winv w3 → engine_started w2 w3 →
  eng op w2 = Done tt w3 → stream_op_post w k s r gccf opt op NGX_OK w3.
Proof.
  intros Hk Er Est Erun Hpost Hw3 Hst3 Eop.
  pose proof (kick_off_calm _ _ _ _ _ _ _ Hk Hpost) as Hcalm.
  pose proof (kick_off_handles _ _ _ _ _ _ _ Hk Hpost) as Hhd.
  pose proof Hpost as (Hw2 & Heng & Hqs & _ & _ & _ & [[? _]|[_ Hkick]]); [done|].
  pose proof (λ p o, kicked_obj _ _ _ _ _ _ p o Hkick Hk) as Hobj.
  pose proof (λ p o, engine_started_obj w2 w3 p o Hst3) as Hobj3.
  pose proof (engine_started_handles _ _ Hst3) as Hhd3.
  destruct (kicked_stream _ _ _ _ _ _ Hw2 Hkick) as (s' & [Hon Hn'] & Hs1 & Hs2 & Hs3 & Hs4 & Hs5).
  assert (calm w w3) as Hcalm3.
  { trans w2; [done|]. split; [by destruct Hst3 as (e & m & -> & _)| |].
    - intros q y Hq. by apply Hobj3.
    - by apply engine_started_flight. }
  assert (ongoing w3 k s') as Hon3 by (split; [by apply Hobj3|done]).
  assert (∀ p s0, p ≠ k → ongoing w3 p s0 ↔ ongoing w p s0) as Hothers.
  { intros p s0 Hp. unfold ongoing, stream_at. by rewrite Hobj3, Hobj. }
  pose proof Hst3 as (e & m & E3 & Er3 & Es3 & _).
  split_and!; [done|by rewrite E3|done|by rewrite E3; cbn; rewrite Er3, Heng|by etrans|done|].
  right. split_and!; [done|done|by exists w2|]. exists s'. split_and!; congruence.
Qed.

Lemma stream_op_spec r k s opt op gccf w :
  winv w → stream_open w k s → w_conf w = Some gccf → cf_task gccf ≠ NULL →
  caller_ready w (sc_is_http s) r →
  live_op k op →
  wp (stream_op r (sc_is_http s) k opt op) (stream_op_post w k s r gccf opt op) w.
Proof.
  intros Hw (Hk & (l & Hl & Hin) & Hes) Hconf Htask [Hreq Hco] Hop.
  assert (k ≠ NULL) as Hk0 by by eapply winv_live_nonnull.
  apply wp_bind, wp_bind, wp_get. rewrite Hconf. apply wp_ret.
  apply wp_bind, wp_get_req_logger; [done|]. apply wp_bind.
  eapply wp_mono; [by apply check_status_spec|]. cbn beta. intros rc w1 Hst.
  destruct (status_error s r) as [msg|] eqn:Est.
  { destruct Hst as [-> ->]. apply wp_ret.
    split_and!; try done; [by apply (winv_irrelevant w)|by apply calm_same|].
    left. split_and!; try done. exists msg. split; [by left|]. apply reported_err_string. }
  destruct Hst as [-> ->]. cbn [Z.eqb NGX_OK negb]. apply wp_bind.
  assert (sc_r s = r ∧ sc_wait_co_ctx s = NULL) as [Er Ewait].
  { unfold status_error in Est. repeat (destruct (decide _); [done|]). split; by apply dec_stable. }
  assert (sc_node s = NULL) as Hn.
  { destruct (decide (sc_node s = NULL)) as [|Hn]; [done|].
    by destruct (wi_parked _ Hw _ _ Hk Hn) as (? & _). }
  eapply wp_mono.
  { eapply wp_eqn, (kick_off_spec r gccf k s opt); try done.
    - intros c lf Hlf Hin'. by pose proof (proj2 (wi_queues _ Hw) _ _ _ _ k Hl Hlf Hin Hin').
    - by destruct (wi_elems _ Hw _ _ _ Hl Hin) as [? _]. }
  cbn beta. intros rc w2 [Erun Hpost]. pose proof (kick_off_calm _ _ _ _ _ _ _ Hk Hpost) as Hcalm.
  pose proof (kick_off_handles _ _ _ _ _ _ _ Hk Hpost) as Hhd.
  pose proof Hpost as (Hw2 & Heng & Hqs & _ & _ & _ & [(-> & Hheap & _ & msg & Hf & Hmsg)|[->
    Hkick]]).
  - apply wp_ret. split_and!; try done; try (by rewrite Heng).
    + intros p s' _. unfold ongoing, stream_at. by rewrite Hheap.
    + left. split_and!; [done|unfold stream_at; by rewrite Hheap|done|].
      exists msg. split; [by right|done].
  - cbn [Z.eqb NGX_OK negb]. apply wp_bind. eapply wp_mono.
    { apply wp_eqn. eapply (wp_eng_started _ _ (λ _ w3, winv w3 ∧ engine_started w2 w3));
        [done|rewrite Heng; apply Hop; [apply Hw|done|]|done]. by eapply (wi_u64 _ Hw). }
    cbn beta. intros [] w3 (Eop & Hw3 & Hst3). apply wp_ret. by eapply stream_op_started.
Qed.

(** ** [ngx_grpc_cli_close_stream] *)

(** The engine is told to close the stream, which leads to [w1]; it is not called
    again. *)
Definition close_stream_post w (k : Z) (s : stream_ctx) (r : Z) (l : list Z) w' : Prop :=
  winv w' ∧ steady w w' ∧ engine_refs (w_eng w') = engine_refs (w_eng w) ∧
  handles (λ p, r = NULL ∧ p = k) (λ p, p = k) w w' ∧
  ∃ w1, eng (grpc_engine_close_stream k) w = Done tt w1 ∧ w_eng w' = w_eng w1 ∧
  if decide (r = NULL) then
    ∃ x lf, ctx_at w (sc_parent s) x ∧ queue_of (w_qs w) (q_free (sc_parent s)) = Some lf ∧
      if cx_free_delayed x && bool_decide (l = [])
      then ∀ p o, (∀ b, o ≠ OBuf b) →
        cm_heap (w_mem w') !! p = Some o ↔
        (p ∉ sc_parent s :: k :: lf) ∧ cm_heap (w_mem w) !! p = Some o
      else stream_at w' k (set_r NULL s) ∧ ctx_at w' (sc_parent s) x ∧
        queue_of (w_qs w') (q_opening (sc_parent s)) = Some l ∧
        queue_of (w_qs w') (q_free (sc_parent s)) = Some (k :: lf)
  else w' = w1 ∧ w_qs w' = w_qs w ∧ stream_at w' k s.

(** The collector's part, after the engine has closed the stream. *)
Definition release_stream (k : Z) : M world unit :=
  s ← mem (load_sctx k);
  let ctx := sc_parent s in
  _ ← queue (ngx_queue_remove k);
  _ ← ctx_queue_upd ctx (ngx_queue_insert_head (q_free ctx) k);
  _ ← mem (upd_sctx k (set_r NULL));
  c ← mem (load_ctx ctx);
  e ← ctx_queue ctx (ngx_queue_empty (q_opening ctx));
  if cx_free_delayed c && e then ngx_grpc_cli_free_conn ctx else mret tt.

(** The stream moves from the opening queue to the free queue. *)
Definition moved_to_free (k : Z) (s : stream_ctx) w : world :=
  heap_upd k (OSctx (set_r NULL s))
    (set_qs (ngx_queue_insert_head (q_free (sc_parent s)) k (ngx_queue_remove k (w_qs w))) w).

Lemma moved_to_free_spec k s x l1 l2 lf w :
  winv w → stream_at w k s → sc_node s = NULL → ctx_at w (sc_parent s) x →
  queue_of (w_qs w) (q_opening (sc_parent s)) = Some (l1 ++ k :: l2) →
  queue_of (w_qs w) (q_free (sc_parent s)) = Some lf →
  let w' := moved_to_free k s w in
  winv w' ∧ steady w w' ∧ handles (λ p, p = k) none w w' ∧ ctx_at w' (sc_parent s) x ∧
  queue_of (w_qs w') (q_opening (sc_parent s)) = Some (l1 ++ l2) ∧
  queue_of (w_qs w') (q_free (sc_parent s)) = Some (k :: lf) ∧
  queue_of (w_qs w') q_occupied = queue_of (w_qs w) q_occupied.
Proof.
  intros Hw Hk Hn Hc Ho Hf w'.
  destruct (winv_remove _ _ _ _ _ Hw Ho ltac:(done)) as (Hw1 & Hnl & Ho1 & Hne1).
  assert (queue_of (ngx_queue_remove k (w_qs w)) (q_free (sc_parent s)) = Some lf) as Hf1
    by by rewrite Hne1.
  pose proof (λ h, queue_insert_head_ne (q_free (sc_parent s)) h k (ngx_queue_remove k (w_qs w))
    lf) as Hne2.
  assert (queue_of (w_qs w') (q_free (sc_parent s)) = Some (k :: lf)) as Hf2
    by (by apply queue_insert_head).
  assert (winv (set_qs (w_qs w') w)) as Hw2.
  { eapply (winv_insert_head (set_qs (ngx_queue_remove k (w_qs w)) w)); [done|exact Hf1|done..|].
    split; [by exists x|by exists s]. }
  pose proof (same_env_upd_idle (set_qs (w_qs w') w) k s (set_r NULL s) Hk Hn Hn
    (or_introl (conj eq_refl eq_refl))) as He.
  split_and!.
  - eapply winv_upd_idle; [exact Hw2|done..|]. intros c l Hl Hin.
    assert (q_opening c = q_free (sc_parent s)); [|done].
    eapply (proj2 (wi_queues _ Hw2)); [exact Hl|exact Hf2|exact Hin|]. by left.
  - trans (set_qs (w_qs w') w); [|split; apply He].
    apply steady_objs; [|done|by apply untouched_same].
    simpl. rewrite Hne2 by done. by apply Hne1.
  - trans (set_qs (w_qs w') w); [|eapply (handles_weaken none), He; done].
    apply handles_intro; [by intros c y Hy Hd _; exists y| |done].
    intros p s1 l Hs1 Hl Hin Hp. exists s1. simpl. rewrite Hne2 by done.
    destruct (decide (sc_parent s1 = sc_parent s)) as [E|E].
    + rewrite E in *. rewrite Ho in Hl. injection Hl as <-. exists (l1 ++ l2).
      split_and!; [done..|]. set_solver.
    + exists l. split_and!; [done..| |done]. rewrite Hne1; [done|congruence].
  - by apply (se_ctx _ _ He).
  - simpl. by rewrite Hne2.
  - done.
  - simpl. rewrite Hne2 by done. by apply Hne1.
Qed.

Lemma release_stream_spec k s x l1 l2 lf w :
  winv w → stream_at w k s → sc_node s = NULL → ctx_at w (sc_parent s) x →
  queue_of (w_qs w) (q_opening (sc_parent s)) = Some (l1 ++ k :: l2) →
  queue_of (w_qs w) (q_free (sc_parent s)) = Some lf →
  (cx_free_delayed x = true → l1 ++ l2 = [] →
     ∀ p s', ongoing w p s' → sc_parent s' ≠ sc_parent s) →
  wp (release_stream k) (λ _ w', winv w' ∧ steady w w' ∧ w_eng w' = w_eng w ∧
    handles (λ p, p = k) none w w' ∧
    if cx_free_delayed x && bool_decide (l1 ++ l2 = [])
    then ∀ p o, (∀ b, o ≠ OBuf b) →
      cm_heap (w_mem w') !! p = Some o ↔
      (p ∉ sc_parent s :: k :: lf) ∧ cm_heap (w_mem w) !! p = Some o
    else stream_at w' k (set_r NULL s) ∧ ctx_at w' (sc_parent s) x ∧
      queue_of (w_qs w') (q_opening (sc_parent s)) = Some (l1 ++ l2) ∧
      queue_of (w_qs w') (q_free (sc_parent s)) = Some (k :: lf)) w.
Proof.
  intros Hw Hk Hn Hc Ho Hf Hidle.
  assert (k ≠ NULL) as Hk0 by by eapply winv_live_nonnull.
  assert (sc_parent s ≠ NULL) as Hp0 by by eapply (winv_live_nonnull w).
  destruct (moved_to_free_spec k s x l1 l2 lf w) as (Hw3 & Hst3 & Hhd3 & Hc3 & Ho3 & Hf3
    & Hocc3);
    [done..|].
  apply wp_bind. eapply wp_w_load_sctx; [done..|]. apply wp_bind, wp_modify.
  destruct (winv_remove _ _ _ _ _ Hw Ho ltac:(done)) as (Hw1 & _).
  apply wp_bind. eapply (wp_ctx_queue_upd _ x); [done..|].
  apply wp_bind. eapply (wp_w_upd_sctx _ s); [done..|].
  change (heap_upd k _ _) with (moved_to_free k s w). set (w3 := moved_to_free k s w) in *.
  apply wp_bind. eapply wp_w_load_ctx; [done..|].
  apply wp_bind. eapply wp_ctx_queue; [done..|]. rewrite (queue_empty_nil _ _ _ Ho3).
  destruct (cx_free_delayed x && bool_decide (l1 ++ l2 = [])) eqn:E; cycle 1.
  { apply wp_ret. split_and!; try done. apply lookup_insert_eq. }
  apply andb_true_iff in E as [Ed Ee%bool_decide_eq_true]. rewrite Ee in Ho3.
  eapply wp_mono.
  { eapply (free_conn_spec _ x); [done|done| |exact Hf3|exact Ho3|].
    - by eapply (wi_delayed _ Hw).
    - intros p s' Hp Hn'. by apply (Hidle Ed Ee p s'), Hst3. }
  cbn beta. intros _ w' (qs & -> & Hw' & Hqn). split_and!; [done| |done| |].
  { trans w3; [done|]. eapply freed_steady; [done|done|exact Hf3|by apply Hqn]. }
  { trans w3; [done|]. apply (handles_unheld _ _ (sc_parent s)).
    - intros (y & Hy & Hd). unfold ctx_at in *. congruence.
    - intros h. by eapply ctx_not_held.
    - eapply (handles_weaken (λ p, p = sc_parent s)); [by right|done|].
      by eapply freed_handles. }
  intros p o Hob. change (cm_heap (w_mem (freed ?l qs w3))) with (foldr delete (cm_heap (w_mem
    w3)) l).
  rewrite lookup_foldr_delete. destruct (decide _) as [Hin|Hin]; [by split; [|intros []]|].
  simpl. rewrite lookup_insert_ne by set_solver. tauto.
Qed.

Lemma close_stream_spec k s r h l1 l2 w :
  winv w → stream_at w k s →
  queue_of (w_qs w) (q_opening (sc_parent s)) = Some (l1 ++ k :: l2) →
  (r = NULL ∨ req_live w h r) →
  (r = NULL → sc_node s = NULL ∧
     (l1 ++ l2 = [] → ∀ p s', ongoing w p s' → sc_parent s' ≠ sc_parent s)) →
  wp (ngx_grpc_cli_close_stream k r h)
    (λ _ w', close_stream_post w k s r (l1 ++ l2) w') w.
Proof.
  intros Hw Hk Ho Hr Hgc.
  assert (wp (if negb (r =? NULL) then ngx_grpc_cli_get_req_logger r h ≫= λ _, mret false
              else mret true) (λ gc w', gc = (r =? NULL) ∧ w' = w) w) as Hlog.
  { destruct (Z.eqb_spec r NULL) as [->|Hrn]; [by apply wp_ret|].
    destruct Hr as [?|Hr]; [done|]. by apply wp_bind, wp_get_req_logger, wp_ret. }
  assert (k ∈ l1 ++ k :: l2) as Hin by set_solver.
  destruct (wi_elems _ Hw _ _ _ Ho Hin) as [[x Hx] _].
  destruct (winv_ctx_queues _ _ _ Hw Hx) as (lf & lo & Hf & _).
  apply wp_bind. eapply wp_mono; [exact Hlog|]. cbn beta. intros gc w' [-> ->].
  apply wp_bind. eapply wp_eng_eqn; [apply engine_close_stream_ok, Hw|]. cbn beta.
  intros [] e m (He & Hre & Hse & Hxt) Eop. cbn [fst snd] in *.
  set (w1 := with_engine e m w) in *.
  assert (winv w1) as Hw1 by by apply winv_engine_same.
  assert (∀ p o, (∀ b, o ≠ OBuf b) →
    cm_heap (w_mem w1) !! p = Some o ↔ cm_heap (w_mem w) !! p = Some o) as Hobj.
  { intros p o Hob. by apply extends_nonbuf. }
  assert (stream_at w1 k s) as Hk1 by by apply Hobj.
  assert (ctx_at w1 (sc_parent s) x) as Hx1 by by apply Hobj.
  assert (steady w w1) as Hst1.
  { by apply steady_extends. }
  assert (handles none (λ p, p = k) w w1) as Hhd1.
  { apply handles_intro.
    - intros c y Hc Hd _. exists y. split; [by apply Hobj|done].
    - intros p s1 l Hs1 Hl Hi _. exists s1, l. split_and!; [by apply Hobj|done..].
    - intros p Hp Hi. apply Hse. set_solver. }
  destruct (Z.eqb_spec r NULL) as [->|Hrn]; cbn [negb].
  - destruct (Hgc eq_refl) as [Hn Hidle]. change (wp (release_stream k)
      (λ _ w', close_stream_post w k s NULL (l1 ++ l2) w') w1).
    assert (handles (λ p, NULL = NULL ∧ p = k) (λ p, p = k) w w1) as Hhd1'
      by (by eapply handles_weaken, Hhd1).
    eapply wp_mono; [eapply (release_stream_spec _ s x); try done|].
    { intros _ E p s' [Hp Hn']. apply (Hidle E p s'). split; [by apply Hobj|done]. }
    cbn beta. intros _ w' (Hw' & Hst' & Heng & Hhd' & Hpost). unfold close_stream_post.
    split_and!; [done|by trans w1|by rewrite Heng| |].
    { trans w1; [done|]. by eapply handles_weaken, Hhd'. }
    exists w1. rewrite decide_True by done. split; [done|]. split; [done|]. exists x, lf.
    split_and!; [done..|]. destruct (cx_free_delayed x && _); [|done].
    intros p o Hob. by rewrite Hpost, Hobj.
  - apply wp_ret. unfold close_stream_post.
    split_and!; [done..|by eapply handles_weaken, Hhd1|]. exists w1. by rewrite decide_False.
Qed.
End open_streams.
