(* ===== verification/EventInv.v ===== *)
(** * Finished tasks keep the invariant: from the array to the posted event

    The array the background thread leaves, the queue of posted results, and
    [ngx_grpc_cli_thread_event_handler] that moves the one into the other. *)
From S2P Require Import Prelude Words Mem Wire TaskQueue Ngx World Tasks Conn Stream.
From S2P Require Import Handlers EngineSpec Heaps Inv InvMoves ConnInv StreamInv.

Section event_inv.
Context `{AllocatorLaws} `{NginxLaws} `{GrpcEngineLaws}.
Implicit Types w : world.

(** ** Posted events *)

Lemma occupied_results_cons w q l :
  queue_of (w_qs w) q_occupied = Some (q :: l) →
  occupied_results w = pev_res w q :: map (pev_res w) l.
Proof. unfold occupied_results. by intros ->. Qed.

(** Writing to a posted event that is not waiting. *)
Lemma winv_upd_pev w q r0 r :
  winv w → pev_at w q r0 →
  (∀ l, queue_of (w_qs w) q_occupied = Some l → q ∉ l) →
  winv (heap_upd q (OPev r) w) ∧
  occupied_results (heap_upd q (OPev r) w) = occupied_results w.
Proof.
  intros Hw Hq Hnl. unfold pev_at in Hq.
  assert (agree but_pevs (cm_heap (w_mem w)) (cm_heap (w_mem (heap_upd q (OPev r) w)))) as Ha.
  { apply agree_insert; [eauto with grpc|done]. }
  assert (∀ p, p ≠ q → pev_res (heap_upd q (OPev r) w) p = pev_res w p) as Hne.
  { intros p Hp. unfold pev_res. by rewrite heap_upd_ne. }
  assert (occupied_results (heap_upd q (OPev r) w) = occupied_results w) as Hocc.
  { unfold occupied_results. simpl.
    destruct (queue_of (w_qs w) q_occupied) as [l|] eqn:El; [|done]. simpl.
    apply map_ext_in. intros p Hp%list_elem_of_In. apply Hne. intros <-. by apply (Hnl l). }
  split; [|done]. apply (winv_heap_change w); try done.
  - apply in_range_insert. left. by eexists.
  - by eapply (tree_inv_agree but_pevs); [..|apply Hw].
  - intros c x Hc. by apply (Ha c (OCtx x) eq_refl).
  - intros p b Hp. by apply Ha.
  - intros h l x Hl Hx. eapply elem_ok_change; [| | |by eapply (wi_elems _ Hw)].
    + intros c y _ Hc. exists y. by apply (Ha c (OCtx y) eq_refl).
    + intros r1 Hr1. unfold pev_at. destruct (decide (x = q)) as [->|].
      * exists r. apply lookup_insert_eq.
      * exists r1. by rewrite heap_upd_ne.
    + intros s Hs Hf. exists s. split; [|done]. by apply (Ha x (OSctx s) eq_refl).
  - intros k s Hk Hn. apply (Ha k (OSctx s) eq_refl) in Hk. split; [by apply (wi_parked _ Hw)|].
    destruct (wi_parent _ Hw _ _ Hk Hn) as [y ?]. exists y. by apply (Ha _ (OCtx y) eq_refl).
Qed.

Lemma res_bufs_app rs1 rs2 : res_bufs (rs1 ++ rs2) = res_bufs rs1 ++ res_bufs rs2.
Proof. unfold res_bufs. by rewrite map_app, filter_app. Qed.

(** Posting a result. *)
Lemma winv_post w q r l :
  winv w → pev_at w q r → ¬ linked (w_qs w) q →
  queue_of (w_qs w) q_occupied = Some l → res_ok (cm_heap (w_mem w)) r →
  NoDup (res_bufs (occupied_results w ++ [r])) →
  (∀ p, p ∈ res_bufs [r] → p ∉ engine_refs (w_eng w)) → th_array (w_th w) = None →
  winv (set_qs (ngx_queue_insert_tail q_occupied q (w_qs w)) w) ∧
  occupied_results (set_qs (ngx_queue_insert_tail q_occupied q (w_qs w)) w) =
    occupied_results w ++ [r].
Proof.
  intros Hw Hq Hnl Hl Hr Hnd Hrefs Hta. set (w' := set_qs _ w).
  assert (queue_of (w_qs w') q_occupied = Some (l ++ [q])) as Hl' by by apply queue_insert_tail.
  assert (∀ h, h ≠ q_occupied → queue_of (w_qs w') h = queue_of (w_qs w) h) as Hne.
  { intros h Hh. by eapply queue_insert_tail_ne. }
  assert (occupied_results w' = occupied_results w ++ [r]) as Hocc.
  { unfold occupied_results. rewrite Hl', Hl. simpl. rewrite map_app. f_equal. simpl.
    unfold pev_res. simpl. by rewrite Hq. }
  split; [|done]. split; rewrite ?Hocc; try apply Hw; try done.
  - eapply queues_wf_insert_tail; [apply Hw|done..].
  - intros c x Hc. rewrite !Hne by done. by apply (wi_heads _ Hw c x).
  - rewrite Hl', Hne by done. split; [by eexists|apply Hw].
  - intros h l' x Hh Hx. destruct (decide (h = q_occupied)) as [->|]; cycle 1.
    { rewrite Hne in Hh by done. by apply (wi_elems _ Hw h l' x). }
    rewrite Hl' in Hh. injection Hh as <-.
    apply elem_of_app in Hx as [Hx|Hx]; [by apply (wi_elems _ Hw q_occupied l x)|].
    apply list_elem_of_singleton in Hx as ->. by exists r.
  - apply Forall_app. split; [apply (wi_results _ Hw)|]. by apply Forall_singleton.
  - intros p. rewrite res_bufs_app, elem_of_app. intros [Hp|Hp]; [by apply (wi_bufs_refs _ Hw)|].
    by apply Hrefs.
  - by apply flight_none.
Qed.

(** The head of the queue of posted results, moved to the free queue. *)
Definition popped (q : Z) w : world :=
  set_qs (ngx_queue_insert_tail q_th_free q (ngx_queue_remove q (w_qs w))) w.

Lemma popped_queues w q l lf :
  winv w → queue_of (w_qs w) q_occupied = Some (q :: l) →
  queue_of (w_qs w) q_th_free = Some lf →
  queues_wf (w_qs (popped q w)) ∧ queue_of (w_qs (popped q w)) q_occupied = Some l ∧
  queue_of (w_qs (popped q w)) q_th_free = Some (lf ++ [q]) ∧
  ∀ h, h ≠ q_occupied → h ≠ q_th_free → queue_of (w_qs (popped q w)) h = queue_of (w_qs w) h.
Proof.
  intros Hw Hl Hlf. destruct (queue_remove_wf q_occupied q (w_qs w) [] l (wi_queues _ Hw) Hl)
    as (Hq1 & Hne1 & Hwf1 & Hnl1). simpl in Hq1.
  assert (queue_of (ngx_queue_remove q (w_qs w)) q_th_free = Some lf) as Hlf1
    by by rewrite Hne1.
  unfold popped. simpl. split_and!; [by eapply queues_wf_insert_tail| |by apply queue_insert_tail|].
  - by erewrite queue_insert_tail_ne.
  - intros h H1' H2'. erewrite queue_insert_tail_ne by done. by apply Hne1.
Qed.

(** A result less at the front of those waiting. *)
Lemma array_owned_pop w w' r arr rs :
  occupied_results w = r :: occupied_results w' → w_mem w' = w_mem w → w_eng w' = w_eng w →
  array_owned w arr rs → array_owned w' arr rs.
Proof.
  intros Hocc Em Ee (Hok & Hnd & Hr & Harr). unfold array_owned. rewrite Em, Ee.
  rewrite Hocc in Hnd, Harr. change ((r :: ?l) ++ rs) with ([r] ++ (l ++ rs)) in Hnd, Harr.
  rewrite res_bufs_app in Hnd, Harr. apply NoDup_app in Hnd as (_ & _ & Hnd).
  split_and!; [done..|]. intros Hrs. destruct (Harr Hrs) as (? & ? & ? & ?).
  split_and!; try done. set_solver.
Qed.

Lemma winv_pop w q l :
  winv w → queue_of (w_qs w) q_occupied = Some (q :: l) →
  ∃ r, pev_at w q r ∧ winv (popped q w) ∧ queue_of (w_qs (popped q w)) q_occupied = Some l ∧
    occupied_results w = r :: occupied_results (popped q w) ∧
    (∀ h, h ≠ q_occupied → h ≠ q_th_free →
       queue_of (w_qs (popped q w)) h = queue_of (w_qs w) h) ∧
    res_ok (cm_heap (w_mem w)) r ∧
    (res_ptr (tr_buf r) ≠ NULL → spare (popped q w) (res_ptr (tr_buf r))).
Proof.
  intros Hw Hl. assert (q ∈ q :: l) as Hin by by left.
  destruct (wi_elems _ Hw _ _ _ Hl Hin) as [r Hr]. exists r. destruct (wi_th _ Hw) as [_ [lf Hlf]].
  destruct (popped_queues w q l lf Hw Hl Hlf) as (Hwf & Hl' & Hlf' & Hne).
  set (w' := popped q w) in *.
  assert (occupied_results w = r :: occupied_results w') as Hocc.
  { rewrite (occupied_results_cons w q l Hl). unfold occupied_results, pev_res, pev_at in *.
    by rewrite Hl', Hr. }
  pose proof (wi_results _ Hw) as Hres. pose proof (wi_bufs _ Hw) as Hnd.
  pose proof (wi_bufs_refs _ Hw) as Hrefs. rewrite Hocc in Hres, Hnd, Hrefs.
  change (r :: occupied_results w') with ([r] ++ occupied_results w') in Hnd, Hrefs.
  rewrite res_bufs_app in Hnd, Hrefs. apply NoDup_app in Hnd as (_ & Hdis & Hnd).
  apply Forall_cons in Hres as [Hr1 Hres]. split_and!; try done.
  - split; try apply Hw; try done.
    + intros c x Hc. rewrite !Hne by done. by apply (wi_heads _ Hw c x).
    + intros h l' x Hh Hx. destruct (decide (h = q_occupied)) as [->|].
      { rewrite Hl' in Hh. injection Hh as <-. apply (wi_elems _ Hw q_occupied (q :: l)); [done|].
        by right. }
      destruct (decide (h = q_th_free)) as [->|]; [|rewrite Hne in Hh by done;
        by apply (wi_elems _ Hw h l' x)].
      rewrite Hlf' in Hh. injection Hh as <-. apply elem_of_app in Hx as [Hx|Hx].
      * by apply (wi_elems _ Hw q_th_free lf x).
      * apply list_elem_of_singleton in Hx as ->. by exists r.
    + intros p Hp. apply Hrefs. apply elem_of_app. by right.
    + intros arr n Ea. destruct (wi_flight _ Hw arr n Ea) as [Hn Hown]. split; [done|].
      by apply (array_owned_pop w w' r).
  - intros Hp. assert (res_ptr (tr_buf r) ∈ res_bufs [r]) as Hin'.
    { apply list_elem_of_filter. split; [done|]. by left. }
    split; [apply Hrefs, elem_of_app; by left|]. split; [by apply Hdis|].
    intros Hfl. apply (flight_bufs_live w) in Hfl as (_ & _ & Hno & _); [|apply Hw].
    apply Hno. rewrite Hocc. change (r :: occupied_results w') with ([r] ++ occupied_results w').
    rewrite res_bufs_app. apply elem_of_app. by left.
Qed.

(** ** What moving results around leaves alone *)
Record quiet w w' : Prop := {
  qu_eng : w_eng w' = w_eng w;
  qu_cos : w_cos w' = w_cos w;
  qu_reqs : w_reqs w' = w_reqs w;
  qu_tree : w_tree w' = w_tree w ∧ w_num w' = w_num w;
  qu_conf : w_conf w' = w_conf w;
  qu_th : w_th w' = w_th w;
  qu_flags : w_exiting w' = w_exiting w ∧ w_terminate w' = w_terminate w ∧
             w_quit w' = w_quit w;
  qu_out : w_out w' = w_out w;
  qu_obj p o : (∀ r, o ≠ OPev r) →
    cm_heap (w_mem w') !! p = Some o ↔ cm_heap (w_mem w) !! p = Some o;
}.

#[global] Instance quiet_refl : Reflexive quiet.
Proof. by split. Qed.

#[global] Instance quiet_trans : Transitive quiet.
Proof.
  intros w1 w2 w3 [] []. split; try (by etrans).
  - naive_solver congruence.
  - naive_solver congruence.
  - intros p o Ho. by rewrite qu_obj1, qu_obj0.
Qed.

Lemma quiet_res_ok w w' r :
  quiet w w' → res_ok (cm_heap (w_mem w)) r → res_ok (cm_heap (w_mem w')) r.
Proof. intros Hq Hr. eapply res_ok_mono; [done|]. intros p b _ _ Hp. by apply (qu_obj _ _ Hq). Qed.

Lemma post_filled q r0 r l w w1 :
  winv w1 → quiet w w1 → pev_at w1 q r0 → ¬ linked (w_qs w1) q →
  queue_of (w_qs w1) q_occupied = Some l → occupied_results w1 = occupied_results w →
  res_ok (cm_heap (w_mem w)) r → NoDup (res_bufs (occupied_results w ++ [r])) →
  (∀ p, p ∈ res_bufs [r] → p ∉ engine_refs (w_eng w)) → th_array (w_th w) = None →
  wp (_ ← mem (upd_pev q (λ _, r)); queue (ngx_queue_insert_tail q_occupied q)) (λ _ w',
    winv w' ∧ quiet w w' ∧ occupied_results w' = occupied_results w ++ [r] ∧
    ∀ n, grants n (w_mem w') = grants n (w_mem w1)) w1.
Proof.
  intros Hw1 Hqu Hq Hnl Hl Hocc Hr Hnd Hrefs Hta.
  assert (q ≠ NULL) as Hq0 by by eapply winv_live_nonnull.
  apply wp_bind, wp_mem. eapply wp_upd_pev; [done|exact Hq|].
  apply wp_modify. change (set_mem _ w1) with (heap_upd q (OPev r) w1).
  destruct (winv_upd_pev _ _ _ r Hw1 Hq) as [Hw2 Hocc2].
  { intros l' Hl' Hin. apply Hnl. by exists q_occupied, l'. }
  rewrite Hocc in Hocc2.
  assert (quiet w1 (heap_upd q (OPev r) w1)) as Hqu2.
  { split; try done. intros p o Ho. simpl. unfold pev_at in Hq.
    destruct (decide (p = q)) as [->|]; [|by rewrite lookup_insert_ne].
    rewrite lookup_insert_eq, Hq. split; [intros [= <-]|intros [= <-]]; by edestruct Ho. }
  destruct (winv_post _ q r l Hw2) as [Hw3 Hocc3]; try done.
  - apply lookup_insert_eq.
  - eapply quiet_res_ok; [exact Hqu2|]. by eapply quiet_res_ok.
  - by rewrite Hocc2.
  - simpl. by rewrite (qu_eng _ _ Hqu).
  - simpl. by rewrite (qu_th _ _ Hqu).
  - split_and!; [done| |by rewrite Hocc3, Hocc2|].
    + trans w1; [done|]. destruct Hqu2. by split.
    + intros n. apply grants_same; [done|]. simpl. rewrite dom_insert_L.
      apply elem_of_dom_2 in Hq. set_solver.
Qed.

Lemma insert_posted_spec r w :
  winv w → res_ok (cm_heap (w_mem w)) r → NoDup (res_bufs (occupied_results w ++ [r])) →
  (∀ p, p ∈ res_bufs [r] → p ∉ engine_refs (w_eng w)) → th_array (w_th w) = None →
  wp (ngx_grpc_cli_insert_posted_event_ctx r) (λ _ w', winv w' ∧ quiet w w' ∧
    (occupied_results w' = occupied_results w ++ [r] ∨
     occupied_results w' = occupied_results w) ∧
    ∀ n, grants (Datatypes.S n) (w_mem w) = true →
      grants n (w_mem w') = true ∧ occupied_results w' = occupied_results w ++ [r]) w.
Proof.
  intros Hw Hr Hnd Hrefs Hta. destruct (wi_th _ Hw) as [[l Hl] [lf Hlf]].
  apply wp_bind, wp_get, wp_bind. rewrite (queue_empty_nil _ _ _ Hlf).
  case_bool_decide as Hnil; cbn [negb].
  - apply wp_mem, wp_alloc_cases.
    + intros Hnone. apply wp_ret. split_and!; [by apply winv_tick|by split|by right|].
      intros n. by rewrite Hnone.
    + intros q Hq Hrange _ m' Hm'. rewrite (proj2 (Z.eqb_neq q NULL)) by (unfold NULL; lia).
      pose proof (winv_add w q (OPev zero_task_res) Hw Hq Hrange I) as Hw1.
      eapply wp_mono; [eapply (post_filled q zero_task_res r l w)|]; try done.
      * split; try done. intros p o Ho. simpl.
        destruct (decide (p = q)) as [->|]; [|by rewrite lookup_insert_ne].
        rewrite lookup_insert_eq, Hq. split; [|done]. intros [= <-]. by edestruct Ho.
      * apply lookup_insert_eq.
      * intros Hlk. apply (winv_linked_live w) in Hlk as [o Ho]; [congruence|done].
      * apply occupied_results_ext; [done..|]. intros p r1 Hp. unfold pev_at in *. simpl.
        rewrite lookup_insert_ne; [done|congruence].
      * cbn beta. intros _ w' (? & ? & ? & Hg). split_and!; [done..|by left|].
        intros n. rewrite Hg. simpl. by rewrite Hm'.
  - destruct lf as [|q lf]; [done|]. apply wp_bind, wp_modify, wp_ret.
    rewrite (queue_head_cons _ _ _ _ Hlf).
    destruct (winv_remove w q_th_free q [] lf Hw Hlf ltac:(done)) as (Hw1 & Hnl & _ & Hne).
    destruct (wi_elems _ Hw _ _ _ Hlf (list_elem_of_here q lf)) as [r0 Hq].
    rewrite (proj2 (Z.eqb_neq q NULL)) by by eapply winv_live_nonnull.
    eapply wp_mono; [eapply (post_filled q r0 r l w)|]; try done.
    + simpl. by rewrite Hne.
    + apply occupied_results_ext; [done| |done]. by apply Hne.
    + cbn beta. intros _ w' (? & ? & ? & Hg). split_and!; [done..|by left|].
      intros n Hn. rewrite Hg. split; [|done]. eapply grants_less; [|exact Hn]. lia.
Qed.

(** ** [ngx_grpc_cli_thread_event_handler] *)

Lemma sublist_res_bufs rs rs' :
  rs `sublist_of` rs' → res_bufs rs `sublist_of` res_bufs rs'.
Proof.
  unfold res_bufs. induction 1 as [|r rs rs' Hsub IH|r rs rs' Hsub IH]; simpl; [done|..].
  - rewrite !filter_cons. destruct (decide _); [by apply sublist_skip|done].
  - rewrite filter_cons. destruct (decide _); [by apply sublist_cons|done].
Qed.

Lemma wp_eng_free p (Q : unit → world → Prop) w :
  (p = NULL → Q tt w) →
  (p ≠ NULL → is_Some (cm_heap (w_mem w) !! p) ∧ Q tt (del_obj p w)) →
  wp (eng (grpc_engine_free p)) Q w.
Proof.
  intros H0' H1'. apply wp_eng. unfold wp. rewrite engine_free_ok. unfold mem_free.
  destruct (Z.eqb_spec p NULL) as [E|E].
  - replace (with_engine _ _ w) with w by by destruct w. by apply H0'.
  - destruct (H1' E) as [[o Ho] HQ]. rewrite Ho. exact HQ.
Qed.

(** The results posted so far are those seen so far, less the ones a refused
    allocation dropped. *)
Definition posted_upto w (rs : list task_res) w' : Prop :=
  winv w' ∧ quiet w w' ∧ ∃ ps, ps `sublist_of` rs ∧
    occupied_results w' = occupied_results w ++ ps ∧
    ∀ n, grants (length rs + n) (w_mem w) = true → ps = rs ∧ grants n (w_mem w') = true.

Lemma post_results_spec rs w :
  winv w → finished_array w rs → th_array (w_th w) = None →
  wp (for_upto (length rs) (λ i,
        res ← mem (read_array (th_finished_tasks (w_th w)) i);
        ngx_grpc_cli_insert_posted_event_ctx res))
    (λ _ w', posted_upto w rs w') w.
Proof.
  intros Hw (Hnum & Hok & Hnd & Hrefs & Harr) Hta.
  eapply wp_mono.
  { apply (wp_for_upto (λ i w', posted_upto w (take i rs) w')).
    - split_and!; [done|done|]. exists []. by rewrite app_nil_r.
    - intros i w1 Hi (Hw1 & Hqu & ps & Hps & Hocc & Hall).
      destruct (lookup_lt_is_Some_2 rs i Hi) as [r Hr].
      destruct Harr as (Harr0 & _ & _ & b & Hbuf & Hread); [by intros ->|].
      pose proof (take_S_r _ _ _ Hr) as Htake.
      assert ((ps ++ [r]) `sublist_of` rs) as Hsub.
      { trans (take (Datatypes.S i) rs); [|apply sublist_take]. rewrite Htake.
        by apply sublist_app. }
      apply wp_bind, wp_mem_read with (P := λ a, a = r).
      { eapply wp_bind, wp_load_buf; [done|by apply (qu_obj _ _ Hqu)|].
        rewrite (Hread _ _ Hr). by apply wp_ret. }
      intros a ->. eapply wp_mono; [apply insert_posted_spec; [done|..]|]; cbn beta.
      + eapply quiet_res_ok; [done|]. rewrite list.Forall_forall in Hok. apply Hok.
        by eapply list_elem_of_lookup_2.
      + rewrite Hocc, <- app_assoc. eapply sublist_NoDup; [exact Hnd|].
        apply sublist_res_bufs. by apply sublist_app.
      + rewrite (qu_eng _ _ Hqu). intros p Hp. apply Hrefs.
        assert (res_bufs [r] `sublist_of` res_bufs rs) as Hs.
        { apply sublist_res_bufs. etrans; [|exact Hsub]. by apply sublist_inserts_l. }
        eapply elem_of_submseteq; [exact Hp|by apply sublist_submseteq].
      + by rewrite (qu_th _ _ Hqu).
      + intros _ w2 (Hw2 & Hqu2 & Hcase & Hgr). split; [done|]. split; [by etrans|].
        assert (∀ n, grants (length (take (Datatypes.S i) rs) + n) (w_mem w) = true →
          ps = take i rs ∧ grants n (w_mem w2) = true ∧
          occupied_results w2 = occupied_results w1 ++ [r]) as Hnext.
        { intros n Hn. rewrite Htake, length_app in Hn. simpl in Hn.
          destruct (Hall (Datatypes.S n)) as [Eps Hn1]; [by rewrite <- Hn; f_equal; lia|].
          by destruct (Hgr n Hn1). }
        rewrite Htake in Hnext |- *. destruct Hcase as [E|E].
        * exists (ps ++ [r]). rewrite E, Hocc, <- app_assoc.
          split_and!; [by apply sublist_app|done|]. intros n Hn.
          destruct (Hnext n Hn) as (-> & ? & _). done.
        * exists ps. rewrite E, Hocc. split_and!; [by apply sublist_inserts_r|done|].
          intros n Hn. destruct (Hnext n Hn) as (_ & _ & E2). rewrite E in E2.
          apply (f_equal length) in E2. rewrite length_app in E2. simpl in E2. lia. }
  cbn beta. intros _ w' Hp. by rewrite firstn_all in Hp.
Qed.

(** The end of the handler: the thread is sent to wait again when tasks are
    ongoing that were not just finished. *)
Definition rearmed w (n : Z) w' : Prop :=
  if w_quit w || w_exiting w || (w_num w <=? n) then w' = w
  else ∃ k, match ngx_thread_task_post k (th_task_event (w_th w)) with
            | Some ev => w' = set_th (set_task_event ev (w_th w)) (tick w)
            | None => w' = tick w
            end.

Lemma rearm_spec n w :
  wp (w0 ← get;
      if w_quit w0 || w_exiting w0 then mret tt else
      m ← ngx_grpc_cli_task_num;
      if m <=? n then mret tt else task_post ≫= λ _, mret tt)
    (λ _ w', rearmed w n w') w.
Proof.
  apply wp_bind, wp_get. unfold rearmed. destruct (w_quit w || w_exiting w); [done|].
  cbn [orb]. apply wp_bind, wp_gets. destruct (w_num w <=? n); [done|].
  apply wp_bind, wp_bind, wp_get, wp_bind, wp_modify.
  destruct (ngx_thread_task_post _ _) as [ev|] eqn:E.
  - apply wp_bind, wp_modify. do 2 apply wp_ret.
    exists (cm_seq (w_mem w)). by rewrite E.
  - do 2 apply wp_ret. exists (cm_seq (w_mem w)). by rewrite E.
Qed.

Lemma winv_set_th w th : th_array th = th_array (w_th w) → winv w → winv (set_th th w).
Proof. intros Ht. by apply winv_irrelevant. Qed.

(** The event handler takes the array over. *)
Lemma winv_landed w th : th_array th = None → winv w → winv (set_th th w).
Proof. intros Ht []. split; try done. by apply flight_none. Qed.

Definition event_handler_post w (rs : list task_res) w' : Prop :=
  winv w' ∧ w_eng w' = w_eng w ∧ w_cos w' = w_cos w ∧ w_reqs w' = w_reqs w ∧
  (∀ p s, ongoing w' p s ↔ ongoing w p s) ∧ flight_results w' = [] ∧
  (∃ ps, ps `sublist_of` rs ∧ occupied_results w' = occupied_results w ++ ps ∧
     (grants (length rs) (w_mem w) = true → ps = rs)) ∧
  (rs ≠ [] → cm_heap (w_mem w') !! th_finished_tasks (w_th w) = None ∧
     th_finished_tasks (w_th w') = NULL ∧ alerted w' = true) ∧
  (alerted w = true → alerted w' = true) ∧
  (w_quit w = false → w_exiting w = false → th_finished_task_num (w_th w) < w_num w →
     ev_active (th_task_event (w_th w')) = true ∨
     ∃ k, ngx_thread_task_post k (th_task_event (w_th w)) = None).

Lemma rearmed_post w1 n w' :
  winv w1 → rearmed w1 n w' →
  winv w' ∧ w_eng w' = w_eng w1 ∧ w_cos w' = w_cos w1 ∧ w_reqs w' = w_reqs w1 ∧
  w_qs w' = w_qs w1 ∧ cm_heap (w_mem w') = cm_heap (w_mem w1) ∧
  th_finished_tasks (w_th w') = th_finished_tasks (w_th w1) ∧
  th_posted_ev (w_th w') = th_posted_ev (w_th w1) ∧
  ev_ran (th_task_event (w_th w')) = ev_ran (th_task_event (w_th w1)) ∧
  (w_quit w1 = false → w_exiting w1 = false → n < w_num w1 →
     ev_active (th_task_event (w_th w')) = true ∨
     ∃ k, ngx_thread_task_post k (th_task_event (w_th w1)) = None).
Proof.
  intros Hw1. unfold rearmed. destruct (w_quit w1 || w_exiting w1 || (w_num w1 <=? n)) eqn:E.
  { intros ->. split_and!; try done. intros Hq He Hn. rewrite Hq, He in E. simpl in E.
    apply Z.leb_le in E. lia. }
  intros [k Hk]. destruct (ngx_thread_task_post _ _) as [ev|] eqn:Ep; subst w'.
  - destruct (ev_task_post _ _ _ Ep) as [Hev Hran].
    split_and!; try done; [|by intros _ _ _; left].
    apply winv_set_th; [|by apply winv_tick]. unfold th_array. simpl. by rewrite Hran.
  - split_and!; try done; [by apply winv_tick|]. intros _ _ _. right. by exists k.
Qed.

(** The state when all results are posted and the array is gone. *)
Record array_handled w (rs ps : list task_res) w' : Prop := {
  hd_inv : winv w';
  hd_env : w_eng w' = w_eng w ∧ w_cos w' = w_cos w ∧ w_reqs w' = w_reqs w;
  hd_flags : w_quit w' = w_quit w ∧ w_exiting w' = w_exiting w ∧ w_num w' = w_num w;
  hd_event : th_task_event (w_th w') = th_task_event (w_th w);
  hd_ongoing p s : ongoing w' p s ↔ ongoing w p s;
  hd_results : occupied_results w' = occupied_results w ++ ps;
  hd_array : rs ≠ [] → cm_heap (w_mem w') !! th_finished_tasks (w_th w) = None ∧
    th_finished_tasks (w_th w') = NULL ∧ alerted w' = true;
  hd_alerted : alerted w = true → alerted w' = true;
}.

Lemma handled_rearmed w rs ps w2 w' :
  ev_ran (th_task_event (w_th w)) = false → ps `sublist_of` rs →
  (grants (length rs) (w_mem w) = true → ps = rs) → array_handled w rs ps w2 →
  rearmed w2 (th_finished_task_num (w_th w)) w' → event_handler_post w rs w'.
Proof.
  intros Hran Hps Hall [Hw2 (He & Hc & Hr) (Hq & Hx & Hn) Hev Hon Hocc Harr Hal] Hre.
  destruct (rearmed_post _ _ _ Hw2 Hre) as (Hw' & E1 & E2 & E3 & E4 & E5 & E6 & E7 & Er & E8).
  split; [done|]. unfold alerted in *. rewrite E1, E2, E3, E5, E6, E7. split_and!; try done.
  - intros p s. rewrite <- Hon. unfold ongoing, stream_at. by rewrite E5.
  - apply flight_none. unfold th_array. by rewrite Er, Hev, Hran.
  - exists ps. split_and!; [done| |done]. rewrite <- Hocc.
    unfold occupied_results, pev_res. by rewrite E4, E5.
  - rewrite <- Hev, <- Hq, <- Hx, <- Hn. exact E8.
Qed.

(** The array is released, and the posted event scheduled. *)
Lemma array_released w rs ps w1 b num :
  quiet w w1 → winv w1 → ev_ran (th_task_event (w_th w)) = false →
  occupied_results w1 = occupied_results w ++ ps → ps `sublist_of` rs →
  th_finished_tasks (w_th w) ∉ engine_refs (w_eng w) →
  th_finished_tasks (w_th w) ∉ res_bufs (occupied_results w ++ rs) →
  cm_heap (w_mem w1) !! th_finished_tasks (w_th w) = Some (OBuf b) →
  let w2 := del_obj (th_finished_tasks (w_th w)) w1 in
  array_handled w rs ps
    (set_th (set_posted_ev (ngx_post_event (th_posted_ev (w_th w2)))
               (set_finished NULL num (w_th w2))) w2).
Proof.
  intros [Qe Qc Qr [Qt Qn] Qf Qth (Qx & _ & Qq) _ Qo] Hw1 Hran Hocc Hps Har Hab Hb w2.
  assert (agree but_bufs (cm_heap (w_mem w1)) (cm_heap (w_mem w2))) as Ha.
  { apply agree_delete. eauto with grpc. }
  assert (th_array (w_th w1) = None) as Hta by (unfold th_array; by rewrite Qth, Hran).
  split; try done; [|by rewrite <- Qth| | | |by intros _; apply ev_post].
  - apply winv_landed; [unfold th_array; simpl; by rewrite Qth, Hran|].
    eapply winv_del_buf; [done|exact Hb|]. split; [by rewrite Qe|]. split.
    2: { unfold flight_bufs. rewrite Hta. set_solver. }
    rewrite Hocc. intros Hin. apply Hab. eapply elem_of_submseteq; [exact Hin|].
    by apply sublist_submseteq, sublist_res_bufs, sublist_app.
  - intros p s. unfold ongoing, stream_at. rewrite <- (Qo p (OSctx s)) by done.
    exact (and_iff_compat_r _ (Ha p (OSctx s) eq_refl)).
  - rewrite <- Hocc. apply (occupied_results_ext w1 w2); [done..|]. intros q r Hq. by apply Ha.
  - intros _. split_and!; [apply lookup_delete_eq|done|apply ev_post].
Qed.

Lemma event_handler_spec rs w :
  winv w → finished_array w rs → ev_ran (th_task_event (w_th w)) = false →
  wp ngx_grpc_cli_thread_event_handler (λ _ w', event_handler_post w rs w') w.
Proof.
  intros Hw Hfin Hran. assert (th_array (w_th w) = None) as Hta by (unfold th_array;
    by rewrite Hran).
  pose proof (post_results_spec rs w Hw Hfin Hta) as Hloop.
  destruct Hfin as (Hnum & _ & Hnd & _ & Harr).
  apply wp_bind, wp_get. cbv zeta. rewrite Hnum. apply wp_bind.
  eapply wp_mono; [exact Hloop|]. cbn beta. intros _ w1 (Hw1 & Hqu & ps & Hps & Hocc & Hall).
  assert (grants (length rs) (w_mem w) = true → ps = rs) as Htot.
  { intros Hg. destruct (Hall O) as [? _]; [|done]. by rewrite Nat.add_0_r. }
  assert (∀ w2, array_handled w rs ps w2 → wp
    (w0 ← get;
     if w_quit w0 || w_exiting w0 then mret tt else
     m ← ngx_grpc_cli_task_num;
     if m <=? th_finished_task_num (w_th w) then mret tt else task_post ≫= λ _, mret tt)
    (λ _ w', event_handler_post w rs w') w2) as Hend.
  { intros w2 Hh. eapply wp_mono; [apply rearm_spec|]. cbn beta. intros _ w'.
    by apply (handled_rearmed w rs ps w2). }
  apply wp_bind, wp_when; intros Hn; rewrite Z.gtb_ltb in Hn.
  - apply Z.ltb_lt in Hn.
    assert (rs ≠ []) as Hrs by (intros E; rewrite E in Hnum; simpl in Hnum; lia).
    destruct (Harr Hrs) as (Ha0 & Har & Hab & b & Hbuf & _).
    assert (cm_heap (w_mem w1) !! th_finished_tasks (w_th w) = Some (OBuf b)) as Hb1
      by by apply (qu_obj _ _ Hqu).
    apply wp_bind, wp_eng_free; [done|]. intros _. split; [by eexists|]. apply wp_modify.
    by apply Hend, (array_released w rs ps w1 b).
  - apply Z.ltb_ge in Hn. assert (rs = []) as Hrs by (destruct rs; [done|simpl in Hnum; lia]).
    apply Hend. destruct Hqu as [Qe Qc Qr [Qt Qn] Qf Qth (Qx & _ & Qq) _ Qo].
    split; try done; [by rewrite Qth| |unfold alerted; by rewrite Qth].
    intros p s. unfold ongoing, stream_at. by rewrite Qo.
Qed.
End event_inv.
