(* ===== verification/ThreadInv.v ===== *)
(** * The background thread: [ngx_grpc_cli_thread_handler] *)
From S2P Require Import Prelude Words Mem Wire TaskQueue Ngx World Tasks Conn Stream.
From S2P Require Import Handlers EngineSpec Heaps Inv InvMoves Handles ConnInv StreamInv EventInv.

(** ** Writing to one record of an array *)

Section array.
Context (e : endian).

Lemma take_drop_splice_before {A} (l new : list A) off n m :
  (n + m ≤ off)%nat → (off ≤ length l)%nat →
  take m (drop n (splice off new l)) = take m (drop n l).
Proof.
  intros H1 H2. unfold splice. rewrite drop_app_le by (rewrite length_take; lia).
  rewrite take_app_le by (rewrite length_drop, length_take; lia).
  rewrite skipn_firstn_comm, take_take. f_equal. lia.
Qed.

Lemma take_drop_splice_after {A} (l new : list A) off n m :
  (off + length new ≤ n)%nat → (off + length new ≤ length l)%nat →
  take m (drop n (splice off new l)) = take m (drop n l).
Proof.
  intros H1 H2. unfold splice.
  rewrite drop_app_ge by (rewrite length_take; lia). rewrite length_take, Nat.min_l by lia.
  rewrite drop_app_ge by lia. rewrite drop_drop. f_equal. f_equal. lia.
Qed.

Lemma read_write_other v i j b :
  i ≠ j → (24 * i + 24 ≤ length b)%nat →
  read_task_res e (write_task_res_buf e v i b) j = read_task_res e b j.
Proof.
  intros Hij Hb. unfold read_task_res, write_task_res_buf.
  pose proof (length_PutUint64 e v) as Hv.
  rewrite length_splice by lia.
  destruct (24 * j + 24 <=? length b)%nat eqn:E; [|done]. apply Nat.leb_le in E.
  destruct (decide (i < j)%nat) as [Hlt|Hge].
  - rewrite !take_drop_splice_after by lia. done.
  - rewrite !take_drop_splice_before by lia. done.
Qed.
End array.

Section thread_inv.
Context `{AllocatorLaws} `{NginxLaws} `{GrpcEngineLaws}.
Implicit Types w : world.

(** Rewriting a buffer nobody refers to. *)
Lemma winv_upd_buf w p b b' :
  winv w → cm_heap (w_mem w) !! p = Some (OBuf b) → spare w p →
  winv (heap_upd p (OBuf b') w).
Proof.
  intros Hw Hp Hs. pose proof (winv_del_buf _ _ _ Hw Hp Hs) as Hw1.
  pose proof (wi_u64 _ Hw _ _ Hp) as Hu.
  assert (p ≠ NULL) by by eapply (winv_live_nonnull w).
  apply (winv_irrelevant (add_obj p (OBuf b') (del_obj p w))); try done.
  - simpl. by rewrite insert_delete_eq.
  - apply winv_add; [done|apply lookup_delete_eq| |].
    + unfold is_u64, NULL in *. lia.
    + exact I.
Qed.

Lemma s32_le n : 0 ≤ n → s32 n ≤ n.
Proof. intros. unfold s32. pose proof (Z.mod_le (n + 2 ^ 31) (2 ^ 32)). lia. Qed.

(** The owner of an array owns its beginning. *)
Lemma array_owned_take w arr rs n : array_owned w arr rs → array_owned w arr (take n rs).
Proof.
  intros (Hok & Hnd & Hrefs & Harr).
  assert (res_bufs (take n rs) `sublist_of` res_bufs rs) as Hsub
    by apply sublist_res_bufs, sublist_take.
  assert (∀ p, p ∈ res_bufs (occupied_results w ++ take n rs) →
    p ∈ res_bufs (occupied_results w ++ rs)) as Hin.
  { intros p. rewrite !res_bufs_app, !elem_of_app. intros [|Hp]; [by left|right].
    eapply elem_of_submseteq; [exact Hp|by apply sublist_submseteq]. }
  split_and!.
  - by apply Forall_take.
  - eapply sublist_NoDup; [exact Hnd|]. apply sublist_res_bufs. apply sublist_app; [done|].
    apply sublist_take.
  - intros p Hp. apply Hrefs. eapply elem_of_submseteq; [exact Hp|by apply sublist_submseteq].
  - intros Hne. destruct Harr as (Ha0 & Har & Hab & b & Hb & Hread).
    { intros ->. by rewrite take_nil in Hne. }
    split_and!; [done|done|by intros ?%Hin|]. exists b. split; [done|].
    intros i r Hi. apply Hread. apply lookup_take_Some in Hi. tauto.
Qed.

(** The engine keeps its word, and so do the results [rs] it hands over. *)
Definition honoured w (rs : list task_res) w' : Prop :=
  trusted none w w' ∧
  ∀ r, r ∈ rs → res_type (tr_buf r) ≠ NGX_GRPC_CLIENT_RES_TYPE_ERR →
    engine_vouches (w_eng w) (tr_task_id r) → tr_task_id r ∈ engine_streams (w_eng w').

(** What [grpc_engine_wait] hands over. *)
Lemma wait_spec timeout w :
  winv w →
  wp (eng (grpc_engine_wait timeout)) (λ x w', ∃ e m rs, w' = with_engine e m w ∧
    winv w' ∧ steady w w' ∧ handles none none w w' ∧ engine_refs e = engine_refs (w_eng w) ∧
    x.2 = s32 (Z.of_nat (length rs)) ∧ (rs = [] → x.1 = NULL) ∧
    array_owned w' x.1 rs ∧ pending w = res_ids rs ⊎ pending w' ∧ honoured w rs w' ∧
    (rs ≠ [] → ∀ p, p ∈ x.1 :: res_bufs rs → p ∉ flight_bufs w')) w.
Proof.
  intros Hw. apply wp_eng. eapply wp_mono; [apply engine_wait_ok, Hw|]. cbn beta.
  intros x [e m] (He & Hr & Hes & Hx & rs & His & Hok & Hnd & Hfresh & Hn & Hpend & Htr & Hsay &
    Hcase).
  cbn [fst snd] in *. exists e, m, rs.
  assert (winv (with_engine e m w)) as Hw1 by by apply winv_engine_same.
  assert (occupied_results (with_engine e m w) = occupied_results w) as Hocc.
  { apply occupied_results_ext; [done..|]. intros q r Hq. eapply lookup_weaken; [done|apply Hx]. }
  rewrite list.Forall_forall in Hfresh.
  assert (steady w (with_engine e m w)) as Hst by by apply steady_extends.
  split_and!; [done|done|done| |done|done| | |done|by split|].
  { apply handles_agree; [by apply agree_extends|done..]. }
  { intros ->. by destruct Hcase as [[_ ?]|[? _]]. }
  2: { intros Hne p Hp Hin. assert (flight_bufs (with_engine e m w) = flight_bufs w) as Hfb.
    { apply flight_bufs_same; [done|apply Hst]. }
    rewrite Hfb in Hin. apply flight_bufs_live in Hin as (_ & _ & _ & b & Hb); [|apply Hw].
    destruct Hcase as [[? _]|(_ & _ & Hnone & _)]; [done|].
    apply elem_of_cons in Hp as [->|Hp]; [congruence|]. apply Hfresh in Hp. congruence. }
  unfold array_owned. rewrite Hocc. simpl. rewrite Hr.
  split_and!; [done| | |].
  - rewrite res_bufs_app. apply NoDup_app. split_and!; [apply Hw| |done].
    intros p Hp Hp'. apply Hfresh in Hp'.
    destruct (res_bufs_live _ _ _ (wi_results _ Hw) Hp) as (_ & b & Hb). congruence.
  - intros p Hp Href. apply Hfresh in Hp. destruct (wi_refs _ Hw _ Href) as [b Hb]. congruence.
  - intros Hne. destruct Hcase as [[? _]|(_ & Ha0 & Hanone & Hain & Hbuf)]; [done|].
    split_and!; [done| | |eexists; split; [exact Hbuf|]; intros; by apply read_records].
    + intros Href. destruct (wi_refs _ Hw _ Href) as [b Hb]. congruence.
    + rewrite res_bufs_app, elem_of_app. intros [Hp|Hp]; [|done].
      destruct (res_bufs_live _ _ _ (wi_results _ Hw) Hp) as (_ & b & Hb). congruence.
Qed.

(** The thread leaves the array for the event handler. *)
Lemma thread_handler_spec w :
  winv w → ev_ran (th_task_event (w_th w)) = false → w_exiting w = false →
  w_terminate w = false →
  wp ngx_grpc_cli_thread_handler (λ _ w', winv w' ∧ steady w w' ∧
    ev_ran (th_task_event (w_th w')) = false ∧ ∃ rs,
    th_finished_task_num (w_th w') = s32 (Z.of_nat (length rs)) ∧
    (rs = [] → th_finished_tasks (w_th w') = NULL) ∧
    pending w = res_ids rs ⊎ pending w' ∧ honoured w rs w' ∧
    finished_array w' (take (Z.to_nat (th_finished_task_num (w_th w'))) rs) ∧
    w_qs w' = w_qs w ∧ w_tree w' = w_tree w ∧ w_num w' = w_num w ∧ w_cos w' = w_cos w) w.
Proof.
  intros Hw Hran He Ht. apply wp_bind. eapply wp_mono; [by apply wait_spec|]. cbn beta.
  intros [arr n] w1 (e & m & rs & -> & Hw1 & Hst & _ & _ & Hn & Hnil & Hfin & Hpend & Hhon & _).
  cbn [fst snd] in *.
  apply wp_bind, wp_modify, wp_bind, wp_get. simpl. rewrite He, Ht. cbn [orb]. apply wp_ret.
  assert (∀ a k, th_array (set_finished a k (w_th w)) = None) as Hta.
  { intros a k. unfold th_array. simpl. by rewrite Hran. }
  split; [by apply winv_landed|]. split.
  { etrans; [exact Hst|]. apply steady_same; [done..|]. simpl. rewrite Hta. unfold th_array.
    by rewrite Hran. }
  split; [done|]. exists rs. split_and!; try done.
  split; [|by apply array_owned_take]. simpl. rewrite length_take, Hn.
  pose proof (s32_le (Z.of_nat (length rs))). lia.
Qed.

(** ** The array in flight *)

Lemma omap_seq {A} (f : nat → option A) (l : list A) :
  (∀ i x, l !! i = Some x → f i = Some x) → omap f (seq 0 (length l)) = l.
Proof.
  revert f. induction l as [|x l IH]; intros f Hf; [done|]. simpl.
  rewrite (Hf 0%nat x eq_refl). f_equal.
  assert (∀ is_ : list nat, omap f (S <$> is_) = omap (λ i, f (S i)) is_) as E.
  { intros is_. induction is_ as [|i is_ IHis]; [done|]. simpl.
    destruct (f (S i)); [f_equal|]; exact IHis. }
  change (omap f (seq 1 (length l)) = l). rewrite <- fmap_S_seq, E.
  apply IH. intros i y Hi. by apply Hf.
Qed.

(** The pool's thread is through with the task: what it left is in flight. *)
Lemma winv_launched w rs :
  winv w → ev_ran (th_task_event (w_th w)) = false → finished_array w rs →
  let w' := set_th (set_task_event (ngx_task_ran (th_task_event (w_th w))) (w_th w)) w in
  winv w' ∧ flight_results w' = rs ∧ finished_array w' rs.
Proof.
  intros Hw Hran [Hn Hown] w'.
  assert (th_array (w_th w') = if decide (rs = []) then None
            else Some (th_finished_tasks (w_th w), length rs)) as Hta.
  { unfold th_array. simpl. rewrite ev_task_ran, <- Hn. cbn [andb].
    destruct (Z.ltb_spec 0 (th_finished_task_num (w_th w))).
    - rewrite decide_False; [done|]. intros ->. simpl in Hn. lia.
    - rewrite decide_True; [done|]. destruct rs; [done|]. simpl in Hn. lia. }
  assert (flight_results w' = rs) as Hfl.
  { unfold flight_results. rewrite Hta. destruct (decide (rs = [])) as [->|Hne]; [done|].
    destruct Hown as (_ & _ & _ & Harr). destruct (Harr Hne) as (_ & _ & _ & b & Hb & Hread).
    change (w_mem w') with (w_mem w). rewrite Hb. by apply omap_seq. }
  split; [|split; [done|by split]]. destruct Hw. split; try done.
  intros arr n. rewrite Hta, Hfl. destruct (decide (rs = [])); [done|]. by intros [= <- <-].
Qed.

(** The event handler finds what is in flight. *)
Lemma flight_finished w :
  winv w → ev_ran (th_task_event (w_th w)) = true → finished_array w (flight_results w).
Proof.
  intros Hw Hran. pose proof (wi_flight _ Hw) as Hf. unfold flight_inv in Hf.
  destruct (th_array (w_th w)) as [[arr n]|] eqn:Ea.
  - destruct (Hf _ _ eq_refl) as [Hn Hown]. unfold th_array in Ea. rewrite Hran in Ea.
    simpl in Ea. destruct (0 <? _); [|done]. injection Ea as <- <-. by split.
  - assert (flight_results w = []) as -> by by apply flight_none.
    unfold th_array in Ea. rewrite Hran in Ea. simpl in Ea.
    destruct (Z.ltb_spec 0 (th_finished_task_num (w_th w))); [done|].
    split; [simpl; lia|]. split_and!; [by constructor| | |done].
    + rewrite app_nil_r. apply Hw.
    + intros p Hp. by apply elem_of_nil in Hp.
Qed.

(** ** Releasing the array when the worker exits *)

(** The results from the [i]-th on are still in the array. *)
Record draining (arr : Z) (rs : list task_res) w (i : nat) w' : Prop := {
  dr_inv : winv w';
  dr_th : w_th w' = w_th w;
  dr_eng : w_eng w' = w_eng w;
  dr_occ : occupied_results w' = occupied_results w;
  dr_arr : ∃ b, cm_heap (w_mem w') !! arr = Some (OBuf b) ∧
    ∀ j r, (i ≤ j)%nat → rs !! j = Some r → read_task_res host_endian b j = Some r;
  dr_ok : Forall (res_ok (cm_heap (w_mem w'))) (drop i rs);
}.

Lemma draining_start arr rs w :
  winv w → array_owned w arr rs → rs ≠ [] → draining arr rs w 0 w.
Proof.
  intros Hw (Hok & _ & _ & Harr) Hne. destruct (Harr Hne) as (_ & _ & _ & b & Hb & Hread).
  split; try done. exists b. split; [done|]. intros j r _. apply Hread.
Qed.

Lemma res_bufs_lookup rs i r :
  rs !! i = Some r → res_ptr (tr_buf r) ≠ NULL →
  res_ptr (tr_buf r) ∈ res_bufs rs ∧
  (NoDup (res_bufs rs) → res_ptr (tr_buf r) ∉ res_bufs (drop (Datatypes.S i) rs)).
Proof.
  intros Hi Hp. assert (res_ptr (tr_buf r) ∈ res_bufs [r]) as Hin.
  { apply list_elem_of_filter. split; [done|]. by left. }
  rewrite <- (take_drop_middle _ _ _ Hi) at 1 2.
  change (r :: ?l) with ([r] ++ l). rewrite !res_bufs_app. split; [set_solver|].
  intros (_ & _ & Hnd)%NoDup_app. apply NoDup_app in Hnd as (_ & Hdis & _). by apply Hdis.
Qed.

(** No array is in flight meanwhile. *)
Lemma draining_spare arr rs w i w1 p :
  draining arr rs w i w1 → th_array (w_th w) = None →
  p ∉ engine_refs (w_eng w) → p ∉ res_bufs (occupied_results w) → spare w1 p.
Proof.
  intros [_ Hth He Hocc _ _] Hta Hr Hb. split_and!; [by rewrite He|by rewrite Hocc|].
  unfold flight_bufs. rewrite Hth, Hta. set_solver.
Qed.

(** The pointer of the [i]-th record loses its tag. *)
Lemma draining_write arr rs w i w1 b n :
  array_owned w arr rs → th_array (w_th w) = None → (i < length rs)%nat →
  draining arr rs w i w1 → cm_heap (w_mem w1) !! arr = Some (OBuf b) →
  (∀ j r, (i ≤ j)%nat → rs !! j = Some r → read_task_res host_endian b j = Some r) →
  draining arr rs w (Datatypes.S i)
    (heap_upd arr (OBuf (write_task_res_buf host_endian n i b)) w1).
Proof.
  intros (_ & _ & _ & Harr) Hta Hi Hd Hb Hread.
  destruct (lookup_lt_is_Some_2 rs i Hi) as [r Hr].
  destruct Harr as (Ha0 & Har & Hab & _); [by intros ->|].
  pose proof (read_task_res_length _ _ _ _ (Hread _ _ (Nat.le_refl _) Hr)) as Hlen.
  rewrite res_bufs_app in Hab.
  assert (spare w1 arr) as Hsp by (eapply draining_spare; [done..|set_solver]).
  destruct Hd as [Hw1 Hth He Hocc _ Hok]. split; try done.
  - by eapply winv_upd_buf.
  - rewrite <- Hocc. apply occupied_results_ext; [done..|]. intros q x Hq.
    unfold pev_at in *. rewrite heap_upd_ne; [done|congruence].
  - eexists. split; [apply lookup_insert_eq|]. intros j x Hj. rewrite read_write_other by lia.
    apply Hread. lia.
  - apply (results_mono (cm_heap (w_mem w1))).
    + replace (Datatypes.S i) with (i + 1)%nat by lia. rewrite <- drop_drop. by apply Forall_drop.
    + intros p b' Hp Hb'. rewrite heap_upd_ne; [done|]. intros ->. apply Hab.
      rewrite <- (take_drop (Datatypes.S i) rs), res_bufs_app. set_solver.
Qed.

(** A buffer that no later record points to is released. *)
Lemma draining_free arr rs w i w1 p b :
  array_owned w arr rs → th_array (w_th w) = None → draining arr rs w i w1 →
  p ∈ res_bufs rs → p ∉ res_bufs (drop i rs) → cm_heap (w_mem w1) !! p = Some (OBuf b) →
  draining arr rs w i (del_obj p w1).
Proof.
  intros (_ & Hnd & Hrefs & Harr) Hta Hd Hp Hlater Hb. rewrite res_bufs_app in Hnd.
  apply NoDup_app in Hnd as (_ & Hdis & _).
  assert (spare w1 p) as Hsp.
  { eapply draining_spare; [done..|by apply Hrefs|]. intros Hp'. by eapply Hdis. }
  destruct Hd as [Hw1 Hth He Hocc (b1 & Hb1 & Hread) Hok]. split; try done.
  - by eapply winv_del_buf.
  - rewrite <- Hocc. apply occupied_results_ext; [done..|]. intros q x Hq.
    unfold pev_at in *. simpl. rewrite lookup_delete_ne; [done|congruence].
  - exists b1. split; [|done]. simpl. rewrite lookup_delete_ne; [done|]. intros ->.
    destruct Harr as (_ & _ & Hab & _); [intros ->; inversion Hp|]. rewrite res_bufs_app in Hab.
    set_solver.
  - eapply results_mono; [exact Hok|]. intros p' b' Hp' Hb'. simpl.
    rewrite lookup_delete_ne; [done|]. by intros ->.
Qed.

Lemma drain_step arr rs w i w1 :
  array_owned w arr rs → th_array (w_th w) = None → (i < length rs)%nat →
  draining arr rs w i w1 →
  wp (res ← mem (read_array arr i);
      if tr_buf res =? NULL then crash AssertFail else
      _ ← mem (write_array_buf arr i (res_ptr (tr_buf res)));
      eng (grpc_engine_free (res_ptr (tr_buf res))))
    (λ _ w', draining arr rs w (Datatypes.S i) w') w1.
Proof.
  intros Hown Hta Hi Hd. pose proof Hown as (_ & Hnd & _ & Harr).
  destruct (dr_arr _ _ _ _ _ Hd) as (b & Hb & Hread). pose proof (dr_ok _ _ _ _ _ Hd) as Hok.
  destruct (lookup_lt_is_Some_2 rs i Hi) as [r Hr].
  destruct Harr as (Ha0 & _ & Hab & _); [by intros ->|].
  rewrite (drop_S _ _ _ Hr) in Hok. apply Forall_cons in Hok as [(Hu & Hr0 & Hokr) _].
  apply wp_bind, wp_mem_read with (P := λ a, a = r).
  { eapply wp_bind, wp_load_buf; [done|exact Hb|]. rewrite (Hread _ r) by done. by apply wp_ret. }
  intros a ->. rewrite (proj2 (Z.eqb_neq _ _) Hr0).
  apply wp_bind, wp_mem. eapply wp_bind, wp_load_buf; [done|exact Hb|].
  eapply wp_store; [done|exact Hb|].
  pose proof (draining_write _ _ _ _ _ _ (res_ptr (tr_buf r)) Hown Hta Hi Hd Hb Hread) as Hd2.
  apply wp_eng_free; [intros _; exact Hd2|]. intros Hp.
  rewrite decide_False in Hokr by done. destruct Hokr as (_ & bb & Hbb & _).
  rewrite res_bufs_app in Hnd, Hab. apply NoDup_app in Hnd as (_ & _ & Hnd).
  destruct (res_bufs_lookup _ _ _ Hr Hp) as [Hin Hnin].
  assert (cm_heap (w_mem (heap_upd arr (OBuf (write_task_res_buf host_endian
    (res_ptr (tr_buf r)) i b)) w1)) !! res_ptr (tr_buf r) = Some (OBuf bb)) as Hbb2.
  { rewrite heap_upd_ne; [done|]. intros E. set_solver. }
  split; [by eexists|]. eapply draining_free; [done..|by apply Hnin|exact Hbb2].
Qed.

(** When the worker exits, the thread releases the results and the array, and
    leaves [finished_tasks] and [finished_task_num] as they were. *)
Lemma thread_handler_exit_spec w :
  winv w → ev_ran (th_task_event (w_th w)) = false →
  w_exiting w || w_terminate w = true →
  wp ngx_grpc_cli_thread_handler (λ _ w', winv w' ∧
    (th_finished_task_num (w_th w') > 0 →
     th_finished_tasks (w_th w') ≠ NULL ∧
     cm_heap (w_mem w') !! th_finished_tasks (w_th w') = None)) w.
Proof.
  intros Hw Hran Hx. apply wp_bind. eapply wp_mono; [by apply wait_spec|]. cbn beta.
  intros [arr n] w1 (e & m & rs & -> & Hw1 & _ & _ & _ & Hn & Hnil & Hown & _). cbn [fst snd] in *.
  apply wp_bind, wp_modify, wp_bind, wp_get. simpl. rewrite Hx. set (w2 := set_th _ _).
  assert (th_array (w_th w2) = None) as Hta by (unfold th_array; simpl; by rewrite Hran).
  assert (winv w2) as Hw2 by by apply winv_landed.
  assert (array_owned w2 arr rs) as Hown2 by done.
  assert (Z.to_nat n ≤ length rs)%nat as Hle.
  { rewrite Hn. unfold s32. pose proof (Z.mod_le (Z.of_nat (length rs) + 2 ^ 31) (2 ^ 32)). lia. }
  destruct (decide (rs = [])) as [E|E].
  { assert (n = 0) as -> by by rewrite Hn, E. rewrite (Hnil E).
    apply wp_bind, wp_ret, wp_ret. split; [done|]. simpl. lia. }
  apply wp_bind. eapply wp_mono.
  { apply (wp_for_upto (λ i w', draining arr rs w2 i w')).
    - by apply draining_start.
    - intros i w' Hi Hd. apply drain_step; [done|done|lia|done]. }
  cbn beta. intros _ w3 [Hw3 Hth3 He3 Hocc3 (b & Hb & _) _].
  destruct Hown2 as (_ & Hnd & _ & Harr). destruct (Harr E) as (Ha0 & Har & Hab & _).
  rewrite (proj2 (Z.eqb_neq _ _) Ha0). cbn [negb when].
  apply wp_eng_free; [done|]. intros _. split; [by eexists|]. split.
  - eapply winv_del_buf; [done|exact Hb|]. split_and!; [by rewrite He3| |].
    + rewrite Hocc3. rewrite res_bufs_app in Hab. set_solver.
    + unfold flight_bufs. rewrite Hth3, Hta. set_solver.
  - intros _. simpl. rewrite Hth3. simpl. split; [done|]. apply lookup_delete_eq.
Qed.

(** The event handler of the same task then reads the released array. *)
Lemma event_handler_dangling w :
  th_finished_task_num (w_th w) > 0 → th_finished_tasks (w_th w) ≠ NULL →
  cm_heap (w_mem w) !! th_finished_tasks (w_th w) = None →
  ngx_grpc_cli_thread_event_handler w = Crash (BadDeref (th_finished_tasks (w_th w))).
Proof.
  intros Hn Ha Hnone. unfold ngx_grpc_cli_thread_event_handler.
  erewrite bind_done by reflexivity. cbv zeta.
  destruct (Z.to_nat (th_finished_task_num (w_th w))) as [|n] eqn:E; [lia|].
  apply bind_crash, for_upto_crash, bind_crash.
  unfold mem, zoom, read_array, load_buf, mbind, M_bind, load.
  by rewrite (proj2 (Z.eqb_neq _ _) Ha), Hnone.
Qed.
End thread_inv.
