(* ===== verification/PutResInv.v ===== *)
(** * Delivering a result, and giving a task up

    [ngx_grpc_cli_put_res], which gives a coroutine its result, and the cleanup of
    a coroutine that is destroyed while it waits. *)
From S2P Require Import Prelude Words Mem Wire TaskQueue Ngx World Tasks Conn Stream.
From S2P Require Import Handlers EngineSpec Heaps Inv InvMoves Handles ConnInv StreamInv EventInv.

Definition lctx_at `{Nginx} `{GrpcEngine} (w : world) (h : bool) (r : Z) (x : lua_ctx) : Prop :=
  r ≠ NULL ∧ ∃ q, w_reqs w !! (h, r) = Some q ∧ rq_lctx q = Some x.

Section coroutines.
Context `{NginxLaws} `{GrpcEngineLaws}.
Implicit Types w : world.

(** ** Coroutines and requests *)

(** No ongoing stream waits in the coroutine. *)
Definition no_waiter w (h : bool) (co : Z) : Prop :=
  ∀ k s, ongoing w k s → (sc_is_http s, sc_wait_co_ctx s) ≠ (h, co).

Lemma winv_set_cos w h co c :
  winv w → no_waiter w h co → winv (set_cos (<[(h, co) := c]> (w_cos w)) w).
Proof.
  intros Hw Hno. apply (winv_same_heap w); try done. intros k s Hk. unfold parked. simpl.
  rewrite lookup_insert_ne; [done|]. intros E. by apply (Hno k s).
Qed.

Lemma winv_set_lctx w h r q x :
  winv w → w_reqs w !! (h, r) = Some q →
  winv (set_reqs (<[(h, r) := Request (rq_conn_requests q) (Some x)]> (w_reqs w)) w).
Proof.
  intros Hw Hq. apply (winv_same_heap w); try done.
  intros k s Hk (A1 & A2 & A3 & (q1 & x1 & A4 & A5) & A6). split_and!; try done. simpl.
  destruct (decide ((h, r) = (sc_is_http s, sc_r s))) as [->|].
  - rewrite lookup_insert_eq. by eexists _, _.
  - rewrite lookup_insert_ne by done. by eexists _, _.
Qed.

(** A change of an idle stream that keeps what its queue says of it. *)
Lemma winv_upd_idle_same w k s s' :
  winv w → stream_at w k s → sc_node s = NULL → sc_node s' = NULL →
  sc_parent s' = sc_parent s → sc_type s' = sc_type s →
  winv (heap_upd k (OSctx s') w).
Proof.
  intros Hw Hs Hn Hn' Hp Ht. eapply winv_upd_idle; [done..|].
  intros c l Hl Hin. destruct (wi_elems _ Hw _ _ _ Hl Hin) as (_ & s1 & Hs1 & ? & ?).
  unfold stream_at in *. assert (s1 = s) as -> by congruence. unfold queue_fits. by rewrite Hp, Ht.
Qed.

Lemma no_waiter_upd_idle w k s' h co :
  sc_node s' = NULL → no_waiter w h co → no_waiter (heap_upd k (OSctx s') w) h co.
Proof.
  intros Hn' Hno p s1 [Hp Hpn]. apply (Hno p s1). split; [|done]. unfold stream_at in *.
  simpl in Hp. apply lookup_insert_Some in Hp as [[_ [= <-]]|[_ ?]]; done.
Qed.

Lemma occupied_results_heap_upd w k s o :
  winv w → stream_at w k s → occupied_results (heap_upd k o w) = occupied_results w.
Proof.
  intros Hw Hk. apply occupied_results_ext; [done..|]. intros q r Hq.
  unfold pev_at, stream_at in *. simpl. rewrite lookup_insert_ne; [done|congruence].
Qed.

Lemma ongoing_node_ne w k s : winv w → ongoing w k s →
  cm_heap (w_mem w) !! sc_node s = Some (ONode k) ∧ sc_node s ≠ k ∧ k ≠ NULL.
Proof.
  intros Hw [Hk Hn]. destruct (wi_tree _ Hw) as (_ & _ & _ & _ & He & Hs).
  destruct (He _ _ (Hs _ _ Hk Hn)) as (_ & Hk0 & Hh & _). split_and!; [done| |done].
  intros E. unfold stream_at in Hk. congruence.
Qed.

Lemma parked_unique w p k s1 s2 :
  winv w → ongoing w p s1 → ongoing w k s2 →
  (sc_is_http s1, sc_wait_co_ctx s1) = (sc_is_http s2, sc_wait_co_ctx s2) → p = k.
Proof.
  intros Hw [Hp Hp'] [Hk Hk'] E.
  destruct (wi_parked _ Hw _ _ Hp Hp') as (_ & _ & (c1 & Hc1 & <- & _) & _).
  destruct (wi_parked _ Hw _ _ Hk Hk') as (_ & _ & (c2 & Hc2 & <- & _) & _).
  rewrite E in Hc1. congruence.
Qed.

Lemma unkept_ongoing_iff w k s p s1 :
  winv w → ongoing w k s → ongoing (unkept k s w) p s1 ↔ p ≠ k ∧ ongoing w p s1.
Proof.
  intros Hw Ho. destruct (ongoing_node_ne _ _ _ Hw Ho) as (Hnode & _).
  unfold ongoing, stream_at. simpl. destruct (decide (p = k)) as [->|Hp].
  { rewrite lookup_insert_eq. split; [|by intros []]. by intros [[= <-] ?]. }
  rewrite lookup_insert_ne, lookup_delete_Some by done. split; [tauto|].
  intros (_ & Hps & ?). split; [|done]. split; [congruence|done].
Qed.

Lemma unkept_ongoing w k s p s1 :
  winv w → ongoing w k s → ongoing (unkept k s w) p s1 → p ≠ k ∧ ongoing w p s1.
Proof. intros Hw Ho. by apply unkept_ongoing_iff. Qed.
End coroutines.

(** ** [ngx_grpc_cli_put_res] *)

Section put_res.
Context `{NginxLaws} `{GrpcEngineLaws}.
Implicit Types w : world.

(** The buffer a result points to, read as [lua_pushlstring] does. *)
Definition payload w (r : task_res) : bytes :=
  match cm_heap (w_mem w) !! res_ptr (tr_buf r) with Some (OBuf b) => b | _ => [] end.

(** What a coroutine is resumed with. *)
Definition delivery w (s : stream_ctx) : list lua_val :=
  if decide (sc_state s = NGX_GRPC_CLIENT_STATE_TIMEOUT)
  then [L_bool false; L_str MSG_timeout]
  else let r := sc_res s in
    if decide (res_type (tr_buf r) = NGX_GRPC_CLIENT_RES_TYPE_OK)
    then [L_bool true; L_str (payload w r)]
    else if decide (res_type (tr_buf r) = NGX_GRPC_CLIENT_RES_TYPE_OK_NOT_RES)
    then [L_bool true; L_nil]
    else [L_bool false; L_str (payload w r)].

(** What a result tells the coroutine: its bytes, that there are none, or the error. *)
Definition answer w (r : task_res) : list lua_val :=
  if decide (res_type (tr_buf r) = NGX_GRPC_CLIENT_RES_TYPE_OK)
  then [L_bool true; L_str (payload w r)]
  else if decide (res_type (tr_buf r) = NGX_GRPC_CLIENT_RES_TYPE_OK_NOT_RES)
  then [L_bool true; L_nil]
  else [L_bool false; L_str (payload w r)].

Lemma delivery_answer w s :
  sc_state s ≠ NGX_GRPC_CLIENT_STATE_TIMEOUT → delivery w s = answer w (sc_res s).
Proof. intros Hst. unfold delivery. by rewrite decide_False. Qed.

(** A result taken from the queue: its buffer is live and nobody else's. *)
Definition result_owned w (r : task_res) : Prop :=
  res_ok (cm_heap (w_mem w)) r ∧
  (res_ptr (tr_buf r) ≠ NULL → spare w (res_ptr (tr_buf r))).

(** A stream about to be reported to the coroutine [(h, co)]. *)
Record deliverable w (k : Z) (s : stream_ctx) (h : bool) (co : Z) (c : co_ctx) : Prop := {
  dl_stream : stream_at w k s;
  dl_idle : sc_node s = NULL;
  dl_co : co ≠ NULL ∧ w_cos w !! (h, co) = Some c;
  dl_alone : no_waiter w h co;
  dl_res : sc_state s ≠ NGX_GRPC_CLIENT_STATE_TIMEOUT → result_owned w (sc_res s);
  dl_unary : sc_type s = NGX_GRPC_CLIENT_STREAM_TYPE_UNARY →
    ¬ linked (w_qs w) k ∧ ∃ x, ctx_at w (sc_parent s) x;
}.

(** The world after values were pushed on a coroutine. *)
Definition pushed w (h : bool) (co : Z) (c : co_ctx) (vs : list lua_val) : world :=
  set_cos (<[(h, co) := set_co_pushed (co_pushed c ++ vs) c]> (w_cos w)) w.

Lemma wp_lua_push h co c v (Q : unit → world → Prop) w :
  co ≠ NULL → w_cos w !! (h, co) = Some c → Q tt (pushed w h co c [v]) →
  wp (lua_push h co v) Q w.
Proof. intros. by eapply wp_upd_co. Qed.

Lemma pushed_cos w h co c vs :
  w_cos (pushed w h co c vs) !! (h, co) = Some (set_co_pushed (co_pushed c ++ vs) c).
Proof. apply lookup_insert_eq. Qed.

Lemma pushed_pushed w h co c v1 v2 :
  pushed (pushed w h co c v1) h co (set_co_pushed (co_pushed c ++ v1) c) v2 =
  pushed w h co c (v1 ++ v2).
Proof. unfold pushed. simpl. rewrite insert_insert_eq. by rewrite <- app_assoc. Qed.

Lemma wp_load_bytes p b n (Q : bytes → world → Prop) w :
  p ≠ NULL → cm_heap (w_mem w) !! p = Some (OBuf b) → n = Z.of_nat (length b) → Q b w →
  wp (mem (load_bytes p n)) Q w.
Proof.
  intros Hp Hb -> HQ. apply wp_mem, wp_bind. eapply wp_load_buf; [done..|].
  rewrite (proj2 (Z.ltb_ge _ _)) by lia. rewrite Nat2Z.id, firstn_all. apply wp_ret.
  by rewrite set_mem_id.
Qed.
End put_res.

Section put_res_spec.
Context `{AllocatorLaws} `{NginxLaws} `{GrpcEngineLaws}.
Implicit Types w : world.

(** The middle of [ngx_grpc_cli_put_res]: the values for a result that is not a
    timeout. *)
Definition push_result (h : bool) (co buf size : Z) : M world unit :=
  if res_type buf =? NGX_GRPC_CLIENT_RES_TYPE_OK then
    _ ← lua_push h co (L_bool true);
    b ← mem (load_bytes (res_ptr buf) size);
    lua_push h co (L_str b)
  else if res_type buf =? NGX_GRPC_CLIENT_RES_TYPE_OK_NOT_RES then
    _ ← lua_push h co (L_bool true);
    lua_push h co L_nil
  else
    _ ← lua_push h co (L_bool false);
    b ← mem (load_bytes (res_ptr buf) size);
    lua_push h co (L_str b).

Lemma push_result_spec h co c s w (Q : unit → world → Prop) :
  co ≠ NULL → w_cos w !! (h, co) = Some c → res_ok (cm_heap (w_mem w)) (sc_res s) →
  sc_state s ≠ NGX_GRPC_CLIENT_STATE_TIMEOUT →
  Q tt (pushed w h co c (delivery w s)) →
  wp (push_result h co (tr_buf (sc_res s)) (tr_size (sc_res s))) Q w.
Proof.
  intros Hco Hc (Hu & Hn & Hr) Hst HQ. unfold delivery in HQ. rewrite decide_False in HQ by done.
  cbv zeta in HQ. unfold payload in HQ. unfold push_result.
  destruct (decide (res_ptr (tr_buf (sc_res s)) = NULL)) as [Hp|Hp].
  - rewrite Hr in HQ |- *. cbn [Z.eqb]. simpl in HQ |- *. apply wp_bind.
    eapply wp_lua_push; [done..|].
    eapply wp_lua_push; [done|apply pushed_cos|]. by rewrite pushed_pushed.
  - destruct Hr as ([Ht|Ht] & b & Hb & Hsz); rewrite Ht, Hb in HQ; rewrite Ht; simpl in HQ |- *;
      (apply wp_bind; eapply wp_lua_push; [done..|]; apply wp_bind;
       eapply wp_load_bytes; [done|exact Hb|done|];
       eapply wp_lua_push; [done|apply pushed_cos|]; by rewrite pushed_pushed).
Qed.

Record put_res_post w (k : Z) (s : stream_ctx) (h : bool) (co : Z) (c : co_ctx) w' : Prop := {
  pr_inv : winv w';
  pr_cos : w_cos w' = <[(h, co) := set_co_pushed (co_pushed c ++ delivery w s) c]> (w_cos w);
  pr_reqs : w_reqs w' = w_reqs w;
  pr_out : w_out w' = w_out w;
  pr_occ : queue_of (w_qs w') q_occupied = queue_of (w_qs w) q_occupied;
  pr_results : occupied_results w' = occupied_results w;
  pr_flight : untouched w w';
  pr_alone : no_waiter w' h co;
  pr_ongoing p s' : ongoing w' p s' ↔ ongoing w p s';
  pr_freed : sc_state s ≠ NGX_GRPC_CLIENT_STATE_TIMEOUT →
    cm_heap (w_mem w') !! res_ptr (tr_buf (sc_res s)) = None;
  pr_reuse : sc_type s = NGX_GRPC_CLIENT_STREAM_TYPE_UNARY →
    ∃ lf, queue_of (w_qs w) (q_free (sc_parent s)) = Some lf ∧
      queue_of (w_qs w') (q_free (sc_parent s)) = Some (k :: lf);
}.

(** The state after the values were pushed for the stream, which is now [s]. *)
Record values_pushed w (k : Z) (s0 s : stream_ctx) (h : bool) (co : Z) (c : co_ctx) w1 : Prop := {
  rp_inv : winv w1;
  rp_stream : stream_at w1 k s;
  rp_idle : sc_node s = NULL;
  rp_same : sc_parent s = sc_parent s0 ∧ sc_type s = sc_type s0;
  rp_qs : w_qs w1 = w_qs w;
  rp_ctx x : ctx_at w (sc_parent s) x → ctx_at w1 (sc_parent s) x;
  rp_cos : w_cos w1 = <[(h, co) := set_co_pushed (co_pushed c ++ delivery w s0) c]> (w_cos w);
  rp_reqs : w_reqs w1 = w_reqs w;
  rp_out : w_out w1 = w_out w;
  rp_results : occupied_results w1 = occupied_results w;
  rp_flight : untouched w w1;
  rp_alone : no_waiter w1 h co;
  rp_ongoing p s' : ongoing w1 p s' ↔ ongoing w p s';
}.

(** The end of [put_res]: a unary stream goes back to its connection. *)
Lemma put_res_reuse k s0 s h co c w w1 :
  deliverable w k s0 h co c → values_pushed w k s0 s h co c w1 →
  (sc_state s0 ≠ NGX_GRPC_CLIENT_STATE_TIMEOUT →
     cm_heap (w_mem w1) !! res_ptr (tr_buf (sc_res s0)) = None) →
  wp (s ← mem (load_sctx k);
      when (sc_type s =? NGX_GRPC_CLIENT_STREAM_TYPE_UNARY)
        (ctx_queue_upd (sc_parent s) (ngx_queue_insert_head (q_free (sc_parent s)) k)))
    (λ _ w', put_res_post w k s0 h co c w') w1.
Proof.
  intros Hd [Hw1 Hk Hn [Hp Ht] Hqs Hctx Hcos Hreqs Hout Hocc Hfl Hno Hon] Hfr.
  assert (k ≠ NULL) by by eapply winv_live_nonnull.
  apply wp_bind. eapply wp_w_load_sctx; [done..|]. apply wp_when; intros Hu; cycle 1.
  { apply Z.eqb_neq in Hu. split; try done; [by rewrite Hqs|]. congruence. }
  apply Z.eqb_eq in Hu. destruct (dl_unary _ _ _ _ _ _ Hd) as (Hnl & x & Hx); [congruence|].
  rewrite <- Hp in Hx. apply Hctx in Hx.
  destruct (winv_ctx_queues _ _ _ Hw1 Hx) as (lf & lo & Hlf & _).
  eapply wp_ctx_queue_upd; [done..|]. set (w2 := set_qs _ _).
  assert (¬ linked (w_qs w1) k) as Hnl1 by by rewrite Hqs.
  assert (queue_of (w_qs w2) q_occupied = queue_of (w_qs w1) q_occupied) as Hq2
    by by eapply queue_insert_head_ne.
  split; try done.
  - eapply winv_insert_head; [done..|]. split; [by exists x|by exists s].
  - by rewrite Hq2, Hqs.
  - rewrite <- Hocc. by apply occupied_results_ext.
  - intros _. exists lf. rewrite <- Hp, <- Hqs. split; [done|]. by apply queue_insert_head.
Qed.

Lemma pushed_timeout k s h co c w :
  winv w → deliverable w k s h co c → values_pushed w k s s h co c (pushed w h co c (delivery w s)).
Proof.
  intros Hw [Hk Hn [Hco Hc] Hno _ _]. split; try done; [by apply winv_set_cos|].
  by apply untouched_same.
Qed.

(** The stream without the tag of its result. *)
Definition untagged (s : stream_ctx) : stream_ctx :=
  set_res (set_tr_buf (res_ptr (tr_buf (sc_res s))) (sc_res s)) s.

Lemma upd_sctx_buf w k s s' p b :
  stream_at w k s → cm_heap (w_mem w) !! p = Some (OBuf b) →
  cm_heap (w_mem (heap_upd k (OSctx s') w)) !! p = Some (OBuf b).
Proof. unfold stream_at. intros Hk Hp. rewrite heap_upd_ne; [done|congruence]. Qed.

Lemma delivery_upd w k s s' :
  stream_at w k s →
  (sc_state s ≠ NGX_GRPC_CLIENT_STATE_TIMEOUT → res_ok (cm_heap (w_mem w)) (sc_res s)) →
  delivery (heap_upd k (OSctx s') w) s = delivery w s.
Proof.
  intros Hk Hok. unfold delivery, payload. destruct (decide (sc_state s = _)) as [|Hst]; [done|].
  destruct (Hok Hst) as (_ & _ & Hr). destruct (decide (res_ptr _ = NULL)) as [E|E].
  - by rewrite Hr.
  - destruct Hr as (_ & b & Hb & _). by rewrite Hb, (upd_sctx_buf _ _ _ _ _ _ Hk Hb).
Qed.

Lemma pushed_result k s h co c w :
  winv w → deliverable w k s h co c →
  values_pushed w k s (untagged s) h co c
    (pushed (heap_upd k (OSctx (untagged s)) w) h co c (delivery w s)).
Proof.
  intros Hw [Hk Hn [Hco Hc] Hno _ _].
  pose proof (same_env_upd_idle w k s (untagged s) Hk Hn Hn (or_introl (conj eq_refl eq_refl)))
    as He.
  assert (winv (heap_upd k (OSctx (untagged s)) w)) as Hw1 by by eapply winv_upd_idle_same.
  assert (no_waiter (heap_upd k (OSctx (untagged s)) w) h co) as Hno1
    by by apply no_waiter_upd_idle.
  split; try done.
  - by apply winv_set_cos.
  - apply lookup_insert_eq.
  - intros x. exact (proj2 (se_ctx _ _ He _ x)).
  - exact (calm_results w _ Hw (se_calm _ _ He)).
  - exact (cm_flight _ _ (se_calm _ _ He)).
  - exact (se_ongoing _ _ He).
Qed.

(** The result's buffer is released. *)
Lemma pushed_freed k s0 s h co c w w1 p b :
  values_pushed w k s0 s h co c w1 → cm_heap (w_mem w1) !! p = Some (OBuf b) → spare w1 p →
  values_pushed w k s0 s h co c (del_obj p w1).
Proof.
  intros [Hw1 Hk Hn Hs Hqs Hctx Hcos Hreqs Hout Hocc Hfl Hno Hon] Hb Hsp.
  assert (agree but_bufs (cm_heap (w_mem w1)) (cm_heap (w_mem (del_obj p w1)))) as Ha.
  { apply agree_delete. eauto with grpc. }
  assert (∀ p' s', ongoing (del_obj p w1) p' s' ↔ ongoing w1 p' s') as Hon1.
  { intros p' s'. unfold ongoing, stream_at. by rewrite (Ha p' (OSctx s') eq_refl). }
  split; try done.
  - by eapply winv_del_buf.
  - by apply (Ha k (OSctx s) eq_refl).
  - intros x Hx. by apply (Ha _ (OCtx x) eq_refl), Hctx.
  - rewrite <- Hocc. apply occupied_results_ext; [done..|]. intros q r Hq. by apply Ha.
  - apply (untouched_trans w w1); [by rewrite Hocc|done|].
    apply (winv_untouched_del _ _ p); [done|done|apply Hsp..|]. intros q b' Hq Hb'. simpl.
    by rewrite lookup_delete_ne.
  - intros k' s' Hs'. by apply (Hno k' s'), Hon1.
  - intros p' s'. by rewrite Hon1.
Qed.

Lemma put_res_spec k s h co c w :
  winv w → deliverable w k s h co c →
  wp (ngx_grpc_cli_put_res k h co) (λ _ w', put_res_post w k s h co c w') w.
Proof.
  intros Hw Hd. destruct (id Hd) as [Hk Hn [Hco Hc] Hno Hres Hun].
  assert (k ≠ NULL) as Hk0 by by eapply winv_live_nonnull.
  apply wp_bind. eapply wp_w_load_sctx; [done..|]. apply wp_bind.
  destruct (Z.eqb_spec (sc_state s) NGX_GRPC_CLIENT_STATE_TIMEOUT) as [Est|Est].
  { apply wp_bind. eapply wp_lua_push; [done..|].
    eapply wp_lua_push; [done|apply pushed_cos|]. rewrite pushed_pushed.
    eapply (put_res_reuse k s s); [done| |done].
    pose proof (pushed_timeout _ _ _ _ _ _ Hw Hd) as Hrep.
    assert (delivery w s = [L_bool false; L_str MSG_timeout]) as E
      by (unfold delivery; by rewrite decide_True).
    by rewrite E in Hrep. }
  destruct (Hres Est) as [Hok Hown].
  assert (tr_buf (sc_res s) ≠ NULL) as Hb0 by apply Hok.
  cbv zeta. rewrite (proj2 (Z.eqb_neq _ _) Hb0).
  apply wp_bind. eapply wp_w_upd_sctx; [done..|].
  change (set_res (set_tr_buf _ _) s) with (untagged s). apply wp_bind.
  pose proof (pushed_result _ _ _ _ _ _ Hw Hd) as Hrep.
  eapply push_result_spec; [done|exact Hc| |done|].
  { eapply res_ok_mono; [exact Hok|]. intros p b _ _. by apply (upd_sctx_buf _ _ s). }
  rewrite (delivery_upd _ _ _ _ Hk (λ _, Hok)). set (w2 := pushed _ h co c _) in *.
  apply wp_eng_free; intros Hp.
  - eapply put_res_reuse; [done..|]. intros _. rewrite Hp. apply Hrep.
  - assert (∃ b, cm_heap (w_mem w2) !! res_ptr (tr_buf (sc_res s)) = Some (OBuf b)) as [b Hb].
    { destruct Hok as (_ & _ & Hr). rewrite decide_False in Hr by done.
      destruct Hr as (_ & b & Hb & _). exists b. by apply (upd_sctx_buf _ _ _ _ _ _ Hk). }
    split; [by eexists|]. eapply put_res_reuse; [done| |intros _; apply lookup_delete_eq].
    eapply pushed_freed; [done|exact Hb|].
    apply (spare_same w w2); [done|apply Hrep|done|apply Hrep|by apply Hown].
Qed.
End put_res_spec.

(** ** A coroutine that dies while it waits *)

Section cleanup.
Context `{AllocatorLaws} `{NginxLaws} `{GrpcEngineLaws}.
Implicit Types w : world.

(** Its task is dropped, nothing is delivered. *)
Lemma cleanup_spec h co k s w :
  winv w → ongoing w k s → sc_is_http s = h → sc_wait_co_ctx s = co →
  wp (grpc_cli_cleanup h co) (λ _ w', winv w' ∧ w_out w' = w_out w ∧
    calm w w' ∧ (∀ p s', ongoing w' p s' ↔ p ≠ k ∧ ongoing w p s') ∧ no_waiter w' h co ∧
    lookup_walk k (w_tree w') = NULL ∧
    ∃ c, w_cos w' !! (h, co) = Some c ∧ ev_timer_set (co_sleep c) = false) w.
Proof.
  intros Hw Hon <- <-. destruct (id Hon) as [Hk Hn].
  destruct (wi_parked _ Hw _ _ Hk Hn) as (Hco & _ & (c & Hc & Hdata & _ & Hset & _) & _).
  destruct (ongoing_node_ne _ _ _ Hw Hon) as (Hnode & Hne & Hk0).
  apply wp_bind. eapply wp_get_co; [done..|]. cbv zeta. rewrite Hset, Hdata.
  apply wp_bind. eapply wp_upd_co; [done..|].
  set (c1 := set_co_sleep _ c). set (w1 := set_cos _ w).
  eapply (wp_unkeep_task k s); [done|exact Hk|done|]. intros _. split; [by eexists|].
  split; [done|].
  destruct (winv_unkept _ _ _ Hw Hk Hn) as [Hw2 Hk2].
  assert (no_waiter (unkept k s w) (sc_is_http s) (sc_wait_co_ctx s)) as Hno.
  { intros p s1 Hp E. destruct (unkept_ongoing _ _ _ _ _ Hw Hon Hp) as [Hpk Hp'].
    apply Hpk. exact (parked_unique w p k s1 s Hw Hp' Hon E). }
  assert (winv (unkept k s w1)) as Hw3 by exact (winv_set_cos _ _ _ c1 Hw2 Hno).
  split_and!; try done.
  - unfold stream_at in Hk. split; [done| |].
    + intros q r Hq. unfold pev_at in *. simpl.
      rewrite lookup_insert_ne, lookup_delete_ne by congruence. done.
    + apply winv_untouched; [done..|]. intros q b Hq. simpl.
      rewrite lookup_insert_ne, lookup_delete_ne by congruence. done.
  - intros p s1. exact (unkept_ongoing_iff w k s p s1 Hw Hon).
  - destruct (decide (lookup_walk k (w_tree (unkept k s w1)) = NULL)) as [E|E]; [done|].
    apply tree_inv_lookup in E as (s2 & Hs2 & Hn2); [|apply Hw3]. simpl in Hs2.
    rewrite lookup_insert_eq in Hs2. by injection Hs2 as <-.
  - exists c1. split; [apply lookup_insert_eq|]. apply ev_del_timer.
Qed.
End cleanup.
