(* ===== verification/BlockInv.v ===== *)
(** * Blocking calls: the branch of [ngx_grpc_cli_call] that waits for the engine *)
From S2P Require Import Prelude Words Mem Wire TaskQueue Ngx World Tasks Conn Stream.
From S2P Require Import Handlers EngineSpec Heaps Inv InvMoves Handles ConnInv StreamInv StreamOps.
From S2P Require Import EventInv ThreadInv PutResInv.

Section blocking.
Context `{AllocatorLaws} `{NginxLaws} `{GrpcEngineLaws}.
Implicit Types w : world.

(** The engine is called, and then waited for: in the state [w2], [n] results are in
    the array [arr]. *)
Definition engine_answers w (x : cli_ctx) (call : Z → M (engine * cmem) unit)
    (arr n : Z) w2 : Prop :=
  cx_engine_ctx x ≠ NULL ∧
  ∃ w1, eng (call (cx_engine_ctx x)) w = Done tt w1 ∧
    eng (grpc_engine_wait (600 * 1000)) w1 = Done (arr, n) w2.

(** The first of them, [r], points to the bytes [b]. *)
Definition first_result w2 (arr n : Z) (r : task_res) (b : bytes) : Prop :=
  n ≠ 0 ∧ read_array arr 0 (w_mem w2) = Done r (w_mem w2) ∧
  cm_heap (w_mem w2) !! res_ptr (tr_buf r) = Some (OBuf b) ∧ tr_size r = Z.of_nat (length b).

(** What a blocking call returns, [*blocking_call_output], and what is left in the error
    buffer: the bytes of the result are handed over, or they are the message, and their
    buffer is released.  The array always is. *)
Inductive blocking_outcome w (x : cli_ctx) (call : Z → M (engine * cmem) unit)
  : Z * option (Z * Z) → world → Prop :=
| bo_closed :
    cx_engine_ctx x = NULL →
    blocking_outcome w x call (NGX_ERROR, None) (reported_err MSG_closed w)
| bo_timeout arr w2 :
    engine_answers w x call arr 0 w2 →
    blocking_outcome w x call (NGX_ERROR, None) (reported_err MSG_timeout w2)
| bo_ok arr n w2 r b w' :
    engine_answers w x call arr n w2 → first_result w2 arr n r b →
    res_type (tr_buf r) = NGX_GRPC_CLIENT_RES_TYPE_OK →
    let p := res_ptr (tr_buf r) in
    p ≠ NULL → w_eng w' = w_eng w2 → cm_heap (w_mem w') !! arr = None →
    cm_heap (w_mem w') !! p = Some (OBuf b) → spare w' p →
    blocking_outcome w x call (NGX_OK, Some (p, Z.of_nat (length b))) w'
| bo_err arr n w2 r b w' :
    engine_answers w x call arr n w2 → first_result w2 arr n r b →
    res_type (tr_buf r) = NGX_GRPC_CLIENT_RES_TYPE_ERR →
    w_eng w' = w_eng w2 → cm_heap (w_mem w') !! arr = None →
    cm_heap (w_mem w') !! res_ptr (tr_buf r) = None →
    err_string w' = take (Z.to_nat (w_err_len w)) b →
    blocking_outcome w x call (NGX_ERROR, None) w'.

(** The array handed over, once the first pointer has lost its tag. *)
Lemma blocking_untag arr r rs w :
  winv w → array_owned w arr (r :: rs) → arr ∉ flight_bufs w →
  wp (mem (write_array_buf arr 0 (res_ptr (tr_buf r)))) (λ _ w', ∃ b1,
    w' = heap_upd arr (OBuf b1) w ∧ winv w' ∧ steady w w' ∧ handles none none w w') w.
Proof.
  intros Hw (_ & Hnd & _ & Harr) Hfl. destruct Harr as (Ha0 & Har & Hab & b & Hb & _); [done|].
  apply wp_mem. eapply wp_bind, wp_load_buf; [done|exact Hb|].
  eapply wp_store; [done|exact Hb|]. eexists. split; [done|]. split_and!.
  - eapply winv_upd_buf; [done|exact Hb|]. rewrite res_bufs_app in Hab.
    split_and!; [done|set_solver|done].
  - apply steady_objs; [done| |].
    + apply agree_insert; [eauto with grpc|done].
    + rewrite res_bufs_app in Hab. apply (winv_untouched_del _ _ arr); [done..|set_solver|].
      intros q b' Hq Hb'. simpl. by rewrite lookup_insert_ne.
  - apply handles_agree; [|done..]. apply agree_insert; [eauto with grpc|done].
Qed.

(** Releasing a buffer. *)
Lemma del_buf_steady w p b :
  winv w → cm_heap (w_mem w) !! p = Some (OBuf b) → spare w p → steady w (del_obj p w).
Proof.
  intros Hw Hb Hp. apply steady_objs; [done| |].
  - apply agree_delete. eauto with grpc.
  - apply (winv_untouched_del _ _ p); [done|done|apply Hp..|]. intros q b' Hq Hb'. simpl.
    by rewrite lookup_delete_ne.
Qed.

Lemma del_buf_handles w p b :
  cm_heap (w_mem w) !! p = Some (OBuf b) → handles none none w (del_obj p w).
Proof. intros Hb. apply handles_agree; [|done..]. apply agree_delete. eauto with grpc. Qed.

Lemma spare_del w q p b :
  winv w → cm_heap (w_mem w) !! q = Some (OBuf b) → spare w q → spare w p →
  spare (del_obj q w) p.
Proof.
  intros Hw Hq Hsq. pose proof (del_buf_steady w q b Hw Hq Hsq) as Hst.
  apply spare_same; [done|by apply calm_results, Hst|done|apply Hst].
Qed.

Lemma wp_free_spare p b (Q : unit → world → Prop) w :
  winv w → cm_heap (w_mem w) !! p = Some (OBuf b) → spare w p →
  (winv (del_obj p w) → steady w (del_obj p w) → handles none none w (del_obj p w) →
   (∀ q, spare w q → spare (del_obj p w) q) → Q tt (del_obj p w)) →
  wp (eng (grpc_engine_free p)) Q w.
Proof.
  intros Hw Hb Hsp HQ. apply wp_eng_free.
  - intros ->. by rewrite (wi_null _ Hw) in Hb.
  - intros _. split; [by eexists|]. apply HQ; [by eapply winv_del_buf| | |].
    + by eapply del_buf_steady.
    + by eapply del_buf_handles.
    + intros q. by eapply spare_del.
Qed.

(** Only the empty response makes the call fail an assertion. *)
Definition assert_only (f : fault) : Prop := f = AssertFail.

Lemma read_array0 arr r rs w :
  array_owned w arr (r :: rs) → read_array arr 0 (w_mem w) = Done r (w_mem w).
Proof.
  intros (_ & _ & _ & Harr). destruct Harr as (Ha0 & _ & _ & b & Hb & Hread); [done|].
  unfold read_array, load_buf, load, mbind, M_bind.
  rewrite (proj2 (Z.eqb_neq _ _) Ha0), Hb. cbn -[read_task_res].
  by rewrite (Hread 0%nat r).
Qed.

Lemma wpf_load_array0 {A} arr r rs (k : task_res → M world A) Q w :
  array_owned w arr (r :: rs) → wpf assert_only (k r) Q w →
  wpf assert_only (mem (read_array arr 0) ≫= k) Q w.
Proof.
  intros Hown HQ. apply wpf_bind, wp_mem_read with (P := λ a, a = r); [|by intros a ->].
  unfold wp. by rewrite (read_array0 _ _ _ _ Hown).
Qed.

Lemma array_owned_head arr r rs w :
  array_owned w arr (r :: rs) →
  (∀ p, p ∈ arr :: res_bufs (r :: rs) → p ∉ flight_bufs w) →
  res_ok (cm_heap (w_mem w)) r ∧ arr ≠ res_ptr (tr_buf r) ∧ spare w arr ∧
  (res_ptr (tr_buf r) ≠ NULL → spare w (res_ptr (tr_buf r))).
Proof.
  intros (Hok & Hnd & Hrefs & Harr) Hfl. destruct Harr as (Ha0 & Har & Hab & _); [done|].
  apply Forall_cons in Hok as [Hok _].
  assert (res_ptr (tr_buf r) ≠ NULL → res_ptr (tr_buf r) ∈ res_bufs (r :: rs)) as Hin.
  { intros Hp. by apply (res_bufs_lookup (r :: rs) 0 r). }
  rewrite res_bufs_app in Hnd, Hab. apply NoDup_app in Hnd as (_ & Hdis & _).
  split; [done|]. split; [|split].
  - intros E. apply Hab. rewrite E, elem_of_app. right. apply Hin. congruence.
  - split_and!; [done|set_solver|]. apply Hfl. by left.
  - intros Hp. split_and!; [by apply Hrefs, Hin| |apply Hfl; right; by apply Hin].
    intros Hin'. by apply (Hdis _ Hin'), Hin.
Qed.

(** The rest of the blocking branch, with the first result in hand. *)
Definition blocking_finish (arr : Z) (res : task_res) : M world (Z * option (Z * Z)) :=
  let type := res_type (tr_buf res) in
  let buf := res_ptr (tr_buf res) in
  _ ← mem (write_array_buf arr 0 buf);
  out ← (if type =? NGX_GRPC_CLIENT_RES_TYPE_OK then mret (Some (buf, tr_size res))
         else if negb (type =? NGX_GRPC_CLIENT_RES_TYPE_ERR) then crash AssertFail
         else
           s ← mem (load_bytes buf (tr_size res));
           _ ← snprintf_err s;
           _ ← eng (grpc_engine_free buf);
           mret None);
  _ ← eng (grpc_engine_free arr);
  mret (if type =? NGX_GRPC_CLIENT_RES_TYPE_ERR then NGX_ERROR else NGX_OK, out).

(** What becomes of the result [r] of the array [arr]. *)
Definition blocking_end (arr : Z) (r : task_res) (b : bytes) w (res : Z * option (Z * Z)) w'
  : Prop :=
  let p := res_ptr (tr_buf r) in
  w_eng w' = w_eng w ∧ cm_heap (w_mem w') !! arr = None ∧
  ((res_type (tr_buf r) = NGX_GRPC_CLIENT_RES_TYPE_OK ∧
      res = (NGX_OK, Some (p, Z.of_nat (length b))) ∧ p ≠ NULL ∧
      cm_heap (w_mem w') !! p = Some (OBuf b) ∧ spare w' p) ∨
   (res_type (tr_buf r) = NGX_GRPC_CLIENT_RES_TYPE_ERR ∧ res = (NGX_ERROR, None) ∧
      cm_heap (w_mem w') !! p = None ∧ err_string w' = take (Z.to_nat (w_err_len w)) b)).

(** The error of the result is copied, and its buffer released before the array. *)
Lemma blocking_error arr b1 r b w :
  winv w → cm_heap (w_mem w) !! arr = Some (OBuf b1) → arr ≠ res_ptr (tr_buf r) →
  spare w arr → spare w (res_ptr (tr_buf r)) →
  cm_heap (w_mem w) !! res_ptr (tr_buf r) = Some (OBuf b) →
  tr_size r = Z.of_nat (length b) → res_type (tr_buf r) = NGX_GRPC_CLIENT_RES_TYPE_ERR →
  wp (out ← (s ← mem (load_bytes (res_ptr (tr_buf r)) (tr_size r));
             _ ← snprintf_err s;
             _ ← eng (grpc_engine_free (res_ptr (tr_buf r)));
             mret None);
      _ ← eng (grpc_engine_free arr);
      mret (NGX_ERROR, out)) (λ res w', winv w' ∧ steady w w' ∧
    handles none none w w' ∧ blocking_end arr r b w res w') w.
Proof.
  intros Hw Ha Hne Hsa Hsb Hb Hsize Hty.
  assert (res_ptr (tr_buf r) ≠ NULL) as Hp by by eapply winv_live_nonnull.
  apply wp_bind, wp_bind. eapply wp_load_bytes; [done|exact Hb|done|].
  apply wp_bind, wp_snprintf_err. set (w1 := set_err _ _ w).
  assert (winv w1) as Hw1 by by apply (winv_irrelevant w).
  apply wp_bind. eapply (wp_free_spare _ b); [done|done|done|]. intros Hw2 Hst2 Hhd2 Hsp2.
  set (w2 := del_obj _ w1) in *.
  assert (cm_heap (w_mem w2) !! arr = Some (OBuf b1)) as Ha2.
  { simpl. by rewrite lookup_delete_ne. }
  apply wp_ret, wp_bind. eapply (wp_free_spare _ b1); [done|done|by apply Hsp2|].
  intros Hw3 Hst3 Hhd3 _.
  apply wp_ret. split_and!; [done| | |split; [done|split]].
  - trans w1; [by apply steady_same|]. by trans w2.
  - trans w1; [by apply handles_same|]. by trans w2.
  - apply lookup_delete_eq.
  - right. split_and!; [done|done| |apply (err_string_splice w)].
    simpl. rewrite lookup_delete_ne by done. apply lookup_delete_eq.
Qed.

Lemma blocking_finish_spec arr r rs w :
  winv w → array_owned w arr (r :: rs) →
  (∀ p, p ∈ arr :: res_bufs (r :: rs) → p ∉ flight_bufs w) →
  wpf assert_only (blocking_finish arr r) (λ res w', winv w' ∧ steady w w' ∧
    handles none none w w' ∧ ∃ b, cm_heap (w_mem w) !! res_ptr (tr_buf r) = Some (OBuf b) ∧
    tr_size r = Z.of_nat (length b) ∧ blocking_end arr r b w res w') w.
Proof.
  intros Hw Hown Hfl.
  destruct (array_owned_head _ _ _ _ Hown Hfl) as (Hok & Hne & Hsa & Hfree).
  pose proof (blocking_untag arr r rs w Hw Hown (proj2 (proj2 Hsa))) as Huntag.
  destruct Hok as (_ & _ & Hok). unfold blocking_finish. cbv zeta.
  apply wpf_bind. eapply wp_mono; [exact Huntag|]. cbn beta.
  intros _ w1 (b1 & -> & Hw1 & Hst1 & Hhd1).
  set (w1 := heap_upd arr _ w) in *.
  assert (∀ p, spare w p → spare w1 p) as Hsp1.
  { intros p. apply spare_same; [done|by apply calm_results, Hst1|done|apply Hst1]. }
  assert (cm_heap (w_mem w1) !! arr = Some (OBuf b1)) as Ha1 by apply lookup_insert_eq.
  destruct (decide (res_ptr (tr_buf r) = NULL)) as [Hp|Hp].
  { rewrite Hok. by right. }
  destruct Hok as (Htype & b & Hbuf & Hsize).
  assert (cm_heap (w_mem w1) !! res_ptr (tr_buf r) = Some (OBuf b)) as Hb1.
  { simpl. by rewrite lookup_insert_ne. }
  destruct Htype as [Ht|Ht]; rewrite Ht; cbn [Z.eqb negb NGX_GRPC_CLIENT_RES_TYPE_OK
    NGX_GRPC_CLIENT_RES_TYPE_ERR]; apply wpf_wp.
  - apply wp_bind, wp_ret, wp_bind. eapply (wp_free_spare arr b1); [done|done|by apply Hsp1|].
    intros Hw2 Hst2 Hhd2 Hsp2. apply wp_ret. split_and!; [done|by trans w1|by trans w1|].
    exists b. split; [done|]. split; [done|]. split; [done|]. split; [apply lookup_delete_eq|].
    left. rewrite Hsize. split_and!; [done..| |by apply Hsp2, Hsp1, Hfree].
    simpl. by rewrite lookup_delete_ne.
  - eapply wp_mono.
    { eapply (blocking_error arr b1 r b w1); try done; [by apply Hsp1|].
      by apply Hsp1, Hfree. }
    cbn beta. intros res w' (Hw' & Hst' & Hhd' & Hbo).
    split_and!; [done|by trans w1|by trans w1|]. by exists b.
Qed.

Lemma blocking_spec c x sctx method req opt w :
  winv w → ctx_at w c x → is_u64 sctx →
  wpf assert_only (blocking_call c sctx method req opt) (λ res w', winv w' ∧ steady w w' ∧
    handles none none w w' ∧ engine_refs (w_eng w') = engine_refs (w_eng w) ∧
    blocking_outcome w x (λ ref, grpc_engine_call sctx ref method req opt) res w') w.
Proof.
  intros Hw Hc Hu. apply wpf_bind. eapply wp_w_load_ctx; [by eapply winv_live_nonnull|done|].
  destruct (Z.eqb_spec (cx_engine_ctx x) NULL) as [Hx|Hx].
  { apply wpf_wp, wp_bind, wp_snprintf_err, wp_ret.
    split_and!; [by apply (winv_irrelevant w)|by apply steady_same|by apply handles_same|done|].
    by apply bo_closed. }
  pose proof (wi_conn _ Hw _ _ Hc Hx) as Href.
  apply wpf_bind. eapply wp_mono.
  { apply wp_eqn. eapply (wp_eng_started _ _ (λ _ w1, winv w1 ∧ engine_started w w1));
      [done|apply engine_call_ok; [apply Hw|done..]|done]. }
  cbn beta. intros [] w1 (Ecall & Hw1 & Hstart).
  pose proof (engine_started_handles _ _ Hstart) as Hhd1.
  destruct Hstart as (e1 & m1 & -> & Hr1 & _ & Hx1).
  apply wpf_bind. eapply wp_mono; [by apply wp_eqn, wait_spec|]. cbn beta.
  intros [arr n] w2 (Ewait & e & m & rs & E2 & Hw2 & Hst12 & Hhd12 & Hr12 & Hn & Hnil & Hown
    & _ & _ & Hfl).
  cbn [fst snd] in *.
  assert (engine_answers w x (λ ref, grpc_engine_call sctx ref method req opt) arr n w2) as Hans.
  { split; [done|]. by eexists. }
  assert (steady w w2) as Hst2.
  { etrans; [|exact Hst12]. by apply steady_extends. }
  assert (handles none none w w2) as Hhd2 by by etrans.
  assert (engine_refs (w_eng w2) = engine_refs (w_eng w)) as Hr2.
  { rewrite E2. simpl. by rewrite Hr12. }
  destruct (Z.eqb_spec n 0) as [Hn0|Hn0].
  { apply wpf_wp, wp_bind, wp_snprintf_err, wp_ret.
    assert (blocking_outcome w x (λ ref, grpc_engine_call sctx ref method req opt)
      (NGX_ERROR, None) (reported_err MSG_timeout w2)) as Hout.
    { rewrite Hn0 in Hans. by eapply bo_timeout. }
    subst w2.
    split_and!; [by apply (winv_irrelevant (with_engine e m (with_engine e1 m1 w)))
      |etrans; [exact Hst2|by apply steady_same]|etrans;
        [exact Hhd2|by apply handles_same]|done|exact Hout]. }
  destruct rs as [|r rs]; [by rewrite Hn in Hn0|].
  eapply wpf_load_array0; [exact Hown|].
  destruct (array_owned_head _ _ _ _ Hown (Hfl ltac:(done))) as ((_ & Hb0 & _) & _).
  rewrite (proj2 (Z.eqb_neq _ _) Hb0). rewrite <- Hr2.
  eapply wpf_mono.
  { eapply (blocking_finish_spec arr r rs w2); [done|done|by apply Hfl]. }
  cbn beta. intros res w' (Hw' & Hst' & Hhd' & b & Hb & Hsize & He' & Ha' & Hend).
  split_and!; [done|by trans w2|by trans w2|by rewrite He'|].
  assert (first_result w2 arr n r b) as Hfirst.
  { split_and!; [done|by eapply read_array0|done|done]. }
  destruct Hend as [(Hty & -> & ? & ? & ?)|(Hty & -> & ? & Herr)].
  - by eapply bo_ok.
  - eapply bo_err; try done. by rewrite Herr, E2.
Qed.
End blocking.
