(* ===== verification/LuaSteps.v ===== *)
(** * What Lua code does between two events

    The operations Lua may start, with what its caller owes; each keeps the
    invariant and refines steps of the abstract worker ([Waiters]).  Running a
    coroutine, or nginx's phase engine, is a sequence of such operations. *)
From S2P Require Import Prelude Words Mem Wire TaskQueue Ngx World Waiters Tasks Conn.
From S2P Require Import Stream Handlers EngineSpec Inv InvMoves ConnInv StreamInv.
From S2P Require Import StreamOps EventInv PutResInv BlockInv.

(** ** Giving up *)

(** Whether every coroutine waits until its result comes: no timer expires, none is
    destroyed, and there are no blocking calls.  The theorems hold either way; those
    that need it say so. *)
Class Patience := patient : bool.

(** ** The abstraction *)

Section abstraction.
Context `{NginxLaws} `{GrpcEngineLaws} `{!Patience}.
Implicit Types w : world.

(** [σ] are the coroutines that wait for an ongoing task. *)
Definition waits w (σ : waiters) : Prop := ∀ h co k r,
  σ !! (h, co) = Some (Waiter k r) ↔
  ∃ s, ongoing w k s ∧ sc_is_http s = h ∧ sc_wait_co_ctx s = co ∧ sc_r s = r.

(** From [w] to [w'] the worker does what the abstract worker may do; the calls
    [p] come first among the runs of coroutines that were logged. *)
Definition sim (p : list ext_call) w w' : Prop :=
  ∃ new, w_out w' = w_out w ++ new ∧ Forall lua_call new ∧
  ∀ σ, waits w σ → ∃ tr σ', wait_run σ tr σ' ∧ waits w' σ' ∧
    runs new = p ++ omap event_call tr.

Lemma waits_same w w' σ :
  (∀ p s, ongoing w' p s ↔ ongoing w p s) → waits w σ → waits w' σ.
Proof.
  intros Hon Hs h co k r. rewrite (Hs h co k r). by setoid_rewrite Hon.
Qed.

Lemma sim_trans p w1 w2 w3 : sim p w1 w2 → sim [] w2 w3 → sim p w1 w3.
Proof.
  intros (n1 & O1 & L1 & S1) (n2 & O2 & L2 & S2). exists (n1 ++ n2). split.
  { by rewrite O2, O1, app_assoc. }
  split; [by apply Forall_app|].
  intros σ Hs. destruct (S1 σ Hs) as (t1 & σ1 & R1 & W1 & E1).
  destruct (S2 σ1 W1) as (t2 & σ2 & R2 & W2 & E2). exists (t1 ++ t2), σ2.
  split_and!; [by eapply wait_run_app|done|].
  by rewrite runs_app, E1, E2, omap_app, <- app_assoc.
Qed.

(** A step that starts and ends no task, before the runs [p]. *)
Lemma sim_before p w1 w2 w3 new :
  (∀ q s, ongoing w2 q s ↔ ongoing w1 q s) → w_out w2 = w_out w1 ++ new →
  Forall lua_call new → sim p w2 w3 → sim (runs new ++ p) w1 w3.
Proof.
  intros Hon Ho Hl (n & O3 & L3 & S3). exists (new ++ n).
  split; [by rewrite O3, Ho, app_assoc|]. split; [by apply Forall_app|].
  intros σ Hs. destruct (S3 σ) as (tr & σ' & R & W & E); [by eapply waits_same|].
  exists tr, σ'. split_and!; [done..|]. by rewrite runs_app, E, <- app_assoc.
Qed.

Lemma sim_same w w' new :
  (∀ q s, ongoing w' q s ↔ ongoing w q s) → w_out w' = w_out w ++ new →
  Forall lua_call new → sim (runs new) w w'.
Proof.
  intros Hon Ho Hl. exists new. split; [done|]. split; [done|]. intros σ Hs. exists [], σ.
  split_and!; [constructor|by eapply waits_same|]. by rewrite app_nil_r.
Qed.

(** A task is started. *)
Lemma sim_start w w' k s :
  winv w' → (¬ ∃ s, ongoing w k s) → (∀ q s, q ≠ k → ongoing w' q s ↔ ongoing w q s) →
  ongoing w' k s → w_out w' = w_out w → sim [] w w'.
Proof.
  intros Hw' Hno Hoth Hon Ho. exists []. split; [by rewrite app_nil_r|].
  split; [constructor|]. intros σ Hs.
  set (co := (sc_is_http s, sc_wait_co_ctx s)). set (x := Waiter k (sc_r s)).
  assert (∀ h c q r, σ !! (h, c) = Some (Waiter q r) → q ≠ k ∧ (h, c) ≠ co) as Hold.
  { intros h c q r Hx. apply Hs in Hx as (s1 & Hs1 & Eh & Ec & _).
    assert (q ≠ k) as Hq by (intros ->; eauto). split; [done|]. intros E. apply Hq.
    apply (parked_unique w' q k s1 s); [done|by apply Hoth|done|]. by rewrite Eh, Ec. }
  exists [E_start co x], (<[co := x]> σ). split_and!; [|intros h c q r|done].
  - apply wait_run_one. constructor.
    + destruct (σ !! co) as [[q r]|] eqn:E; [|done]. unfold co in E. by apply Hold in E as [_ []].
    + intros [h c] [q r] Hx. simpl. by eapply Hold.
  - destruct (decide ((h, c) = co)) as [E|Hne].
    + rewrite E, lookup_insert_eq. unfold co, x in *. split.
      * intros [= <- <-]. injection E as -> ->. by exists s.
      * intros (s1 & Hs1 & Eh & Ec & Er). injection E as -> ->.
        assert (q = k) as -> by (eapply parked_unique; [done..|by rewrite Eh, Ec]).
        destruct Hs1 as [Hs1 _], Hon as [Hon _]. unfold stream_at in *. congruence.
    + rewrite lookup_insert_ne by done. split.
      * intros Hx. destruct (Hold _ _ _ _ Hx) as [Hq _].
        apply Hs in Hx as (s1 & Hs1 & ?). exists s1. split; [by apply Hoth|done].
      * intros (s1 & Hs1 & Eh & Ec & Er). apply Hs. exists s1.
        assert (q ≠ k) as Hq.
        { intros ->. destruct Hs1 as [Hs1 _], Hon as [Hon _]. unfold stream_at, co in *.
          apply Hne. congruence. }
        split; [by apply Hoth|done].
Qed.

(** What is left of the waiting coroutines when the task [k] ends. *)
Lemma waits_end w w' k s σ :
  winv w → ongoing w k s → (∀ q s', ongoing w' q s' ↔ q ≠ k ∧ ongoing w q s') →
  waits w σ →
  σ !! (sc_is_http s, sc_wait_co_ctx s) = Some (Waiter k (sc_r s)) ∧
  waits w' (delete (sc_is_http s, sc_wait_co_ctx s) σ).
Proof.
  intros Hw Hon Hoth Hs. split; [apply Hs; by exists s|]. intros h c q r.
  rewrite lookup_delete_Some, (Hs h c q r). split.
  - intros (Hne & s1 & Hs1 & Eh & Ec & Er). exists s1. split; [|done]. apply Hoth. split; [|done].
    intros ->. destruct Hs1 as [Hs1 _], Hon as [Hon _]. unfold stream_at in *. congruence.
  - intros (s1 & [Hq Hs1]%Hoth & Eh & Ec & Er). split; [|by exists s1]. intros E. apply Hq.
    eapply parked_unique; [done..|]. by rewrite Eh, Ec.
Qed.

(** A task is given up. *)
Lemma sim_drop w w' k s :
  winv w → ongoing w k s → (∀ q s', ongoing w' q s' ↔ q ≠ k ∧ ongoing w q s') →
  w_out w' = w_out w → sim [] w w'.
Proof.
  intros Hw Hon Hoth Ho. exists []. split; [by rewrite app_nil_r|].
  split; [constructor|]. intros σ Hs.
  destruct (waits_end _ _ _ _ _ Hw Hon Hoth Hs) as [Hx Hs'].
  eexists [E_drop _], _. split_and!; [eapply wait_run_one; by econstructor|exact Hs'|done].
Qed.

(** A task ends, and its coroutine is run next. *)
Lemma sim_run w w1 w' k s args :
  winv w → ongoing w k s → (∀ q s', ongoing w1 q s' ↔ q ≠ k ∧ ongoing w q s') →
  w_out w1 = w_out w →
  sim [X_run_thread (sc_is_http s) (sc_r s) (sc_wait_co_ctx s) args] w1 w' → sim [] w w'.
Proof.
  intros Hw Hon Hoth Ho (new & On & Ln & Sn). exists new. split; [by rewrite On, Ho|].
  split; [done|]. intros σ Hs.
  destruct (waits_end _ _ _ _ _ Hw Hon Hoth Hs) as [Hx Hs'].
  destruct (Sn _ Hs') as (tr & σ' & R & W & E).
  exists (E_run (sc_is_http s, sc_wait_co_ctx s) (sc_r s) args :: tr), σ'.
  split_and!; [|done|done]. econstructor; [|exact R].
  exact (WS_run _ _ (Waiter k (sc_r s)) args Hx).
Qed.

(** ** Steps of the environment *)

(** The results owed: none that is waited for is lost and, when nobody gives a task
    up, none is owed twice or to nobody, a thread waits for what the engine has, and
    the successes of streams are of open ones.  Nobody stops waiting then, but for the
    tasks that have [ended].  The posted event is not called off. *)
Record ledger (ended : Z → Prop) w w' : Prop := {
  ld_tracks : tracks w w';
  ld_orderly : patient = true → orderly w → orderly w';
  ld_watched : patient = true → watched w → watched w';
  ld_truthful : patient = true → orderly w → truthful w → truthful w';
  ld_kept : patient = true → ∀ p s, ¬ ended p → ongoing w p s → ongoing w' p s;
  ld_alerted : alerted w = true → alerted w' = true;
}.

#[global] Instance ledger_preorder ended : PreOrder (ledger ended).
Proof. split; [by split|]. intros w1 w2 w3 [] []. split; auto. by etrans. Qed.

Lemma ledger_weaken (ended ended' : Z → Prop) w w' :
  (∀ p, ended p → ended' p) → ledger ended w w' → ledger ended' w w'.
Proof. intros He []. split; auto. Qed.

(** The results posted and in flight are left alone, and no task is started. *)
Lemma ledger_same shut w w' :
  flight_results w' = flight_results w → occupied_results w' = occupied_results w →
  pending w' = pending w → staffed w w' → trusted shut w w' →
  (∀ p s, ongoing w' p s ↔ ongoing w p s) →
  (patient = true → ∀ p s, ongoing w p s → ¬ shut p) → ledger none w w'.
Proof.
  intros Ef Eo Ep Hst Ht Hon Hsh. split; [..|intros _ p s _; by apply Hon|apply Hst].
  - apply tracks_same; [done..|by rewrite Ep|]. intros k s Hk. left. exists s. by apply Hon.
  - intros _. apply orderly_less; [unfold owed; by rewrite Ef, Eo, Ep|].
    intros k s Hk. exists s. by apply Hon.
  - intros _. by apply watched_same.
  - intros Hpat _. apply (truthful_less shut); [done|by rewrite Ef, Eo|].
    intros k (s & Hs%Hon & Hty). split; [by exists s|by eapply Hsh].
Qed.

(** One is. *)
Lemma ledger_start shut w w' k :
  flight_results w' = flight_results w → occupied_results w' = occupied_results w →
  pending w' = {[+ k +]} ⊎ pending w → (¬ ∃ s, ongoing w k s) → (∃ s, ongoing w' k s) →
  (∀ p s, p ≠ k → ongoing w' p s ↔ ongoing w p s) → busy w' = true → staffed w w' →
  trusted shut w w' → (∀ p, shut p → p = k ∧ ¬ streaming w' k) → ledger none w w'.
Proof.
  intros Ef Eo Ep Hno Hk Hoth Hb Hst Ht Hsh. split; [| | | | |apply Hst].
  - apply tracks_same; [done..|rewrite Ep; multiset_solver|]. intros p s Hp.
    destruct (decide (p = k)) as [->|Hpk]; [right; rewrite Ep; multiset_solver|].
    left. exists s. by apply Hoth.
  - intros _. eapply orderly_start; [|done..|by intros; apply Hoth].
    unfold owed. rewrite Ef, Eo, Ep. multiset_solver.
  - by intros _ _ _ _.
  - intros _ Hord. apply (truthful_start shut w w' k); [done|by rewrite Ef, Eo| |].
    { intros [_ Hs]%Hord. by apply Hno. }
    intros p Hp. split; [|by intros [-> Hns]%Hsh].
    destruct (decide (p = k)) as [|Hpk]; [by left|right].
    destruct Hp as (s & Hs & Hty). exists s. split; [by apply Hoth|done].
  - intros _ p s _ Hp. apply Hoth; [|done]. intros ->. apply Hno. by exists s.
Qed.

(** The invariant is kept, no posted result and none in flight is taken or written to,
    the ledger is in order, and the abstract worker follows. *)
Definition env_step (p : list ext_call) w w' : Prop :=
  winv w' ∧ queue_of (w_qs w') q_occupied = queue_of (w_qs w) q_occupied ∧
  occupied_results w' = occupied_results w ∧ untouched w w' ∧
  ledger none w w' ∧ sim p w w'.

Lemma env_step_trans p w1 w2 w3 : env_step p w1 w2 → env_step [] w2 w3 → env_step p w1 w3.
Proof.
  intros (_ & Q1 & O1 & F1 & T1 & S1) (Hw & Q2 & O2 & F2 & T2 & S2).
  split; [done|]. split; [congruence|]. split; [congruence|].
  split; [by apply (untouched_trans w1 w2); [rewrite O1|..]|].
  split; [by etrans|by eapply sim_trans].
Qed.

Lemma env_step_before p w1 w2 w3 new :
  (∀ q s, ongoing w2 q s ↔ ongoing w1 q s) → w_out w2 = w_out w1 ++ new →
  queue_of (w_qs w2) q_occupied = queue_of (w_qs w1) q_occupied →
  occupied_results w2 = occupied_results w1 → untouched w1 w2 →
  pending w2 = pending w1 → staffed w1 w2 → trusted none w1 w2 → Forall lua_call new →
  env_step p w2 w3 → env_step (runs new ++ p) w1 w3.
Proof.
  intros Hon Ho Q O F Hp Hst Ht Hl (Hw & Q' & O' & F' & T' & S').
  split; [done|]. split; [congruence|]. split; [congruence|].
  split; [by apply (untouched_trans w1 w2); [rewrite O|..]|]. split; [|by eapply sim_before].
  trans w2; [|done]. apply (ledger_same none); [apply F|done..|]. by intros _ k s _ [].
Qed.

Lemma env_step_silent shut w w' :
  winv w' → queue_of (w_qs w') q_occupied = queue_of (w_qs w) q_occupied →
  occupied_results w' = occupied_results w → untouched w w' →
  (∀ q s, ongoing w' q s ↔ ongoing w q s) →
  (patient = true → ∀ p s, ongoing w p s → ¬ shut p) →
  hushed shut w w' → env_step [] w w'.
Proof.
  intros Hw' Hq Hr Hf Hon Hsh (Ho & Hp & Hst & Ht).
  split; [done|]. split; [done|]. split; [done|]. split; [done|]. split.
  { apply (ledger_same shut); [apply Hf|done..]. }
  apply (sim_same _ _ []); [done| |constructor]. by rewrite app_nil_r.
Qed.

Lemma env_step_shut shut w w' :
  winv w → winv w' → steady w w' → (patient = true → ∀ p s, ongoing w p s → ¬ shut p) →
  hushed shut w w' → env_step [] w w'.
Proof.
  intros Hw Hw' [Hc Hon] Hsh Hh.
  apply (env_step_silent shut); [done|apply Hc|by apply calm_results|apply Hc|done..].
Qed.

Lemma env_step_steady w w' :
  winv w → winv w' → steady w w' → hushed none w w' → env_step [] w w'.
Proof. intros Hw Hw' Hst. apply (env_step_shut none); [done..|]. by intros _ k s _ []. Qed.

Lemma env_step_refl w : winv w → env_step [] w w.
Proof. intros Hw. by apply env_step_steady. Qed.

Lemma env_step_emit w x :
  winv w → run_of x = None → lua_call x → env_step [] w (set_out (w_out w ++ [x]) w).
Proof.
  intros Hw Hx Hl. split; [by apply (winv_irrelevant w)|]. split; [done|].
  split; [done|]. split; [by apply untouched_same|]. split.
  { apply (ledger_same none); try done. by intros _ k s _ []. }
  pose proof (sim_same w (set_out (w_out w ++ [x]) w) [x]) as Hs.
  assert (runs [x] = []) as E by (unfold runs; simpl; by rewrite Hx). rewrite E in Hs.
  apply Hs; [done..|by repeat constructor].
Qed.

Lemma env_step_out p w w' x : env_step p w w' → x ∈ w_out w → x ∈ w_out w'.
Proof. intros (_ & _ & _ & _ & _ & n & -> & _) Hx. apply elem_of_app. by left. Qed.

(** [x] is the first run of a coroutine that is logged. *)
Definition next_run (x : ext_call) w w' : Prop :=
  ∃ l1 l2, w_out w' = w_out w ++ l1 ++ x :: l2 ∧ runs l1 = [].

Lemma next_run_before x w w1 w' n :
  w_out w1 = w_out w ++ n → runs n = [] → next_run x w1 w' → next_run x w w'.
Proof.
  intros E En (l1 & l2 & E' & El). exists (n ++ l1), l2.
  by rewrite E', E, runs_app, En, El, <- !app_assoc.
Qed.

Lemma next_run_extend x w w1 w2 :
  next_run x w w1 → w_out w1 `prefix_of` w_out w2 → next_run x w w2.
Proof.
  intros (l1 & l2 & E & El) [n En]. exists l1, (l2 ++ n).
  by rewrite En, E, <- !app_assoc.
Qed.

Lemma next_run_logged x w w' : next_run x w w' → x ∈ w_out w'.
Proof. intros (l1 & l2 & -> & _). set_solver. Qed.

Lemma env_step_prefix p w w' : env_step p w w' → w_out w `prefix_of` w_out w'.
Proof. intros (_ & _ & _ & _ & _ & n & -> & _). by exists n. Qed.
End abstraction.

#[export] Hint Resolve env_step_refl : grpc.

(** ** The module's exported functions show nothing: they log no call, and none
    but a blocking call takes a result from the engine *)

Section silent.
Context `{Allocator} `{NginxLaws} `{GrpcEngineLaws} (shut : Z → Prop).

Lemma silent_modify f :
  (∀ w, w_out (f w) = w_out w) → (∀ w, w_eng (f w) = w_eng w) → (∀ w, w_th (f w) = w_th w) →
  (∀ w, w_quit (f w) = w_quit w) → (∀ w, w_exiting (f w) = w_exiting w) →
  leads (hushed shut) (modify f).
Proof. intros Ho He Ht Hq Hx. apply leads_modify. intros w. by apply hushed_same. Qed.
Lemma silent_mem {A} (m : M cmem A) : leads (hushed shut) (mem m).
Proof. apply leads_zoom. intros t w. by apply hushed_same. Qed.
Lemma silent_eng {A} (m : M (engine * cmem) A) :
  keeps (λ s, engine_pending s.1) m →
  leads (λ s s', trusting engine_vouches engine_streams shut s.1 s'.1) m →
  leads (hushed shut) (eng m).
Proof.
  intros Hm Ht w a w'. unfold eng, zoom. destruct (m _) as [b [e h]|] eqn:E; [|done].
  intros [= _ <-]. split; [done|]. split; [exact (Hm _ _ _ E)|]. split; [done|exact (Ht _ _ _ E)].
Qed.
Lemma trust_none {A} (m : M (engine * cmem) A) :
  leads (λ s s', trusting engine_vouches engine_streams none s.1 s'.1) m →
  leads (λ s s', trusting engine_vouches engine_streams shut s.1 s'.1) m.
Proof. intros Hm. eapply leads_mono; [exact Hm|]. intros s s' Ht k _. by apply Ht; intros []. Qed.
Lemma silent_free p : leads (hushed shut) (eng (grpc_engine_free p)).
Proof.
  apply silent_eng; intros [e m] [] s'; rewrite engine_free_ok;
    destruct (mem_free p m); try done; by intros [= <-].
Qed.
Lemma silent_queue f : leads (hushed shut) (queue f).
Proof. by apply silent_modify. Qed.
Lemma silent_snprintf msg : leads (hushed shut) (snprintf_err msg).
Proof. by apply silent_modify. Qed.
#[local] Hint Resolve silent_mem silent_free silent_queue silent_snprintf silent_eng
  trust_none engine_connect_pending engine_connect_trust engine_close_pending engine_close_trust
  engine_close_stream_pending : grpc.
#[local] Hint Extern 1 (leads (hushed shut) (modify _)) => apply silent_modify; done : grpc.

Lemma silent_get_req h r : leads (hushed shut) (get_req h r).
Proof. unfold get_req. solve_leads. Qed.
Lemma silent_get_co h c : leads (hushed shut) (get_co h c).
Proof. unfold get_co. solve_leads. Qed.
#[local] Hint Resolve silent_get_req silent_get_co : grpc.

Lemma silent_upd_co h c f : leads (hushed shut) (upd_co h c f).
Proof. unfold upd_co. solve_leads. Qed.
Lemma silent_logger r h : leads (hushed shut) (ngx_grpc_cli_get_req_logger r h).
Proof. unfold ngx_grpc_cli_get_req_logger. solve_leads. Qed.
Lemma silent_ctx_queue {A} c (f : qstore → A) : leads (hushed shut) (ctx_queue c f).
Proof. unfold ctx_queue. solve_leads. Qed.
Lemma silent_ctx_queue_upd c f : leads (hushed shut) (ctx_queue_upd c f).
Proof. unfold ctx_queue_upd. solve_leads. Qed.
Lemma silent_get_conf : leads (hushed shut) get_conf.
Proof. unfold get_conf. solve_leads. Qed.
#[local] Hint Resolve silent_upd_co silent_logger silent_ctx_queue silent_ctx_queue_upd
  silent_get_conf : grpc.

Lemma silent_free_conn_loop n c : leads (hushed shut) (free_conn_loop n c).
Proof. induction n; cbn [free_conn_loop]; solve_leads. Qed.
#[local] Hint Resolve silent_free_conn_loop : grpc.

Lemma silent_free_conn c : leads (hushed shut) (ngx_grpc_cli_free_conn c).
Proof. unfold ngx_grpc_cli_free_conn. solve_leads. Qed.
#[local] Hint Resolve silent_free_conn : grpc.

Lemma silent_connect r h t opt : leads (hushed shut) (ngx_grpc_cli_connect r h t opt).
Proof. unfold ngx_grpc_cli_connect, engine_err. solve_leads. Qed.
Lemma silent_close c r h : leads (hushed shut) (ngx_grpc_cli_close c r h).
Proof. unfold ngx_grpc_cli_close. solve_leads. Qed.

Lemma silent_keep k : leads (hushed shut) (ngx_grpc_cli_keep_task k).
Proof. unfold ngx_grpc_cli_keep_task. solve_leads. Qed.
Lemma silent_unkeep k : leads (hushed shut) (ngx_grpc_cli_unkeep_task k).
Proof. unfold ngx_grpc_cli_unkeep_task. solve_leads. Qed.
Lemma silent_task_post : leads (hushed shut) task_post.
Proof.
  unfold task_post. intros w a w'. unfold mbind, M_bind, get, modify. cbn [fst snd].
  destruct (ngx_thread_task_post _ _) as [ev|] eqn:E; intros [= _ <-]; [|by apply hushed_same].
  destruct (ev_task_post _ _ _ E) as [Ha _]. split; [done|]. split; [done|].
  split; [|by apply trusted_same].
  split; [|by split]. intros _. unfold busy. simpl. by rewrite Ha.
Qed.
#[local] Hint Resolve silent_keep silent_unkeep silent_task_post : grpc.

Lemma silent_schedule g : leads (hushed shut) (ngx_grpc_cli_schedule_task_thread_if_needed g).
Proof. unfold ngx_grpc_cli_schedule_task_thread_if_needed. solve_leads. Qed.
Lemma silent_check r h : leads (hushed shut) (kick_off_check r h).
Proof. unfold kick_off_check, get_lctx. solve_leads. Qed.
Lemma silent_park h co k t : leads (hushed shut) (park h co k t).
Proof. unfold park. solve_leads. Qed.
#[local] Hint Resolve silent_schedule silent_check silent_park : grpc.

Lemma silent_kick_off r g k opt : leads (hushed shut) (ngx_grpc_cli_kick_off_task r g k opt).
Proof. unfold ngx_grpc_cli_kick_off_task. solve_leads. Qed.
#[local] Hint Resolve silent_kick_off : grpc.

Lemma silent_take c : leads (hushed shut) (take_sctx c).
Proof. unfold take_sctx. solve_leads. Qed.
Lemma silent_close_stream k r h :
  shut k → leads (hushed shut) (ngx_grpc_cli_close_stream k r h).
Proof.
  intros Hk. assert (leads (λ s s', trusting engine_vouches engine_streams shut s.1 s'.1)
    (grpc_engine_close_stream k)).
  { eapply leads_mono; [apply engine_close_stream_trust|]. intros s s' Ht p Hp. apply Ht.
    by intros ->. }
  unfold ngx_grpc_cli_close_stream. solve_leads.
Qed.
Lemma silent_check_status k r : leads (hushed shut) (ngx_grpc_cli_check_stream_status k r).
Proof. unfold ngx_grpc_cli_check_stream_status. solve_leads. Qed.
#[local] Hint Resolve silent_take silent_check_status : grpc.
Lemma silent_cleanup h co : leads (hushed shut) (grpc_cli_cleanup h co).
Proof. unfold grpc_cli_cleanup. solve_leads. Qed.

Lemma silent_put_res k h co : leads (hushed shut) (ngx_grpc_cli_put_res k h co).
Proof. unfold ngx_grpc_cli_put_res, lua_push. solve_leads. Qed.
End silent.

#[export] Hint Extern 1 (leads (hushed _) (modify _)) => apply silent_modify; done : grpc.
#[export] Hint Resolve trust_none engine_connect_pending engine_connect_trust engine_close_pending
  engine_close_trust engine_close_stream_pending silent_eng silent_free : grpc.
#[export] Hint Resolve silent_mem silent_queue silent_snprintf silent_get_req
  silent_get_co silent_upd_co silent_logger silent_ctx_queue silent_ctx_queue_upd silent_get_conf
  silent_free_conn silent_connect silent_close silent_keep silent_unkeep silent_task_post
  silent_schedule silent_check silent_park silent_kick_off silent_take silent_check_status
  silent_close_stream silent_cleanup silent_put_res : grpc.

Section starting.
Context `{Allocator} `{NginxLaws} `{GrpcEngineLaws}.

(** A blocking call takes results, but logs nothing either. *)
Lemma silent_blocking c k m q opt : keeps (λ w, (w_out w, w_th w)) (blocking_call c k m q opt).
Proof.
  assert (∀ A (p : M (engine * cmem) A), keeps (λ w, (w_out w, w_th w)) (eng p)) by (intros;
    by apply leads_zoom).
  assert (∀ msg, keeps (λ w, (w_out w, w_th w)) (snprintf_err msg)) by (intros;
    by apply leads_modify).
  assert (∀ A (p : M cmem A), keeps (λ w, (w_out w, w_th w)) (mem p)) by (intros;
    by apply leads_zoom).
  unfold blocking_call. solve_leads.
Qed.

(** *** A task that is started is owed, once *)

(** The engine has one more task [k], or the same. *)
Definition started (k : Z) (b : bool) (X X' : gmultiset Z) : Prop :=
  if b then adds k X X' else X' = X.

Lemma starts_eng {A} shut k (m : M (engine * cmem) A) :
  leads (λ s s', adds k (engine_pending s.1) (engine_pending s'.1)) m →
  leads (λ s s', trusting engine_vouches engine_streams shut s.1 s'.1) m →
  starts (λ _, shut) (λ _, adds k) (eng m).
Proof.
  intros Hm Ht w a w'. unfold eng, zoom. destruct (m _) as [b [e h]|] eqn:E; [|done].
  intros [= _ <-]. split; [done|]. split; [exact (Hm _ _ _ E)|].
  split; [done|exact (Ht _ _ _ E)].
Qed.

Lemma started_none k : Reflexive (started k false).
Proof. done. Qed.
#[local] Hint Resolve started_none : grpc.

Lemma stream_op_starts r h k opt op :
  leads (λ s s', adds k (engine_pending s.1) (engine_pending s'.1)) op →
  leads (λ s s', trusting engine_vouches engine_streams none s.1 s'.1) op →
  starts (λ _, none) (λ rc, started k (rc =? NGX_OK)) (stream_op r h k opt op).
Proof.
  intros Hop Ht. unfold stream_op. do 3 (apply starts_bind; [auto with grpc|intros ?]).
  case_match; [by apply starts_ret|]. apply starts_bind; [auto with grpc|]. intros rc.
  case_match; [by apply starts_ret|].
  apply (starts_then none _ (adds k)); [by apply starts_eng|]. by intros _ w b w' [= <- <-].
Qed.

(** A unary call may end in a success whatever the engine says of streams. *)
Definition unvouched (type k p : Z) : Prop :=
  type = NGX_GRPC_CLIENT_STREAM_TYPE_UNARY ∧ (¬ is_u64 k ∨ p = k).

Lemma new_stream_starts r h c method req opt type :
  starts (unvouched type) (λ k, started k (negb (k =? NULL)))
    (ngx_grpc_cli_new_stream r h c method req opt type).
Proof.
  unfold ngx_grpc_cli_new_stream. do 3 (apply starts_bind; [auto with grpc|intros ?]).
  case_match; [apply starts_bind; [auto with grpc|intros; by apply starts_ret]|].
  apply starts_bind; [auto with grpc|]. intros k.
  case_match eqn:Ek; [apply starts_bind; [auto with grpc|intros; by apply starts_ret]|].
  do 5 (apply starts_bind; [auto with grpc|intros ?]).
  case_match; [apply starts_bind; [auto with grpc|intros; by apply starts_ret]|].
  apply starts_bind; [auto with grpc|]. intros c'.
  apply (starts_then (unvouched type k) _ (adds k)).
  - case_match eqn:Et.
    + apply (starts_then none _ (adds k)).
      { apply starts_eng; [apply engine_new_stream_pending|apply engine_new_stream_trust]. }
      intros _ w b w' E. split; [by eapply silent_ctx_queue_upd|]. by split; [|intros p []].
    + apply starts_eng; [apply engine_call_pending|].
      eapply leads_mono; [apply engine_call_trust|]. intros s s' Ht p Hp. apply Ht. intros Hk.
      apply Hp. split; [|done]. by apply negb_false_iff, Z.eqb_eq in Et.
  - intros _ w b w' [= <- <-]. by rewrite Ek.
Qed.

(** *** A thread waits for it *)

Lemma staffed_hushed {A} (m : M world A) : leads (hushed none) m → leads staffed m.
Proof. intros Hm. eapply leads_mono; [exact Hm|]. by intros w w' (_ & _ & ? & _). Qed.
Lemma staffed_eng {A} (m : M (engine * cmem) A) : leads staffed (eng m).
Proof. apply leads_zoom. intros t w. by apply staffed_same. Qed.
#[local] Hint Extern 1 (leads staffed (eng _)) => apply staffed_eng : grpc.
#[local] Hint Extern 2 (leads staffed _) => apply staffed_hushed; solve [auto with grpc] : grpc.

(** The rest of a program, once the thread is on duty. *)
Lemma gives_busy {A C} (P : C → Prop) (Q : A → Prop) (m : M world C) (k : C → M world A) :
  gives (λ c w, P c → busy w = true) m →
  (∀ c, P c ∧ leads staffed (k c) ∨ gives (λ b _, ¬ Q b) (k c)) →
  gives (λ b w, Q b → busy w = true) (m ≫= k).
Proof.
  intros Hm Hk. apply (gives_after _ _ _ _ Hm). intros c w b w' Hc E HQ.
  destruct (Hk c) as [[HP Hl]|Hno]; [by apply (Hl _ _ _ E), Hc|by destruct (Hno _ _ _ E)].
Qed.

Lemma schedule_busy g :
  gives (λ rc w, rc = NGX_OK → busy w = true) (ngx_grpc_cli_schedule_task_thread_if_needed g).
Proof.
  intros w rc w'. unfold ngx_grpc_cli_schedule_task_thread_if_needed, task_post.
  destruct (cf_task g =? NULL); [done|].
  unfold mbind, M_bind, get, modify. cbn [fst snd].
  destruct (ev_active _) eqn:Ea; cbn [negb]; [intros [= <- <-] _; unfold busy; by rewrite Ea|].
  destruct (ngx_thread_task_post _ _) as [ev|] eqn:E; intros [= <- <-]; [|done].
  intros _. destruct (ev_task_post _ _ _ E) as [Ha _]. unfold busy. simpl. by rewrite Ha.
Qed.

Lemma kick_off_busy r g k opt :
  gives (λ rc w, rc = NGX_OK → busy w = true) (ngx_grpc_cli_kick_off_task r g k opt).
Proof.
  unfold ngx_grpc_cli_kick_off_task. do 2 (apply gives_bind; intros ?).
  case_match; [|by apply gives_ret].
  apply (gives_busy (λ rc, rc = NGX_OK) (λ rc, rc = NGX_OK)); [apply schedule_busy|]. intros rc.
  destruct (Z.eqb_spec rc NGX_OK) as [E|E]; cbn [negb].
  - left. split; [done|]. solve_leads.
  - right. apply gives_bind. intros. by apply gives_ret.
Qed.

Lemma stream_op_busy r h k opt op :
  gives (λ rc w, rc = NGX_OK → busy w = true) (stream_op r h k opt op).
Proof.
  unfold stream_op. do 3 (apply gives_bind; intros ?). case_match; [by apply gives_ret|].
  apply (gives_busy (λ rc, rc = NGX_OK) (λ rc, rc = NGX_OK)); [apply kick_off_busy|]. intros rc.
  destruct (Z.eqb_spec rc NGX_OK) as [E|E]; cbn [negb].
  - left. split; [done|]. solve_leads.
  - right. by apply gives_ret.
Qed.

Lemma new_stream_busy r h c method req opt type :
  gives (λ k w, k ≠ NULL → busy w = true) (ngx_grpc_cli_new_stream r h c method req opt type).
Proof.
  unfold ngx_grpc_cli_new_stream. do 3 (apply gives_bind; intros ?).
  case_match; [apply gives_bind; intros; by apply gives_ret|].
  apply gives_bind. intros k. case_match; [apply gives_bind; intros; by apply gives_ret|].
  do 4 (apply gives_bind; intros ?).
  apply (gives_busy (λ rc, rc = NGX_OK) (λ k, k ≠ NULL)); [apply kick_off_busy|]. intros rc.
  destruct (Z.eqb_spec rc NGX_OK) as [E|E]; cbn [negb].
  - left. split; [done|]. solve_leads.
  - right. apply gives_bind. intros. apply gives_ret. intros _ Hn. by apply Hn.
Qed.
End starting.

(** ** The operations *)

Definition discard `{Nginx} `{GrpcEngine} {A} (m : M world A) : M world unit :=
  m ≫= λ _, mret tt.

Section lua_steps.
Context `{AllocatorLaws} `{NginxLaws} `{GrpcEngineLaws} `{!Patience}.
Implicit Types w : world.

(** The assertions of a blocking call. *)
Definition may_assert (f : fault) : Prop := f = AssertFail ∧ patient = false.

(** A configuration with a running engine. *)
Definition engine_ready w : Prop :=
  ∃ c, w_conf w = Some c ∧ cf_task c ≠ NULL.

(** No task of the connection [c] is under way. *)
Definition conn_idle w (c : Z) : Prop := ∀ k s, ongoing w k s → sc_parent s ≠ c.

(** What Lua code, the Lua collector ([r] is then NULL), nginx and
    lua-nginx-module may do outside the event handlers of the module. *)
Inductive lua_enabled w : M world unit → Prop :=
| le_connect r h target opt :
    req_live w h r → lua_enabled w (discard (ngx_grpc_cli_connect r h target opt))
| le_close c x r h :
    ctx_at w c x → (r = NULL ∨ req_live w h r) →
    (r = NULL → queue_of (w_qs w) (q_opening c) = Some [] → conn_idle w c) →
    lua_enabled w (ngx_grpc_cli_close c r h)
| le_call r h c x method req opt :
    ctx_at w c x → engine_ready w → caller_ready w h r →
    lua_enabled w (discard (ngx_grpc_cli_call r h c method req opt None))
(* [grpc.lua] blocks in the [init_worker] phase, before any task is started *)
| le_blocking_call r h c x method req opt sctx :
    ctx_at w c x → is_u64 sctx → (∀ k s, ¬ ongoing w k s) → patient = false →
    lua_enabled w (discard (ngx_grpc_cli_call r h c method req opt (Some sctx)))
| le_new_stream r h c x method req opt type :
    ctx_at w c x → engine_ready w → caller_ready w h r →
    lua_enabled w (discard (ngx_grpc_cli_new_stream r h c method req opt type))
| le_recv r k s opt :
    stream_open w k s → engine_ready w → caller_ready w (sc_is_http s) r →
    lua_enabled w (discard (ngx_grpc_cli_stream_recv r (sc_is_http s) k opt))
| le_send r k s opt req :
    stream_open w k s → engine_ready w → caller_ready w (sc_is_http s) r →
    lua_enabled w (discard (ngx_grpc_cli_stream_send r (sc_is_http s) k opt req))
| le_close_send r k s opt :
    stream_open w k s → engine_ready w → caller_ready w (sc_is_http s) r →
    lua_enabled w (discard (ngx_grpc_cli_stream_close_send r (sc_is_http s) k opt))
| le_close_stream k s r h l1 l2 :
    stream_at w k s →
    queue_of (w_qs w) (q_opening (sc_parent s)) = Some (l1 ++ k :: l2) →
    (r = NULL ∨ req_live w h r) →
    (r = NULL → sc_node s = NULL ∧ (l1 ++ l2 = [] → conn_idle w (sc_parent s))) →
    (patient = true → sc_node s = NULL) →
    lua_enabled w (ngx_grpc_cli_close_stream k r h)
| le_free_buf p b :
    p ≠ NULL → cm_heap (w_mem w) !! p = Some (OBuf b) → spare w p →
    lua_enabled w (ngx_grpc_cli_free_buf p)
(* [err_len[0] = ERR_BUF_SIZE] *)
| le_err_len n : lua_enabled w (modify (λ w, set_err (w_err_buf w) n w))
(* lua-nginx-module destroys a coroutine that waits *)
| le_cleanup k s :
    ongoing w k s → patient = false → lua_enabled w (grpc_cli_cleanup (sc_is_http s) (sc_wait_co_ctx s))
| le_request h r q :
    (∀ k s, ongoing w k s → (sc_is_http s, sc_r s) ≠ (h, r)) →
    lua_enabled w (modify (λ w, set_reqs (<[(h, r) := q]> (w_reqs w)) w))
| le_request_end h r :
    (∀ k s, ongoing w k s → (sc_is_http s, sc_r s) ≠ (h, r)) →
    lua_enabled w (modify (λ w, set_reqs (delete (h, r) (w_reqs w)) w))
| le_coroutine h co c :
    no_waiter w h co → lua_enabled w (modify (λ w, set_cos (<[(h, co) := c]> (w_cos w)) w))
| le_signal exiting terminate quit :
    (quitting w = true → quit || exiting = true) →
    lua_enabled w (modify (λ w, World (w_mem w) (w_eng w) (w_qs w) (w_tree w) (w_num w)
      (w_conf w) (w_th w) (w_reqs w) (w_cos w) (w_err_buf w) (w_err_len w)
      exiting terminate quit (w_out w))).

Definition lua_step w w' : Prop := ∃ m, lua_enabled w m ∧ m w = Done tt w'.
Abbreviation lua_steps := (rtc lua_step).

(** *** Each of them is a step of the environment *)

(** An operation that starts and ends no task, and logs nothing. *)
Lemma env_step_op {A} shut (m : M world A) (Q : A → world → Prop) w :
  winv w → leads (hushed shut) m → (patient = true → ∀ p s, ongoing w p s → ¬ shut p) →
  wp m (λ a w', Q a w' ∧ winv w' ∧ steady w w') w →
  wpf may_assert (discard m) (λ _ w', env_step [] w w') w.
Proof.
  intros Hw Hk Hsh Hm. apply wpf_wp, wp_bind. eapply wp_mono; [by apply (wp_leads (hushed shut))|].
  cbn beta. intros a w' [(_ & Hw' & Hst) Ho]. by apply wp_ret, (env_step_shut shut).
Qed.

Lemma idle_none w : patient = true → ∀ p s, ongoing w p s → ¬ none p.
Proof. by intros _ p s _ []. Qed.
#[local] Hint Resolve idle_none : grpc.

Lemma discard_unit (m : M world unit) w : discard m w = m w.
Proof. unfold discard, mbind, M_bind. by destruct (m w) as [[] w'|]. Qed.

Lemma env_step_unit shut (m : M world unit) (Q : world → Prop) w :
  winv w → leads (hushed shut) m → (patient = true → ∀ p s, ongoing w p s → ¬ shut p) →
  wp m (λ _ w', Q w' ∧ winv w' ∧ steady w w') w →
  wpf may_assert m (λ _ w', env_step [] w w') w.
Proof.
  intros Hw Hk Hsh Hm. pose proof (env_step_op shut m (λ _, Q) w Hw Hk Hsh Hm) as Hd.
  unfold wpf in *. by rewrite discard_unit in Hd.
Qed.

Lemma new_stream_env r h c type k w w' :
  new_stream_post w r h c type k w' → winv w → w_out w' = w_out w →
  started k (negb (k =? NULL)) (pending w) (pending w') → staffed w w' →
  trusted (unvouched type k) w w' → (k ≠ NULL → busy w' = true) → env_step [] w w'.
Proof.
  intros (Hw' & _ & _ & Hoth & _ & Hc & _ & Hcase) Hw Ho Hp Hst Ht Hb.
  assert (∀ u, winv u → ∀ s, ¬ ongoing u NULL s) as Hnull.
  { intros u Hu s [Hs _]. unfold stream_at in Hs. by rewrite (wi_null _ Hu) in Hs. }
  destruct Hcase as [(-> & _)|(Hk & Hno & _ & (s & Hon & _ & _ & _ & Hty & _) & _)].
  - apply (env_step_shut (unvouched type NULL)); [done..| | |by split].
    + split; [done|]. intros p s. destruct (decide (p = NULL)) as [->|Hne]; [|by apply Hoth].
      split; intros Hs; by apply Hnull in Hs.
    + intros _ p s Hs [_ [[] | ->]]; [done|by apply Hnull in Hs].
  - rewrite (proj2 (Z.eqb_neq _ _) Hk) in Hp. destruct Hp as (k' & Hk' & Ep).
    assert (is_u64 k) as Hu by by eapply (wi_u64 _ Hw'), Hon.
    rewrite Hk' in Ep by done.
    split; [done|]. split; [apply Hc|]. split; [by apply calm_results|]. split; [apply Hc|].
    split; [|by eapply sim_start].
    apply (ledger_start (unvouched type k) w w' k);
      [apply Hc|by apply calm_results|done|done|by exists s|done|by apply Hb|done|done|].
    intros p [Hun [[] | ->]]; [done|]. split; [done|]. intros (s1 & [Hs1 _] & Hty1).
    destruct Hon as [Hs _]. unfold stream_at in *. congruence.
Qed.

Lemma stream_op_env k s r g opt op rc w w' :
  stream_op_post w k s r g opt op rc w' → winv w → stream_at w k s → w_out w' = w_out w →
  started k (rc =? NGX_OK) (pending w) (pending w') → staffed w w' → trusted none w w' →
  (rc = NGX_OK → busy w' = true) → env_step [] w w'.
Proof.
  intros (Hw' & _ & Hc & _ & _ & Hoth & Hcase) Hw Hk Ho Hp Hst Ht Hb.
  destruct Hcase as [(-> & Hk' & _)|(-> & Hse & _ & s' & Hon & _)].
  - assert (pending w' = pending w) as Ep by exact Hp.
    apply env_step_steady; [done..| |by split]. split; [done|]. intros p s1.
    destruct (decide (p = k)) as [->|Hpk]; [|by apply Hoth].
    unfold ongoing, stream_at in *. by rewrite Hk, Hk'.
  - destruct Hp as (k' & Hk' & Ep). rewrite Hk' in Ep by by eapply (wi_u64 _ Hw).
    assert (¬ ∃ s, ongoing w k s) as Hno.
    { intros (s1 & Hs1 & Hn1). assert (s1 = s) as -> by (unfold stream_at in *; congruence).
      destruct (wi_parked _ Hw _ _ Hs1 Hn1) as (Hco & _).
      unfold status_error in Hse. repeat (destruct (decide _); [done|]). done. }
    split; [done|]. split; [apply Hc|]. split; [by apply calm_results|]. split; [apply Hc|].
    split; [|by eapply (sim_start w w' k)].
    apply (ledger_start none w w' k);
      [apply Hc|by apply calm_results|done|done|by exists s'|done|by apply Hb|done|done|].
    by intros p [].
Qed.

Lemma winv_set_reqs w f :
  winv w →
  (∀ k s, ongoing w k s → f (w_reqs w) !! (sc_is_http s, sc_r s) =
                          w_reqs w !! (sc_is_http s, sc_r s)) →
  winv (set_reqs (f (w_reqs w)) w).
Proof.
  intros Hw Hf. apply (winv_same_heap w); try done. intros k s Hk. unfold parked. simpl.
  by rewrite (Hf k s Hk).
Qed.

(** A change of the state of nginx or Lua alone. *)
Lemma env_step_modify f w :
  winv w → winv (f w) → w_qs (f w) = w_qs w → cm_heap (w_mem (f w)) = cm_heap (w_mem w) →
  w_th (f w) = w_th w → (quitting w = true → quitting (f w) = true) →
  w_out (f w) = w_out w → w_eng (f w) = w_eng w →
  wpf may_assert (modify f) (λ _ w', env_step [] w w') w.
Proof.
  intros Hw Hw' Hq Hh Ht Hx Ho He. apply wpf_wp, wp_modify.
  apply env_step_steady; [done..|apply steady_same; [done..|by rewrite Ht]|].
  split; [done|]. split; [unfold pending; by rewrite He|]. split; [|by apply trusted_same].
  unfold staffed, busy, alerted. by rewrite Ht.
Qed.

Lemma stream_op_enabled r k s opt op w :
  winv w → stream_open w k s → engine_ready w → caller_ready w (sc_is_http s) r →
  live_op k op →
  leads (λ s s', adds k (engine_pending s.1) (engine_pending s'.1)) op →
  leads (λ s s', trusting engine_vouches engine_streams none s.1 s'.1) op →
  wpf may_assert (discard (stream_op r (sc_is_http s) k opt op))
    (λ _ w', env_step [] w w') w.
Proof.
  intros Hw Hs (g & Hg & Ht) Hr Hop Hadds Htr. apply wpf_wp, wp_bind. eapply wp_mono.
  { eapply wp_gives; [apply stream_op_busy|].
    eapply wp_starts; [by eapply stream_op_starts|by eapply stream_op_spec]. }
  cbn beta. intros rc w' [(Hp & Ho & Hpend & Hst & Htr') Hb]. apply wp_ret.
  eapply stream_op_env; [done|done|apply Hs|done..].
Qed.

Lemma new_stream_enabled r h c x method req opt type {A} (k : Z → M world A) w :
  winv w → ctx_at w c x → engine_ready w → caller_ready w h r →
  (∀ p w', wp (k p) (λ _ w1, w1 = w') w') →
  wpf may_assert (discard (ngx_grpc_cli_new_stream r h c method req opt type ≫= k))
    (λ _ w', env_step [] w w') w.
Proof.
  intros Hw Hc (g & Hg & Ht) Hr Hk. apply wpf_wp, wp_bind, wp_bind.
  eapply wp_mono.
  { eapply wp_gives; [apply new_stream_busy|].
    eapply wp_starts; [by eapply new_stream_starts|by eapply new_stream_spec]. }
  cbn beta. intros p w' [(Hp & Ho & Hpend & Hst & Htr') Hb]. eapply wp_mono; [apply Hk|]. cbn beta.
  intros _ w1 ->.
  apply wp_ret. by eapply new_stream_env.
Qed.

Lemma blocking_enabled r h c x method req opt sctx w :
  winv w → ctx_at w c x → is_u64 sctx → (∀ k s, ¬ ongoing w k s) → patient = false →
  wpf may_assert (discard (ngx_grpc_cli_call r h c method req opt (Some sctx)))
    (λ _ w', env_step [] w w') w.
Proof.
  intros Hw Hc Hu Hidle Himp. apply wpf_bind'. cbn [ngx_grpc_cli_call].
  pose proof (blocking_spec c x sctx method req opt w Hw Hc Hu) as Hb.
  unfold wpf in *. destruct (blocking_call _ _ _ _ _ w) as [res w'|f] eqn:E.
  2: { destruct Hb as [|Hb]; [by left|by right]. }
  destruct Hb as (Hw' & [Hcalm Hon] & _).
  split; [done|]. split; [apply Hcalm|]. split; [by apply calm_results|]. split; [apply Hcalm|].
  split.
  - split; [|by rewrite Himp..|].
    + intros k [[s Hk%Hon] _]. by apply Hidle in Hk.
    + pose proof (silent_blocking _ _ _ _ _ _ _ _ E) as [= _ Hth]. unfold alerted. by rewrite Hth.
  - apply (sim_same _ _ []); [done| |constructor]. rewrite app_nil_r.
    by pose proof (silent_blocking _ _ _ _ _ _ _ _ E) as [= Ho _].
Qed.

(** Each operation keeps the invariant, takes no posted result, and is a run of
    the abstract worker. *)
Lemma cleanup_enabled k s w :
  winv w → ongoing w k s → patient = false →
  wpf may_assert (grpc_cli_cleanup (sc_is_http s) (sc_wait_co_ctx s))
    (λ _ w', env_step [] w w') w.
Proof.
  intros Hw Hon Himp. apply wpf_wp. eapply wp_mono.
  { apply (wp_leads (hushed none)); [apply silent_cleanup|by eapply cleanup_spec]. }
  cbn beta. intros _ w' [(Hw' & Ho & Hc & Hon' & _) Hh].
  split; [done|]. split; [apply Hc|]. split; [by apply calm_results|]. split; [apply Hc|].
  split; [|by eapply sim_drop].
  split; [|by rewrite Himp..|apply Hh].
  apply tracks_same; [apply Hc|by apply calm_results|by rewrite (proj1 (proj2 Hh))|].
  intros p s' Hp. left. exists s'. by apply Hon'.
Qed.

Lemma lua_enabled_env w m :
  winv w → lua_enabled w m → wpf may_assert m (λ _ w', env_step [] w w') w.
Proof.
  intros Hw He. destruct He as
    [r h target opt Hr|c x r h Hc Hr Hidle|r h c x method req opt Hc Hready Hr
    |r h c x method req opt sctx Hc Hu Hidle Himp|r h c x method req opt type Hc Hready Hr
    |r k s opt Hs Hready Hr|r k s opt req Hs Hready Hr|r k s opt Hs Hready Hr
    |k s r h l1 l2 Hk Ho Hr Hgc Hidle|p b Hp Hb Hsp|n|k s Hon Himp
    |h r q Hr|h r Hr|h co c Hco|exiting terminate quit Hquit].
  - apply (env_step_op none _ (λ c w', connect_post w target opt c w')); [done|auto with grpc..|].
    eapply wp_mono; [by apply connect_spec|]. cbn beta. intros c w' Hp. split; [exact Hp|].
    split; apply Hp.
  - eapply (env_step_unit none); [done|auto with grpc..|].
    eapply wp_mono; [eapply close_spec; try done|].
    + intros E Eq k s Hk Hn. by apply (Hidle E Eq k s).
    + cbn beta. intros _ w' Hp. split; [exact Hp|]. split; apply Hp.
  - eapply new_stream_enabled; [done..|]. intros p w'. by apply wp_ret.
  - by eapply blocking_enabled.
  - pose proof (new_stream_enabled r h c x method req opt type mret w Hw Hc Hready Hr
      (λ p w', wp_ret _ _ _ eq_refl)) as Hn.
    unfold discard, wpf, mbind, M_bind in *. by destruct (ngx_grpc_cli_new_stream _ _ _ _ _ _ _ w).
  - eapply stream_op_enabled;
      [done..|apply live_recv|apply engine_recv_pending|apply engine_recv_trust].
  - eapply stream_op_enabled;
      [done..|apply live_send|apply engine_send_pending|apply engine_send_trust].
  - eapply stream_op_enabled;
      [done..|apply live_close_send|apply engine_close_send_pending|apply engine_close_send_trust].
  - eapply (env_step_unit (λ p, p = k)); [done|auto with grpc| |].
    { intros Hpat p s' [Hs' Hn'] ->. unfold stream_at in *. rewrite Hk in Hs'.
      injection Hs' as <-. by apply Hn', Hidle. }
    eapply wp_mono; [by eapply close_stream_spec|].
    cbn beta. intros _ w' Hp. split; [exact Hp|]. split; apply Hp.
  - eapply (env_step_unit none _ (λ _, True));
      [done|unfold ngx_grpc_cli_free_buf; auto with grpc..|].
    apply wp_eng_free; [done|]. intros _. split; [by eexists|].
    split_and!; [done|by eapply winv_del_buf|eapply del_buf_steady; [done|done|apply Hsp]].
  - apply env_step_modify; [done| |done..]. by apply (winv_irrelevant w).
  - by eapply cleanup_enabled.
  - apply (env_step_modify (λ w, set_reqs _ w)); [done| |done..].
    apply (winv_set_reqs w (insert (h, r) q)); [done|].
    intros k s Hon. rewrite lookup_insert_ne; [done|]. intros E. by apply (Hr k s).
  - apply (env_step_modify (λ w, set_reqs _ w)); [done| |done..].
    apply (winv_set_reqs w (delete (h, r))); [done|].
    intros k s Hon. rewrite lookup_delete_ne; [done|]. intros E. by apply (Hr k s).
  - apply (env_step_modify (λ w, set_cos _ w)); [done| |done..]. by apply winv_set_cos.
  - apply env_step_modify; [done| |done..]. by apply (winv_irrelevant w).
Qed.

Lemma lua_steps_env w w' : winv w → lua_steps w w' → env_step [] w w'.
Proof.
  intros Hw Hs. induction Hs as [w|w w1 w' (m & Hm & E) _ IH]; [by apply env_step_refl|].
  pose proof (lua_enabled_env w m Hw Hm) as Hwp. unfold wpf in Hwp. rewrite E in Hwp.
  eapply env_step_trans; [done|]. apply IH, Hwp.
Qed.
End lua_steps.

Abbreviation lua_steps := (rtc lua_step).

(** ** Lua and nginx, when the module runs them *)

(** Lua code reaches the module through its exported functions, and
    lua-nginx-module through the cleanup handlers.  A thread that neither yields
    nor ends its request leaves the request alive.  The phase engine comes back
    to the Lua handler of the phase, which calls [lctx->resume_handler]; later
    phases may run other Lua code. *)
Class LuaRuntimeLaws `{AllocatorLaws, NginxLaws, GrpcEngineLaws, !LuaRuntime, !Patience} : Prop := {
  lua_run_thread_ok h r co args w :
    winv w →
    wp (lua_run_thread h r co args) (λ rc w', lua_steps w w' ∧
      (rc ≠ NGX_AGAIN → rc ≠ NGX_DONE → ∃ x, lctx_at w' h r x)) w;
  lua_run_posted_threads_ok h r n w :
    winv w → wp (lua_run_posted_threads h r n) (λ _ w', lua_steps w w') w;
  lua_finalize_request_ok h r rc w :
    winv w → wp (lua_finalize_request h r rc) (λ _ w', lua_steps w w') w;
  ngx_http_run_posted_requests_ok r w :
    winv w → wp (ngx_http_run_posted_requests r) (λ _ w', lua_steps w w') w;
  ngx_core_run_phases_ok h r act (P : world → Prop) w :
    winv w → (∀ w1 w2, P w1 → lua_steps w1 w2 → P w2) →
    wp act (λ _ w', P w') w → wp (ngx_core_run_phases h r act) (λ _ w', P w') w;
}.
