(* ===== verification/BindingInv.v ===== *)
(** * The Lua library keeps its side of the contract

    Every call [lib/resty/grpc.lua] makes is one [lua_enabled] allows, because its
    tables and finalizers hold what they claim to ([tables_ok]), and whatever it does
    they still do. *)
From Stdlib Require Import QArith_base.
From S2P Require Import Prelude Words Mem Wire TaskQueue Ngx World Waiters Tasks Conn.
From S2P Require Import Stream Binding BindingState Handlers EngineSpec Inv InvMoves Handles.
From S2P Require Import ConnInv StreamInv StreamOps EventInv PutResInv BlockInv LuaSteps.
Open Scope Z_scope.

Section binding_inv.
Context `{AllocatorLaws} `{NginxLaws} `{GrpcEngineLaws} `{!Patience} `{!LuaPb}.
Implicit Types (w : world) (l : lib).

(** The library runs in the Lua of one subsystem. *)
Context (h : bool).

(** ** The tables *)

(** An object that is open has its finalizer; a finalizer's connection is live, and
    its stream hangs on its connection; the engine has the streams that are open,
    and each is in one table. *)
Record tables_ok w l : Prop := {
  to_final : finalized l;
  to_lives c : Ctx_gc c ∈ lb_gc l → lives w c;
  to_held k : Stream_gc k ∈ lb_gc l → held w h k;
  to_open t st : lb_streams l !! t = Some st → ls_ctx st ≠ NULL →
    ls_ctx st ∈ engine_streams (w_eng w);
  to_inj t t' st st' : lb_streams l !! t = Some st → lb_streams l !! t' = Some st' →
    ls_ctx st ≠ NULL → ls_ctx st = ls_ctx st' → t = t';
}.

Lemma tables_conn w l t c :
  tables_ok w l → lb_conns l !! t = Some c → c ≠ NULL → ∃ x, ctx_at w c x.
Proof.
  intros Ht Hl Hc. destruct (to_lives _ _ Ht c) as (x & Hx & _); [|by exists x].
  by eapply (to_final _ _ Ht).
Qed.

Lemma tables_stream w l t st :
  tables_ok w l → lb_streams l !! t = Some st → ls_ctx st ≠ NULL →
  ∃ s, stream_open w (ls_ctx st) s ∧ sc_is_http s = h.
Proof.
  intros Ht Hl Hc. destruct (to_held _ _ Ht (ls_ctx st)) as (s & lo & Hs & Eh & Hlo & Hin).
  { by eapply (to_final _ _ Ht). }
  exists s. split; [|done]. split_and!; [done|by exists lo|]. by eapply (to_open _ _ Ht).
Qed.

(** A step of the worker that spares what Lua holds. *)
Lemma tables_step w w' l : handles none none w w' → tables_ok w l → tables_ok w' l.
Proof.
  intros Hh [Hf Hl Hk Ho Hi]. split; [done| | | |done].
  - intros c Hc. by eapply kept_lives, Hl.
  - intros k Hin. by eapply kept_held, Hk.
  - intros t st Ht Hn. apply (hd_open _ _ _ _ Hh); [by intros []|by eapply Ho].
Qed.

Lemma tables_lib w l l' :
  lb_conns l' = lb_conns l → lb_streams l' = lb_streams l → lb_gc l' = lb_gc l →
  tables_ok w l → tables_ok w l'.
Proof.
  intros Ec Es Eg [Hf Hl Hk Ho Hi]. split; rewrite ?Eg, ?Es; try done.
  by apply (finalized_tables l).
Qed.

Lemma tables_with_conn w l c : lives w c → tables_ok w l → tables_ok w (with_conn c l).
Proof.
  intros Hc [Hf Hl Hk Ho Hi]. split; [by apply (rel_with_conn (R := keeps_finalized))| | |done..].
  - intros c' [[= ->]|Hin]%elem_of_cons; [done|by apply Hl].
  - intros k [|Hin]%elem_of_cons; [done|by apply Hk].
Qed.

Lemma tables_with_stream w l st :
  held w h (ls_ctx st) → ls_ctx st ∈ engine_streams (w_eng w) → Stream_gc (ls_ctx st) ∉ lb_gc l →
  tables_ok w l → tables_ok w (with_stream st l).
Proof.
  intros Hc He Hnew [Hf Hl Hk Ho Hi].
  assert (∀ t s1, lb_streams (with_stream st l) !! t = Some s1 →
    t = Z.of_nat (size (lb_streams l)) ∧ s1 = st ∨
    t ≠ Z.of_nat (size (lb_streams l)) ∧ lb_streams l !! t = Some s1) as Hst.
  { intros t s1. cbn. rewrite lookup_insert_Some.
    intros [[<- <-]|[Hne Hs]]; [by left|by right]. }
  assert (∀ t s1, lb_streams l !! t = Some s1 → ls_ctx s1 ≠ NULL → ls_ctx s1 ≠ ls_ctx st) as Hne.
  { intros t s1 Hs Hn E. apply Hnew. rewrite <- E. by eapply Hf. }
  split.
  - by apply (rel_with_stream (R := keeps_finalized)).
  - intros c [|Hin]%elem_of_cons; [done|by apply Hl].
  - intros k [[= ->]|Hin]%elem_of_cons; [done|by apply Hk].
  - intros t s1 [[_ ->]|[_ Hs]]%Hst; [done|]. by eapply Ho.
  - intros t t' s1 s2 [[-> ->]|[_ H1']]%Hst [[-> ->]|[_ H2']]%Hst Hn E.
    + done.
    + destruct (Hne t' s2 H2'); congruence.
    + by destruct (Hne t s1 H1').
    + by eapply Hi.
Qed.

Lemma tables_without_conn w l t : tables_ok w l → tables_ok w (without_conn t l).
Proof.
  intros [Hf Hl Hk Ho Hi]. split; [|done..]. by apply (rel_without_conn (R := keeps_finalized)).
Qed.

(** A table is emptied, and the engine told to close its stream. *)
Lemma tables_shut w w' l t st :
  lb_streams l !! t = Some st → ls_ctx st ≠ NULL →
  handles none (λ k, k = ls_ctx st) w w' → tables_ok w l → tables_ok w' (without_stream t l).
Proof.
  intros Hst Hn Hh [Hf Hl Hk Ho Hi].
  assert (∀ t' s', lb_streams (without_stream t l) !! t' = Some s' → ls_ctx s' ≠ NULL →
    t' ≠ t ∧ lb_streams l !! t' = Some s') as Hold.
  { intros t' s'. cbn. rewrite lookup_alter_Some.
    intros [(_ & y & _ & ->)|[Hne Hs]] Hn'; [done|]. by split. }
  split; [by apply (rel_without_stream (R := keeps_finalized))|..].
  - intros c Hc. apply (hd_lives _ _ _ _ Hh); [by intros []|by apply Hl].
  - intros k Hin. apply (hd_held _ _ _ _ Hh); [by intros []|by apply Hk].
  - intros t' s' Ht' Hn'. destruct (Hold _ _ Ht' Hn') as [Hne Hs].
    apply (hd_open _ _ _ _ Hh); [|by eapply Ho]. intros E. by apply Hne, (Hi t' t s' st).
  - intros t1 t2 s1 s2 H1' H2' Hn' E. destruct (Hold _ _ H1' Hn') as [_ Hs1].
    destruct (Hold t2 s2 H2') as [_ Hs2]; [congruence|]. by eapply Hi.
Qed.

(** The collector releases what [f] is for. *)
Definition finalizer_ctx (f : finalizer) : Z := match f with Ctx_gc c => c | Stream_gc k => k end.

Lemma tables_unreached w w' l f :
  f ∈ lb_gc l → handles (λ p, p = finalizer_ctx f) (λ k, f = Stream_gc k) w w' →
  tables_ok w l → tables_ok w' (unreached f l).
Proof.
  intros Hf [L Hh O] Ht. pose proof Ht as [Hfin Hl Hk Ho Hi].
  assert (∀ g, g ∈ lb_gc (unreached f l) → g ≠ f ∧ g ∈ lb_gc l) as Hgc.
  { intros g. destruct f; cbn; by rewrite list_elem_of_filter. }
  assert (∀ c, c = finalizer_ctx f → (∀ h', held w h' c → f = Stream_gc c) ∧
    (lives w c → f = Ctx_gc c)) as Hkind.
  { intros c ->. destruct f as [c'|k]; split; try done; cbn.
    - intros h' Hd. destruct (Hl c' Hf) as (x & Hx & _). by destruct (ctx_not_held w c' x h').
    - intros (x & Hx & _). by destruct (ctx_not_held w k x h Hx (Hk k Hf)). }
  assert (∀ t st, lb_streams (unreached f l) !! t = Some st → ls_ctx st ≠ NULL →
    lb_streams l !! t = Some st ∧ f ≠ Stream_gc (ls_ctx st)) as Hst.
  { intros t st. destruct f as [c|k]; cbn; [done|]. rewrite lookup_fmap.
    intros (y & Hy & ->)%fmap_Some. destruct (Z.eqb_spec (ls_ctx y) k); [done|]. intros _.
    split; [done|congruence]. }
  split; [by apply finalized_unreached|..].
  - intros c [Hne Hc]%Hgc. apply L; [|by apply Hl]. intros E. apply Hne. symmetry.
    by apply (proj2 (Hkind c E)), Hl.
  - intros k [Hne Hin]%Hgc. apply Hh; [|by apply Hk]. intros E. apply Hne. symmetry.
    by eapply (proj1 (Hkind k E)), Hk.
  - intros t st Hs Hn. destruct (Hst _ _ Hs Hn) as [Hs' Hne]. apply O; [done|by eapply Ho].
  - intros t t' s1 s2 H1' H2' Hn E. destruct (Hst _ _ H1' Hn) as [H1'' _].
    destruct (Hst t' s2 H2') as [H2'' _]; [congruence|]. by eapply Hi.
Qed.

(** ** Rules for Lua programs *)

Lemma wpf_on_world {A B} (m : M world A) (k : A → L B) (Q : B → world * lib → Prop) w l :
  wpf may_assert m (λ a w', wpf may_assert (k a) Q (w', l)) w →
  wpf may_assert (on_world m ≫= k) Q (w, l).
Proof.
  unfold wpf, mbind, M_bind, on_world, zoom. cbn [fst snd]. by destruct (m w).
Qed.

Lemma wpf_on_lib {B} f (k : unit → L B) (Q : B → world * lib → Prop) w l :
  wpf may_assert (k tt) Q (w, f l) → wpf may_assert (on_lib f ≫= k) Q (w, l).
Proof. done. Qed.

Lemma wpf_gets {A B} f (k : A → L B) (Q : B → world * lib → Prop) s :
  wpf may_assert (k (f s)) Q s → wpf may_assert (gets f ≫= k) Q s.
Proof. done. Qed.

Lemma wpf_get {B} (k : world * lib → L B) (Q : B → world * lib → Prop) s :
  wpf may_assert (k s) Q s → wpf may_assert (get ≫= k) Q s.
Proof. done. Qed.

(** A call of the module that is allowed, with what it does ([R]). *)
Lemma wpf_allowed {A B} (m : M world A) m0 (R : A → world → Prop) (k : A → L B)
    (Q : B → world * lib → Prop) w l :
  winv w → lua_enabled w m0 → (∀ w, m0 w = discard m w) → wpf may_assert m R w →
  (∀ a w', R a w' → winv w' → lua_steps w w' → wpf may_assert (k a) Q (w', l)) →
  wpf may_assert (on_world m ≫= k) Q (w, l).
Proof.
  intros Hw He Hm HR Hk. apply wpf_on_world. pose proof (lua_enabled_env w m0 Hw He) as Hwp.
  unfold wpf in *. rewrite Hm in Hwp. unfold discard, mbind, M_bind in Hwp.
  destruct (m w) as [a w'|f] eqn:E; [|exact Hwp]. apply Hk; [done|apply Hwp|].
  apply rtc_once. exists m0. split; [done|]. rewrite Hm. unfold discard, mbind, M_bind.
  by rewrite E.
Qed.

Lemma wpf_allowed_unit {B} (m : M world unit) (R : unit → world → Prop) (k : unit → L B)
    (Q : B → world * lib → Prop) w l :
  winv w → lua_enabled w m → wpf may_assert m R w →
  (∀ w', R tt w' → winv w' → lua_steps w w' → wpf may_assert (k tt) Q (w', l)) →
  wpf may_assert (on_world m ≫= k) Q (w, l).
Proof.
  intros Hw He HR Hk.
  eapply wpf_allowed; [done|exact He|intros; by rewrite discard_unit|exact HR|].
  intros [] w' HR' Hw' Hs. by apply Hk.
Qed.

Lemma wpf_load_state {A B} opt (f : pb_state → (bytes + A) * pb_state) (k : bytes + A → L B)
    (Q : B → world * lib → Prop) w l :
  (∀ x l', lb_conns l' = lb_conns l → lb_streams l' = lb_streams l → lb_gc l' = lb_gc l →
     wpf may_assert (k x) Q (w, l')) →
  wpf may_assert (load_state opt f ≫= k) Q (w, l).
Proof. intros Hk. by apply Hk. Qed.

(** The post-condition of every operation: the worker made allowed steps, and the
    tables are in order. *)
Definition allowed w {A} (_ : A) (s : world * lib) : Prop :=
  winv s.1 ∧ lua_steps w s.1 ∧ tables_ok s.1 s.2.

Lemma wpf_decoded opt ty resp w w1 l :
  winv w1 → lua_steps w w1 → tables_ok w1 l →
  wpf may_assert (decoded opt ty resp) (allowed w) (w1, l).
Proof.
  intros Hw Hs Ht. apply wpf_load_state. intros [e|v] l' E1 E2 E3; (split; [done|]);
    (split; [done|by apply (tables_lib w1 l)]).
Qed.

(** The coroutine was resumed with a value that is not [nil] or [false] *)
Definition succeeds (vs : list lua_val) : Prop :=
  match vs with [] | L_nil :: _ | L_bool false :: _ => False | _ => True end.

Lemma wpf_resumed prefix vs k w w1 l :
  winv w1 → lua_steps w w1 → tables_ok w1 l →
  (succeeds vs → ∀ v, wpf may_assert (k v) (allowed w) (w1, l)) →
  wpf may_assert (resumed prefix vs k) (allowed w) (w1, l).
Proof.
  intros Hw Hs Ht Hk. unfold resumed. repeat case_match; try by apply Hk. all: by split_and!.
Qed.

(** ** What the caller owes *)

(** Nobody waits for the stream of the table [self]: closing it would give the
    operation up. *)
Definition unwaited w l (self : Z) : Prop := patient = true → ∀ st s,
  lb_streams l !! self = Some st → ¬ ongoing w (ls_ctx st) s.

(** The coroutine that calls runs for a live request and waits for nothing; the
    library can only be loaded when the engine runs.  What the collector finds is a
    connection or a stream that no coroutine still uses. *)
Definition op_ready w l (r : Z) (op : lua_op) : Prop :=
  match op with
  | O_load _ _ => True
  | O_connect _ _ | O_close _ => req_live w h r
  | O_stream_close self => req_live w h r ∧ unwaited w l self
  | O_call _ _ _ _ _ (Some sctx) => is_u64 sctx ∧ (∀ k s, ¬ ongoing w k s) ∧ patient = false
  | O_call _ _ _ _ _ None | O_new_stream _ _ _ _ _ _
  | O_recv _ | O_send _ _ | O_close_send _ | O_recv_close _ => engine_ready w ∧ caller_ready w h r
  | O_collect (Ctx_gc c) => queue_of (w_qs w) (q_opening c) = Some [] → conn_idle w c
  | O_collect (Stream_gc k) => ∀ s, stream_at w k s →
      sc_node s = NULL ∧
      (queue_of (w_qs w) (q_opening (sc_parent s)) = Some [k] → conn_idle w (sc_parent s))
  end.

(** When the coroutine is resumed: [recv_close] closes, so its request is still
    live, and nobody else waits for the stream; a coroutine that is told that its stream is open has an open stream. *)
Definition resume_ready (r : Z) (op : lua_op) (sctx : Z) (vs : list lua_val) w l : Prop :=
  match op with
  | O_recv_close self => req_live w h r ∧ unwaited w l self
  | O_new_stream _ _ _ _ _ _ => succeeds vs →
      held w h sctx ∧ sctx ∈ engine_streams (w_eng w) ∧ Stream_gc sctx ∉ lb_gc l
  | _ => True
  end.

(** The operation made allowed calls, and so will its rest. *)
Definition run_allowed w (P : list lua_val → world → lib → Prop) (res : lua_run)
    (s : world * lib) : Prop :=
  allowed w res s ∧
  match res with
  | Finished _ => True
  | Yields k => ∀ vs w2 l2, winv w2 → tables_ok w2 l2 → P vs w2 l2 →
      wpf may_assert (k vs) (allowed w2) (w2, l2)
  end.
Definition anything (_ : list lua_val) (_ : world) (_ : lib) : Prop := True.

Lemma run_allowed_finish w w1 l1 P x :
  winv w1 → lua_steps w w1 → tables_ok w1 l1 →
  wpf may_assert (finish x) (run_allowed w P) (w1, l1).
Proof. intros. split; [by split_and!|done]. Qed.

Lemma run_allowed_then {A} (m : L A) (f : A → lua_res) w w1 l1 P :
  wpf may_assert m (allowed w) (w1, l1) →
  wpf may_assert (x ← m; finish (f x)) (run_allowed w P) (w1, l1).
Proof.
  intros Hm. apply wpf_bind'. eapply wpf_mono; [exact Hm|]. intros a [w2 l2] (Hw & Hs & Ht).
  by apply run_allowed_finish.
Qed.

(** Every call is preceded by the reset of [err_len]; nothing the caller owes
    depends on it. *)
Lemma wpf_reset_err_len {B} (k : unit → L B) (Q : B → world * lib → Prop) w l :
  winv w → tables_ok w l →
  (let w1 := set_err (w_err_buf w) LUA_ERR_BUF_SIZE w in
   winv w1 → lua_steps w w1 → tables_ok w1 l → wpf may_assert (k tt) Q (w1, l)) →
  wpf may_assert (reset_err_len ≫= k) Q (w, l).
Proof.
  intros Hw Ht Hk. apply Hk; [by apply (winv_irrelevant w)| |].
  - apply rtc_once. eexists. split; [apply le_err_len|done].
  - eapply tables_step; [|done]. by apply handles_same.
Qed.

Lemma wpf_module_error prefix w w1 l P :
  winv w1 → lua_steps w w1 → tables_ok w1 l →
  wpf may_assert (e ← module_error prefix; finish e) (run_allowed w P) (w1, l).
Proof. intros. split; [by split_and!|done]. Qed.

(** ** The operations *)

Lemma connect_allowed r target opt w l P :
  winv w → tables_ok w l → req_live w h r →
  wpf may_assert (x ← connect h r target opt; finish x) (run_allowed w P) (w, l).
Proof.
  intros Hw Ht Hr. apply run_allowed_then. unfold connect. case_match; [by split_and!|].
  apply wpf_reset_err_len; [done..|]. intros w1 Hw1 Hs1 Ht1.
  eapply wpf_allowed; [done|by apply le_connect|done|by apply wpf_wp, connect_spec|].
  intros c w2 (_ & _ & Hh & Hp) Hw2 Hs2. assert (lua_steps w w2) by by etrans.
  pose proof (tables_step _ _ _ Hh Ht1) as Ht2.
  destruct (Z.eqb_spec c NULL) as [Hc|Hc]; [by split_and!|]. split_and!; [done..|].
  apply tables_with_conn; [|done].
  destruct Hp as [(_ & ? & _)|[(? & ? & ? & _ & _ & ? & _)|(_ & _ & _ & _ & (x & Hx & _ & Hd & _)
    & _)]];
    [done..|]. by exists x.
Qed.

Lemma Conn_close_allowed self r w l P :
  winv w → tables_ok w l → req_live w h r →
  wpf may_assert (x ← Conn_close h self r; finish x) (run_allowed w P) (w, l).
Proof.
  intros Hw Ht Hr. apply run_allowed_then. apply wpf_gets. cbn [fst snd].
  case_match eqn:E; [by split_and!|]. apply Z.eqb_neq in E.
  destruct (lb_conns l !! self) as [c|] eqn:Ec; [|done]. simpl in E |- *.
  destruct (tables_conn _ _ _ _ Ht Ec E) as [x Hx]. apply wpf_on_lib.
  assert (r ≠ NULL) as Hr0 by apply Hr.
  eapply wpf_allowed_unit; [done|eapply le_close; [done|by right|done]| |].
  { apply wpf_wp. eapply close_spec; [done|exact Hx|by right|done]. }
  intros w' (_ & _ & Hh & _) Hw' Hs. split_and!; [done..|]. apply tables_without_conn.
  eapply tables_step, Ht. eapply handles_weaken, Hh; [|done]. by intros p [? _].
Qed.

Lemma find_method_spec self service method w l :
  tables_ok w l →
  wpf may_assert (find_method self service method) (λ x s, s = (w, l) ∧
    match x with inl _ => True | inr (c, _) => ∃ x, ctx_at w c x end) (w, l).
Proof.
  intros Ht. apply wpf_get. cbn [fst snd]. destruct (lb_protoc l) as [inst|]; [|by split].
  apply wpf_gets. cbn [fst snd]. case_match eqn:E; [by split|]. apply Z.eqb_neq in E.
  destruct (pi_index inst service) as [serv|]; [|by split].
  destruct (serv method) as [m|]; [|by split].
  split; [done|]. destruct (lb_conns l !! self) as [c|] eqn:Ec; [|done].
  by eapply tables_conn.
Qed.

(** What the module does when a stream is started: one that no finalizer is for; it
    hangs on its connection until it is finalized. *)
Definition task_started w (type k : Z) w' : Prop :=
  handles none none w w' ∧
  (k ≠ NULL → (∀ h', ¬ held w h' k) ∧
     (type ≠ NGX_GRPC_CLIENT_STREAM_TYPE_UNARY → held w' h k)).

Lemma new_stream_started_spec r c x method req opt type w :
  winv w → ctx_at w c x → engine_ready w → caller_ready w h r →
  wp (ngx_grpc_cli_new_stream r h c method req opt type) (task_started w type) w.
Proof.
  intros Hw Hc (g & Hg & Hgt) Hr. eapply wp_mono; [by eapply new_stream_spec|]. cbn beta.
  intros k w' (_ & _ & _ & _ & _ & _ & Hh & Hcase). split; [done|]. intros Hk.
  destruct Hcase as [[? _]|(_ & _ & Hno & (s & [Hs _] & _ & Eh & Ep & _) & lo & _ & Hq)]; [done|].
  split; [done|]. intros Ht. rewrite decide_False in Hq by done.
  exists s, (k :: lo). rewrite Ep. split_and!; [done..|by left].
Qed.

Lemma call_started_spec r c x method req opt w :
  winv w → ctx_at w c x → engine_ready w → caller_ready w h r →
  wp (ngx_grpc_cli_call r h c method req opt None) (λ _ w', handles none none w w') w.
Proof.
  intros Hw Hc He Hr. apply wp_bind. eapply wp_mono; [by eapply new_stream_started_spec|].
  cbn beta. intros k w' [Hh _]. by apply wp_ret.
Qed.

(** A call that starts a task, and the rest of it. *)
Lemma Conn_call_allowed self r service method req opt w l :
  winv w → tables_ok w l → engine_ready w → caller_ready w h r →
  wpf may_assert (Conn_call h self r service method req opt None)
    (run_allowed w anything) (w, l).
Proof.
  intros Hw Ht He Hr. apply wpf_bind'. eapply wpf_mono; [by apply find_method_spec|].
  cbn beta. intros [err|[c m]] s [-> Hc]; [by apply run_allowed_finish|].
  destruct Hc as [x Hc]. apply wpf_load_state. intros [err|data] l1 E1 E2 E3;
    pose proof (tables_lib w l l1 E1 E2 E3 Ht) as Ht0; [by apply run_allowed_finish|].
  apply wpf_reset_err_len; [done..|]. intros w1 Hw1 Hs1 Ht1.
  eapply wpf_allowed; [done|eapply le_call; [exact Hc|exact He|exact Hr]|done| |].
  { by eapply wpf_wp, call_started_spec. }
  intros [rc out] w2 Hh Hw2 Hs2. assert (lua_steps w w2) by by etrans.
  pose proof (tables_step _ _ _ Hh Ht1) as Ht2.
  case_match; [by apply wpf_module_error|]. split; [by split_and!|].
  intros vs w3 l3 Hw3 Ht3 _. apply wpf_resumed; [done..|]. intros _ v. by apply wpf_decoded.
Qed.

(** A blocking call runs to its end. *)
Lemma Conn_call_blocking_allowed self r service method req opt sctx w l :
  winv w → tables_ok w l → is_u64 sctx → (∀ k s, ¬ ongoing w k s) → patient = false →
  wpf may_assert (Conn_call h self r service method req opt (Some sctx))
    (run_allowed w anything) (w, l).
Proof.
  intros Hw Ht Hu Hno Himp. apply wpf_bind'. eapply wpf_mono; [by apply find_method_spec|].
  cbn beta. intros [err|[c m]] s [-> Hc]; [by apply run_allowed_finish|].
  destruct Hc as [x Hc]. apply wpf_load_state. intros [err|data] l1 E1 E2 E3;
    pose proof (tables_lib w l l1 E1 E2 E3 Ht) as Ht0; [by apply run_allowed_finish|].
  apply wpf_reset_err_len; [done..|]. intros w1 Hw1 Hs1 Ht1.
  eapply wpf_allowed; [done|eapply le_blocking_call;
    [exact Hc|exact Hu|exact Hno|exact Himp]|done| |].
  { eapply wpf_faults; [by apply (blocking_spec c x)|]. by intros f ->. }
  intros [rc out] w2 (_ & _ & Hh & _ & Hb) Hw2 Hs2. assert (lua_steps w w2) as Hs by by etrans.
  pose proof (tables_step _ _ _ Hh Ht1) as Ht2.
  inversion Hb as [?|? ? ?|? ? ? ? b ? _ _ _ p Hp0 _ _ Hp Hsp|? ? ? ? ? ? _ _ _ _ _ _ _]; subst;
    try by apply wpf_module_error.
  cbn [Z.eqb NGX_OK negb default]. apply wpf_on_world, wpf_wp.
  eapply wp_load_bytes; [exact Hp0|exact Hp|done|].
  eapply wpf_allowed_unit; [done|by eapply le_free_buf| |].
  { eapply (wpf_wp _ _ (λ _ w', handles none none w2 w')), wp_eng_free; [done|]. intros _.
    split; [by eexists|]. by eapply del_buf_handles. }
  intros w3 Hh3 Hw3 Hs3.
  apply run_allowed_then, wpf_decoded; [done|by etrans|]. eapply tables_step; [exact Hh3|done].
Qed.

(** The stream [sctx] is told to the coroutine that waits for it, which then makes
    its table. *)
Definition opening (type sctx : Z) (s : world * lib) : Prop :=
  (Stream_gc sctx ∉ lb_gc s.2) ∧
  (type ≠ NGX_GRPC_CLIENT_STREAM_TYPE_UNARY → held s.1 h sctx).

Lemma new_stream_allowed self r service method req opt type w l :
  winv w → tables_ok w l → engine_ready w → caller_ready w h r →
  wpf may_assert (new_stream h self r service method req opt type) (λ res s,
    ∃ sctx, (if res is Yields _ then opening type sctx s else True) ∧
      run_allowed w (resume_ready r (O_new_stream self service method req opt type) sctx) res s)
    (w, l).
Proof.
  intros Hw Ht He Hr. apply wpf_bind'. eapply wpf_mono; [by apply find_method_spec|].
  cbn beta. intros [err|[c m]] s [-> Hc]; [by exists NULL; split; [|by apply run_allowed_finish]|].
  destruct Hc as [x Hc]. apply wpf_load_state. intros [err|data] l1 E1 E2 E3;
    pose proof (tables_lib w l l1 E1 E2 E3 Ht) as Ht0;
    [by exists NULL; split; [|by apply run_allowed_finish]|].
  apply wpf_reset_err_len; [done..|]. intros w1 Hw1 Hs1 Ht1.
  eapply wpf_allowed; [done|eapply le_new_stream; [exact Hc|exact He|exact Hr]|done| |].
  { by eapply wpf_wp, new_stream_started_spec. }
  intros k w2 [Hh Hk] Hw2 Hs2. assert (lua_steps w w2) by by etrans.
  pose proof (tables_step _ _ _ Hh Ht1) as Ht2.
  destruct (Z.eqb_spec k NULL) as [E|E];
    [by exists NULL; split; [|split; [by split_and!|]]|].
  destruct (Hk E) as [Hnew Hheld]. exists k. split.
  { split; [|done]. intros Hin. by eapply Hnew, (to_held _ _ Ht1). }
  split; [by split_and!|]. intros vs w3 l3 Hw3 Ht3 Hopen. apply wpf_resumed; [done..|].
  intros (Hd & Hes & Hgc)%Hopen v. split_and!; [done..|]. by apply tables_with_stream.
Qed.

(** The engine is told that a stream is not used any more. *)
Lemma stream_close_allowed self r w w1 l :
  winv w1 → lua_steps w w1 → tables_ok w1 l → req_live w1 h r → unwaited w1 l self →
  wpf may_assert (stream_close h self r) (allowed w) (w1, l).
Proof.
  intros Hw Hs Ht Hr Hun. apply wpf_gets. cbn [fst snd].
  destruct (lb_streams l !! self) as [st|] eqn:Est; [|by split_and!].
  case_match eqn:E; [by split_and!|]. apply Z.eqb_neq in E. apply wpf_on_lib.
  destruct (tables_stream _ _ _ _ Ht Est E) as (s & (Hk & (lo & Hlo & Hin) & _) & _).
  apply list_elem_of_split in Hin as (l1 & l2 & ->). assert (r ≠ NULL) as Hr0 by apply Hr.
  assert (patient = true → sc_node s = NULL) as Hidle.
  { intros Hpat. destruct (decide (sc_node s = NULL)) as [|Hn]; [done|].
    by destruct (Hun Hpat st s Est). }
  eapply wpf_allowed_unit;
    [done|eapply le_close_stream; [exact Hk|exact Hlo|by right|done|exact Hidle]| |].
  { apply wpf_wp. eapply close_stream_spec; [done|exact Hk|exact Hlo|by right|done]. }
  intros w' (_ & _ & _ & Hh & _) Hw' Hs'. split_and!; [done|by etrans|].
  eapply tables_shut; [exact Est|done| |exact Ht].
  eapply handles_weaken, Hh; [|done]. by intros p [? _].
Qed.

(** An operation on an open stream; what is left when it yields. *)
Definition yields_to w prefix (k : lua_val → L lua_res) (res : lua_run) (s : world * lib) : Prop :=
  allowed w res s ∧
  match res with
  | Finished x => ∀ v, x ≠ Ok v
  | Yields k' => k' = λ vs, resumed prefix vs k
  end.

Lemma stream_operation_spec prefix r k s opt op rest w l :
  winv w → tables_ok w l → stream_open w k s → engine_ready w → caller_ready w h r →
  sc_is_http s = h → live_op k op →
  (∀ w, stream_open w k s → engine_ready w → caller_ready w h r →
     lua_enabled w (discard (stream_op r h k opt op))) →
  wpf may_assert (stream_operation prefix (stream_op r h k opt op) rest)
    (yields_to w prefix rest) (w, l).
Proof.
  intros Hw Ht Hs He Hr Eh Hlive Hen. apply wpf_reset_err_len; [done..|]. intros w1 Hw1 Hs1 Ht1.
  pose proof He as (g & Hg & Hgt). eapply wpf_allowed; [done|by apply Hen|done| |].
  { apply wpf_wp. rewrite <- Eh.
    eapply stream_op_spec; [done|exact Hs|exact Hg|done|by rewrite Eh|done]. }
  intros rc w2 (_ & _ & _ & _ & Hh & _) Hw2 Hs2.
  assert (lua_steps w w2) by by etrans. pose proof (tables_step _ _ _ Hh Ht1) as Ht2.
  case_match; (split; [by split_and!|done]).
Qed.

(** A method of a stream's table. *)
Lemma stream_method_spec self w l (rest : lua_stream → L lua_run) (Q : lua_run → _ → Prop) :
  tables_ok w l → (∀ x, (∀ v, x ≠ Ok v) → Q (Finished x) (w, l)) →
  (∀ st s, stream_open w (ls_ctx st) s → sc_is_http s = h →
     wpf may_assert (rest st) Q (w, l)) →
  wpf may_assert (t ← stream_tbl self;
    match t with
    | None => finish Raise
    | Some st => if ls_ctx st =? NULL then finish (Fail MSG_lua_closed) else rest st
    end) Q (w, l).
Proof.
  intros Ht HQ Hrest. apply wpf_gets. cbn [fst snd].
  destruct (lb_streams l !! self) as [st|] eqn:Est; [|by apply HQ].
  destruct (Z.eqb_spec (ls_ctx st) NULL) as [E|E]; [by apply HQ|].
  destruct (tables_stream _ _ _ _ Ht Est E) as (s & Hs & Eh). by eapply Hrest.
Qed.

Lemma stream_recv_spec self r w l :
  winv w → tables_ok w l → engine_ready w → caller_ready w h r →
  wpf may_assert (stream_recv h self r) (λ res s, ∃ opt ty,
    yields_to w (lit "failed to recv: ") (decoded opt ty) res s) (w, l).
Proof.
  intros Hw Ht He Hr. apply stream_method_spec; [done| |].
  { intros x Hx. exists (LuaCallOpt None None None), []. split; [by split_and!|done]. }
  intros st s Hs Eh. eapply wpf_mono.
  - eapply stream_operation_spec; [done|done|exact Hs|done..|apply live_recv|].
    intros w1 Hs1 He1 Hr1. rewrite <- Eh in *. by eapply le_recv.
  - intros res s' Hy. by exists (ls_opt st), (ls_output_type st).
Qed.

Lemma yields_allowed w prefix k P res s :
  (∀ v w2 l2, winv w2 → tables_ok w2 l2 → wpf may_assert (k v) (allowed w2) (w2, l2)) →
  yields_to w prefix k res s → run_allowed w P res s.
Proof.
  intros Hk [Ha E]. split; [done|]. destruct res as [x|k']; [done|]. subst k'.
  intros vs w3 l3 Hw3 Ht3 _. apply wpf_resumed; [done..|]. intros _ v. by apply Hk.
Qed.

Lemma stream_recv_allowed self r w l :
  winv w → tables_ok w l → engine_ready w → caller_ready w h r →
  wpf may_assert (stream_recv h self r) (run_allowed w anything) (w, l).
Proof.
  intros Hw Ht He Hr. eapply wpf_mono; [by apply stream_recv_spec|].
  intros res s (opt & ty & Hy). eapply yields_allowed, Hy. intros v w2 l2 Hw2 Ht2.
  by apply wpf_decoded.
Qed.

(** The rest of [recv_close]: the message is decoded, then the stream closed. *)
Lemma close_after_allowed self r w w1 l res :
  winv w1 → lua_steps w w1 → tables_ok w1 l → req_live w1 h r → unwaited w1 l self →
  wpf may_assert (close_after h self r res) (allowed w) (w1, l).
Proof.
  intros Hw Hs Ht Hr Hun. destruct res as [v|e|]; [|by split_and!..].
  apply wpf_bind'. eapply wpf_mono; [by apply stream_close_allowed|].
  intros c [w2 l2] (Hw2 & Hs2 & Ht2). destruct c; by split_and!.
Qed.

Lemma wpf_decoded_same opt ty v w l :
  tables_ok w l → wpf may_assert (decoded opt ty v) (λ _ s, s.1 = w ∧
    tables_ok w s.2 ∧ lb_streams s.2 = lb_streams l) (w, l).
Proof.
  intros Ht. apply wpf_load_state. intros [e|x] l' E1 E2 E3; (split; [done|]);
    (split; [by apply (tables_lib w l)|done]).
Qed.

Lemma wpf_resumed_same prefix opt ty vs w l :
  tables_ok w l →
  wpf may_assert (resumed prefix vs (decoded opt ty)) (λ _ s, s.1 = w ∧
    tables_ok w s.2 ∧ lb_streams s.2 = lb_streams l) (w, l).
Proof.
  intros Ht. unfold resumed.
  repeat case_match; first [by apply wpf_decoded_same|by apply wpf_wp, wp_ret].
Qed.

Lemma recv_close_allowed self r w l :
  winv w → tables_ok w l → engine_ready w → caller_ready w h r →
  wpf may_assert (stream_recv_close h self r)
    (run_allowed w (λ _ w2 l2, req_live w2 h r ∧ unwaited w2 l2 self)) (w, l).
Proof.
  intros Hw Ht He Hr. apply wpf_bind'. eapply wpf_mono; [by apply stream_recv_spec|].
  cbn beta. intros [res|k] [w1 l1] (opt & ty & (Hw1 & Hs1 & Ht1) & E); cbn [fst snd] in *.
  - apply run_allowed_then. destruct res as [v|e|]; [by destruct (E v)|by split_and!..].
  - split; [by split_and!|]. subst k. cbn beta. intros vs w3 l3 Hw3 Ht3 [Hr3 Hun3]. apply wpf_bind'.
    eapply wpf_mono; [by apply wpf_resumed_same|].
    intros res [w4 l4] (E1 & E2 & E3). cbn [fst snd] in E1, E2, E3. subst w4.
    apply close_after_allowed; [done..|]. intros Hpat st s. rewrite E3. by apply Hun3.
Qed.

Lemma R_true_allowed w2 l2 :
  winv w2 → tables_ok w2 l2 → wpf may_assert (mret (Ok R_true) : L lua_res) (allowed w2) (w2, l2).
Proof. by intros; split_and!. Qed.

Lemma stream_send_allowed self r req w l :
  winv w → tables_ok w l → engine_ready w → caller_ready w h r →
  wpf may_assert (stream_send h self r req) (run_allowed w anything) (w, l).
Proof.
  intros Hw Ht He Hr. apply stream_method_spec; [done| |].
  { intros x _. split; [by split_and!|done]. }
  intros st s Hs Eh. apply wpf_load_state. intros [err|data] l1 E1 E2 E3;
    pose proof (tables_lib w l l1 E1 E2 E3 Ht) as Ht1; [by apply run_allowed_finish|].
  eapply wpf_mono.
  - eapply (stream_operation_spec _ _ _ _ _ _ _ w l1);
      [done|done|exact Hs|done..|apply live_send|].
    intros w1 Hs1 He1 Hr1. rewrite <- Eh in *. by eapply le_send.
  - intros res s'. apply yields_allowed. intros _. apply R_true_allowed.
Qed.

Lemma stream_close_send_allowed self r w l :
  winv w → tables_ok w l → engine_ready w → caller_ready w h r →
  wpf may_assert (stream_close_send h self r) (run_allowed w anything) (w, l).
Proof.
  intros Hw Ht He Hr. apply stream_method_spec; [done| |].
  { intros x _. split; [by split_and!|done]. }
  intros st s Hs Eh. eapply wpf_mono.
  - eapply stream_operation_spec; [done|done|exact Hs|done..|apply live_close_send|].
    intros w1 Hs1 He1 Hr1. rewrite <- Eh in *. by eapply le_close_send.
  - intros res s'. apply yields_allowed. intros _. apply R_true_allowed.
Qed.

(** Loading definitions is none of the worker's business. *)
Lemma load_allowed def ty w l P :
  winv w → tables_ok w l →
  wpf may_assert (x ← load def ty; finish x) (run_allowed w P) (w, l).
Proof.
  intros Hw Ht. apply run_allowed_then. apply wpf_get. cbn [fst snd].
  repeat case_match; (split; [done|]); (split; [done|by apply (tables_lib w l)]).
Qed.

(** The collector calls with no request. *)
Lemma collect_allowed f w l P :
  winv w → tables_ok w l → op_ready w l NULL (O_collect f) →
  wpf may_assert (x ← collect h f; finish x) (run_allowed w P) (w, l).
Proof.
  intros Hw Ht Hop. apply run_allowed_then. apply wpf_get. cbn [fst snd].
  case_bool_decide as Hf; [|by split_and!]. apply wpf_on_lib. destruct f as [c|k].
  - destruct (to_lives _ _ Ht c Hf) as (x & Hx & _).
    eapply wpf_allowed_unit; [done|eapply le_close; [exact Hx|by left|done]| |].
    { apply wpf_wp. eapply close_spec; [done|exact Hx|by left|].
      intros _ E k s Hk Hn. by apply (Hop E k s). }
    intros w' (_ & _ & Hh & _) Hw' Hs. split_and!; [done..|].
    eapply tables_unreached; [done| |done]. eapply handles_weaken, Hh; [|done]. by intros p [_ ?].
  - destruct (to_held _ _ Ht k Hf) as (s & lo & Hk & _ & Hlo & Hin).
    apply list_elem_of_split in Hin as (l1 & l2 & ->). destruct (Hop s Hk) as [Hn Hi].
    assert (l1 ++ l2 = [] → conn_idle w (sc_parent s)) as Hidle.
    { intros [-> ->]%app_nil. by apply Hi. }
    eapply wpf_allowed_unit; [done|eapply le_close_stream;
      [exact Hk|exact Hlo|by left|done|done]| |].
    { apply wpf_wp. eapply close_stream_spec; [done|exact Hk|exact Hlo|by left|].
      intros _. split; [done|]. intros E p s' [Hp Hn']. by apply (Hidle E p s'). }
    intros w' (_ & _ & _ & Hh & _) Hw' Hs. split_and!; [done..|].
    eapply tables_unreached; [done| |done]. eapply handles_weaken, Hh; [by intros p [_ ?]|].
    by intros p ->.
Qed.

(** Every operation; [sctx] is the stream that is opened, if one is. *)
Definition op_allowed r (op : lua_op) w (res : lua_run) (s : world * lib) : Prop :=
  ∃ sctx, match op, res with
          | O_new_stream _ _ _ _ _ type, Yields _ => opening type sctx s
          | _, _ => True
          end ∧ run_allowed w (resume_ready r op sctx) res s.

Lemma run_op_allowed r op w l :
  winv w → tables_ok w l → op_ready w l r op →
  wpf may_assert (run_op h r op) (op_allowed r op w) (w, l).
Proof.
  intros Hw Ht Hop.
  destruct op as [def ty|target opt|self|self service method req opt [sctx|]
    |self service method req opt type|self|self|self req|self|self|f];
      cbn [op_ready run_op] in *.
  6: { destruct Hop. eapply wpf_mono; [by apply new_stream_allowed|].
       intros [x|k] s (sctx & Ho & Hr); by exists sctx. }
  all: eapply (wpf_mono _ _ (run_allowed w _)); [|intros res s Hr; by exists NULL].
  - by apply load_allowed.
  - by apply connect_allowed.
  - by apply Conn_close_allowed.
  - destruct Hop as (? & ? & ?). by apply Conn_call_blocking_allowed.
  - destruct Hop. by apply Conn_call_allowed.
  - destruct Hop. by apply run_allowed_then, stream_close_allowed.
  - destruct Hop. by apply stream_recv_allowed.
  - destruct Hop. by apply stream_send_allowed.
  - destruct Hop. by apply stream_close_send_allowed.
  - destruct Hop. by apply recv_close_allowed.
  - by apply collect_allowed.
Qed.
End binding_inv.
