(* ===== verification/ResumeInv.v ===== *)
(** * Resuming a coroutine keeps the invariant and refines one run of it *)
From S2P Require Import Prelude Words Mem Wire TaskQueue Ngx World Waiters Tasks Conn.
From S2P Require Import Stream Handlers EngineSpec Inv InvMoves ConnInv StreamInv EventInv.
From S2P Require Import PutResInv LuaSteps.

Section resume.
Context `{AllocatorLaws} `{NginxLaws} `{GrpcEngineLaws} `{!LuaRuntime} `{!Patience} `{!LuaRuntimeLaws}.
Implicit Types w : world.

Lemma wp_get_lctx h r x (Q : option lua_ctx → world → Prop) w :
  lctx_at w h r x → Q (Some x) w → wp (get_lctx h r) Q w.
Proof.
  intros (Hr & q & Hq & Hx) HQ. apply wp_bind. eapply wp_get_req; [done..|].
  apply wp_ret. by rewrite Hx.
Qed.

(** A call of the environment that is logged first, but for the run of a
    coroutine. *)
Lemma wp_logged {A} x (m : M world A) w :
  winv w → run_of x = None → lua_call x →
  (∀ w, winv w → wp m (λ _ w', lua_steps w w') w) →
  wp (_ ← emit x; m) (λ _ w', env_step [] w w') w.
Proof.
  intros Hw Hx Hl Hm. apply wp_bind, wp_modify. pose proof (env_step_emit w x Hw Hx Hl) as Hs.
  eapply wp_mono; [apply Hm, Hs|]. cbn beta. intros _ w' Hst.
  eapply env_step_trans; [exact Hs|]. apply lua_steps_env; [apply Hs|done].
Qed.

(** The call [ngx_(http|stream)_lua_run_thread], with what was pushed. *)
Lemma run_thread_spec h r co c w :
  winv w → no_waiter w h co → co ≠ NULL → w_cos w !! (h, co) = Some c →
  wp (run_thread h r co) (λ rc w',
    env_step [X_run_thread h r co (co_pushed c)] w w' ∧
    next_run (X_run_thread h r co (co_pushed c)) w w' ∧
    (rc ≠ NGX_AGAIN → rc ≠ NGX_DONE → ∃ x, lctx_at w' h r x)) w.
Proof.
  intros Hw Hno Hco Hc. apply wp_bind. eapply wp_get_co; [done..|].
  apply wp_bind. eapply wp_upd_co; [done..|].
  apply wp_bind, wp_modify. set (w1 := set_cos _ w). set (w2 := set_out _ w1).
  assert (winv w1) as Hw1 by by apply winv_set_cos.
  assert (winv w2) as Hw2 by by apply (winv_irrelevant w1).
  eapply wp_mono; [by apply lua_run_thread_ok|]. cbn beta. intros rc w' [Hl Hrc].
  pose proof (lua_steps_env _ _ Hw2 Hl) as Hs'. split_and!; [| |done].
  - apply (env_step_before [] w w2 w' [X_run_thread h r co (co_pushed c)]); try done;
      [by apply untouched_same|by repeat constructor].
  - eapply next_run_extend; [|by eapply env_step_prefix].
    exists [], []. by rewrite app_nil_l.
Qed.

(** What follows the run of a thread, by its return code. *)
Lemma after_run_spec h r nreqs rc w :
  winv w → (rc ≠ NGX_AGAIN → rc ≠ NGX_DONE → ∃ x, lctx_at w h r x) →
  wp (if rc =? NGX_AGAIN then run_posted_threads h r nreqs else
      if rc =? NGX_DONE then
        _ ← finalize_request h r NGX_DONE;
        run_posted_threads h r nreqs
      else
      lctx ← get_lctx h r;
      match lctx with
      | None => crash NullDeref
      | Some x =>
          if lx_entered_content_phase x then
            _ ← finalize_request h r rc; mret NGX_DONE
          else mret rc
      end) (λ _ w', env_step [] w w') w.
Proof.
  intros Hw Hrc.
  assert (∀ w, winv w → wp (run_posted_threads h r nreqs) (λ _ w', env_step [] w w') w) as Hposted.
  { intros w1 Hw1. apply wp_logged; [done..|]. intros. by apply lua_run_posted_threads_ok. }
  assert (∀ w c, winv w → wp (finalize_request h r c) (λ _ w', env_step [] w w') w) as Hfin.
  { intros w1 c Hw1. apply wp_logged; [done..|]. intros. by apply lua_finalize_request_ok. }
  destruct (Z.eqb_spec rc NGX_AGAIN) as [E|E]; [by apply Hposted|].
  destruct (Z.eqb_spec rc NGX_DONE) as [E'|E'].
  { apply wp_bind. eapply wp_mono; [by apply Hfin|]. cbn beta. intros _ w1 Hs1.
    eapply wp_mono; [apply Hposted, Hs1|]. cbn beta. intros _ w' Hs.
    by eapply env_step_trans. }
  destruct (Hrc E E') as [y Hy]. apply wp_bind. eapply wp_get_lctx; [exact Hy|].
  destruct (lx_entered_content_phase y).
  - apply wp_bind. eapply wp_mono; [by apply Hfin|]. cbn beta. intros _ w1 Hs1.
    by apply wp_ret.
  - by apply wp_ret, env_step_refl.
Qed.

Lemma grpc_cli_resume_spec h r x k s co c w :
  winv w → lctx_at w h r x → lx_cur_co_ctx x = co → co_data c = k →
  deliverable w k s h co c →
  wp (grpc_cli_resume h r) (λ _ w',
    env_step [X_run_thread h r co (co_pushed c ++ delivery w s)] w w' ∧
    next_run (X_run_thread h r co (co_pushed c ++ delivery w s)) w w') w.
Proof.
  intros Hw Hl Hco Hdata Hd. subst co k. destruct (id Hd) as [Hk Hn [Hco Hc] Hno Hres Hun].
  assert (co_data c ≠ NULL) as Hk0 by by eapply winv_live_nonnull.
  apply wp_bind. eapply wp_get_lctx; [exact Hl|]. destruct Hl as (Hr0 & q & Hq & Hx).
  apply wp_bind. eapply wp_get_co; [done..|]. cbv zeta.
  apply wp_bind. eapply wp_w_load_sctx; [done..|].
  apply wp_bind. eapply wp_upd_co; [done..|].
  set (c1 := set_co_data _ c). set (w1 := set_cos _ w).
  assert (winv w1) as Hw1 by by apply winv_set_cos.
  apply wp_bind. eapply wp_upd_lctx; [done|exact Hq|exact Hx|]. set (w2 := set_reqs _ w1).
  assert (winv w2) as Hw2 by by apply winv_set_lctx.
  apply wp_bind. eapply wp_get_req; [done|simpl; apply lookup_insert_eq|]. cbv zeta.
  assert (deliverable w2 (co_data c) s h (lx_cur_co_ctx x) c1) as Hd2.
  { split; try done. split; [done|]. apply lookup_insert_eq. }
  apply wp_bind. eapply wp_mono.
  { apply (wp_leads (hushed none)); [apply silent_put_res|by apply put_res_spec]. }
  cbn beta. intros _ w3 [[Hw3 Hcos3 _ Hout3 Hocc3 Hresl3 Hfl3 Hno3 Hon3 _ _] [_ [Hpend3 [Hst3
    Ht3]]]].
  apply wp_bind. eapply wp_mono.
  { eapply run_thread_spec; [done|done|done|]. rewrite Hcos3. apply lookup_insert_eq. }
  cbn beta. intros rc w4 (Hs4 & Hin4 & Hrc4).
  assert (env_step [X_run_thread h r (lx_cur_co_ctx x) (co_pushed c ++ delivery w s)] w w4)
    as Hs.
  { apply (env_step_before _ w w3 w4 []); [done|by rewrite app_nil_r|done..|constructor|].
    exact Hs4. }
  eapply wp_mono; [apply after_run_spec; [apply Hs4|exact Hrc4]|]. cbn beta.
  intros _ w' Hs'. split; [by eapply env_step_trans|].
  eapply next_run_extend; [|by eapply env_step_prefix].
  apply (next_run_before _ w w3 w4 []); [by rewrite app_nil_r|done|exact Hin4].
Qed.
End resume.
