(* ===== verification/WakeInv.v ===== *)
(** * Waking a stream up: a result is posted, or its timer expires *)
From S2P Require Import Prelude Words Mem Wire TaskQueue Ngx World Waiters Tasks Conn.
From S2P Require Import Stream Handlers EngineSpec Heaps Inv InvMoves Handles ConnInv StreamInv EventInv.
From S2P Require Import PutResInv BlockInv LuaSteps ResumeInv.

Section unkeep.
Context `{AllocatorLaws} `{NginxLaws} `{GrpcEngineLaws}.
Implicit Types w : world.

(** A stream about to wake up: the module has changed it, and its coroutine,
    since the invariant held in [w]. *)
Record waking w (k : Z) (s s' : stream_ctx) (c' : co_ctx) : Prop := {
  wk_inv : winv w;
  wk_ongoing : ongoing w k s;
  wk_same : sc_node s' = sc_node s ∧ sc_parent s' = sc_parent s ∧ sc_type s' = sc_type s ∧
            sc_r s' = sc_r s ∧ sc_is_http s' = sc_is_http s ∧
            sc_wait_co_ctx s' = sc_wait_co_ctx s;
  wk_res : sc_state s' ≠ NGX_GRPC_CLIENT_STATE_TIMEOUT → result_owned w (sc_res s');
}.

Definition woken w (k : Z) (s s' : stream_ctx) (c' : co_ctx) : world :=
  set_cos (<[(sc_is_http s, sc_wait_co_ctx s) := c']> (w_cos w)) (heap_upd k (OSctx s') w).

(** The same, after its task was dropped. *)
Definition awake w (k : Z) (s s' : stream_ctx) (c' : co_ctx) : world :=
  set_cos (<[(sc_is_http s, sc_wait_co_ctx s) := c']> (w_cos w))
    (heap_upd k (OSctx (set_node NULL s')) (unkept k s w)).

Lemma unkept_woken w k s s' c' :
  waking w k s s' c' → unkept k s' (woken w k s s' c') = awake w k s s' c'.
Proof.
  intros [Hw Ho (En & _) _]. destruct (ongoing_node_ne _ _ _ Hw Ho) as (_ & Hne & _).
  unfold unkept, awake, woken, heap_upd, set_cos, set_mem, heap_set. simpl. rewrite En.
  do 2 f_equal. rewrite delete_insert_ne by done. by rewrite !insert_insert_eq.
Qed.

Lemma winv_awake w k s s' c' :
  waking w k s s' c' →
  winv (awake w k s s' c') ∧
  occupied_results (awake w k s s' c') = occupied_results w ∧
  untouched w (awake w k s s' c') ∧
  no_waiter (awake w k s s' c') (sc_is_http s) (sc_wait_co_ctx s).
Proof.
  intros [Hw Ho (En & Ep & Et & _) _]. destruct (id Ho) as [Hk Hn].
  destruct (ongoing_node_ne _ _ _ Hw Ho) as (Hnode & Hne & Hk0).
  destruct (winv_unkept _ _ _ Hw Hk Hn) as [Hw1 Hk1].
  assert (winv (heap_upd k (OSctx (set_node NULL s')) (unkept k s w))) as Hw2.
  { eapply winv_upd_idle_same; [done|exact Hk1|done..]. }
  assert (no_waiter (heap_upd k (OSctx (set_node NULL s')) (unkept k s w))
    (sc_is_http s) (sc_wait_co_ctx s)) as Hno.
  { apply no_waiter_upd_idle; [done|]. intros p s1 Hp E.
    destruct (unkept_ongoing _ _ _ _ _ Hw Ho Hp) as [Hpk Hp']. apply Hpk.
    exact (parked_unique w p k s1 s Hw Hp' Ho E). }
  unfold stream_at in Hk. split_and!; [exact (winv_set_cos _ _ _ c' Hw2 Hno)| | |done].
  - apply occupied_results_ext; [done..|]. intros q r Hq. unfold pev_at in *. simpl.
    rewrite !lookup_insert_ne, lookup_delete_ne by congruence. done.
  - apply winv_untouched; [done..|]. intros p b Hp. simpl.
    rewrite !lookup_insert_ne, lookup_delete_ne by congruence. done.
Qed.

Lemma awake_ongoing w k s s' c' p s1 :
  waking w k s s' c' → ongoing (awake w k s s' c') p s1 ↔ p ≠ k ∧ ongoing w p s1.
Proof.
  intros [Hw Ho _ _]. destruct (winv_unkept _ _ _ Hw (proj1 Ho) (proj2 Ho)) as [_ Hk1].
  rewrite <- (unkept_ongoing_iff w k s) by done.
  exact (upd_idle_ongoing _ k _ (set_node NULL s') Hk1 eq_refl eq_refl p s1).
Qed.

(** What is still under way is as it was. *)
Lemma truthful_awake w k s s' c' :
  waking w k s s' c' → truthful w → truthful (awake w k s s' c').
Proof.
  intros Hwk. destruct (winv_awake _ _ _ _ _ Hwk) as (_ & Hocc & Hfl & _).
  apply (truthful_less none); [by apply trusted_same|by rewrite Hocc, (proj1 Hfl)|].
  intros p (s1 & [_ Hs]%awake_ongoing & Hty); [|done]. split; [by exists s1|by intros []].
Qed.

Lemma awake_deliverable w k s s' c' :
  waking w k s s' c' →
  deliverable (awake w k s s' c') k (set_node NULL s') (sc_is_http s) (sc_wait_co_ctx s) c'.
Proof.
  intros Hwk. destruct (winv_awake _ _ _ _ _ Hwk) as (Hw' & Hocc & Hfl & Hno).
  destruct Hwk as [Hw Ho (En & Ep & Et & _) Hres]. destruct (id Ho) as [Hk Hn].
  destruct (ongoing_node_ne _ _ _ Hw Ho) as (Hnode & _ & _).
  destruct (wi_parked _ Hw _ _ Hk Hn) as (Hco & _).
  assert (∀ p o, cm_heap (w_mem w) !! p = Some o → (∀ s, o ≠ OSctx s) → (∀ y, o ≠ ONode y) →
    cm_heap (w_mem (awake w k s s' c')) !! p = Some o) as Hkeep.
  { intros p o Hp Ho1 Ho2. unfold stream_at in Hk. simpl.
    rewrite !lookup_insert_ne, lookup_delete_ne; [done|..].
    - intros <-. rewrite Hnode in Hp. injection Hp as <-. by edestruct Ho2.
    - intros <-. rewrite Hk in Hp. injection Hp as <-. by edestruct Ho1.
    - intros <-. rewrite Hk in Hp. injection Hp as <-. by edestruct Ho1. }
  split.
  - apply lookup_insert_eq.
  - done.
  - split; [done|]. apply lookup_insert_eq.
  - done.
  - simpl. intros Hst. destruct (Hres Hst) as [Hok Hown].
    split; [|intros Hp; apply (spare_same w); [done|done|done|apply Hfl|by apply Hown]].
    eapply res_ok_mono; [exact Hok|]. intros p b _ _ Hp. by apply Hkeep.
  - simpl. rewrite Et, Ep. intros Ht. split; [by eapply winv_unary_unlinked|].
    destruct (wi_parent _ Hw _ _ Hk Hn) as [x Hx]. exists x. by apply Hkeep.
Qed.
End unkeep.

Section to_resume.
Context `{AllocatorLaws} `{NginxLaws} `{GrpcEngineLaws} `{!LuaRuntime} `{!Patience} `{!LuaRuntimeLaws}.
Implicit Types w : world.

(** The run of the coroutine [co] of the request [r] that a stream asks for. *)
Definition resumed_with w (s : stream_ctx) (c : co_ctx) : ext_call :=
  X_run_thread (sc_is_http s) (sc_r s) (sc_wait_co_ctx s) (co_pushed c ++ delivery w s).

(** The stream and its coroutine when the coroutine is about to run. *)
Definition entered (k : Z) (s : stream_ctx) (c : co_ctx) : stream_ctx :=
  set_prev_data (co_data c) (set_wait_co_ctx NULL s).

Definition entering w (k : Z) (s : stream_ctx) (h : bool) (co : Z) (c : co_ctx) : world :=
  set_cos (<[(h, co) := set_co_data k c]> (w_cos w)) (heap_upd k (OSctx (entered k s c)) w).

Lemma deliverable_reqs f w k s h co c :
  deliverable w k s h co c → deliverable (set_reqs f w) k s h co c.
Proof. intros [D1 D2 D3 D4 D5 D6]. by split. Qed.

Lemma entering_steady w k s h co c :
  winv w → deliverable w k s h co c →
  winv (entering w k s h co c) ∧ steady w (entering w k s h co c).
Proof.
  intros Hw [Hk Hn [Hco Hc] Hno _ _]. split.
  - assert (winv (heap_upd k (OSctx (entered k s c)) w)) as Hw1 by by eapply winv_upd_idle_same.
    exact (winv_set_cos _ h co _ Hw1 (no_waiter_upd_idle _ _ (entered k s c) _ _ Hn Hno)).
  - pose proof (same_env_upd_idle w k s (entered k s c) Hk Hn Hn
      (or_introl (conj eq_refl eq_refl))) as He.
    destruct (se_calm _ _ He). split; [by split|exact (se_ongoing _ _ He)].
Qed.

Lemma entering_deliverable w k s h co c :
  winv w → deliverable w k s h co c →
  deliverable (entering w k s h co c) k (entered k s c) h co (set_co_data k c) ∧
  delivery (entering w k s h co c) (entered k s c) = delivery w s.
Proof.
  intros Hw Hd. destruct (entering_steady _ _ _ _ _ _ Hw Hd) as [Hw' [Hcalm _]].
  destruct Hd as [Hk Hn [Hco Hc] Hno Hres Hun]. split.
  - split.
    + apply lookup_insert_eq.
    + done.
    + split; [done|apply lookup_insert_eq].
    + exact (no_waiter_upd_idle _ _ (entered k s c) _ _ Hn Hno).
    + intros Hst. destruct (Hres Hst) as [Hok Hown]. split.
      * eapply res_ok_mono; [exact Hok|]. intros p b _ _. by apply (upd_sctx_buf _ _ s).
      * intros Hp. by apply (spare_same w); [done|apply calm_results|done|apply Hcalm|apply Hown].
    + intros Ht. destruct (Hun Ht) as (Hnl & y & Hy). split; [done|]. exists y.
      exact (proj2 (se_ctx _ _ (same_env_upd_idle w k s (entered k s c) Hk Hn Hn
      (or_introl (conj eq_refl eq_refl))) _ y) Hy).
  - apply (delivery_upd w k s); [done|]. intros Hst. by apply Hres.
Qed.

(** The coroutine runs; a request that is not in its content phase yet is brought
    there first. *)
Lemma enter_run h k s co c x w :
  winv w → deliverable w k s h co c → co_data c = k → lctx_at w h (sc_r s) x →
  lx_cur_co_ctx x = co →
  wp (if lx_entered_content_phase x then grpc_cli_resume h (sc_r s) ≫= λ _, mret tt
      else
        _ ← upd_lctx h (sc_r s) (λ x, LuaCtx (lx_context x) (lx_cur_co_ctx x)
                                    (lx_entered_content_phase x) H_grpc_resume);
        _ ← emit (X_run_phases h (sc_r s));
        ngx_core_run_phases h (sc_r s) (grpc_cli_resume h (sc_r s)))
    (λ _ w', env_step [X_run_thread h (sc_r s) co (co_pushed c ++ delivery w s)] w w' ∧
      next_run (X_run_thread h (sc_r s) co (co_pushed c ++ delivery w s)) w w') w.
Proof.
  intros Hw Hd Hdata Hl Hcur. pose proof Hl as (Hr0 & q & Hq & Hx).
  destruct (lx_entered_content_phase x) eqn:Ex.
  { apply wp_bind. eapply wp_mono; [by eapply grpc_cli_resume_spec|]. cbn beta.
    intros _ w' Hs'. by apply wp_ret. }
  apply wp_bind. eapply wp_upd_lctx; [done|exact Hq|done|]. set (w1 := set_reqs _ w).
  assert (winv w1) as Hw1 by by apply winv_set_lctx.
  apply wp_bind, wp_modify. set (w2 := set_out _ w1).
  assert (winv w2) as Hw2 by by apply (winv_irrelevant w1).
  eapply wp_mono.
  { eapply (ngx_core_run_phases_ok _ _ _ (λ w', env_step _ w2 w' ∧ next_run _ w2 w') w2 Hw2).
    - intros w1' w2' [Hs1 Hin] Hlua. pose proof (lua_steps_env _ _ (proj1 Hs1) Hlua) as Hs2.
      split; [by eapply env_step_trans|].
      eapply next_run_extend; [done|by eapply env_step_prefix].
    - eapply (grpc_cli_resume_spec h (sc_r s) (LuaCtx (lx_context x) (lx_cur_co_ctx x)
        (lx_entered_content_phase x) H_grpc_resume) k s co c w2);
          [exact Hw2| |exact Hcur|exact Hdata|].
      + split; [done|]. eexists. split; [apply lookup_insert_eq|done].
      + destruct Hd as [D1 D2 D3 D4 D5 D6]. by split. }
  cbn beta. intros _ w' [Hs' Hin]. split.
  - apply (env_step_before _ w w2 w' [X_run_phases h (sc_r s)]); try done;
      [by apply untouched_same|by repeat constructor].
  - by apply (next_run_before _ w w2 w' [X_run_phases h (sc_r s)]).
Qed.

Lemma to_resume_in_spec h k s co c x w :
  winv w → deliverable w k s h co c → sc_wait_co_ctx s = co → lctx_at w h (sc_r s) x →
  wp (to_resume_in h k (sc_r s) (grpc_cli_resume h)) (λ _ w',
    env_step [X_run_thread h (sc_r s) co (co_pushed c ++ delivery w s)] w w' ∧
    next_run (X_run_thread h (sc_r s) co (co_pushed c ++ delivery w s)) w w') w.
Proof.
  intros Hw Hd Hwait Hl. destruct (id Hd) as [Hk Hn [Hco Hc] Hno Hres Hun].
  assert (k ≠ NULL) as Hk0 by by eapply winv_live_nonnull.
  apply wp_bind. eapply wp_get_lctx; [exact Hl|]. destruct Hl as (Hr0 & q & Hq & Hx).
  apply wp_bind. eapply wp_w_load_sctx; [done..|]. cbv zeta. rewrite Hwait.
  apply wp_bind. eapply wp_upd_lctx; [done|exact Hq|exact Hx|].
  set (x1 := LuaCtx _ co _ _). set (w1 := set_reqs _ w).
  assert (winv w1) as Hw1 by by apply winv_set_lctx.
  pose proof (deliverable_reqs (<[(h, sc_r s) := Request (rq_conn_requests q) (Some x1)]> (w_reqs
    w))
    _ _ _ _ _ _ Hd) as Hd1. fold w1 in Hd1.
  apply wp_bind. eapply (wp_w_upd_sctx _ s); [done|exact Hk|].
  apply wp_bind. eapply wp_get_co; [done|exact Hc|].
  apply wp_bind. eapply (wp_w_upd_sctx _ (set_wait_co_ctx NULL s)); [done|apply lookup_insert_eq|].
  rewrite heap_upd_twice. apply wp_bind. eapply wp_upd_co; [done|exact Hc|].
  change (set_cos _ _) with (entering w1 k s h co c).
  destruct (entering_steady _ _ _ _ _ _ Hw1 Hd1) as [Hw2 [Hcalm Hon]].
  destruct (entering_deliverable _ _ _ _ _ _ Hw1 Hd1) as [Hd2 Hdel].
  change (delivery w1 s) with (delivery w s) in Hdel.
  eapply wp_mono.
  { apply (enter_run h k (entered k s c) co (set_co_data k c) x1 (entering w1 k s h co c));
      [exact Hw2|exact Hd2|done| |done].
    split; [done|]. eexists. split; [apply lookup_insert_eq|done]. }
  cbn beta. rewrite Hdel. intros _ w' [Hs' Hin].
  split; [|apply (next_run_before _ w (entering w1 k s h co c) w' []);
    [by rewrite app_nil_r|done..]].
  apply (env_step_before _ w (entering w1 k s h co c) w' []); try done.
  - by rewrite app_nil_r.
  - by apply (calm_results w1).
  - exact (cm_flight _ _ Hcalm).
Qed.

(** The task [k] has ended, and its coroutine was run: what an [env_step] keeps, but
    that [k] is waited for no longer. *)
Definition task_ended w (k : Z) w' : Prop :=
  winv w' ∧ queue_of (w_qs w') q_occupied = queue_of (w_qs w) q_occupied ∧
  occupied_results w' = occupied_results w ∧ untouched w w' ∧
  (∀ p, untracked w' p → p ≠ k ∧ untracked w p) ∧ sim [] w w'.

Lemma task_ended_trans w k w1 w2 :
  task_ended w k w1 → env_step [] w1 w2 → task_ended w k w2.
Proof.
  intros (_ & Q1 & O1 & F1 & T1 & S1) (Hw & Q2 & O2 & F2 & T2 & S2).
  split; [done|]. split; [congruence|]. split; [congruence|].
  split; [by apply (untouched_trans w w1); [rewrite O1|..]|]. split; [|by eapply sim_trans].
  intros p Hp%(ld_tracks _ _ _ T2). by apply T1.
Qed.

(** What [ngx_grpc_cli_to_resume] does once the task is dropped: the coroutine of the
    stream [k] is run for the request [r]. *)
Definition wake_coroutine (h : bool) (k r : Z) : M world unit :=
  if h then
    _ ← to_resume_in true k r ngx_http_grpc_cli_resume;
    _ ← emit (X_run_posted_requests r);
    ngx_http_run_posted_requests r
  else to_resume_in false k r ngx_stream_grpc_cli_resume.

Lemma to_resume_wake k :
  ngx_grpc_cli_to_resume k =
    (_ ← ngx_grpc_cli_unkeep_task k; s ← mem (load_sctx k); wake_coroutine (sc_is_http s) k (sc_r s)).
Proof. reflexivity. Qed.

(** From the changes that precede it to the end of [ngx_grpc_cli_to_resume]. *)
Lemma to_resume_spec k s s' c' w :
  waking w k s s' c' →
  wp (ngx_grpc_cli_to_resume k) (λ _ w',
    wake_coroutine (sc_is_http s) k (sc_r s) (awake w k s s' c') = Done tt w' ∧ task_ended w k w' ∧
    next_run (resumed_with w s' c') w w' ∧ (alerted w = true → alerted w' = true) ∧
    (patient = true → (watched w → watched w') ∧
       (orderly (awake w k s s' c') → orderly w' ∧ (truthful w → truthful w')) ∧
       (∀ p s1, p ≠ k → ongoing w p s1 → ongoing w' p s1)))
    (woken w k s s' c').
Proof.
  intros Hwk. destruct (winv_awake _ _ _ _ _ Hwk) as (Hw1 & Hocc1 & Hfl1 & Hno1).
  pose proof (awake_deliverable _ _ _ _ _ Hwk) as Hd.
  pose proof (unkept_woken _ _ _ _ _ Hwk) as Eun.
  pose proof (λ p s1, awake_ongoing _ _ _ _ _ p s1 Hwk) as Hon1.
  destruct Hwk as [Hw Ho (En & Ep & Et & Er & Eh & Ewt) Hres].
  destruct (ongoing_node_ne _ _ _ Hw Ho) as (Hnode & Hne & Hk0). destruct (id Ho) as [Hk Hn].
  destruct (wi_parked _ Hw _ _ Hk Hn) as (Hco & Hr0 & _ & (q & x & Hq & Hx) & _).
  rewrite to_resume_wake.
  apply wp_bind. eapply (wp_unkeep_task k s'); [done|apply lookup_insert_eq|congruence|].
  intros _. rewrite En. split_and!; [|done|].
  { simpl. rewrite lookup_insert_ne by done. by eexists. }
  rewrite Eun. set (w1 := awake w k s s' c') in *. set (s1 := set_node NULL s') in *.
  assert (delivery w1 s1 = delivery w s') as Hdel.
  { unfold delivery. change (sc_state s1) with (sc_state s'). change (sc_res s1) with (sc_res s').
    destruct (decide (sc_state s' = _)) as [|Hst]; [done|]. unfold payload.
    destruct (Hres Hst) as [(_ & _ & Hr) _].
    destruct (decide (res_ptr _ = NULL)) as [E|E]; [by rewrite Hr|].
    destruct Hr as (_ & b & Hb & _). rewrite Hb. unfold stream_at in Hk. simpl.
    rewrite !lookup_insert_ne, lookup_delete_ne by congruence. by rewrite Hb. }
  apply wp_bind. eapply (wp_w_load_sctx _ s1); [done|apply lookup_insert_eq|].
  assert (wp (to_resume_in (sc_is_http s) k (sc_r s1) (grpc_cli_resume (sc_is_http s)))
    (λ _ w', task_ended w k w' ∧ next_run (resumed_with w s' c') w w' ∧
      (alerted w = true → alerted w' = true) ∧
      (patient = true → (watched w → watched w') ∧
         (orderly w1 → orderly w' ∧ (truthful w → truthful w')) ∧
         (∀ p s1, p ≠ k → ongoing w p s1 → ongoing w' p s1))) w1) as Hin.
  { eapply wp_mono.
    - eapply (to_resume_in_spec _ k s1 _ c' x); [done|exact Hd|done|].
      split; [simpl; congruence|]. exists q. split; [|done]. simpl. by rewrite Er.
    - cbn beta. rewrite Hdel. intros _ w' [(Hw' & Q & O & F & [T Ord Wd Tr Kp A] & S) Hi].
      split; [|split; [|split; [exact A|intros Hpat; split; [by apply Wd|split]]]].
      1: split; [done|]; split; [by rewrite Q|]; split; [by rewrite O|];
         split; [by apply (untouched_trans w w1); [rewrite Hocc1|..]|]; split.
      + intros p Hp. destruct (T p Hp) as [[s2 [Hpk Hs2]%Hon1] Hno]. split; [done|].
        split; [by exists s2|]. unfold owed in *. rewrite Hocc1, (proj1 Hfl1) in Hno. exact Hno.
      + eapply (sim_run w w1 w' k s); [done|done|exact Hon1|done|].
        change (sc_r s1) with (sc_r s') in S. rewrite Er in S. exact S.
      + unfold resumed_with. by rewrite Eh, Ewt.
      + intros Ho1. split; [by apply Ord|]. intros Htw. apply Tr; [done..|].
        by apply (truthful_awake w k s s' c').
      + intros p s2 Hp Hs2. apply Kp; [done|by intros []|]. by apply Hon1. }
  assert (sc_is_http s1 = sc_is_http s) as Eh1 by exact Eh.
  assert (sc_r s1 = sc_r s) as Er1 by exact Er. rewrite Er1 in Hin. rewrite Eh1, Er1.
  apply wp_eqn_unit.
  destruct (sc_is_http s); [|exact Hin].
  apply wp_bind. eapply wp_mono; [exact Hin|]. cbn beta. intros _ w2 (Hs2 & Hin2 & Ha2 & Hun2).
  eapply wp_mono; [apply wp_logged; [apply Hs2|done|done|apply ngx_http_run_posted_requests_ok]|].
  cbn beta. intros _ w3 Hs3. split; [by eapply task_ended_trans|].
  split; [eapply next_run_extend; [done|by eapply env_step_prefix]|].
  destruct Hs3 as (_ & _ & _ & _ & [_ Ord Wd Tr Kp A] & _). split; [auto|].
  intros Hpat. destruct (Hun2 Hpat) as (Hwd2 & Ho2 & Hk2). split; [auto|]. split.
  - intros Ho1. destruct (Ho2 Ho1) as [Ho3 Htr2]. split; auto.
  - intros p s2 Hp Hon2. apply Kp; [done|by intros []|]. by apply Hk2.
Qed.
End to_resume.

(** ** The posted event *)

Section post_event.
Context `{AllocatorLaws} `{NginxLaws} `{GrpcEngineLaws} `{!LuaRuntime} `{!Patience} `{!LuaRuntimeLaws}.
Implicit Types w : world.

(** The coroutine context once it is disarmed. *)
Definition disarmed (c : co_ctx) : co_ctx :=
  set_co_cleanup H_none
    (if ev_timer_set (co_sleep c) then set_co_sleep (ngx_del_timer (co_sleep c)) c else c).

Lemma wp_disarm h co c (Q : unit → world → Prop) w :
  co ≠ NULL → w_cos w !! (h, co) = Some c →
  Q tt (set_cos (<[(h, co) := disarmed c]> (w_cos w)) w) →
  wp (disarm h co) Q w.
Proof.
  intros Hco Hc HQ. apply wp_bind. eapply wp_get_co; [done..|]. unfold disarmed in HQ.
  apply wp_bind, wp_when; intros E; rewrite E in HQ.
  - eapply wp_upd_co; [done|exact Hc|]. eapply wp_upd_co; [done|apply lookup_insert_eq|].
    simpl. by rewrite insert_insert_eq.
  - eapply wp_upd_co; [done|exact Hc|]. exact HQ.
Qed.

Lemma disarmed_off c :
  ev_timer_set (co_sleep (disarmed c)) = false ∧ co_cleanup (disarmed c) = H_none ∧
  co_pushed (disarmed c) = co_pushed c ∧ co_data (disarmed c) = co_data c.
Proof.
  unfold disarmed. destruct (ev_timer_set (co_sleep c)) eqn:E; [|done]. simpl.
  split; [apply ev_del_timer|done].
Qed.

(** What becomes of the result [r], the first that is posted.  If a stream waits for it,
    the result is stored in the stream, its task dropped, its coroutine disarmed, and
    what follows is that the coroutine is woken up; it is run first, with the result.
    Else the buffer is released.  When nobody gives up, whoever waits for another task
    still does.  The results that are still posted are what they were. *)
Definition handled w (r : task_res) w' : Prop :=
  let k := tr_task_id r in
  ((∃ s c, ongoing w k s ∧ w_cos w !! (sc_is_http s, sc_wait_co_ctx s) = Some c ∧
      wake_coroutine (sc_is_http s) k (sc_r s)
        (awake (popped (ngx_queue_head q_occupied (w_qs w)) w) k s (set_res r s) (disarmed c))
        = Done tt w' ∧
      next_run (resumed_with w (set_res r s) (disarmed c)) w w') ∨
   ((¬ ∃ s, ongoing w k s) ∧ w_out w' = w_out w ∧
      cm_heap (w_mem w') !! res_ptr (tr_buf r) = None)) ∧
  (patient = true → ∀ p s, p ≠ k → ongoing w p s → ongoing w' p s) ∧
  (∀ r', r' ∈ occupied_results w' → payload w' r' = payload w r').

Lemma payload_kept w w' r :
  winv w → winv w' → untouched w w' → r ∈ occupied_results w → payload w' r = payload w r.
Proof.
  intros Hw Hw' [_ Hd] Hr. unfold payload.
  destruct (decide (res_ptr (tr_buf r) = NULL)) as [E|E].
  { by rewrite E, (wi_null _ Hw), (wi_null _ Hw'). }
  assert (res_ptr (tr_buf r) ∈ res_bufs (occupied_results w)) as Hin.
  { apply list_elem_of_filter. split; [done|]. apply list_elem_of_fmap. by exists r. }
  destruct (res_bufs_live _ _ _ (wi_results _ Hw) Hin) as (_ & b & Hb).
  rewrite Hb, (Hd _ b); [done| |done]. unfold res_bufs in *. rewrite map_app, filter_app.
  apply elem_of_app. by left.
Qed.

Lemma pop_result_owned w q l :
  winv w → queue_of (w_qs w) q_occupied = Some (q :: l) →
  let w1 := popped q w in
  ∃ r, pev_at w q r ∧ winv w1 ∧ queue_of (w_qs w1) q_occupied = Some l ∧
    occupied_results w = r :: occupied_results w1 ∧ result_owned w1 r.
Proof.
  intros Hw Hl w1. destruct (winv_pop w q l Hw Hl) as (r & Hr & Hw1 & Hl1 & Hocc & _ & Hok & Hown).
  exists r. split_and!; try done.
Qed.

Lemma cancelled_spec q r w :
  winv w → pev_at w q r → (∀ l, queue_of (w_qs w) q_occupied = Some l → q ∉ l) →
  result_owned w r →
  wp (_ ← mem (upd_pev q (set_tr_buf (res_ptr (tr_buf r))));
      eng (grpc_engine_free (res_ptr (tr_buf r)))) (λ _ w',
    env_step [] w w' ∧ w_out w' = w_out w ∧
    cm_heap (w_mem w') !! res_ptr (tr_buf r) = None) w.
Proof.
  intros Hw Hq Hnl [Hok Hown]. assert (q ≠ NULL) as Hq0 by by eapply winv_live_nonnull.
  apply wp_bind, wp_mem. eapply wp_upd_pev; [done|exact Hq|].
  set (r1 := set_tr_buf _ _). change (set_mem _ w) with (heap_upd q (OPev r1) w).
  destruct (winv_upd_pev w q r r1 Hw Hq Hnl) as [Hw1 Hocc1]. set (w1 := heap_upd _ _ w) in *.
  assert (∀ p o, (∀ y, o ≠ OPev y) →
    cm_heap (w_mem w1) !! p = Some o ↔ cm_heap (w_mem w) !! p = Some o) as Hkeep.
  { intros p o Ho. unfold pev_at in Hq. simpl. destruct (decide (p = q)) as [->|].
    - rewrite lookup_insert_eq, Hq. split; intros [= <-]; by edestruct Ho.
    - by rewrite lookup_insert_ne. }
  assert (untouched w w1) as Hfl1.
  { apply winv_untouched; [done..|]. intros p b Hp. by apply Hkeep. }
  apply wp_eng_free; intros Hp.
  - split_and!; [|done|rewrite Hp; apply Hw1].
    apply (env_step_silent none); try done; [|by intros _ ? ? _ []].
    intros p s. unfold ongoing, stream_at. by rewrite Hkeep.
  - pose proof (Hown Hp) as Hsp. destruct Hok as (_ & _ & Hr).
    rewrite decide_False in Hr by done. destruct Hr as (_ & b & Hb & _).
    assert (cm_heap (w_mem w1) !! res_ptr (tr_buf r) = Some (OBuf b)) as Hb1.
    { by apply Hkeep. }
    split; [by eexists|].
    apply (spare_same w w1) in Hsp; [|done|done|done|apply Hfl1].
    assert (winv (del_obj (res_ptr (tr_buf r)) w1)) as Hw2 by by eapply winv_del_buf.
    destruct (del_buf_steady _ _ _ Hw1 Hb1 Hsp) as [Hcalm Hon].
    split_and!; [|done|apply lookup_delete_eq].
    apply (env_step_silent none); try done; [..|by intros _ ? ? _ []].
    + rewrite <- Hocc1. by apply calm_results.
    + apply (untouched_trans w w1); [by rewrite Hocc1|done|apply Hcalm].
    + intros p s. rewrite Hon. unfold ongoing, stream_at. by rewrite Hkeep.
Qed.

Lemma owed_pop w w1 r :
  pending w1 = pending w → flight_results w1 = flight_results w →
  occupied_results w = r :: occupied_results w1 → owed w = {[+ tr_task_id r +]} ⊎ owed w1.
Proof.
  intros Ep Ef Eo. unfold owed, res_ids. rewrite Ep, Ef, Eo, !map_app, !list_to_set_disj_app.
  simpl. multiset_solver.
Qed.

(** A result for nobody who waits can be taken from the queue. *)
Lemma tracks_pop w w1 w' r :
  (∀ p s, ongoing w1 p s ↔ ongoing w p s) → pending w1 = pending w →
  flight_results w1 = flight_results w → occupied_results w = r :: occupied_results w1 →
  (∀ p, untracked w' p → p ≠ tr_task_id r ∧ untracked w1 p) → tracks w w'.
Proof.
  intros Hon Ep Ef Eo Hun p [Hpr [[s Hs] Hno]]%Hun. split; [exists s; by apply Hon|].
  unfold owed, res_ids in *. rewrite <- Ep, <- Ef, Eo. rewrite map_app, list_to_set_disj_app in *.
  simpl. multiset_solver.
Qed.

Lemma truthful_pop w w1 r :
  (∀ p s, ongoing w1 p s ↔ ongoing w p s) → flight_results w1 = flight_results w →
  occupied_results w = r :: occupied_results w1 → trusted none w w1 → truthful w → truthful w1.
Proof.
  intros Hon Ef Eo Ht. apply (truthful_less none); [done|rewrite Ef, Eo; set_solver|].
  intros k (s & Hs%Hon & Hty). split; [by exists s|by intros []].
Qed.

(** Nothing is claimed of those who wait. *)
Definition whoever (_ : Z) : Prop := True.

Lemma ledger_pop w w1 w' r :
  (∀ p s, ongoing w1 p s ↔ ongoing w p s) → pending w1 = pending w →
  flight_results w1 = flight_results w → occupied_results w = r :: occupied_results w1 →
  (∀ p, untracked w' p → p ≠ tr_task_id r) → staffed w w1 → trusted none w w1 →
  ledger none w1 w' → ledger whoever w w'.
Proof.
  intros Hon Ep Ef Eo Hun Hst Ht [Htr Hord Hwd Htw Hkp Ha].
  assert (orderly w → orderly w1) as Ho1.
  { apply (orderly_less w); [|intros k s Hk; exists s; by apply Hon].
    rewrite (owed_pop w w1 r) by done. multiset_solver. }
  split.
  - apply (tracks_pop w w1 w' r); [done..|]. intros p Hp. split; [by apply Hun|by apply Htr].
  - auto.
  - intros Hpat Ho. apply Hwd; [done|]. by apply (watched_same w).
  - intros Hpat Ho Htru. apply Htw; [auto..|]. by apply (truthful_pop w w1 r).
  - by intros _ p s [].
  - intros Hal. by apply Ha, Hst.
Qed.

Lemma post_event_one_spec q l w :
  winv w → queue_of (w_qs w) q_occupied = Some (q :: l) →
  wp (post_event_one q) (λ _ w', winv w' ∧ queue_of (w_qs w') q_occupied = Some l ∧
    sim [] w w' ∧ flight_results w' = flight_results w ∧ ledger whoever w w' ∧
    ∃ r, occupied_results w = r :: occupied_results w' ∧ handled w r w') w.
Proof.
  intros Hw Hl. destruct (pop_result_owned w q l Hw Hl) as (r & Hq & Hw1 & Hl1 & Hocc & Hown).
  set (w1 := popped q w) in *. assert (q ≠ NULL) as Hq0 by by eapply winv_live_nonnull.
  assert (∀ l, queue_of (w_qs w1) q_occupied = Some l → q ∉ l) as Hnl.
  { rewrite Hl1. intros l' [= <-] Hin. destruct (wi_queues _ Hw) as [Hnd _].
    specialize (Hnd _ _ Hl). by apply NoDup_cons in Hnd as [? _]. }
  do 2 (apply wp_bind, wp_modify). change (set_qs _ (set_qs _ w)) with w1.
  apply wp_bind. eapply wp_w_load_pev; [done|exact Hq|].
  apply wp_bind, wp_gets.
  destruct (Z.eqb_spec (lookup_walk (tr_task_id r) (w_tree w1)) NULL) as [E|E].
  - eapply wp_mono; [by apply cancelled_spec|]. cbn beta. intros _ w' (Hs & Hout & Hfr).
    destruct (id Hs) as (Hw' & Hl' & Hocc' & Hfl' & Hled & Hsim).
    assert (¬ ∃ s, ongoing w1 (tr_task_id r) s) as Hoff.
    { intros Hon. by apply (tree_inv_lookup w1) in Hon; [|apply Hw1]. }
    split; [done|]. split; [by rewrite Hl'|]. split; [exact Hsim|].
    split; [apply Hfl'|]. split.
    { apply (ledger_pop w w1 w' r); [done..| |by apply staffed_same|by apply trusted_same|done].
      intros p Hp%(ld_tracks _ _ _ Hled) ->. by apply Hoff, Hp. }
    exists r. split; [by rewrite Hocc'|]. split; [by right|]. split.
    + intros Hpat p s _ Hon. apply (ld_kept _ _ _ Hled); [done|by intros []|exact Hon].
    + intros r' Hr'. apply (payload_kept w1); [done..|]. by rewrite <- Hocc'.
  - apply (tree_inv_lookup w1) in E as (s & Hk & Hn); [|apply Hw1].
    set (k := tr_task_id r) in *. assert (ongoing w1 k s) as Hon by done.
    assert (k ≠ NULL) as Hk0 by by eapply (winv_live_nonnull w1).
    destruct (wi_parked _ Hw1 _ _ Hk Hn) as (Hco & _ & (c & Hc & _) & _).
    cbv zeta. apply wp_bind. eapply (wp_w_upd_sctx _ s); [done|exact Hk|].
    apply wp_bind. eapply wp_w_load_sctx; [done|apply lookup_insert_eq|].
    apply wp_bind. eapply wp_disarm; [done|exact Hc|].
    assert (waking w1 k s (set_res r s) (disarmed c)) as Hwk by by split.
    eapply wp_mono; [exact (to_resume_spec k s (set_res r s) (disarmed c) w1 Hwk)|].
    cbn beta. intros _ w' (Ewake & (Hw' & Hl' & Hocc' & Hfl' & Hun & Hsim) & Hin & Ha & Hord).
    destruct (winv_awake _ _ _ _ _ Hwk) as (_ & Hocc2 & Hfl2 & _).
    split; [done|]. split; [by rewrite Hl'|]. split; [exact Hsim|].
    split; [apply Hfl'|]. split.
    { assert (orderly w → orderly (awake w1 k s (set_res r s) (disarmed c))) as Ho1.
      { apply (orderly_end w _ k).
        - rewrite (owed_pop w w1 r) by done. unfold owed. by rewrite Hocc2, (proj1 Hfl2).
        - intros p s2 Hpk Hs2. apply (awake_ongoing w1); [done|]. by split. }
      split; [by apply (tracks_pop w w1 w' r)|intros Hpat..|by intros _ p s1 []|exact Ha];
        destruct (Hord Hpat) as (Hwd & Hord' & _).
      - intros Ho. by apply Hord', Ho1.
      - intros Hwd1. by apply Hwd.
      - intros Ho Htr. apply Hord'; [by apply Ho1|].
        apply (truthful_pop w w1 r); [done..|by apply trusted_same|done]. }
    exists r. split; [by rewrite Hocc'|]. split.
    + left. exists s, c. by rewrite (queue_head_cons _ _ _ _ Hl).
    + split.
      * intros Hpat p s1 Hp Hs1. destruct (Hord Hpat) as (_ & _ & Hkp). by apply Hkp.
      * intros r' Hr'. apply (payload_kept w1); [done..|]. by rewrite <- Hocc'.
Qed.

(** Each result, in order, is handled in the state the earlier rounds of the loop led
    to. *)
Inductive handled_all : world → list task_res → world → Prop :=
| HA_nil w : handled_all w [] w
| HA_cons w r rs w1 w' :
    winv w → occupied_results w = r :: occupied_results w1 →
    post_event_one (ngx_queue_head q_occupied (w_qs w)) w = Done tt w1 →
    handled w r w1 → w_out w `prefix_of` w_out w1 →
    handled_all w1 rs w' → handled_all w (r :: rs) w'.

Lemma handled_all_prefix w rs w' : handled_all w rs w' → w_out w `prefix_of` w_out w'.
Proof. induction 1; [done|by etrans]. Qed.

(** A result that is posted for a coroutine that waits reaches it, when nobody gives up. *)
Lemma handled_all_reach rs1 w k s r rs2 w' :
  patient = true → occupied_results w = rs1 ++ r :: rs2 →
  handled_all w (rs1 ++ r :: rs2) w' → ongoing w k s → tr_task_id r = k →
  (∀ r', r' ∈ rs1 → tr_task_id r' ≠ k) →
  ∃ l1 l2 pushed, w_out w' = w_out w ++ l1 ++
    X_run_thread (sc_is_http s) (sc_r s) (sc_wait_co_ctx s) (pushed ++ answer w r) :: l2.
Proof.
  intros Hpat. revert w. induction rs1 as [|r0 rs1 IH]; intros w Hocc Hall Hk Hr Hno;
    inversion Hall as [|? ? ? w1 ? Hw Ho _ (Hcase & Hkeep & Hpay) [n Hn] Hrest]; subst.
  - destruct (handled_all_prefix _ _ _ Hrest) as [n' Hn'].
    destruct Hcase as [(s1 & c & Hk1 & _ & _ & l1 & l2 & E & _)|[Hnot _]].
    2: { destruct Hnot. by exists s. }
    assert (s1 = s) as -> by (destruct Hk1, Hk; unfold stream_at in *; congruence).
    destruct (wi_parked _ Hw _ _ (proj1 Hk) (proj2 Hk)) as (_ & _ & _ & _ & Hst).
    exists l1, (l2 ++ n'), (co_pushed (disarmed c)). rewrite Hn', E.
    unfold resumed_with. rewrite delivery_answer by (simpl; rewrite Hst; done). simpl.
    by rewrite <- !app_assoc.
  - assert (ongoing w1 (tr_task_id r) s) as Hk1.
    { apply Hkeep; [done| |done]. intros E. apply (Hno r0); [by left|done]. }
    assert (occupied_results w1 = rs1 ++ r :: rs2) as Ho1.
    { rewrite Hocc in Ho. by injection Ho. }
    destruct (IH w1 Ho1 Hrest Hk1 eq_refl) as (l1 & l2 & pu & E).
    { intros r' Hr'. apply Hno. by right. }
    exists (n ++ l1), l2, pu. unfold answer in *. rewrite Hpay in E by (rewrite Ho1; set_solver).
    by rewrite E, Hn, <- !app_assoc.
Qed.

Lemma post_event_loop_spec fuel l w :
  winv w → queue_of (w_qs w) q_occupied = Some l → (length l ≤ fuel)%nat →
  wp (post_event_loop fuel) (λ _ w', winv w' ∧ queue_of (w_qs w') q_occupied = Some [] ∧
    sim [] w w' ∧ flight_results w' = flight_results w ∧ ledger whoever w w' ∧
    handled_all w (occupied_results w) w') w.
Proof.
  revert l w. induction fuel as [|fuel IH]; intros l w Hw Hl Hf; cbn [post_event_loop];
    apply wp_bind, wp_get; rewrite (queue_empty_nil _ _ _ Hl).
  - destruct l; [|simpl in Hf; lia]. simpl. apply wp_ret.
    split_and!; [done..|by apply env_step_refl|done|reflexivity|].
    unfold occupied_results. rewrite Hl. constructor.
  - case_bool_decide as E.
    + subst l. apply wp_ret. split_and!; [done..|by apply env_step_refl|done|reflexivity|].
      unfold occupied_results. rewrite Hl. constructor.
    + destruct l as [|q l]; [done|]. simpl in Hf. apply wp_bind.
      rewrite (queue_head_cons _ _ _ _ Hl).
      eapply wp_mono; [by apply wp_eqn, post_event_one_spec|]. cbn beta.
      intros [] w1 (Eone & Hw1 & Hl1 & Hsim & Hfl & Htr & r & Hocc & Hh).
      eapply wp_mono; [apply (IH l); [done..|lia]|]. cbn beta.
      intros _ w' (Hw' & Hl' & Hsim' & Hfl' & Htr' & Hall).
      split_and!; [done..|by eapply sim_trans|congruence|by etrans|].
      rewrite Hocc. econstructor; [done|done|by rewrite (queue_head_cons _ _ _ _ Hl)|done| |done].
      destruct Hsim as (n & -> & _). by exists n.
Qed.

Lemma post_event_handler_spec w :
  winv w →
  wp ngx_grpc_cli_thread_post_event_handler (λ _ w',
    winv w' ∧ queue_of (w_qs w') q_occupied = Some [] ∧ sim [] w w' ∧
    flight_results w' = flight_results w ∧ ledger whoever w w' ∧
    handled_all w (occupied_results w) w') w.
Proof.
  intros Hw. destruct (wi_th _ Hw) as [[l Hl] _]. apply wp_bind, wp_get.
  eapply post_event_loop_spec; [done..|]. apply NoDup_length_size.
  - by eapply (wi_queues _ Hw).
  - intros q Hq. destruct (wi_elems _ Hw _ _ _ Hl Hq) as [r Hr]. by eexists.
Qed.

(** ** The timeout *)

(** nginx runs the handler of an expired timer after it has cleared
    [timer_set]: the coroutine is then [c'] in place of [c]. *)
Definition task_timed_out w (k : Z) (s : stream_ctx) (c' : co_ctx) : world :=
  awake w k s (set_state NGX_GRPC_CLIENT_STATE_TIMEOUT s) (set_co_cleanup H_none c').

Lemma timeout_waking w k s c' :
  winv w → ongoing w k s →
  waking w k s (set_state NGX_GRPC_CLIENT_STATE_TIMEOUT s) (set_co_cleanup H_none c').
Proof. by split. Qed.

Lemma timeout_handler_spec k s c' w :
  winv w → ongoing w k s →
  wp (ngx_grpc_cli_timeout_handler k) (λ _ w', task_ended w k w' ∧
    (alerted w = true → alerted w' = true) ∧
    wake_coroutine (sc_is_http s) k (sc_r s) (task_timed_out w k s c') = Done tt w' ∧
    next_run (X_run_thread (sc_is_http s) (sc_r s) (sc_wait_co_ctx s)
      (co_pushed c' ++ [L_bool false; L_str MSG_timeout])) w w')
    (set_cos (<[(sc_is_http s, sc_wait_co_ctx s) := c']> (w_cos w)) w).
Proof.
  intros Hw Hon. destruct (id Hon) as [Hk Hn].
  assert (k ≠ NULL) as Hk0 by by eapply winv_live_nonnull.
  destruct (wi_parked _ Hw _ _ Hk Hn) as (Hco & _).
  set (s1 := set_state NGX_GRPC_CLIENT_STATE_TIMEOUT s).
  apply wp_bind. eapply (wp_w_upd_sctx _ s); [done|exact Hk|].
  apply wp_bind. eapply wp_w_load_sctx; [done|apply lookup_insert_eq|].
  apply wp_bind. eapply wp_upd_co; [done|apply lookup_insert_eq|].
  pose proof (timeout_waking w k s c' Hw Hon) as Hwk.
  pose proof (to_resume_spec k s s1 (set_co_cleanup H_none c') w Hwk) as Hto.
  unfold woken in Hto. cbn [w_cos set_cos heap_upd set_mem]. rewrite insert_insert_eq.
  eapply wp_mono; [exact Hto|]. cbn beta. by intros _ w' (? & ? & ? & ? & _).
Qed.

End post_event.
