(* ===== verification/WorkerInv.v ===== *)
(** * The start of a worker establishes the invariant *)
From Stdlib Require Import Strings.Byte.
From S2P Require Import Prelude Words Mem Wire TaskQueue Ngx World Waiters Tasks Conn Stream.
From S2P Require Import Worker EngineSpec Inv InvMoves.

Section worker_inv.
Context `{AllocatorLaws} `{NginxLaws} `{GrpcEngineLaws} `{Loader}.
Implicit Types w : world.

(** A worker before [ngx_grpc_cli_init_worker]: nothing of the module's own is
    on the heap or in a queue, and the engine has no connection. *)
Record fresh_worker w : Prop := {
  fw_null : cm_heap (w_mem w) !! NULL = None;
  fw_heap p o : cm_heap (w_mem w) !! p = Some o → is_u64 p ∧ ∃ b, o = OBuf b;
  fw_queues h : queue_of (w_qs w) h = None;
  fw_engine : engine_wf (w_eng w);
  fw_refs : engine_refs (w_eng w) = ∅;
  fw_pending : pending w = ∅;
  fw_out : w_out w = [];
}.

Lemma fresh_worker_alloc w p b :
  fresh_worker w → cm_heap (w_mem w) !! p = None → 0 < p < 2 ^ 64 →
  fresh_worker (add_obj p (OBuf b) w).
Proof.
  intros [H1' H2' H3' H4' H5' H6' H7'] Hp Hr. split; try done.
  - simpl. rewrite lookup_insert_ne; [done|unfold NULL; lia].
  - intros q o. simpl. intros [[<- <-]|[_ Hq]]%lookup_insert_Some; [|by eapply H2'].
    split; [unfold is_u64; lia|eauto].
Qed.

(** The state [ngx_grpc_cli_thread] leaves: empty tree, empty queues. *)
Lemma winv_started w w' :
  fresh_worker w → w_mem w' = w_mem w → w_eng w' = w_eng w →
  w_tree w' = rb_sentinel → w_num w' = 0 → th_array (w_th w') = None →
  w_qs w' = ngx_queue_init q_occupied (ngx_queue_init q_th_free (w_qs w)) → winv w'.
Proof.
  intros [Fn Fh Fq Fe Fr _ _] Em Ee Et Enum Ea Eq.
  assert (queue_of (w_qs w') q_occupied = Some []) as Hocc by (rewrite Eq; apply queue_init).
  assert (queue_of (w_qs w') q_th_free = Some []) as Hfree.
  { rewrite Eq, queue_init_ne by done. apply queue_init. }
  assert (∀ h l, queue_of (w_qs w') h = Some l → l = []) as Hnil.
  { intros h l. destruct (decide (h = q_occupied)) as [->|Ho]; [rewrite Hocc; by intros [= <-]|].
    destruct (decide (h = q_th_free)) as [->|Hf]; [rewrite Hfree; by intros [= <-]|].
    rewrite Eq, !queue_init_ne, Fq by done. done. }
  assert (occupied_results w' = []) as Hres by (unfold occupied_results; by rewrite Hocc).
  assert (∀ p o, cm_heap (w_mem w') !! p = Some o → ∃ b, o = OBuf b) as Hbuf.
  { rewrite Em. intros p o Hp. by eapply Fh. }
  split; rewrite ?Hres, ?Em, ?Ee, ?Fr; try done.
  - intros p o Hp. by eapply Fh.
  - unfold tree_inv, tree_inv_raw. rewrite Et, Enum, Em. simpl. split_and!; try done.
    + constructor. + constructor.
    + by intros n k ?%elem_of_nil.
    + intros k s Hk. destruct (Fh _ _ Hk) as (_ & b & [=]).
  - split.
    + intros h l Hl. rewrite (Hnil _ _ Hl). constructor.
    + intros h h' l l' x Hl _ Hx. rewrite (Hnil _ _ Hl) in Hx. by apply elem_of_nil in Hx.
  - intros c x Hc. destruct (Hbuf _ _ Hc) as [b [=]].
  - intros h l k Hl Hk. rewrite (Hnil _ _ Hl) in Hk. by apply elem_of_nil in Hk.
  - intros k s Hk. destruct (Hbuf _ _ Hk) as [b [=]].
  - intros k s Hk. destruct (Hbuf _ _ Hk) as [b [=]].
  - intros c x Hc. destruct (Hbuf _ _ Hc) as [b [=]].
  - intros c c' x x' Hc. destruct (Hbuf _ _ Hc) as [b [=]].
  - intros c x Hc. destruct (Hbuf _ _ Hc) as [b [=]].
  - constructor.
  - by apply flight_none.
Qed.

Lemma owed_started w w' :
  fresh_worker w → w_eng w' = w_eng w → th_array (w_th w') = None →
  w_qs w' = ngx_queue_init q_occupied (ngx_queue_init q_th_free (w_qs w)) → owed w' = ∅.
Proof.
  intros Hf Ee Ea Eq. unfold owed, occupied_results.
  rewrite (proj2 (flight_none _ Ea)), Eq, queue_init.
  unfold pending. rewrite Ee. change (engine_pending (w_eng w)) with (pending w).
  rewrite (fw_pending _ Hf). simpl. multiset_solver.
Qed.

(** What [ngx_grpc_cli_init_worker] does, case by case. *)
Inductive init_outcome w : Z → world → Prop :=
| io_no_conf : w_conf w = None → init_outcome w NGX_OK w
| io_no_path c : w_conf w = Some c → cf_engine_path c = [] → init_outcome w NGX_OK w
| io_no_pool c : w_conf w = Some c → cf_engine_path c ≠ [] →
    ngx_thread_pool_get = NULL → init_outcome w NGX_OK w
| io_load_failed c w' : w_conf w = Some c → cf_engine_path c ≠ [] →
    ngx_thread_pool_get ≠ NULL → dlopen (cf_engine_path c) = NULL →
    init_outcome w NGX_ERROR w'
| io_no_symbol c f w' : w_conf w = Some c → dlopen (cf_engine_path c) ≠ NULL →
    f ∈ engine_symbols → dlsym_fails (dlopen (cf_engine_path c)) f = true →
    init_outcome w NGX_ERROR w'
| io_no_memory c w' : w_conf w = Some c → grants 2 (w_mem w) = false →
    init_outcome w NGX_ERROR w'
| io_started c w' : w_conf w = Some c → cf_engine_path c ≠ [] →
    ngx_thread_pool_get ≠ NULL → dlopen (cf_engine_path c) ≠ NULL →
    (∀ f, f ∈ engine_symbols → dlsym_fails (dlopen (cf_engine_path c)) f = false) →
    (∃ task, task ≠ NULL ∧ w_conf w' = Some (ClientConf (cf_engine_path c)
       (dlopen (cf_engine_path c)) ngx_thread_pool_get task)) →
    (fresh_worker w → winv w' ∧ (∀ k s, ¬ ongoing w' k s) ∧ owed w' = ∅ ∧
       w_out w' = [X_dlopen (cf_engine_path c)]) →
    w_eng w' = w_eng w → w_reqs w' = w_reqs w →
    w_cos w' = w_cos w → init_outcome w NGX_OK w'.

Lemma resolve_symbols_false hd fs :
  resolve_symbols hd fs = false → ∃ f, f ∈ fs ∧ dlsym_fails hd f = true.
Proof.
  unfold resolve_symbols. induction fs as [|f fs IH]; simpl; [done|].
  destruct (dlsym_fails hd f) eqn:E; simpl.
  - intros _. exists f. split; [by left|done].
  - intros (f' & Hf & Hd)%IH. exists f'. split; [by right|done].
Qed.

Lemma resolve_symbols_true hd fs f :
  resolve_symbols hd fs = true → f ∈ fs → dlsym_fails hd f = false.
Proof.
  unfold resolve_symbols. rewrite forallb_forall. intros Hall Hf%list_elem_of_In.
  apply Hall in Hf. by apply negb_true_iff.
Qed.

Lemma init_worker_spec w :
  wp ngx_grpc_cli_init_worker (λ rc w', init_outcome w rc w') w.
Proof.
  apply wp_bind, wp_get. destruct (w_conf w) as [c|] eqn:Hc; [|by apply wp_ret, io_no_conf].
  destruct (Nat.eqb_spec (length (cf_engine_path c)) 0) as [Hp|Hp].
  { apply wp_ret. eapply io_no_path; [done|]. by apply length_zero_iff_nil. }
  assert (cf_engine_path c ≠ []) as Hpath by (intros E; by rewrite E in Hp).
  destruct (Z.eqb_spec ngx_thread_pool_get NULL) as [Ht|Ht].
  { apply wp_ret. by eapply io_no_pool. }
  do 2 (apply wp_bind, wp_modify).
  destruct (Z.eqb_spec (dlopen (cf_engine_path c)) NULL) as [Hd|Hd].
  { apply wp_ret. by eapply io_load_failed. }
  destruct (resolve_symbols _ _) eqn:Hr; cbn [negb]; cycle 1.
  { apply wp_ret. apply resolve_symbols_false in Hr as (f & Hf & Hfail).
    by eapply io_no_symbol. }
  apply wp_bind, wp_modify. set (w1 := set_tree _ _).
  apply wp_bind, wp_mem, wp_alloc_cases.
  { intros E. apply wp_ret. eapply io_no_memory; [done|]. apply (E 1%nat). }
  intros task Htask Hrange _ m1 Hm1. rewrite (proj2 (Z.eqb_neq task NULL)) by (unfold NULL; lia).
  apply wp_bind, wp_mem, wp_alloc_cases.
  { intros E. apply wp_ret. eapply io_no_memory; [done|].
    transitivity (grants 1 m1); [symmetry; apply (Hm1 1%nat)|apply (E O)]. }
  intros pev Hpev Hprange _ m2 Hm2. rewrite (proj2 (Z.eqb_neq pev NULL)) by (unfold NULL; lia).
  do 4 (apply wp_bind, wp_modify). apply wp_ret. eapply io_started; try done.
  - intros f Hf. by eapply resolve_symbols_true.
  - exists task. split; [unfold NULL; lia|]. simpl. by rewrite Hc.
  - intros Hf. pose proof (fresh_worker_alloc _ _ [] Hf Htask Hrange) as Hf1.
    pose proof (fresh_worker_alloc _ _ [] Hf1 Hpev Hprange) as Hf2.
    split; [|split; [|split]].
    + apply (winv_started _ _ Hf2); try done. unfold th_array. simpl. by rewrite ev_zero_ran.
    + intros k s [Hk _]. by destruct (fw_heap _ Hf2 _ _ Hk) as (_ & b & [=]).
    + apply (owed_started _ _ Hf2); try done. unfold th_array. simpl. by rewrite ev_zero_ran.
    + simpl. by rewrite (fw_out _ Hf).
Qed.
End worker_inv.
