(* ===== verification/System.v ===== *)
(** * A running worker: every operation the event loop and Lua can start

    [enabled w m]: in the state [w] the caller's side of the contract of the
    operation [m] holds.  A worker is any sequence of enabled operations from
    the start of the process. *)
From S2P Require Import Prelude Words Mem Wire TaskQueue Ngx World Waiters Tasks Conn.
From S2P Require Import Stream Handlers Worker EngineSpec Inv InvMoves ConnInv StreamInv.
From S2P Require Import StreamOps EventInv ThreadInv PutResInv BlockInv LuaSteps.
From S2P Require Import ResumeInv WakeInv WorkerInv.

Section system.
Context `{AllocatorLaws} `{NginxLaws} `{GrpcEngineLaws} `{!LuaRuntime} `{!Patience} `{!LuaRuntimeLaws}
  `{Loader}.
Implicit Types w : world.

(** A thread of the pool runs the handler of the task: it waits for the engine,
    and leaves what finished in the thread context.  The main thread goes on
    meanwhile: all the handler shares with it is the engine, which has its own
    locks, so the step is placed where the engine hands the results over. *)
Definition thread_waits : M world unit :=
  _ ← ngx_grpc_cli_thread_handler;
  modify (λ w, set_th (set_task_event (ngx_task_ran (th_task_event (w_th w))) (w_th w)) w).

(** Later, nginx runs the handler of the task's event in the main thread. *)
Definition landed (w : world) : world :=
  set_th (set_task_event (ngx_task_finished (th_task_event (w_th w))) (w_th w)) w.
Definition thread_reports : M world unit :=
  _ ← modify landed; ngx_grpc_cli_thread_event_handler.

(** The one right after the other. *)
Definition thread_cycle : M world unit := thread_waits ≫= λ _, thread_reports.

Lemma thread_waits_ran w w' :
  thread_waits w = Done tt w' → ev_ran (th_task_event (w_th w')) = true.
Proof.
  unfold thread_waits, mbind, M_bind. destruct (ngx_grpc_cli_thread_handler w); [|done].
  intros [= <-]. apply ev_task_ran.
Qed.

(** nginx runs the handler of the posted event, which it takes off its queue first. *)
Definition unposted (w : world) : world :=
  set_th (set_posted_ev (ngx_delete_posted_event (th_posted_ev (w_th w))) (w_th w)) w.
Definition posted_event_runs : M world unit :=
  _ ← modify unposted; ngx_grpc_cli_thread_post_event_handler.

(** The timer of a coroutine expires, for the stream [k]. *)
Definition timer_fires (h : bool) (co k : Z) : M world unit :=
  _ ← upd_co h co (λ c, set_co_sleep (ngx_timer_expired (co_sleep c)) c);
  ngx_grpc_cli_timeout_handler k.

Inductive enabled w : M world unit → Prop :=
| en_lua m : lua_enabled w m → enabled w m
(* the event loop *)
| en_thread :
    ev_active (th_task_event (w_th w)) = true → ev_ran (th_task_event (w_th w)) = false →
    w_exiting w = false → w_terminate w = false → enabled w thread_waits
| en_event : ev_ran (th_task_event (w_th w)) = true → enabled w thread_reports
| en_posted : alerted w = true → enabled w posted_event_runs
| en_timeout k s :
    ongoing w k s → patient = false → enabled w (timer_fires (sc_is_http s) (sc_wait_co_ctx s) k).

(** What nginx runs of the module when a process starts or exits: the function
    of its table, if there is one. *)
Definition worker_starts : M world Z := default (mret NGX_OK) (init_process ngx_grpc_client_module).
Definition worker_exits : M world unit := default (mret tt) (exit_process ngx_grpc_client_module).
Definition master_exits : M world unit := default (mret tt) (exit_master ngx_grpc_client_module).

Definition step w w' : Prop := ∃ m, enabled w m ∧ m w = Done tt w'.

(** A worker whose engine was loaded. *)
Inductive worker_started : world → Prop :=
| Started w w' c :
    fresh_worker w → w_conf w = Some (ClientConf engine_path NULL NULL NULL) →
    worker_starts w = Done NGX_OK w' →
    w_conf w' = Some c → cf_engine c ≠ NULL → worker_started w'.

(** Every state it can come to. *)
Inductive reachable : world → Prop :=
| R_start w : worker_started w → reachable w
| R_step w w' : reachable w → step w w' → reachable w'.

(** ** Every enabled operation keeps the invariant and refines the abstract worker *)

(** What is handed over is honest. *)
Lemma truthful_handed w w1 w' rs :
  honoured w rs w1 → w_eng w' = w_eng w1 → occupied_results w' = occupied_results w →
  (∀ p s, ongoing w' p s ↔ ongoing w p s) → (∀ r, r ∈ flight_results w' → r ∈ rs) →
  truthful w → truthful w'.
Proof.
  intros [Ht Hsay] He Ho Hon Hfl Hw k (s & Hs%Hon & Hty). rewrite He.
  destruct (Hw k) as [Hv Hres]; [by exists s|]. destruct (Ht k) as [Tv Ts]; [by intros []|].
  split; [by apply Tv|]. intros r [Hin|Hin]%elem_of_app E Hok.
  - rewrite <- E. apply Hsay; [by apply Hfl|done|by rewrite E].
  - apply Ts. apply (Hres r); [|done..]. rewrite <- Ho. set_solver.
Qed.

(** The results the engine hands over are in flight until they are posted, in
    order, less those a refused allocation drops. *)
Lemma thread_waits_spec w :
  winv w → ev_ran (th_task_event (w_th w)) = false → w_exiting w = false →
  w_terminate w = false →
  wp thread_waits (λ _ w', winv w' ∧ (∀ p s, ongoing w' p s ↔ ongoing w p s) ∧
    occupied_results w' = occupied_results w ∧ owed w' ⊆ owed w ∧
    (Z.of_nat (size (pending w)) < 2 ^ 31 → owed w' = owed w) ∧
    (truthful w → truthful w')) w.
Proof.
  intros Hw Hran He Ht. apply wp_bind. eapply wp_mono; [by apply thread_handler_spec|]. cbn beta.
  intros _ w1 (Hw1 & Hst & Hran1 & rs & Hn & _ & Hpend & Hhon & Hfin & _). apply wp_modify.
  destruct (winv_launched w1 _ Hw1 Hran1 Hfin) as (Hw2 & Hfl & _).
  pose proof (calm_results _ _ Hw (proj1 Hst)) as Hocc.
  split; [done|]. split; [apply Hst|]. split; [exact Hocc|].
  set (w2 := set_th _ w1) in *. set (n := Z.to_nat (th_finished_task_num (w_th w1))) in *.
  assert (owed w2 = pending w1 ⊎ (res_ids (take n rs) ⊎ res_ids (occupied_results w))) as E2.
  { unfold owed. by rewrite Hfl, <- res_ids_app, <- Hocc. }
  assert (owed w = res_ids rs ⊎ pending w1 ⊎ res_ids (occupied_results w)) as E.
  { unfold owed. rewrite Hpend, (proj2 (flight_none w ltac:(unfold th_array; by rewrite Hran))).
    done. }
  split; [|split].
  - rewrite E, E2, <- (take_drop n rs), res_ids_app, take_drop. multiset_solver.
  - intros Hsz. rewrite Hpend, gmultiset_size_disj_union, size_res_ids in Hsz.
    rewrite E, E2. unfold n. rewrite Hn, s32_small, Nat2Z.id, firstn_all by lia. multiset_solver.
  - apply (truthful_handed w w1 w2 rs); [done..|apply Hst|]. rewrite Hfl. intros r Hr.
    apply elem_of_take in Hr as (i & Hi & _). by eapply list_elem_of_lookup_2.
Qed.

Lemma thread_reports_spec w :
  winv w → ev_ran (th_task_event (w_th w)) = true →
  wp thread_reports (λ _ w', event_handler_post (landed w) (flight_results w) w') w.
Proof.
  intros Hw Hran. apply wp_bind, wp_modify.
  assert (winv (landed w)) as Hw1.
  { apply winv_landed; [|done]. unfold th_array. simpl. by rewrite (proj2 (ev_task_finished _)). }
  apply (event_handler_spec _ _ Hw1); [exact (flight_finished w Hw Hran)|apply ev_task_finished].
Qed.

Lemma posted_event_spec w :
  winv w →
  wp posted_event_runs (λ _ w', winv w' ∧ occupied_results w' = [] ∧ sim [] w w' ∧
    flight_results w' = flight_results w ∧ ledger whoever (unposted w) w' ∧
    handled_all (unposted w) (occupied_results w) w') w.
Proof.
  intros Hw. apply wp_bind, wp_modify. assert (winv (unposted w)) as Hw1 by by apply winv_set_th.
  eapply wp_mono; [by apply post_event_handler_spec|]. cbn beta.
  intros _ w' (Hw' & Hl & Hsim & Hfl & Hled & Hall). split_and!; try done.
  unfold occupied_results. by rewrite Hl.
Qed.

(** The thread's side of [thread_waits] leaves the log and the posted event alone. *)
Lemma silent_thread_waits : keeps (λ w, (w_out w, alerted w)) thread_waits.
Proof.
  assert (∀ A (p : M (engine * cmem) A), keeps (λ w, (w_out w, alerted w)) (eng p))
    by (intros; by apply leads_zoom).
  assert (∀ A (p : M cmem A), keeps (λ w, (w_out w, alerted w)) (mem p))
    by (intros; by apply leads_zoom).
  unfold thread_waits, ngx_grpc_cli_thread_handler. solve_leads.
Qed.

Lemma thread_waits_busy : gives (λ _ w, busy w = true) thread_waits.
Proof.
  intros w [] w' E. unfold busy. rewrite (thread_waits_ran _ _ E). apply orb_true_r.
Qed.

Lemma reports_quiet :
  leads (λ w w', w_out w' = w_out w ∧ quitting w' = quitting w) thread_reports.
Proof.
  assert (PreOrder (λ w w' : world, w_out w' = w_out w ∧ quitting w' = quitting w)).
  { split; [by intros w|]. intros w1 w2 w3 [] []. split; congruence. }
  assert (∀ A (p : M (engine * cmem) A),
    leads (λ w w', w_out w' = w_out w ∧ quitting w' = quitting w) (eng p))
    by (intros; by apply leads_zoom).
  assert (∀ A (p : M cmem A),
    leads (λ w w', w_out w' = w_out w ∧ quitting w' = quitting w) (mem p))
    by (intros; by apply leads_zoom).
  assert (leads (λ w w', w_out w' = w_out w ∧ quitting w' = quitting w) task_post)
    by (unfold task_post; solve_leads).
  unfold thread_reports, ngx_grpc_cli_thread_event_handler, ngx_grpc_cli_task_num,
    ngx_grpc_cli_insert_posted_event_ctx.
  solve_leads.
Qed.

(** There is room for what is under way: fewer results than a C [int] counts, and
    memory for the results in flight. *)
Definition roomy w : bool :=
  (Z.of_nat (size (owed w)) <? 2 ^ 31) && grants (length (flight_results w)) (w_mem w).

Lemma reports_tracks w w' :
  roomy w = true → event_handler_post (landed w) (flight_results w) w' → tracks w w'.
Proof.
  intros [_ Hg]%andb_prop (_ & He & _ & _ & Hon & _ & (ps & _ & Ho & Hps) & _).
  rewrite (Hps Hg) in Ho.
  apply tracks_owed.
  - unfold owed, pending. rewrite He, Ho, !res_ids_app.
    change (w_eng (landed w)) with (w_eng w).
    change (occupied_results (landed w)) with (occupied_results w). multiset_solver.
  - intros k s Hk%Hon. left. by exists s.
Qed.

Lemma reports_orderly w w' :
  event_handler_post (landed w) (flight_results w) w' → orderly w → orderly w'.
Proof.
  intros (_ & He & _ & _ & Hon & Hfl & (ps & Hsub & Ho & _) & _).
  apply orderly_less; [|intros k s Hk; exists s; by apply Hon].
  unfold owed, pending. rewrite He, Ho, Hfl, !res_ids_app.
  change (w_eng (landed w)) with (w_eng w).
  change (occupied_results (landed w)) with (occupied_results w).
  apply sublist_res_ids in Hsub. revert Hsub.
  generalize (res_ids ps), (res_ids (flight_results w)), (res_ids (occupied_results w)),
    (engine_pending (w_eng w)). clear. simpl. multiset_solver.
Qed.

Lemma reports_truthful w w' :
  event_handler_post (landed w) (flight_results w) w' → truthful w → truthful w'.
Proof.
  intros (_ & He & _ & _ & Hon & Hfl & (ps & Hsub & Ho & _) & _).
  apply (truthful_less none); [by apply trusted_same|..].
  - rewrite Hfl, Ho. change (occupied_results (landed w)) with (occupied_results w).
    intros r. simpl. rewrite !elem_of_app. intros [Hr|Hr]; [by right|left].
    eapply elem_of_submseteq; [exact Hr|by apply sublist_submseteq].
  - intros k (s & Hs%Hon & Hty). split; [by exists s|by intros []].
Qed.

(** The thread pool accepts a task that is not under way. *)
Definition pool_accepts : Prop := ∀ k ev, ev_active ev = false → ngx_thread_task_post k ev ≠ None.

(** The number of coroutines that wait, and the results owed to them. *)
Lemma num_owed w :
  winv w → (∀ k, ¬ untracked w k) → Z.of_nat (size (owed w)) < 2 ^ 31 →
  ∃ l, w_num w = Z.of_nat (length l) ∧ ∀ k, k ∈ l ↔ ∃ s, ongoing w k s.
Proof.
  intros Hw Htr Hsz. destruct (wi_tree _ Hw) as (_ & _ & Hnd & Hnum & He & Hs).
  exists (map snd (rb_entries (w_tree w))).
  assert (∀ k, k ∈ map snd (rb_entries (w_tree w)) ↔ ∃ s, ongoing w k s) as Hon.
  { intros k. split.
    - intros ([n k'] & -> & Hin)%list_elem_of_fmap.
      destruct (He _ _ Hin) as (Hn & _ & _ & s & Hk & En). exists s. split; [done|congruence].
    - intros (s & Hk & Hn). apply list_elem_of_fmap. exists (sc_node s, k). auto. }
  split; [|done]. rewrite length_map, Hnum. apply s32_small.
  pose proof (NoDup_size _ (owed w) Hnd) as Hlen. rewrite length_map in Hlen.
  cut (length (rb_entries (w_tree w)) ≤ size (owed w))%nat; [lia|]. apply Hlen.
  intros k Hk%Hon. destruct (decide (k ∈ owed w)) as [|Hno]; [done|]. by destruct (Htr k).
Qed.

(** More tasks are ongoing than were just finished as long as the engine has one. *)
Lemma reports_watched w w' :
  winv w → ev_ran (th_task_event (w_th w)) = true → orderly w → (∀ k, ¬ untracked w k) →
  Z.of_nat (size (owed w)) < 2 ^ 31 → pool_accepts → quitting w' = quitting w →
  event_handler_post (landed w) (flight_results w) w' → watched w'.
Proof.
  intros Hw Hran Hord Htr Hsz Hpool Hq (_ & He & _ & _ & _ & _ & _ & _ & _ & Hre) Hnq Hp.
  rewrite Hq in Hnq. apply orb_false_iff in Hnq as [Hquit Hexit].
  destruct Hre as [Ha|[k Hk]]; [done|done| | |].
  - destruct (num_owed w Hw Htr Hsz) as (l & El & Hl).
    change (w_num (landed w)) with (w_num w). rewrite El.
    destruct (flight_finished w Hw Hran) as [Hn _].
    change (th_finished_task_num (w_th (landed w))) with (th_finished_task_num (w_th w)).
    assert (size (owed w) ≤ length l)%nat as Hle.
    { apply size_NoDup. intros p [Hm Hs]%Hord. split; [done|by apply Hl]. }
    unfold owed in Hle. rewrite gmultiset_size_disj_union, res_ids_app in Hle.
    rewrite gmultiset_size_disj_union, !size_res_ids in Hle.
    assert (pending w' = pending w) as Ep by (unfold pending; by rewrite He).
    rewrite Ep in Hp. assert (size (pending w) ≠ 0%nat) by by rewrite gmultiset_size_empty_iff.
    lia.
  - unfold busy. by rewrite Ha.
  - destruct (Hpool k (th_task_event (w_th (landed w)))); [apply ev_task_finished|done].
Qed.

(** What is posted is announced. *)
Lemma reports_announced w w' :
  event_handler_post (landed w) (flight_results w) w' → announced w → announced w'.
Proof.
  intros (_ & _ & _ & _ & _ & _ & (ps & Hsub & Ho & _) & Harr & Hal & _) Hw Hne.
  destruct (flight_results w) as [|r rs]; [|by apply Harr].
  apply sublist_nil_r in Hsub as ->. rewrite app_nil_r in Ho. apply Hal, Hw.
  by rewrite Ho in Hne.
Qed.

(** What an operation does to the ledger, and what it needs for that. *)
Record books w w' : Prop := {
  bk_tracks : roomy w = true → tracks w w';
  bk_announced : announced w → announced w';
  bk_orderly : patient = true → orderly w → orderly w';
  bk_truthful : patient = true → orderly w → truthful w → truthful w';
  bk_watched : patient = true → pool_accepts → roomy w = true → orderly w →
    (∀ k, ¬ untracked w k) → watched w → watched w';
}.

Lemma ledger_books ended w w' :
  ledger ended w w' → occupied_results w' = occupied_results w → books w w'.
Proof.
  intros [] Eo. split; auto. by apply announced_same.
Qed.

Lemma posted_books ended w w' :
  ledger ended (unposted w) w' → occupied_results w' = [] → books w w'.
Proof.
  intros [T O W Tr _ _] Eo. split; [by intros _|by intros _ []|exact O| |].
  - intros Hpat Ho Htr. by apply Tr.
  - intros Hpat _ _ _ _. by apply W.
Qed.

Lemma enabled_spec w m :
  winv w → enabled w m →
  wpf may_assert m (λ _ w', winv w' ∧ sim [] w w' ∧ books w w') w.
Proof.
  intros Hw He. destruct He as [m Hm|Hact Hran Hex Hter|Hran|Hal|k s Hon Himp].
  - eapply wpf_mono; [by apply lua_enabled_env|].
    intros _ w' (? & _ & ? & _ & ? & ?). split_and!; [done..|by eapply ledger_books].
  - apply wpf_wp. eapply wp_mono.
    { eapply wp_gives; [exact thread_waits_busy|].
      apply (wp_keeps (λ w, (w_out w, alerted w))); [apply silent_thread_waits|].
      by apply thread_waits_spec. }
    cbn beta. intros _ w' [[(Hw' & Hon & Hocc & Hless & Howed & Htr) [= Ho Ha]] Hb].
    split; [done|]. split.
    { apply (sim_same _ _ []); [done| |constructor]. by rewrite app_nil_r. }
    split; [| | |by intros _ _|by intros _ _ _ _ _ _ _ _].
    + intros [Hsz%Z.ltb_lt _]%andb_prop. apply tracks_owed.
      * rewrite Howed; [done|]. unfold owed in Hsz. rewrite gmultiset_size_disj_union in Hsz. lia.
      * intros k s Hk%Hon. left. by exists s.
    + apply announced_same; [done|by rewrite Ha].
    + intros _. apply orderly_less; [done|]. intros k s Hk. exists s. by apply Hon.
  - apply wpf_wp. eapply wp_mono.
    { eapply wp_leads; [apply reports_quiet|by apply thread_reports_spec]. }
    cbn beta. intros _ w' [Hpost [Ho Hq]]. destruct (id Hpost) as (Hw' & _ & _ & _ & Hon & _).
    split; [done|]. split.
    { apply (sim_same _ _ []); [done| |constructor]. by rewrite app_nil_r. }
    split; [by intros Hr; apply reports_tracks|..].
    + by apply reports_announced.
    + intros _. by apply reports_orderly.
    + intros _ _. by apply reports_truthful.
    + intros _ Hpool [Hsz%Z.ltb_lt _]%andb_prop Hord Htr _. by apply (reports_watched w).
  - apply wpf_wp. eapply wp_mono; [by apply posted_event_spec|].
    intros _ w' (? & ? & ? & _ & ? & _). split_and!; [done..|by eapply posted_books].
  - destruct (wi_parked _ Hw _ _ (proj1 Hon) (proj2 Hon)) as (Hco & _ & (c & Hc & _) & _).
    apply wpf_wp, wp_bind. eapply wp_upd_co; [done|exact Hc|].
    eapply wp_mono; [by apply timeout_handler_spec|].
    intros _ w' [(Hw' & _ & Hocc & _ & Hun & Hsim) [Ha _]]. split; [done|]. split; [done|].
    split; [intros _ p Hp; by apply Hun|by apply announced_same|by rewrite Himp..].
Qed.

Lemma started_inv w : worker_started w → winv w ∧ (∀ k s, ¬ ongoing w k s) ∧ owed w = ∅ ∧
  ∃ path, w_out w = [X_dlopen path].
Proof.
  intros [w0 w' c Hf Hc Hi Hc' He].
  pose proof (wp_elim _ _ _ _ _ (init_worker_spec w0) Hi) as Ho.
  assert (w' = w0 → False) as Hne.
  { intros ->. rewrite Hc in Hc'. by injection Hc' as <-. }
  inversion Ho as [? E1 E2|c1 ? ? E1 E2|c1 ? ? ? E1 E2|c1 w1 ? ? ? ? E1|c1 f1 w1 ? ? ? ? E1
    |c1 w1 ? ? E1|c1 w1 ? ? ? ? ? ? Hst]; try (by destruct Hne); try done.
  destruct (Hst Hf) as (? & ? & ? & Ho1). split_and!; [done..|by eexists].
Qed.

Lemma reachable_inv w : reachable w → winv w.
Proof.
  induction 1 as [w Hs|w w' _ IH (m & Hm & E)]; [by apply started_inv|].
  pose proof (enabled_spec w m IH Hm) as Hwp. unfold wpf in Hwp. rewrite E in Hwp. apply Hwp.
Qed.

(** Posted results are never forgotten: the posted event is due. *)
Lemma reachable_announced w : reachable w → announced w.
Proof.
  induction 1 as [w Hs|w w' Hr IH (m & Hm & E)].
  - destruct (started_inv w Hs) as (_ & _ & Ho & _). intros Hne.
    destruct (occupied_results w) as [|r rs] eqn:E; [done|].
    assert (tr_task_id r ∈ owed w) as Hin; [|rewrite Ho in Hin; multiset_solver].
    unfold owed. rewrite E. apply gmultiset_elem_of_disj_union. right. apply elem_of_res_ids.
    set_solver.
  - pose proof (enabled_spec w m (reachable_inv w Hr) Hm) as Hwp. unfold wpf in Hwp.
    rewrite E in Hwp. destruct Hwp as (_ & _ & Hb). by apply (bk_announced _ _ Hb).
Qed.

(** When nobody gives a task up, no result is owed twice or to nobody. *)
Lemma reachable_orderly w : patient = true → reachable w → orderly w.
Proof.
  intros Hpat. induction 1 as [w Hs|w w' Hr IH (m & Hm & E)].
  - destruct (started_inv w Hs) as (_ & _ & Ho & _). intros k. rewrite Ho. multiset_solver.
  - pose proof (enabled_spec w m (reachable_inv w Hr) Hm) as Hwp. unfold wpf in Hwp.
    rewrite E in Hwp. destruct Hwp as (_ & _ & Hb). by apply (bk_orderly _ _ Hb).
Qed.

(** Nor does a stream that is not open succeed in anything. *)
Lemma reachable_truthful w : patient = true → reachable w → truthful w.
Proof.
  intros Hpat. induction 1 as [w Hs|w w' Hr IH (m & Hm & E)].
  - destruct (started_inv w Hs) as (_ & Hno & _). intros k (s & Hk & _). by apply Hno in Hk.
  - pose proof (enabled_spec w m (reachable_inv w Hr) Hm) as Hwp. unfold wpf in Hwp.
    rewrite E in Hwp. destruct Hwp as (_ & _ & Hb). apply (bk_truthful _ _ Hb); [done| |done].
    by apply reachable_orderly.
Qed.

(** The states a worker comes to while there is always room. *)
Inductive roomy_reachable : world → Prop :=
| RR_start w : worker_started w → roomy_reachable w
| RR_step w w' : roomy_reachable w → roomy w = true → step w w' → roomy_reachable w'.

Lemma roomy_reachable_inv w : roomy_reachable w → winv w ∧ ∀ k, ¬ untracked w k.
Proof.
  induction 1 as [w Hs|w w' _ [Hw IH] Hr (m & Hm & E)].
  - destruct (started_inv w Hs) as (Hw & Hno & _). split; [done|].
    intros k [[s Hk] _]. by apply Hno in Hk.
  - pose proof (enabled_spec w m Hw Hm) as Hwp. unfold wpf in Hwp. rewrite E in Hwp.
    destruct Hwp as (Hw' & _ & Hb). split; [done|]. intros k Hk.
    eapply IH, (bk_tracks _ _ Hb); done.
Qed.

Lemma roomy_is_reachable w : roomy_reachable w → reachable w.
Proof. induction 1; [by apply R_start|by eapply R_step]. Qed.

(** Nor is the thread called off while the engine has a task. *)
Lemma roomy_watched w : patient = true → pool_accepts → roomy_reachable w → watched w.
Proof.
  intros Hpat Hpool. induction 1 as [w Hs|w w' Hrr IH Hr (m & Hm & E)].
  - destruct (started_inv w Hs) as (_ & _ & Ho & _). intros _ Hp. destruct Hp. unfold owed in Ho.
    multiset_solver.
  - destruct (roomy_reachable_inv w Hrr) as [Hw Htr].
    pose proof (enabled_spec w m Hw Hm) as Hwp. unfold wpf in Hwp. rewrite E in Hwp.
    destruct Hwp as (_ & _ & Hb). apply (bk_watched _ _ Hb); try done.
    apply reachable_orderly; [done|]. by apply roomy_is_reachable.
Qed.

(** A worker, with what it did seen as a run of the abstract worker. *)
Lemma reachable_refines w :
  reachable w → ∃ tr σ, wait_run ∅ tr σ ∧ waits w σ ∧ runs (w_out w) = omap event_call tr.
Proof.
  induction 1 as [w Hs|w w' Hr (tr & σ & R & W & E) (m & Hm & Ed)].
  - destruct (started_inv w Hs) as (_ & Hno & _ & path & ->). exists [], ∅.
    split_and!; [constructor| |done]. intros h co k r. rewrite lookup_empty.
    split; [done|]. intros (s & Hs' & _). by apply Hno in Hs'.
  - pose proof (enabled_spec w m (reachable_inv w Hr) Hm) as Hwp. unfold wpf in Hwp.
    rewrite Ed in Hwp. destruct Hwp as (_ & (new & En & _ & Hsim) & _).
    destruct (Hsim σ W) as (tr' & σ' & R' & W' & E'). exists (tr ++ tr'), σ'.
    split_and!; [by eapply wait_run_app|done|].
    by rewrite En, runs_app, E, E', omap_app.
Qed.
(** The engine is loaded when the worker starts, and neither loaded nor closed
    after that. *)
Lemma reachable_log w :
  reachable w → ∃ path l, w_out w = X_dlopen path :: l ∧ Forall lua_call l.
Proof.
  induction 1 as [w Hs|w w' Hr (path & l & E & Hl) (m & Hm & Ed)].
  - destruct (started_inv w Hs) as (_ & _ & _ & path & ->). by exists path, [].
  - pose proof (enabled_spec w m (reachable_inv w Hr) Hm) as Hwp. unfold wpf in Hwp.
    rewrite Ed in Hwp. destruct Hwp as (_ & (new & En & Hn & _) & _).
    exists path, (l ++ new). split; [by rewrite En, E|by apply Forall_app].
Qed.
End system.
