(* ===== verification/Contracts.v ===== *)
(** * Contracts of the C module

    What each exported function and each handler of [ngx_grpc_client.c] promises,
    in any state that satisfies the invariant of the worker, and the safety of a
    whole worker. *)
From Stdlib Require Import Strings.Byte.
From S2P Require Import Prelude Words Mem Wire TaskQueue Ngx World Waiters Tasks Conn.
From S2P Require Import Stream Handlers Worker EngineSpec Inv InvMoves Handles ConnInv StreamInv.
From S2P Require Import StreamOps EventInv ThreadInv PutResInv BlockInv LuaSteps.
From S2P Require Import ResumeInv WakeInv WorkerInv System.

Section contracts.
Context `{AllocatorLaws} `{NginxLaws} `{GrpcEngineLaws} `{!LuaRuntime} `{!Patience} `{!LuaRuntimeLaws}
  `{Loader}.
Implicit Types w : world.

(** [C1] Safety of a worker.  In every state a worker can reach, every operation
    the event loop, nginx or Lua may start ends in a state that satisfies the
    invariant: no NULL, dangling or doubly freed pointer, no lost queue link.
    The only ways it can stop are an exhausted memory in cgo and the assertions
    of a blocking call, which there is none of when nobody gives up. *)
Theorem worker_safe w (m : M world unit) :
  reachable w → enabled w m →
  match m w with
  | Done _ w' => winv w'
  | Crash f => f = OutOfMemory ∨ f = AssertFail ∧ patient = false
  end.
Proof.
  intros Hr Hm. pose proof (enabled_spec w m (reachable_inv w Hr) Hm) as Hwp.
  unfold wpf in Hwp. destruct (m w); [apply Hwp|done].
Qed.

(** [C2] Refinement.  Every operation of a reachable worker, the Lua code it runs
    included, is a run of the abstract worker of [Waiters]: tasks start for
    coroutines that wait for nothing, a coroutine is run only while it waits, for
    the request it waits for, and waits no longer then.  The calls that run
    coroutines are the runs of the abstract worker, in order. *)
Theorem worker_simulates w (m : M world unit) σ :
  reachable w → enabled w m → waits w σ →
  match m w with
  | Done _ w' => ∃ tr σ' new, wait_run σ tr σ' ∧ waits w' σ' ∧
      w_out w' = w_out w ++ new ∧ runs new = omap event_call tr
  | Crash f => f = OutOfMemory ∨ f = AssertFail ∧ patient = false
  end.
Proof.
  intros Hr Hm Hs. pose proof (enabled_spec w m (reachable_inv w Hr) Hm) as Hwp.
  unfold wpf in Hwp. destruct (m w) as [[] w'|f]; [|done].
  destruct Hwp as (_ & (new & En & _ & Hsim) & _).
  destruct (Hsim σ Hs) as (tr & σ' & R & W & E).
  by exists tr, σ', new.
Qed.

(** [C3] Every run of a coroutine in the log of a worker answers a task that the
    coroutine had started, for the same request, and it answers it once: since
    that start the coroutine was neither run nor given up. *)
Theorem runs_answer_starts w h r co args l1 l2 :
  reachable w → runs (w_out w) = l1 ++ X_run_thread h r co args :: l2 →
  ∃ tr1 tr2 σ k, wait_run ∅ (tr1 ++ E_run (h, co) r args :: tr2) σ ∧ waits w σ ∧
    omap event_call tr1 = l1 ∧ omap event_call tr2 = l2 ∧
    waits_since tr1 (h, co) (Waiter k r).
Proof.
  intros Hr Hl. destruct (reachable_refines w Hr) as (tr & σ & R & W & E).
  rewrite Hl in E. symmetry in E. apply calls_split in E as (tr1 & tr2 & -> & E1 & E2).
  destruct (run_answers_start _ _ _ _ _ _ R) as [k Hk]. by exists tr1, tr2, σ, k.
Qed.

(** [C4] No result is lost.  In every state of a worker that always had room (fewer
    than 2^31 tasks with the engine, memory to post what is in flight), whatever
    was interleaved, each coroutine that waits for a task is owed its result: the
    engine still has the task, or its result is in flight, or it is posted. *)
Theorem no_result_lost w :
  roomy_reachable w → ∀ k s, ongoing w k s → k ∈ owed w.
Proof.
  intros Hr k s Hk. destruct (decide (k ∈ owed w)) as [|Hno]; [done|].
  destruct (roomy_reachable_inv w Hr) as [_ Hall]. destruct (Hall k). split; [by exists s|done].
Qed.

(** [C5] One result for each coroutine that waits, and no other.  When nobody gives a task
    up (no timeout, no coroutine destroyed, no blocking call) and there is always
    room, each coroutine that waits is owed exactly one result, and every result the
    engine owes or that is under way is for a coroutine that waits.  So a result that
    arrives for a coroutine is the result of the operation it started last: the
    engine has nothing else under that id. *)
Theorem one_result_each w :
  patient = true → roomy_reachable w →
  (∀ k s, ongoing w k s → multiplicity k (owed w) = 1%nat) ∧
  (∀ k, k ∈ owed w → ∃ s, ongoing w k s) ∧
  (∀ r, r ∈ flight_results w ++ occupied_results w →
     (∃ s, ongoing w (tr_task_id r) s) ∧ tr_task_id r ∉ pending w).
Proof.
  intros Hpat Hr. pose proof (reachable_orderly w Hpat (roomy_is_reachable w Hr)) as Ho.
  split; [|split; [by intros k [_ Hk]%Ho|]].
  - intros k s Hk. destruct (decide (k ∈ owed w)) as [Hin|Hno]; [by apply Ho|].
    destruct (roomy_reachable_inv w Hr) as [_ Hall]. destruct (Hall k). split; [by exists s|done].
  - intros r Hin%elem_of_res_ids. destruct (Ho (tr_task_id r)) as [Hm Hs].
    { unfold owed. multiset_solver. }
    split; [done|]. intros Hp. unfold owed in Hm. rewrite multiplicity_disj_union in Hm.
    rewrite elem_of_multiplicity in Hin. rewrite elem_of_multiplicity in Hp. lia.
Qed.

(** [C6] Nobody waits in vain.  When no coroutine gives up, there is room and the thread pool
    accepts the module's task, each coroutine that waits has its task with the engine
    and a thread waits for it, or its result is in flight and the module's event is
    due, or its result is posted and the posted event is due: the decision of the
    event handler whether to send the thread again is right.  (Without patience it
    is not: [running_task_not_waited_for].) *)
Theorem waiting_is_served w :
  patient = true → pool_accepts → roomy_reachable w → quitting w = false →
  ∀ k s, ongoing w k s →
    (k ∈ pending w ∧ busy w = true) ∨
    (ev_ran (th_task_event (w_th w)) = true ∧ ∃ r, r ∈ flight_results w ∧ tr_task_id r = k) ∨
    (alerted w = true ∧ ∃ r, r ∈ occupied_results w ∧ tr_task_id r = k).
Proof.
  intros Hpat Hpool Hr Hq k s Hk. destruct (roomy_reachable_inv w Hr) as [_ Htr].
  destruct (decide (k ∈ owed w)) as [Hin|Hno]; [|destruct (Htr k); split; [by exists s|done]].
  apply gmultiset_elem_of_disj_union in Hin as [Hp|(r & Hin & E)%res_ids_inv].
  { left. split; [done|]. apply (roomy_watched w Hpat Hpool Hr Hq). multiset_solver. }
  right. apply elem_of_app in Hin as [Hin|Hin]; [left|right]; (split; [|by exists r]).
  - destruct (ev_ran (th_task_event (w_th w))) eqn:Hran; [done|].
    assert (flight_results w = []) as E'; [|rewrite E' in Hin; set_solver].
    apply flight_none. unfold th_array. by rewrite Hran.
  - apply reachable_announced; [by apply roomy_is_reachable|]. intros E'. rewrite E' in Hin.
    set_solver.
Qed.

(** [C7] The truth about streams.  When nobody gives a task up, in every state of a worker
    the success of an operation on a stream, its opening included, that is in flight or
    posted for a coroutine that waits is one of a stream the engine has open: the
    coroutine that is run with it can go on with the stream.  (Without patience it
    may have none: [stale_result_opens_stream].) *)
Theorem stream_successes_are_open w k s r :
  patient = true → reachable w →
  ongoing w k s → sc_type s ≠ NGX_GRPC_CLIENT_STREAM_TYPE_UNARY →
  r ∈ flight_results w ++ occupied_results w → tr_task_id r = k →
  res_type (tr_buf r) ≠ NGX_GRPC_CLIENT_RES_TYPE_ERR →
  k ∈ engine_streams (w_eng w).
Proof.
  intros Hpat Hr Hk Hty. destruct (reachable_truthful w Hpat Hr k) as [_ Hres]; [by exists s|].
  apply Hres.
Qed.

(** [C8] The posted event handler terminates with an empty queue, and has handled
    every posted result in order, each in the state the rounds of its loop before led
    to.  If a stream waits for the result then, its task is dropped and what
    follows is that its coroutine is woken up, which is run first, with the result;
    else the buffer is released and nothing is run.  The results not yet handled keep
    their bytes. *)
Theorem posted_results_handled w :
  winv w →
  wp ngx_grpc_cli_thread_post_event_handler (λ _ w',
    winv w' ∧ queue_of (w_qs w') q_occupied = Some [] ∧
    handled_all w (occupied_results w) w') w.
Proof.
  intros Hw. eapply wp_mono; [by apply post_event_handler_spec|]. cbn beta. tauto.
Qed.

(** [C9] The event handler of the background task posts the results the thread left
    in flight, in their order, all of them unless an allocation is refused;
    releases the array, schedules the posted event, and sends the thread to wait
    again when more tasks are ongoing than were finished. *)
Theorem finished_results_posted w :
  winv w → ev_ran (th_task_event (w_th w)) = true →
  wp thread_reports (λ _ w', event_handler_post (landed w) (flight_results w) w') w.
Proof. apply thread_reports_spec. Qed.

(** [C12] [ngx_grpc_cli_new_stream]: either NULL, with one of the module's messages
    and no new ongoing task, or a stream nobody was using, parked for the
    request, and linked into the connection's opening queue unless it is unary.
    What else Lua holds is as it was. *)
Theorem new_stream_contract r h c x method req opt type gccf w :
  winv w → ctx_at w c x → w_conf w = Some gccf → cf_task gccf ≠ NULL → caller_ready w h r →
  wp (ngx_grpc_cli_new_stream r h c method req opt type) (new_stream_post w r h c type) w.
Proof. apply new_stream_spec. Qed.

(** [C13] Starting a task: every way it can fail, with the message reported and
    nothing kept; or the task in the tree, the coroutine parked with its timer and
    cleanup handler, and the background thread active. *)
Theorem kick_off_contract r gccf k s opt w :
  winv w → stream_at w k s → sc_node s = NULL → sc_r s = r →
  (∀ c l, queue_of (w_qs w) (q_free c) = Some l → k ∉ l) →
  (∃ x, ctx_at w (sc_parent s) x) → cf_task gccf ≠ NULL → caller_ready w (sc_is_http s) r →
  wp (ngx_grpc_cli_kick_off_task r gccf k opt) (kick_off_post w k s r (co_timeout opt)) w.
Proof. intros Hw Hk Hn Hr Hf Hp Ht [Hreq Hco]. by apply kick_off_spec. Qed.

(** [C14] The operations on an open stream, receive, send and close-send: refused
    with the reason, with the stream and the engine as they were; or the task is
    kicked off, and then the engine is called once, with its function for that
    operation on that stream: the stream is ongoing again for the same request.  What
    Lua holds, this stream and others, it may still hold. *)
Theorem stream_ops_contract r k s opt req gccf w :
  winv w → stream_open w k s → w_conf w = Some gccf → cf_task gccf ≠ NULL →
  caller_ready w (sc_is_http s) r →
  wp (ngx_grpc_cli_stream_recv r (sc_is_http s) k opt)
    (stream_op_post w k s r gccf opt (grpc_engine_stream_recv k)) w ∧
  wp (ngx_grpc_cli_stream_send r (sc_is_http s) k opt req)
    (stream_op_post w k s r gccf opt (grpc_engine_stream_send k req)) w ∧
  wp (ngx_grpc_cli_stream_close_send r (sc_is_http s) k opt)
    (stream_op_post w k s r gccf opt (grpc_engine_stream_close_send k)) w.
Proof.
  intros Hw Hs Hc Ht Hr.
  split_and!; (eapply stream_op_spec; [done..|]); auto using live_recv, live_send, live_close_send.
Qed.

(** [C15] A timeout drops the task and then runs the coroutine that waited, with
    [false, "timeout"].  The handler does what waking the coroutine does in the state
    [task_timed_out]: there a lookup does not find the task, which is not ongoing, while
    all others are, the coroutine waits for nothing, and nothing is logged.  The run of
    that coroutine is the first; posted results are left alone. *)
Theorem timeout_reported k s c w :
  winv w → ongoing w k s → w_cos w !! (sc_is_http s, sc_wait_co_ctx s) = Some c →
  let c' := set_co_sleep (ngx_timer_expired (co_sleep c)) c in
  let w1 := task_timed_out w k s c' in
  winv w1 ∧ lookup_walk k (w_tree w1) = NULL ∧ w_out w1 = w_out w ∧
  (∀ p s', ongoing w1 p s' ↔ p ≠ k ∧ ongoing w p s') ∧
  no_waiter w1 (sc_is_http s) (sc_wait_co_ctx s) ∧
  wp (timer_fires (sc_is_http s) (sc_wait_co_ctx s) k) (λ _ w', winv w' ∧
    occupied_results w' = occupied_results w ∧
    wake_coroutine (sc_is_http s) k (sc_r s) w1 = Done tt w' ∧
    next_run (X_run_thread (sc_is_http s) (sc_r s) (sc_wait_co_ctx s)
      (co_pushed c ++ [L_bool false; L_str MSG_timeout])) w w') w.
Proof.
  intros Hw Hon Hc c' w1. pose proof (timeout_waking w k s c' Hw Hon) as Hwk.
  destruct (winv_awake _ _ _ _ _ Hwk) as (Hw1 & _ & _ & Hno).
  pose proof (λ p s', awake_ongoing _ _ _ _ _ p s' Hwk) as Hon1.
  destruct (wi_parked _ Hw _ _ (proj1 Hon) (proj2 Hon)) as (Hco & _).
  split; [exact Hw1|]. split.
  { destruct (decide (lookup_walk k (w_tree w1) = NULL)) as [|Hf]; [done|].
    apply (tree_inv_lookup w1) in Hf as (s' & Hs'); [|apply Hw1].
    by destruct (proj1 (Hon1 k s') Hs'). }
  split; [done|]. split; [exact Hon1|]. split; [exact Hno|].
  apply wp_bind. eapply wp_upd_co; [done|exact Hc|].
  eapply wp_mono; [by apply timeout_handler_spec|]. cbn beta.
  intros _ w' ((Hw' & _ & Hocc & _) & _ & Hwake & Hrun). by split_and!.
Qed.

(** [C33] A posted result reaches the coroutine that waits for it.  When nobody gives up,
    the posted event, once it runs, runs that coroutine for its request, and with
    what the result holds when the handler starts: results that are handled before,
    and the Lua code that runs in between, neither end its wait nor touch its bytes.
    (That the event is due is [waiting_is_served].) *)
Theorem posted_results_reach w k s r :
  patient = true → reachable w → ongoing w k s →
  r ∈ occupied_results w → tr_task_id r = k →
  wp posted_event_runs (λ _ w', ∃ l1 l2 pushed, w_out w' = w_out w ++ l1 ++
    X_run_thread (sc_is_http s) (sc_r s) (sc_wait_co_ctx s) (pushed ++ answer w r) :: l2) w.
Proof.
  intros Hpat Hr Hk Hin E. eapply wp_mono; [by apply posted_event_spec, reachable_inv|].
  cbn beta. intros _ w' (_ & _ & _ & _ & _ & Hall).
  apply list_elem_of_split in Hin as (rs1 & rs2 & Hocc). rewrite Hocc in Hall.
  refine (handled_all_reach rs1 (unposted w) k s r rs2 w' Hpat Hocc Hall Hk E _).
  intros r' Hr' E'. pose proof (reachable_orderly w Hpat Hr k) as Ho.
  assert (multiplicity k (res_ids (occupied_results w)) ≤ 1)%nat as Hle.
  { destruct Ho as [Hm _]; [|unfold owed in Hm].
    - unfold owed. rewrite Hocc. apply gmultiset_elem_of_disj_union. right.
      rewrite <- E. apply elem_of_res_ids. set_solver.
    - rewrite res_ids_app, !multiplicity_disj_union in Hm. lia. }
  rewrite Hocc, res_ids_app, multiplicity_disj_union in Hle.
  apply elem_of_res_ids in Hr'. rewrite E', elem_of_multiplicity in Hr'.
  assert (k ∈ res_ids (r :: rs2)) as Hk2 by (rewrite <- E; apply elem_of_res_ids; by left).
  rewrite elem_of_multiplicity in Hk2. lia.
Qed.

(** [C16] A coroutine that is destroyed while it waits: its timer is disarmed and
    its task dropped, nothing is delivered. *)
Theorem aborted_task_dropped h co k s w :
  winv w → ongoing w k s → sc_is_http s = h → sc_wait_co_ctx s = co →
  wp (grpc_cli_cleanup h co) (λ _ w', winv w' ∧ w_out w' = w_out w ∧
    occupied_results w' = occupied_results w ∧ no_waiter w' h co ∧
    lookup_walk k (w_tree w') = NULL ∧
    ∃ c, w_cos w' !! (h, co) = Some c ∧ ev_timer_set (co_sleep c) = false) w.
Proof.
  intros Hw Hon Hh Hco. eapply wp_mono; [by eapply cleanup_spec|]. cbn beta.
  intros _ w' (Hw' & Ho & Hc & _ & Hno & Hl & Hx). split_and!; try done.
  by apply calm_results.
Qed.

(** [C17] The tree of ongoing tasks of a reachable worker.  A lookup by task id
    succeeds exactly for the streams whose coroutine is parked with an armed
    timer and the module's cleanup handler, and the counter is their number. *)
Theorem reachable_tasks w k :
  reachable w →
  (lookup_walk k (w_tree w) ≠ NULL ↔ ∃ s, ongoing w k s) ∧
  (∀ s, ongoing w k s → parked w k s) ∧
  w_num w = s32 (Z.of_nat (length (rb_entries (w_tree w)))).
Proof.
  intros Hw%reachable_inv. split_and!.
  - apply tree_inv_lookup, Hw.
  - intros s [Hk Hn]. by apply (wi_parked _ Hw).
  - apply (wi_tree _ Hw).
Qed.

(** [C18] In a reachable worker the walk of the red-black tree computes what the heap
    says: the node of the stream at that address, or NULL. *)
Theorem lookup_is_node w k :
  reachable w →
  ngx_grpc_cli_lookup_task k w =
    Done (match cm_heap (w_mem w) !! k with Some (OSctx s) => sc_node s | _ => NULL end) w.
Proof.
  intros Hw%reachable_inv. pose proof (tree_inv_lookup w k (wi_tree _ Hw)) as Hl.
  destruct (wi_tree _ Hw) as (Hb & _ & _ & _ & He & _).
  unfold ngx_grpc_cli_lookup_task, gets. f_equal.
  destruct (decide (lookup_walk k (w_tree w) = NULL)) as [E|E].
  - rewrite E. destruct (cm_heap (w_mem w) !! k) as [[| |s| |]|] eqn:Ek; try done.
    destruct (decide (sc_node s = NULL)) as [|Hn]; [done|]. destruct (proj2 Hl); eauto.
  - destruct (He _ _ (lookup_walk_in _ _ Hb E)) as (_ & _ & _ & s & -> & ->). done.
Qed.

(** [C20] The counter of ongoing tasks is the number of streams that wait, as a 32-bit
    [int]; it is exact as long as there are fewer than 2^31 of them. *)
Theorem task_num_counts w :
  reachable w → ∃ l, NoDup l ∧ (∀ k, k ∈ l ↔ ∃ s, ongoing w k s) ∧
    ngx_grpc_cli_task_num w = Done (s32 (Z.of_nat (length l))) w ∧
    (Z.of_nat (length l) < 2 ^ 31 →
     ngx_grpc_cli_task_num w = Done (Z.of_nat (length l)) w).
Proof.
  intros Hw%reachable_inv. destruct (wi_tree _ Hw) as (Hb & _ & Hnd & Hnum & He & Hs).
  assert (ngx_grpc_cli_task_num w =
    Done (s32 (Z.of_nat (length (map snd (rb_entries (w_tree w)))))) w) as E.
  { unfold ngx_grpc_cli_task_num, gets. by rewrite length_map, Hnum. }
  exists (map snd (rb_entries (w_tree w))). split_and!; [done| |exact E|].
  - intros k. split.
    + intros ([n k'] & -> & Hin)%list_elem_of_fmap.
      destruct (He _ _ Hin) as (Hn & _ & _ & s & Hk & En). exists s. split; [done|congruence].
    + intros (s & Hk & Hn). apply list_elem_of_fmap. exists (sc_node s, k). auto.
  - intros Hlt. rewrite E, s32_small; [done|lia].
Qed.

(** [C19] The links of a reachable worker are well typed: an element of a queue is a
    live object of the structure the queue links, in the state that queue asks
    for; it is linked once, and into no other queue. *)
Theorem queues_well_typed w h l :
  reachable w → queue_of (w_qs w) h = Some l →
  NoDup l ∧ (∀ k, k ∈ l → elem_ok w h k) ∧
  (∀ h' l' k, queue_of (w_qs w) h' = Some l' → k ∈ l → k ∈ l' → h' = h).
Proof.
  intros Hw%reachable_inv Hl. destruct (wi_queues _ Hw) as [Hnd Hdis]. split_and!.
  - by eapply Hnd.
  - intros k. by eapply (wi_elems _ Hw).
  - intros h' l' k Hl' Hk Hk'. by eapply (Hdis _ _ _ _ k).
Qed.

(** [C21] [ngx_grpc_cli_close_stream]: the engine is told to close the stream, once, and an
    explicit close does nothing else; the
    collector's close also moves the stream to the connection's free queue, and
    when it was the last stream of a connection whose release was delayed,
    releases the connection and all its streams.  No other object that Lua holds
    is touched. *)
Theorem close_stream_contract k s r h l1 l2 w :
  winv w → stream_at w k s →
  queue_of (w_qs w) (q_opening (sc_parent s)) = Some (l1 ++ k :: l2) →
  (r = NULL ∨ req_live w h r) →
  (r = NULL → sc_node s = NULL ∧ (l1 ++ l2 = [] → conn_idle w (sc_parent s))) →
  wp (ngx_grpc_cli_close_stream k r h)
    (λ _ w', close_stream_post w k s r (l1 ++ l2) w') w.
Proof. apply close_stream_spec. Qed.

(** [C22] [ngx_grpc_cli_close]: the engine's connection is closed once; the
    collector's close also releases the connection with its free streams, or
    marks it to be released with its last stream.  No other object that Lua holds
    is touched. *)
Theorem close_contract c x r h w :
  winv w → ctx_at w c x → (r = NULL ∨ req_live w h r) →
  (r = NULL → queue_of (w_qs w) (q_opening c) = Some [] → conn_idle w c) →
  wp (ngx_grpc_cli_close c r h) (λ _ w', close_post c x r w w') w.
Proof.
  intros Hw Hc Hr Hidle. apply close_spec; try done.
  intros E Eq k s Hk Hn. by apply (Hidle E Eq k s).
Qed.

(** [C23] [ngx_grpc_cli_connect]: when [calloc] is refused, NULL and nothing is done, the
    buffer included; else the engine is called once, and either it gives its reference
    for a connection of its own with empty queues, or NULL and a message of at most 511
    bytes: then NULL is returned, that message is in the buffer, and nothing is
    kept. *)
Theorem connect_contract r h target opt w :
  winv w → req_live w h r →
  wp (ngx_grpc_cli_connect r h target opt) (connect_post w target opt) w.
Proof. apply connect_spec. Qed.

(** [ngx_grpc_cli_call] without an output buffer is a unary stream: [NGX_OK]
    exactly when a task was started. *)
Theorem call_contract r h c x method req opt gccf w :
  winv w → ctx_at w c x → w_conf w = Some gccf → cf_task gccf ≠ NULL → caller_ready w h r →
  wp (ngx_grpc_cli_call r h c method req opt None) (λ res w', res.2 = None ∧
    ∃ k, new_stream_post w r h c NGX_GRPC_CLIENT_STREAM_TYPE_UNARY k w' ∧
      res.1 = if decide (k = NULL) then NGX_ERROR else NGX_OK) w.
Proof.
  intros. apply wp_bind. eapply wp_mono; [by eapply new_stream_spec|]. cbn beta.
  intros k w' Hp. apply wp_ret. split; [done|]. exists k. split; [done|].
  destruct (Z.eqb_spec k NULL); by repeat case_decide.
Qed.

(** [C32] A blocking call starts the call in the engine and waits for ten minutes.  It
    returns the buffer and the size of the first result, which nobody else owns then;
    or an error, with the bytes of that result as its message, its buffer released;
    or an error that says that the connection was closed, the engine not called, or
    that no result came.  The array of results is released, the invariant and what Lua
    holds are kept.  Besides an exhausted memory it can only stop at an assertion. *)
Theorem blocking_contract r h c x sctx method req opt w :
  winv w → ctx_at w c x → is_u64 sctx →
  wpf assert_only (ngx_grpc_cli_call r h c method req opt (Some sctx)) (λ res w', winv w' ∧
    handles none none w w' ∧ engine_refs (w_eng w') = engine_refs (w_eng w) ∧
    blocking_outcome w x (λ ref, grpc_engine_call sctx ref method req opt) res w') w.
Proof.
  intros Hw Hc Hu. eapply wpf_mono; [by apply (blocking_spec c x)|]. cbn beta. tauto.
Qed.

(** [ngx_grpc_cli_put_res] pushes what the state and the kind of the result
    ask for, releases the result's buffer, and gives a unary stream back to its
    connection. *)
Theorem put_res_contract k s h co c w :
  winv w → deliverable w k s h co c →
  wp (ngx_grpc_cli_put_res k h co) (λ _ w', put_res_post w k s h co c w') w.
Proof. apply put_res_spec. Qed.

(** [C10] The main thread does not touch what the background thread left: whatever Lua
    does between the end of the thread's handler and its event, the results in
    flight and the posted results are the same, their buffers hold the same bytes, and the
    array is as valid. *)
Theorem flight_undisturbed w w' :
  reachable w → lua_steps w w' →
  flight_results w' = flight_results w ∧ occupied_results w' = occupied_results w ∧
  data_kept w w' ∧ flight_inv w'.
Proof.
  intros Hw%reachable_inv Hs. destruct (lua_steps_env w w' Hw Hs) as (Hw' & _ & Ho & [Hf Hd] & _).
  split; [done|]. split; [done|]. split; [done|apply Hw'].
Qed.

(** The background thread leaves the finished results in an array that only
    the event handler owns; the queues, the tree and the coroutines, which
    belong to the main thread, are untouched. *)
Theorem thread_handler_contract w :
  winv w → ev_ran (th_task_event (w_th w)) = false → w_exiting w = false →
  w_terminate w = false →
  wp ngx_grpc_cli_thread_handler (λ _ w', winv w' ∧ ∃ rs,
    th_finished_task_num (w_th w') = s32 (Z.of_nat (length rs)) ∧
    (rs = [] → th_finished_tasks (w_th w') = NULL) ∧
    pending w = res_ids rs ⊎ pending w' ∧
    finished_array w' (take (Z.to_nat (th_finished_task_num (w_th w'))) rs) ∧
    w_qs w' = w_qs w ∧ w_tree w' = w_tree w ∧ w_num w' = w_num w ∧ w_cos w' = w_cos w) w.
Proof.
  intros Hw Hran He Ht. eapply wp_mono; [by apply thread_handler_spec|]. cbn beta.
  intros _ w' (Hw' & _ & _ & rs & ? & ? & ? & _ & Hrest). split; [done|]. exists rs.
  do 3 (split; [done|]). exact Hrest.
Qed.

(** Keeping a task and dropping it again: in between a lookup finds it; after,
    the heap, the counter and the entries of the tree are what they were. *)
Theorem task_kept_and_dropped k s w :
  winv w → stream_at w k s → sc_node s = NULL →
  wp (ngx_grpc_cli_keep_task k) (λ rc w1,
    (rc = NGX_ERROR ∧ w1 = tick w) ∨
    (rc = NGX_OK ∧ lookup_walk k (w_tree w1) ≠ NULL ∧
     wp (ngx_grpc_cli_unkeep_task k) (λ _ w2,
       cm_heap (w_mem w2) = cm_heap (w_mem w) ∧ w_num w2 = w_num w ∧
       rb_entries (w_tree w2) ≡ₚ rb_entries (w_tree w) ∧
       lookup_walk k (w_tree w2) = NULL) w1)) w.
Proof.
  intros Hw Hk Hn. pose proof (winv_live_nonnull w _ _ Hw Hk) as Hk0.
  apply (wp_keep_task k s); [done..|by left|]. intros n Hfresh Hr. right.
  assert (n ≠ NULL) as Hn0 by (unfold NULL; lia).
  assert (n ≠ k) as Hnk by (intros ->; unfold stream_at in Hk; congruence).
  pose proof (tree_inv_kept n k s w (wi_tree _ Hw) Hk0 Hk Hn Hfresh Hn0) as Ht.
  assert (cm_heap (w_mem (kept n k s w)) !! k = Some (OSctx (set_node n s))) as Hk1
    by apply lookup_insert_eq.
  destruct (tree_inv_unkept k (set_node n s) _ Ht Hk1 Hn0) as (Hlive & _ & Hu).
  split; [done|]. split; [apply tree_inv_lookup; eauto|].
  apply (wp_unkeep_task k (set_node n s)); [done|done|by intros ?|]. intros _.
  split; [done|]. split; [done|].
  assert (cm_heap (w_mem (unkept k (set_node n s) (kept n k s w))) = cm_heap (w_mem w)) as Hh.
  { cbn. rewrite delete_insert_ne, delete_insert_id, insert_insert_eq by done.
    apply insert_id. rewrite Hk. destruct s; simpl in *; by subst. }
  split; [done|]. split; [by apply unkept_kept_num, Hw|]. split.
  { apply unkept_kept_entries; [apply Hw|done]. }
  destruct (decide (lookup_walk k (w_tree (unkept k (set_node n s) (kept n k s w))) = NULL))
    as [|Hf]; [done|].
  apply tree_inv_lookup in Hf as (s' & Hs' & Hne); [|done]. rewrite Hh in Hs'.
  unfold stream_at in Hk. congruence.
Qed.

(** [ngx_grpc_cli_check_stream_status] accepts exactly the request that opened
    the stream, when the stream waits for nothing; otherwise it says why not and
    changes only the error buffer. *)
Theorem check_status_contract k s r w :
  winv w → stream_at w k s →
  wp (ngx_grpc_cli_check_stream_status k r) (λ rc w',
    if decide (sc_r s ≠ NULL ∧ sc_r s = r ∧ sc_wait_co_ctx s = NULL)
    then rc = NGX_OK ∧ w' = w
    else rc = NGX_ERROR ∧ ∃ msg, status_error s r = Some msg ∧ w' = reported_err msg w) w.
Proof.
  intros Hw Hk. pose proof (winv_live_nonnull w _ _ Hw Hk) as Hk0.
  eapply wp_mono; [by apply check_status_spec|]. cbn beta. intros rc w'.
  unfold status_error. repeat case_decide; naive_solver.
Qed.

(** [C34] [ngx_grpc_cli_init_worker]: without a configuration, an engine path or a
    thread pool it does nothing; it fails when the engine or one of its symbols
    is missing or memory is refused; else the worker starts with empty queues
    and an empty tree, and the invariant holds. *)
Theorem init_worker_outcomes w :
  wp ngx_grpc_cli_init_worker (λ rc w', init_outcome w rc w') w.
Proof. apply init_worker_spec. Qed.

(** [C40] At exit the thread releases the array of results but leaves
    [finished_tasks] and [finished_task_num] as they are; when there was a
    result, the event handler of the same cycle reads the released array. *)
Theorem exit_cycle_reads_freed_array w w1 :
  winv w → ev_ran (th_task_event (w_th w)) = false → w_exiting w || w_terminate w = true →
  ngx_grpc_cli_thread_handler w = Done tt w1 → th_finished_task_num (w_th w1) > 0 →
  thread_cycle w = Crash (BadDeref (th_finished_tasks (w_th w1))).
Proof.
  intros Hw Hran Hx E Hn.
  pose proof (wp_elim _ _ _ _ _ (thread_handler_exit_spec w Hw Hran Hx) E) as [_ Hd].
  destruct (Hd Hn) as [Hnn Hfree].
  assert (thread_waits w = Done tt
    (set_th (set_task_event (ngx_task_ran (th_task_event (w_th w1))) (w_th w1)) w1)) as E1
    by exact (bind_done _ _ _ _ _ E).
  unfold thread_cycle. rewrite (bind_done _ _ _ _ _ E1). set (w1' := set_th _ w1).
  set (w2 := set_th (set_task_event (ngx_task_finished (th_task_event (w_th w1'))) (w_th w1')) w1').
  exact (event_handler_dangling w2 Hn Hnn Hfree).
Qed.

(** No process of nginx closes the engine: a worker has no function for its exit,
    and the master, which has one, holds no engine. *)
Theorem engine_is_never_closed w w' :
  reachable w → worker_exits w = Done tt w' →
  (∀ hd, X_dlclose hd ∉ w_out w') ∧
  ∀ m, w_conf m = Some (ClientConf engine_path NULL NULL NULL) → master_exits m = Done tt m.
Proof.
  intros Hr [= <-]. split.
  - intros hd Hin. destruct (reachable_log w Hr) as (path & l & E & Hl). rewrite E in Hin.
    apply elem_of_cons in Hin as [|Hin]; [done|].
    rewrite list.Forall_forall in Hl. by apply Hl in Hin.
  - intros m Hc. change (ngx_grpc_cli_exit_worker m = Done tt m).
    unfold ngx_grpc_cli_exit_worker, mbind, M_bind, get. by rewrite Hc.
Qed.

(** Built without an engine path, the module takes the two quotes of [""] for
    the path: the check for an empty path does not stop it, and a worker with the
    thread pool fails to start when there is no file of that name. *)
Theorem default_engine_path_is_loaded w :
  build_engine_path = None → w_conf w = Some (ClientConf engine_path NULL NULL NULL) →
  ngx_thread_pool_get ≠ NULL → dlopen [x22; x22] = NULL →
  wp ngx_grpc_cli_init_worker (λ rc w',
    rc = NGX_ERROR ∧ w_out w' = w_out w ++ [X_dlopen [x22; x22]]) w.
Proof.
  intros Hb Hc Hp Hd. apply wp_bind, wp_get. rewrite Hc.
  unfold engine_path, NGX_GRPC_CLI_ENGINE_PATH, STRINGIFY. rewrite Hb. simpl.
  rewrite (proj2 (Z.eqb_neq _ _) Hp). apply wp_bind, wp_modify. cbn zeta.
  apply wp_bind, wp_modify. by rewrite Hd.
Qed.
End contracts.
