(* ===== verification/GoContracts.v ===== *)
(** * Contracts of the Go engine

    What the exported functions of [main.go] and the operations of
    [conn/grpc.go] do, beyond the interface [EngineSpec] that the module needs:
    which goroutine a call starts, what a goroutine reports, what a wait hands
    over, how a connection is dialed. *)
From Stdlib Require Import Strings.Byte.
From S2P Require Import Prelude Words Mem Wire TaskQueue Ngx World EngineSpec Engine.
From S2P Require Import EngineProof.

Section goroutines.
Context `{GrpcLib}.

(** What the goroutine [t] reports when it runs on the network [n]: the result
    and the error, as [ReportFinishedTask] takes them. *)
Definition outcome_of {A} (m : G (bytes + A)) (result : A → option bytes) (n : net)
  : option bytes * option bytes :=
  match (m n).1 with
  | Go_ret (inr a) => (result a, None)
  | Go_ret (inl err) => (None, Some err)
  | Go_panic msg => (None, Some (panic_text msg))
  end.

Definition goroutine_outcome (t : goroutine) : net → option bytes * option bytes :=
  match t with
  | go_call _ c method req co => outcome_of (Call c method req co) id
  | go_new_stream _ c method req co ty => outcome_of (NewStream c method req co ty) (λ _, None)
  | go_recv _ s => outcome_of (Recv s) id
  | go_send _ s req => outcome_of (Send s req) (λ _, None)
  | go_close_send _ s => outcome_of (CloseSend s) (λ _, None)
  end.

(** The stream a goroutine opens. *)
Definition goroutine_stream (t : goroutine) (n : net) : option Stream :=
  match t with
  | go_new_stream _ c method req co ty =>
      match (NewStream c method req co ty n).1 with Go_ret (inr s) => Some s | _ => None end
  | _ => None
  end.

(** [C31] A goroutine reports exactly one task, under the id it was given, whether
    its gRPC operation succeeds, fails or panics; the only stream it may open is
    its own, and it leaves the connections alone. *)
Theorem goroutine_reports_once t g :
  let o := goroutine_outcome t (ge_net g) in
  let g' := run_goroutine t g in
  finishedTaskQueue g' = Done_ (goroutine_id t) o.1 o.2 (finishedTaskQueue g) ∧
  EngineCtxRef g' = EngineCtxRef g ∧ ge_running g' = ge_running g ∧
  StreamRef g' = match goroutine_stream t (ge_net g) with
                 | Some s => <[goroutine_id t := s]> (StreamRef g)
                 | None => StreamRef g
                 end.
Proof.
  destruct t; cbn -[Call NewStream Recv Send CloseSend];
    unfold run_reporting, outcome_of, report_bytes, report_unit, report_stream;
    match goal with |- context [?m (ge_net g)] => destruct (m (ge_net g)) as [[[e|a]|msg] n] end;
    done.
Qed.
End goroutines.

Section engine.
Context `{GrpcLibLaws} `{AllocatorLaws} `{Host}.
Implicit Types g : go_engine.

(** [grpc_engine_call] with an open connection starts one goroutine, with the
    task id it was given although it passes as a C [long], and the options
    converted; with any other reference it panics, and nobody recovers. *)
Theorem call_starts_goroutine id ref method req opt g m :
  go_wf g → is_u64 id →
  go_engine_call id ref method req opt (g, m) =
    match EngineCtxRef g !! ref with
    | Some c => Done tt
        (set_running (ge_running (progress g) ++ [go_call id c method req (call_option opt)])
           (progress g), m)
    | None => Crash (GoPanic MSG_cant_find)
    end.
Proof.
  intros Hg Hid. pose proof (ev_refs _ _ (progress_evolves g Hg)) as Er.
  unfold go_engine_call, mbind, M_bind, on_engine, modify, get, mustFind.
  cbn -[progress]. rewrite Er, u64_s64 by done.
  by destruct (EngineCtxRef g !! ref).
Qed.

(** [C30] [grpc_engine_wait] hands over every task finished by then, once: NULL when
    there is none, else an array whose record [i] is task [i], with its payload in
    a buffer. *)
Theorem wait_hands_over timeout g m :
  go_wf g →
  let ts := tq_tasks (finishedTaskQueue (progress g)) in
  wp (go_engine_wait timeout) (λ x s,
    tq_tasks (finishedTaskQueue s.1) = [] ∧ x.2 = s32 (Z.of_nat (length ts)) ∧
    if decide (ts = []) then x.1 = NULL
    else x.1 ≠ NULL ∧ ∃ b, cm_heap s.2 !! x.1 = Some (OBuf b) ∧
      length b = (24 * length ts)%nat ∧
      ∀ i t, ts !! i = Some t →
        ∃ r, read_task_res host_endian b i = Some r ∧ record_of t r (cm_heap s.2)) (g, m).
Proof.
  intros Hg ts. destruct (ev_wf _ _ (progress_evolves g Hg)) as [Hl Hts _].
  apply wp_bind, wp_modify. apply wp_bind, wp_modify. apply wp_bind, wp_get. apply wp_bind.
  apply wp_on_heap. eapply wp_mono; [by apply Wait_finish_spec|]. cbn beta.
  intros [q [out n]] m1 (_ & Hq & _ & Hn & _ & rs & Hout & Hrs & Hall). simpl in *.
  apply wp_bind, wp_modify. simpl. fold ts in Hn, Hall.
  destruct (decide (ts = [])) as [E|E].
  { rewrite E in Hn. simpl in Hn. subst n. apply wp_ret. simpl. by rewrite E. }
  assert (n ≠ 0) as Hn0 by (subst n; destruct ts; [done|simpl; lia]).
  rewrite (proj2 (Z.eqb_neq n 0)) by done.
  apply wp_bind, wp_on_heap, wp_C_malloc. intros p Hp Hr Ha. apply wp_ret. simpl.
  split; [done|]. split; [by rewrite Hn|]. split; [unfold NULL; lia|].
  exists out. split; [apply lookup_insert_eq|].
  split; [by rewrite Hout, length_concat_records, (Forall2_length _ _ _ Hall)|].
  intros i t Hi. destruct (Forall2_lookup_l _ _ _ _ _ Hall Hi) as (r & Hri & Hrec).
  exists r. rewrite Hout. split; [by apply read_records|].
  eapply record_of_mono; [done|]. by apply insert_subseteq.
Qed.

(** [grpc_engine_close] and [grpc_engine_close_stream] are idempotent: what
    they remove is gone, and removing it again changes nothing but the time that
    passes. *)
Theorem close_is_idempotent ref sctx g m :
  go_wf g →
  (EngineCtxRef g !! ref = None → go_close ref (g, m) = Done tt (progress g, m)) ∧
  (∀ s, go_close ref (g, m) = Done tt s → EngineCtxRef s.1 !! ref = None) ∧
  (∀ s, go_engine_close_stream sctx (g, m) = Done tt s → StreamRef s.1 !! sctx = None) ∧
  (StreamRef (progress g) !! sctx = None →
     go_engine_close_stream sctx (g, m) = Done tt (progress g, m)).
Proof.
  intros Hg. pose proof (ev_refs _ _ (progress_evolves g Hg)) as Er.
  unfold go_close, go_engine_close_stream, mbind, M_bind, on_engine, modify, get, on_heap, zoom.
  cbn -[progress]. rewrite Er. split_and!.
  - by intros ->.
  - intros s. destruct (EngineCtxRef g !! ref) eqn:E; cbn -[progress].
    + destruct (mem_free ref m); [|done]. intros <-%done_inv. cbn -[progress].
      by rewrite Er, lookup_delete_eq.
    + intros <-%done_inv. cbn -[progress]. by rewrite Er.
  - intros s. destruct (StreamRef (progress g) !! sctx) eqn:E; cbn -[progress];
      intros <-%done_inv; cbn -[progress]; [apply lookup_delete_eq|done].
  - by intros ->.
Qed.
End engine.

(** ** [conn/grpc.go] *)

Section conn.
Context `{GrpcLib}.

(** [C37] A connection that is not insecure is dialed with TLS or not at all, and the
    server's certificate is verified exactly when [tls_verify] asks for it. *)
Theorem tls_is_kept target opt n :
  Insecure opt = false →
  (∃ err, Connect target opt n = (Go_ret (inl err), n)) ∨
  ∃ opts tc, Connect target opt n = grpc_Dial target opts n ∧
    WithTLS tc ∈ opts ∧ (WithInsecure ∉ opts) ∧
    InsecureSkipVerify tc = negb (TLSVerify opt) ∧
    (ClientCertFile opt ≠ [] → ClientKeyFile opt ≠ [] →
       Certificates tc = Some (ClientCertFile opt, ClientKeyFile opt)).
Proof.
  intros Hi. unfold Connect, connect_certs. rewrite Hi.
  unfold g_try, g_check, g_bind, g_ret, g_gets.
  set (opts := if negb (MaxRecvMsgSize opt =? 0) then _ else _).
  assert (WithInsecure ∉ opts) as Ho by (unfold opts; case_match; set_solver).
  assert (∀ tc, WithTLS tc ∈ opts ++ [WithTLS tc] ∧ WithInsecure ∉ opts ++ [WithTLS tc]) as Hopts
    by (intros tc; set_solver).
  destruct (bool_decide_reflect (ClientCertFile opt = [])) as [E1|E1];
    [|destruct (bool_decide_reflect (ClientKeyFile opt = [])) as [E2|E2]]; simpl.
  1,2: right; eexists _, _; split; [done|]; split_and!; [by apply Hopts..|done|done].
  destruct (LoadX509KeyPair _ _ n); [by left; eexists|].
  destruct (bool_decide (TrustedCA opt = [])); simpl.
  { right. eexists _, _. split; [done|]. by split_and!; [apply Hopts..| |]. }
  destruct (ReadFile _ n) as [err|ca]; [by left; eexists|].
  destruct (AppendCertsFromPEM ca); simpl; [|by left; eexists].
  right. eexists _, _. split; [done|]. by split_and!; [apply Hopts..| |].
Qed.

(** Without a client certificate the trusted CA is ignored: the connection is
    dialed as if none were configured. *)
Theorem trusted_ca_ignored target opt ca n :
  ClientCertFile opt = [] →
  Connect target opt n =
  Connect target (ConnectOpt (Insecure opt) (TLSVerify opt) (MaxRecvMsgSize opt)
                    (ClientCertFile opt) (ClientKeyFile opt) ca) n.
Proof. intros E. unfold Connect, connect_certs. simpl. by rewrite E. Qed.

(** [NewStream] without a timeout has a nil [cancel]; when grpc-go then fails to
    open the stream, calling it panics, and the panic is reported in place of the
    error. *)
Theorem stream_error_hidden_by_panic c method req opt type desc err n n' :
  Timeout opt ≤ 0 → stream_desc_of type = Some desc →
  c_NewStream c (createCtxWithMd (Metadata opt)) desc method n = (Go_ret (inl err), n') →
  NewStream c method req opt type n = (Go_panic MSG_nil_call, n').
Proof.
  intros Ht Hd E. unfold NewStream, with_timeout, call_cancel, g_try, g_bind.
  rewrite (proj2 (Z.ltb_ge 0 (Timeout opt))), Hd by done. by rewrite E.
Qed.
End conn.
