(* ===== verification/LuaContracts.v ===== *)
(** * The properties of the Lua library, [lib/resty/grpc.lua] *)
From Stdlib Require Import QArith_base.
From S2P Require Import Prelude Words Mem Wire TaskQueue Ngx World Waiters Tasks Conn.
From S2P Require Import Stream Binding Handlers EngineSpec Inv InvMoves ConnInv StreamInv.
From S2P Require Import StreamOps EventInv PutResInv BlockInv LuaSteps BindingState BindingInv.
Open Scope Z_scope.

Section lua_contracts.
Context `{AllocatorLaws} `{NginxLaws} `{GrpcEngineLaws} `{!Patience} `{!LuaPb}.
Implicit Types (w : world) (l : lib).

(** An operation makes only calls the module allows in their state, and keeps the
    tables in order; so does what is left of it when the coroutine is resumed with
    any values. *)
Definition contract_kept h r op w l : Prop :=
  match run_op h r op (w, l) with
  | Done res (w1, l1) => winv w1 ∧ lua_steps w w1 ∧ tables_ok h w1 l1 ∧
      match res with
      | Finished _ => True
      | Yields k => ∃ sctx,
          match op with O_new_stream _ _ _ _ _ type => opening h type sctx (w1, l1) | _ => True end ∧
          ∀ vs w2 l2, winv w2 → tables_ok h w2 l2 → resume_ready h r op sctx vs w2 l2 →
          match k vs (w2, l2) with
          | Done _ (w3, l3) => winv w3 ∧ lua_steps w2 w3 ∧ tables_ok h w3 l3
          | Crash f => f = OutOfMemory ∨ f = AssertFail ∧ patient = false
          end
      end
  | Crash f => f = OutOfMemory ∨ f = AssertFail ∧ patient = false
  end.

(** [C11] The library keeps its side of the module's contract, and its tables in order.
    When its tables and finalizers hold live connections and open streams, any
    operation called from a live request whose coroutine waits for nothing makes
    only calls the module allows, whatever its arguments, and they hold such objects
    again; so does what is left of it when the coroutine is resumed, except that a
    coroutine which is told that its stream is open must be told the truth (see
    [stale_result_opens_stream]).  It can only stop on exhausted memory in cgo or on
    the assertion of a blocking call. *)
Theorem library_keeps_contract h r op w l :
  winv w → tables_ok h w l → op_ready h w l r op → contract_kept h r op w l.
Proof.
  intros Hw Ht Hop. unfold contract_kept. pose proof (run_op_allowed h r op w l Hw Ht Hop) as Hrun.
  unfold wpf in Hrun.
  destruct (run_op h r op (w, l)) as [res [w1 l1]|f]; [|done].
  destruct Hrun as (sctx & Hopen & (Hw1 & Hs1 & Ht1) & Hres). split_and!; [done..|].
  destruct res as [x|k]; [done|]. exists sctx. split; [by destruct op|].
  intros vs w2 l2 Hw2 Ht2 Hr. specialize (Hres vs w2 l2 Hw2 Ht2 Hr). unfold wpf in Hres.
  by destruct (k vs (w2, l2)) as [x [w3 l3]|f].
Qed.

(** Before anything is connected or opened they are. *)
Lemma tables_start h w l :
  lb_conns l = ∅ → lb_streams l = ∅ → lb_gc l = [] → tables_ok h w l.
Proof.
  intros Ec Es Eg. split; rewrite ?Eg, ?Es; try by intros ? ?%elem_of_nil.
  - split; intros t x; by rewrite ?Ec, ?Es, lookup_empty.
  - intros t st. by rewrite lookup_empty.
  - intros t t' st st'. by rewrite lookup_empty.
Qed.

(** [C24] After a close nothing reaches the module.  A connection or a stream that was
    closed answers every operation at once (a second close with nothing, the
    others with nil and a message), and neither the worker nor the library's state
    changes. *)
Theorem closed_objects_refuse h self r s x s1 r' op :
  (Conn_close h self r s = Done x s1 ∧ op_conn op = Some self ∨
   stream_close h self r s = Done x s1 ∧ x ≠ Raise ∧ op_stream op = Some self) →
  run_op h r' op s1 = Done (Finished (refusal s1.2 op)) s1.
Proof.
  intros [[E Hop]|(E & Hx & Hop)].
  - eapply closed_conn_refuses; [done|]. by eapply Conn_close_closes.
  - destruct (stream_close_closes h self r s x s1 E) as [|(st & Hs & Hc)]; [done|].
    by eapply closed_stream_refuses.
Qed.

(** [C26] lua-protobuf's state is not disturbed: the library switches to its own to load,
    encode and decode, and whatever an operation does, before it yields and after it
    is resumed, the state of its caller is active again; but for a load that raises
    an error. *)
Theorem protobuf_state_restored h r op s res s1 :
  run_op h r op s = Done res s1 →
  (lb_active s1.2 = lb_active s.2 ∨ (∃ def ty, op = O_load def ty) ∧ res = Finished Raise) ∧
  match res with
  | Finished _ => True
  | Yields k => ∀ vs s2 x s3, k vs s2 = Done x s3 → lb_active s3.2 = lb_active s2.2
  end.
Proof.
  intros E. split.
  - destruct (loads op) as [[def ty]|] eqn:Eop.
    + destruct op; try done. apply run_load in E as (x & -> & E).
      destruct (load_frame _ _ _ _ _ E) as (_ & _ & _ & [->|]); [right|by left]. eauto.
    + left. refine (rel_run_op h same_active r op _ _ _ _ E). by intros def ty ->.
  - pose proof (rest_run_op h same_active r op _ _ _ E) as Hr. destruct res as [x|k]; [done|].
    intros vs s2 x s3 Ek. exact (Hr vs _ _ _ Ek).
Qed.

(** [C25] Nothing that user code holds is leaked: the context of every connection and of
    every stream that is not closed has its finalizer, and so it is after every
    operation, the collector's too, and after what is left of one. *)
Theorem open_objects_are_finalized h r op s res s1 :
  finalized s.2 → run_op h r op s = Done res s1 →
  finalized s1.2 ∧
  match res with
  | Finished _ => True
  | Yields k => ∀ vs s2 x s3, finalized s2.2 → k vs s2 = Done x s3 → finalized s3.2
  end.
Proof.
  intros Hf E. split.
  - destruct (loads op) as [[def ty]|] eqn:Eop.
    + destruct op; try done. apply run_load in E as (x & -> & E).
      destruct (load_frame _ _ _ _ _ E) as (Ec & Es & Eg & _). by apply (finalized_tables s.2).
    + refine (rel_run_op h keeps_finalized r op _ _ _ _ E Hf). by intros def ty ->.
  - pose proof (rest_run_op h keeps_finalized r op _ _ _ E) as Hr. destruct res as [x|k]; [done|].
    intros vs s2 x s3 Hf2 Ek. exact (Hr vs _ _ _ Ek Hf2).
Qed.

(** But a stream whose opening fails has no table and no finalizer: when its
    coroutine is resumed with false and a message, the library returns the message
    and forgets the context. *)
Theorem refused_stream_has_no_finalizer h self r service method req opt type s k s1 s2 err :
  new_stream h self r service method req opt type s = Done (Yields k) s1 →
  k [L_bool false; L_str err] s2 = Done (Fail (lit "failed to new stream: " ++ err)) s2.
Proof.
  destruct s as [w l]. unfold new_stream, mbind, M_bind.
  destruct (find_method _ _ _ _) as [[e|[c m]] s3|]; [done| |done].
  destruct (load_state _ _ _) as [[e|data] s4|]; [done| |done].
  destruct (reset_err_len _) as [[] s5|]; [|done].
  destruct (on_world _ _) as [sctx s6|]; [|done].
  case_match; [by destruct (module_error _ _)|]. by intros [= <- _].
Qed.

(** A file that declares services but no package makes [load] raise an error in place
    of [nil, err], and lua-protobuf is left on the state of the library. *)
Theorem load_without_package def ty w l file ps st inst :
  lb_protoc l = Some inst → ty = Some PROTO_TYPE_FILE →
  protoc_loadfile def (pi_state inst) (default pb_new (lb_current l)) = (inr file, ps, st) →
  pf_package file = None → pf_service file ≠ [] →
  ∃ l', load def ty (w, l) = Done Raise (w, l') ∧ lb_active l' = st.
Proof.
  intros Hp -> Hl Hpk Hs. eexists. unfold load, mbind, M_bind, get, on_lib, modify. cbn [fst snd].
  rewrite Hp. cbn. rewrite Hl, Hpk. destruct (pf_service file); [done|]. by split.
Qed.

(** A first load that fails is not made good.  It leaves the caller's state active and
    returns nil and a message, but keeps the instance with no state: the next load
    skips [protoc.reload], and works on a new state that is not prepared. *)
Theorem failed_first_load_is_not_repeated def w l err ps st :
  lb_protoc l = None → lb_current l = None →
  protoc_loadfile def protoc_new (protoc_reload pb_new) = (inl err, ps, st) →
  ∃ l', load def None (w, l) = Done (Fail (lit "failed to load protobuf: " ++ err)) (w, l') ∧
    lb_active l' = lb_active l ∧ lb_streams l' = lb_streams l ∧ lb_conns l' = lb_conns l ∧
    ∀ def2 r2 ps2 st2, protoc_loadfile def2 ps pb_new = (r2, ps2, st2) →
      match r2 with
      | inl err2 => ∃ l2, load def2 None (w, l') =
          Done (Fail (lit "failed to load protobuf: " ++ err2)) (w, l2) ∧ lb_current l2 = None
      | inr file => pf_package file ≠ None → ∃ l2,
          load def2 None (w, l') = Done (Ok R_true) (w, l2) ∧ lb_current l2 = Some st2
      end.
Proof.
  intros Hp Hc Hl. eexists. split.
  { unfold load, mbind, M_bind, get, on_lib, modify. cbn [fst snd]. rewrite Hp, Hc. cbn.
    rewrite Hl. reflexivity. }
  do 3 (split; [reflexivity|]). intros def2 r2 ps2 st2 Hr.
  unfold load, mbind, M_bind, get, on_lib, modify. cbn. rewrite Hr. destruct r2 as [e|file].
  - eexists. split; reflexivity.
  - destruct (pf_package file); [intros _|intros []; reflexivity].
    eexists. split; reflexivity.
Qed.
End lua_contracts.

(** ** Options *)

Lemma trunc_between (x : Q) (a b : Z) :
  Zpos (Qden x) * a ≤ Qnum x < Zpos (Qden x) * b → 0 ≤ a → a ≤ trunc x < b.
Proof.
  intros [Ha Hb] Ha0. unfold trunc. assert (0 ≤ Qnum x) by nia.
  rewrite Z.quot_div_nonneg by lia. split.
  - apply Z.div_le_lower_bound; lia.
  - apply Z.div_lt_upper_bound; lia.
Qed.

(** [C27] The options reach the engine within their C types: a timeout of at least a
    millisecond is passed on without its fraction, one that is absent or not
    positive is a minute, but a positive one below a millisecond becomes 0, no
    timeout at all for the engine; a message size beyond [INT_MAX] is [INT_MAX]. *)
Theorem options_converted (o : lua_call_opt) (d : lua_dial_opt) :
  is_u64 (co_timeout (call_opt_of o)) ∧
  - 2 ^ 31 ≤ do_max_recv_msg_size (dial_opt_of d) < 2 ^ 31 ∧
  (∀ x, lc_timeout o = Some x →
     co_timeout (call_opt_of o) =
       if Qnum x <=? 0 then 60000
       else if Qnum x <? Zpos (Qden x) then 0
       else u64 (trunc x)) ∧
  (lc_timeout o = None → co_timeout (call_opt_of o) = 60000) ∧
  (∀ x, ld_max_recv_msg_size d = Some x → Zpos (Qden x) * (2 ^ 31 - 1) < Qnum x →
     do_max_recv_msg_size (dial_opt_of d) = 2 ^ 31 - 1) ∧
  (∀ x, ld_max_recv_msg_size d = Some x → 0 ≤ Qnum x ≤ Zpos (Qden x) * (2 ^ 31 - 1) →
     do_max_recv_msg_size (dial_opt_of d) = trunc x).
Proof.
  unfold call_opt_of, dial_opt_of, positive_num, MAX_INIT32. simpl. split_and!.
  - destruct (lc_timeout o) as [x|]; [|unfold is_u64; lia].
    destruct (0 <? Qnum x); [apply u64_range|unfold is_u64; lia].
  - destruct (ld_max_recv_msg_size d) as [x|]; [|lia]. case_match; [lia|apply s32_range].
  - destruct (ld_max_recv_msg_size d) as [x|]; [|lia]. case_match; [lia|apply s32_range].
  - intros x ->. destruct (Z.leb_spec (Qnum x) 0); destruct (Z.ltb_spec 0 (Qnum x)); try lia.
    destruct (Z.ltb_spec (Qnum x) (Zpos (Qden x))) as [Hlt|]; [|done].
    pose proof (trunc_between x 0 1). replace (trunc x) with 0 by lia. done.
  - by intros ->.
  - intros x -> Hx. by rewrite (proj2 (Z.ltb_lt _ _)) by lia.
  - intros x -> [Hx1 Hx2]. rewrite (proj2 (Z.ltb_ge _ _)) by lia.
    pose proof (trunc_between x 0 (2 ^ 31)). apply s32_small. lia.
Qed.
