(* ===== verification/Reference.v ===== *)
(** * A reference environment

    Concrete instances of the parameters of the model: a gRPC library whose
    server echoes requests, a Lua runtime that parks every coroutine it is given,
    a loader, and a first world.  They show that the hypotheses of the
    development can hold together, and let runs be computed. *)
From Stdlib Require Import Strings.Byte.
From S2P Require Import Prelude Words Mem Wire TaskQueue Ngx World Waiters Tasks Conn.
From S2P Require Import Stream Binding Handlers Worker EngineSpec Engine EngineProof Inv LuaSteps.
From S2P Require Import WorkerInv.

#[export] Existing Instance RefAllocator.allocator.
#[export] Existing Instance RefAllocator.allocator_laws.
#[export] Existing Instance RefNginx.nginx.
#[export] Existing Instance RefNginx.nginx_laws.

#[export] Instance little_host : Host := LittleEndian.

(** ** An echo server *)

Module Echo.
Definition limit : nat := 1024.

(** A call of the method ["/echo/refuse"] fails; any other call returns its request.
    [sched] tells which goroutines finish at each scheduling point. *)
Definition invoke (method req : bytes) : bytes + bytes :=
  if bool_decide (method = lit "/echo/refuse") then inl (lit "refused") else inr (take limit req).

Definition grpc (sched : nat → list nat) : GrpcLib := {|
  net := unit;
  ClientConn := unit;
  grpc_stream := unit;
  LoadX509KeyPair _ _ _ := None;
  ReadFile _ _ := inr [];
  AppendCertsFromPEM _ := true;
  grpc_Dial target _ n :=
    (Go_ret (if bool_decide (target = []) then inl (lit "no target") else inr tt), n);
  grpc_Close _ n := n;
  Invoke _ _ method req n := (Go_ret (invoke method req), n);
  c_NewStream _ _ _ method n :=
    (Go_ret (if bool_decide (method = lit "/echo/refuse") then inl (lit "refused") else inr tt), n);
  SendMsg _ _ n := (Go_ret None, n);
  RecvMsg _ n := (Go_ret (inr (lit "message")), n);
  cs_CloseSend _ n := (Go_ret None, n);
  cancel_stream _ n := n;
  panic_text msg := take limit msg;
  scheduler := sched;
|}.

Lemma fits_take b : fits (take limit b).
Proof. unfold fits, limit. rewrite length_take. lia. Qed.

Lemma grpc_laws sched : @GrpcLibLaws (grpc sched).
Proof.
  split; try (intros; by intros n).
  - intros c ctx method req n. simpl. unfold invoke. case_bool_decide; simpl.
    + unfold fits. simpl. lia.
    + apply fits_take.
  - intros c ctx d method n. simpl. case_bool_decide; [|done]. simpl. unfold fits. simpl. lia.
  - intros msg. apply fits_take.
Qed.
End Echo.

(** ** A runtime in which every coroutine that runs waits again *)

Section idle_lua.
Context `{AllocatorLaws} `{NginxLaws} `{GrpcEngineLaws} `{!Patience}.

#[export] Instance idle_lua : LuaRuntime := {|
  lua_run_thread _ _ _ _ := mret NGX_AGAIN;
  lua_run_posted_threads _ _ _ := mret NGX_OK;
  lua_finalize_request _ _ _ := mret tt;
  ngx_core_run_phases _ _ act := act ≫= λ _, mret tt;
  ngx_http_run_posted_requests _ := mret tt;
|}.

#[export] Instance idle_lua_laws : LuaRuntimeLaws.
Proof.
  split.
  - intros h r co args w _. by apply wp_ret.
  - intros h r n w _. by apply wp_ret.
  - intros h r rc w _. by apply wp_ret.
  - intros r w _. by apply wp_ret.
  - intros h r act P w _ _ Hact. apply wp_bind. eapply wp_mono; [exact Hact|]. cbn beta.
    intros a w' HP. by apply wp_ret.
Qed.
End idle_lua.

(** ** A loader that finds the engine *)

#[export] Instance found_engine : Loader := {|
  build_engine_path := Some (lit "/usr/lib/libgrpc_engine.so");
  ngx_thread_pool_get := 1;
  dlopen _ := 1;
  dlsym_fails _ _ := false;
|}.

(** ** A protobuf whose messages are their encoding *)

#[export] Instance raw_pb : LuaPb := {|
  pb_state := int64_option;
  pb_value := bytes;
  pb_new := int64_as_number;
  pb_option o _ := o;
  pb_encode _ v st := (inr v, st);
  pb_decode _ v st := (match v with L_str b => inr b | L_nil => inr [] | L_bool _ => inl [] end, st);
  protoc_state := unit;
  protoc_new := tt;
  protoc_reload st := st;
  protoc_loadfile _ ps st := (inl (lit "module 'file' not found"), ps, st);
  protoc_load def ps st :=
    (inr (ProtoFile (Some def) [(lit "Echo", [(lit "Say", PbMethod (lit "In") (lit "Out"))])]), ps, st);
|}.

(** The services of the library: ["echo"] has any method.  Table 0 is the
    connection at 24. *)
Definition the_lib : lib := Lib int64_as_string (Some int64_as_number)
  (Some (ProtocInst tt (λ service, if bool_decide (service = lit "echo")
                    then Some (λ _, Some (PbMethod (lit "In") (lit "Out"))) else None)))
  {[ 0 := 24 ]} ∅ [Ctx_gc 24].

(** ** A worker with two requests *)

Section first_world.
Context (sched : nat → list nat).
#[local] Existing Instance Echo.grpc.
#[local] Instance the_grpc : GrpcLib := Echo.grpc sched.

Definition go_init : engine := GoEngine ∅ ∅ NewTaskQueue [] tt 0.

Definition first_request (co : Z) : request := Request 1 (Some (LuaCtx 1 co true H_wev_handler)).
Definition first_co : co_ctx := CoCtx NULL H_none ev_zero H_none NULL [].

(** Two HTTP requests, at 1000 and 2000, with a coroutine each. *)
Definition first_world : world := World
  (CMem ∅ 0) go_init ∅ rb_sentinel 0
  (Some (ClientConf engine_path NULL NULL NULL))
  (ThreadCtx NULL NULL 0 ev_zero ev_zero)
  {[ (true, 1000) := first_request 1001; (true, 2000) := first_request 2001 ]}
  {[ (true, 1001) := first_co; (true, 2001) := first_co ]}
  (replicate 512 x00) 512 false false false [].
End first_world.
