(* ===== verification/Runs.v ===== *)
(** * Runs of a worker

    Concrete reachable states of a worker on the reference environment of
    [Reference], with the steps that lead to them checked to be enabled; what the
    runs show of the module; and the witnesses of the properties. *)
From Stdlib Require Import Strings.Byte.
From S2P Require Import Prelude Words Mem Wire TaskQueue Ngx World Waiters Tasks Conn.
From S2P Require Import Stream Binding Handlers Worker EngineSpec Engine EngineProof Inv.
From S2P Require Import InvMoves Handles ConnInv StreamInv StreamOps EventInv ThreadInv PutResInv.
From S2P Require Import BlockInv LuaSteps BindingState BindingInv ResumeInv WakeInv WorkerInv System.
From S2P Require Import Contracts.
From S2P Require Import GoContracts Reference.

(** The state a program that stops normally leads to. *)
Definition after {S A} (m : M S A) (s : S) : S :=
  match m s with Done _ s' => s' | Crash _ => s end.
Definition is_done {S A} (m : M S A) (s : S) : bool :=
  match m s with Done _ _ => true | Crash _ => false end.
Definition is_some {A} (o : option A) : bool :=
  match o with Some _ => true | None => false end.

Lemma after_done {S} (m : M S unit) s : is_done m s = true → m s = Done tt (after m s).
Proof. unfold is_done, after. by destruct (m s) as [[] s'|]. Qed.

Definition returns {S} (m : M S Z) (s : S) (rc : Z) : bool :=
  match m s with Done r _ => r =? rc | Crash _ => false end.
Lemma after_returns {S} (m : M S Z) s rc :
  returns m s rc = true → m s = Done rc (after m s).
Proof.
  unfold returns, after. destruct (m s) as [r s'|]; [|done].
  by intros ->%Z.eqb_eq.
Qed.

Definition crashes {S A} (m : M S A) (s : S) (f : fault) : bool :=
  match m s with Done _ _ => false | Crash g => bool_decide (g = f) end.
Lemma crashes_spec {S A} (m : M S A) s f : crashes m s f = true → m s = Crash f.
Proof. unfold crashes. destruct (m s); [done|]. by intros ->%bool_decide_eq_true. Qed.

Lemma is_some_spec {A} (o : option A) : is_some o = true → is_Some o.
Proof. destruct o; [by eexists|done]. Qed.

(** ** Deciding what the caller owes *)

Section deciders.
Context `{NginxLaws} `{GrpcEngineLaws}.
Implicit Types w : world.

Definition is_ongoing (ko : Z * obj) : option (Z * stream_ctx) :=
  match ko.2 with
  | OSctx s => if sc_node s =? NULL then None else Some (ko.1, s)
  | _ => None
  end.
Definition ongoing_list w : list (Z * stream_ctx) :=
  omap is_ongoing (map_to_list (cm_heap (w_mem w))).

Lemma ongoing_in w k s : ongoing w k s → (k, s) ∈ ongoing_list w.
Proof.
  intros [Hk Hn]. apply list_elem_of_omap. exists (k, OSctx s). split.
  - by apply elem_of_map_to_list.
  - unfold is_ongoing. simpl. by rewrite (proj2 (Z.eqb_neq _ _) Hn).
Qed.

(** Every ongoing stream satisfies a test. *)
Definition all_ongoing (P : Z → stream_ctx → bool) w : bool :=
  forallb (λ ks, P ks.1 ks.2) (ongoing_list w).
Lemma all_ongoing_spec P w :
  all_ongoing P w = true → ∀ k s, ongoing w k s → P k s = true.
Proof.
  unfold all_ongoing. intros Hp k s Hon%ongoing_in.
  rewrite forallb_forall in Hp. apply (Hp (k, s)). by apply list_elem_of_In.
Qed.

Definition ongoing_b w (k : Z) : bool :=
  match cm_heap (w_mem w) !! k with
  | Some (OSctx s) => negb (sc_node s =? NULL)
  | _ => false
  end.
Lemma ongoing_b_spec w k :
  ongoing_b w k = true →
  ∃ s, ongoing w k s ∧ cm_heap (w_mem w) !! k = Some (OSctx s).
Proof.
  unfold ongoing_b. destruct (_ !! k) as [[| |s| |]|] eqn:E; try done.
  intros Hn%negb_true_iff%Z.eqb_neq. by exists s.
Qed.

Definition req_live_b w (h : bool) (r : Z) : bool :=
  negb (r =? NULL) && is_some (w_reqs w !! (h, r)).
Lemma req_live_b_spec w h r : req_live_b w h r = true → req_live w h r.
Proof.
  unfold req_live_b. intros [Hr Hs]%andb_prop. split; [|by apply is_some_spec].
  by apply Z.eqb_neq, negb_true_iff.
Qed.

Definition waits_in (h : bool) (co : Z) (s : stream_ctx) : bool :=
  Bool.eqb (sc_is_http s) h && (sc_wait_co_ctx s =? co).
Definition caller_ready_b w (h : bool) (r : Z) : bool :=
  req_live_b w h r &&
  match w_reqs w !! (h, r) ≫= rq_lctx with
  | None => true
  | Some x =>
      negb (lx_cur_co_ctx x =? NULL) && is_some (w_cos w !! (h, lx_cur_co_ctx x)) &&
      all_ongoing (λ _ s, negb (waits_in h (lx_cur_co_ctx x) s)) w
  end.
Lemma caller_ready_b_spec w h r : caller_ready_b w h r = true → caller_ready w h r.
Proof.
  unfold caller_ready_b. intros [Hl Hc]%andb_prop. split; [by apply req_live_b_spec|].
  intros q x Hq Hx. rewrite Hq in Hc. simpl in Hc. rewrite Hx in Hc.
  apply andb_prop in Hc as [[Hn Hs]%andb_prop Ha].
  apply is_some_spec in Hs as [c Hs]. exists c. split; [by apply Z.eqb_neq, negb_true_iff|].
  split; [done|]. intros k s Hon [= E1 E2].
  pose proof (all_ongoing_spec _ _ Ha k s Hon) as Hno. cbn beta in Hno.
  unfold waits_in in Hno. by rewrite E1, E2, Bool.eqb_reflx, Z.eqb_refl in Hno.
Qed.

Definition conn_idle_b w (c : Z) : bool :=
  all_ongoing (λ _ s, negb (sc_parent s =? c)) w.
Lemma conn_idle_b_spec w c : conn_idle_b w c = true → conn_idle w c.
Proof.
  intros Ha k s Hon E. pose proof (all_ongoing_spec _ _ Ha k s Hon) as Hno. cbn beta in Hno.
  by rewrite E, Z.eqb_refl in Hno.
Qed.

Definition engine_ready_b w : bool :=
  match w_conf w with Some c => negb (cf_task c =? NULL) | None => false end.
Lemma engine_ready_b_spec w : engine_ready_b w = true → engine_ready w.
Proof.
  unfold engine_ready_b, engine_ready. destruct (w_conf w) as [c|]; [|done].
  intros Hn%negb_true_iff%Z.eqb_neq. by exists c.
Qed.

Definition ctx_b w (c : Z) : bool :=
  match cm_heap (w_mem w) !! c with Some (OCtx _) => true | _ => false end.
Lemma ctx_b_spec w c : ctx_b w c = true → ∃ x, ctx_at w c x.
Proof. unfold ctx_b, ctx_at. destruct (_ !! c) as [[]|]; try done. by eexists. Qed.
End deciders.

Section tables.
Context `{NginxLaws} `{GrpcEngineLaws} `{!LuaPb}.

(** The tables of a library that has no streams are in order. *)
Definition lives_b w (c : Z) : bool :=
  match cm_heap (w_mem w) !! c with Some (OCtx x) => negb (cx_free_delayed x) | _ => false end.
Definition tables_b w (l : lib) : bool :=
  (size (lb_streams l) =? 0)%nat &&
  forallb (λ f, match f with Ctx_gc c => lives_b w c | Stream_gc _ => false end) (lb_gc l) &&
  forallb (λ x, (x.2 =? NULL) || bool_decide (Ctx_gc x.2 ∈ lb_gc l)) (map_to_list (lb_conns l)).

Lemma tables_b_spec h w l : tables_b w l = true → tables_ok h w l.
Proof.
  unfold tables_b. rewrite !andb_true_iff, !forallb_forall.
  intros [[Hs%Nat.eqb_eq%map_size_empty_iff Hgc] Hc]. setoid_rewrite <- list_elem_of_In in Hgc.
  setoid_rewrite <- list_elem_of_In in Hc.
  split; try (rewrite Hs; intros *; by rewrite lookup_empty).
  - split; [|intros t st; by rewrite Hs, lookup_empty]. intros t c Ht Hn.
    apply elem_of_map_to_list, Hc, orb_prop in Ht as [E|E]; [by apply Z.eqb_eq in E|].
    by apply bool_decide_eq_true in E.
  - intros c Hin%Hgc. unfold lives_b in Hin. unfold lives, ctx_at.
    destruct (_ !! c) as [[]|]; try done. eexists. split; [done|by apply negb_true_iff].
  - by intros k Hin%Hgc.
Qed.
End tables.

(** ** The environment of the runs *)

(** No goroutine finishes at the first three scheduling points; from then on the
    oldest one does at each. *)
Definition slow (t : nat) : list nat := if (t <? 3)%nat then [] else [0%nat].

#[export] Instance the_grpc : GrpcLib := Echo.grpc slow.
#[export] Instance the_grpc_laws : GrpcLibLaws := Echo.grpc_laws slow.

Section steps.
Context `{!LuaRuntime} `{!Patience}.
Implicit Types w : world.

Lemma step_reachable w m :
  reachable w → enabled w m → is_done m w = true → reachable (after m w).
Proof. intros Hw Hm Hd. eapply R_step; [done|]. exists m. split; [done|by apply after_done]. Qed.
End steps.

(** The requests at 1000 and 2000 have their coroutines at 1001 and 2001. *)
Definition insecure : dial_opt := DialOpt true true 0 [] [] [].
Definition short : call_opt := CallOpt 1000 [].

Definition do_connect : M world unit :=
  discard (ngx_grpc_cli_connect 1000 true (lit "127.0.0.1:50051") insecure).
Definition do_call (r : Z) (req : bytes) : M world unit :=
  discard (ngx_grpc_cli_call r true 24 (lit "/echo") req short None).
Definition do_open (r : Z) (method : bytes) : M world unit :=
  discard (ngx_grpc_cli_new_stream r true 24 method (lit "first") short
             NGX_GRPC_CLIENT_STREAM_TYPE_BIDIRECTIONAL_STREAM).
Definition do_blocking (req : bytes) : M world unit :=
  discard (ngx_grpc_cli_call NULL true 24 (lit "/echo") req short (Some 4096)).

Definition started : world := after ngx_grpc_cli_init_worker (first_world slow).
Definition connected : world := after do_connect started.

Lemma fresh_first_world : fresh_worker (first_world slow).
Proof.
  split.
  - done.
  - intros p o Hp. pose proof (lookup_empty (M := gmap Z) (A := obj) p). simpl in Hp. congruence.
  - intros h. exact (lookup_empty (M := gmap qhead) (A := list Z) h).
  - by split.
  - exact (dom_empty_L (M := gmap Z) (D := gset Z) (A := ClientConn)).
  - done.
  - done.
Qed.

Lemma started_worker : worker_started started.
Proof.
  destruct (w_conf started) as [c|] eqn:E; [|by vm_compute in E].
  apply (Started (first_world slow) started c); [apply fresh_first_world|done| |done|].
  - refine (after_returns ngx_grpc_cli_init_worker (first_world slow) NGX_OK _). by vm_compute.
  - apply (f_equal (option_map cf_engine)) in E.
    assert (option_map cf_engine (w_conf started) = Some 1) as Eh by by vm_compute.
    rewrite Eh in E. by injection E as <-.
Qed.

(** ** Steps, with what they need decided *)

Section decided_steps.
Context `{!LuaRuntime} `{!Patience}.
Implicit Types w : world.

Lemma reach_connect w :
  reachable w → req_live_b w true 1000 && is_done do_connect w = true →
  reachable (after do_connect w).
Proof.
  intros Hw [Hr%req_live_b_spec Hd]%andb_prop.
  by apply step_reachable; [|apply en_lua; constructor|].
Qed.

Lemma enabled_call r req w :
  ctx_b w 24 && engine_ready_b w && caller_ready_b w true r = true → enabled w (do_call r req).
Proof.
  intros [[[x Hc]%ctx_b_spec He%engine_ready_b_spec]%andb_prop Hr%caller_ready_b_spec]%andb_prop.
  by eapply en_lua, le_call.
Qed.

Lemma reach_call r req w :
  reachable w →
  ctx_b w 24 && engine_ready_b w && caller_ready_b w true r && is_done (do_call r req) w = true →
  reachable (after (do_call r req) w).
Proof. intros Hw [He Hd]%andb_prop. by apply step_reachable; [|apply enabled_call|]. Qed.

Lemma reach_open r method w :
  reachable w →
  ctx_b w 24 && engine_ready_b w && caller_ready_b w true r && is_done (do_open r method) w = true →
  reachable (after (do_open r method) w).
Proof.
  intros Hw [[[[x Hc]%ctx_b_spec He%engine_ready_b_spec]%andb_prop
    Hr%caller_ready_b_spec]%andb_prop Hd]%andb_prop.
  apply step_reachable; [done| |done]. by eapply en_lua, le_new_stream.
Qed.

Lemma enabled_blocking req w :
  ctx_b w 24 && all_ongoing (λ _ _, false) w && negb patient = true → enabled w (do_blocking req).
Proof.
  intros [[[x Hc]%ctx_b_spec Hno]%andb_prop Hp%negb_true_iff]%andb_prop.
  eapply en_lua, le_blocking_call; [done|done| |done].
  intros k s Hk. by apply (all_ongoing_spec _ _ Hno) in Hk.
Qed.

Lemma reach_blocking req w :
  reachable w →
  ctx_b w 24 && all_ongoing (λ _ _, false) w && negb patient && is_done (do_blocking req) w = true →
  reachable (after (do_blocking req) w).
Proof.
  intros Hw [Hc Hd]%andb_prop. apply step_reachable; [done|by apply enabled_blocking|done].
Qed.

Definition thread_runs w : bool :=
  ev_active (th_task_event (w_th w)) && negb (ev_ran (th_task_event (w_th w))) &&
  negb (w_exiting w) && negb (w_terminate w).

Lemma reach_cycle w :
  reachable w → thread_runs w && is_done thread_cycle w = true →
  reachable (after thread_cycle w).
Proof.
  intros Hw [[[[Ha Hran%negb_true_iff]%andb_prop He%negb_true_iff]%andb_prop
    Ht%negb_true_iff]%andb_prop Hd]%andb_prop.
  apply after_done in Hd. unfold thread_cycle in Hd at 1.
  destruct (thread_waits w) as [[] w1|] eqn:E1; [|by rewrite (bind_crash _ _ _ _ E1) in Hd].
  rewrite (bind_done _ _ _ _ _ E1) in Hd. eapply R_step; [eapply R_step; [done|]|].
  - exists thread_waits. split; [by apply en_thread|exact E1].
  - exists thread_reports. split; [|exact Hd]. apply en_event. by eapply thread_waits_ran.
Qed.

Lemma reach_posted w :
  reachable w → alerted w && is_done posted_event_runs w = true →
  reachable (after posted_event_runs w).
Proof. intros Hw [Ha Hd]%andb_prop. apply step_reachable; [done|by apply en_posted|done]. Qed.

(** The stream at [k] is ongoing, for the HTTP coroutine [co]. *)
Definition waits_at w (k co : Z) : bool :=
  match cm_heap (w_mem w) !! k with
  | Some (OSctx s) => negb (sc_node s =? NULL) && waits_in true co s
  | _ => false
  end.
Lemma waits_at_spec w k co :
  waits_at w k co = true →
  ∃ s, ongoing w k s ∧ sc_is_http s = true ∧ sc_wait_co_ctx s = co.
Proof.
  unfold waits_at, waits_in. destruct (_ !! k) as [[| |s| |]|] eqn:E; try done.
  intros [Hn%negb_true_iff%Z.eqb_neq [Hh%Bool.eqb_prop Hc%Z.eqb_eq]%andb_prop]%andb_prop.
  by exists s.
Qed.

Lemma reach_timer k co w :
  reachable w → waits_at w k co && negb patient && is_done (timer_fires true co k) w = true →
  reachable (after (timer_fires true co k) w).
Proof.
  intros Hw [[(s & Hon & Hh & Hc)%waits_at_spec Hp%negb_true_iff]%andb_prop Hd]%andb_prop.
  pose proof (en_timeout w k s Hon Hp) as He. rewrite Hh, Hc in He. by apply step_reachable.
Qed.

(** Lua's collector closes the connection. *)
Lemma reach_collect w :
  reachable w → ctx_b w 24 && conn_idle_b w 24 && is_done (ngx_grpc_cli_close 24 NULL true) w = true →
  reachable (after (ngx_grpc_cli_close 24 NULL true) w).
Proof.
  intros Hw [[[x Hc]%ctx_b_spec Hi%conn_idle_b_spec]%andb_prop Hd]%andb_prop.
  apply step_reachable; [done| |done]. by eapply en_lua, le_close; [|left|].
Qed.

(** A signal: nginx asks the worker to exit. *)
Definition exits : M world unit := modify (λ w, World (w_mem w) (w_eng w) (w_qs w) (w_tree w)
  (w_num w) (w_conf w) (w_th w) (w_reqs w) (w_cos w) (w_err_buf w) (w_err_len w)
  true false true (w_out w)).
Lemma reach_exits w : reachable w → reachable (after exits w).
Proof. intros Hw. apply step_reachable; [done|by apply en_lua, le_signal|done]. Qed.
End decided_steps.

(** In these runs coroutines may be given up. *)
#[export] Instance hurried : Patience := false.

Lemma reach_started : reachable started.
Proof. apply R_start, started_worker. Qed.
Lemma reach_connected : reachable connected.
Proof. apply reach_connect; [apply reach_started|by vm_compute]. Qed.

(** ** A call is answered *)

Definition called : world := after (do_call 1000 (lit "hello")) connected.
(** Nothing has finished: the thread is sent to wait again. *)
Definition waited : world := after thread_cycle called.
Definition finished : world := after thread_cycle waited.
Definition answered : world := after posted_event_runs finished.

Lemma reach_called : reachable called.
Proof. apply reach_call; [apply reach_connected|by vm_compute]. Qed.
Lemma reach_waited : reachable waited.
Proof. apply reach_cycle; [apply reach_called|by vm_compute]. Qed.
Lemma reach_finished : reachable finished.
Proof. apply reach_cycle; [apply reach_waited|by vm_compute]. Qed.
Lemma reach_answered : reachable answered.
Proof. apply reach_posted; [apply reach_finished|by vm_compute]. Qed.

(** The coroutine of an HTTP request was run with these values. *)
Definition ran_with (r co : Z) (args : list lua_val) (w : world) : bool :=
  bool_decide (X_run_thread true r co args ∈ w_out w).

Lemma ran_with_spec r co args w :
  ran_with r co args w = true → X_run_thread true r co args ∈ w_out w.
Proof. apply bool_decide_eq_true. Qed.

(** A call and its answer, from the start of the worker: the module, the engine
    and the queue of finished tasks together run the coroutine of the request with
    [true] and the response, and nothing of the call is left: no ongoing task, no
    posted result, and its stream is in the connection's free queue. *)
Theorem call_is_answered :
  reachable answered ∧
  X_run_thread true 1000 1001 [L_bool true; L_str (lit "hello")] ∈ w_out answered ∧
  (∀ k s, ¬ ongoing answered k s) ∧ w_num answered = 0 ∧
  queue_of (w_qs answered) q_occupied = Some [] ∧
  queue_of (w_qs answered) (q_free 24) = Some [40].
Proof.
  split; [apply reach_answered|]. split; [apply ran_with_spec; by vm_compute|].
  split; [|by vm_compute].
  intros k s Hon. assert (all_ongoing (λ _ _, false) answered = true) as Ha by by vm_compute.
  by pose proof (all_ongoing_spec _ _ Ha k s Hon).
Qed.

(** ** A result that comes after its timeout *)

Definition called_a : world := after (do_call 1000 (lit "A")) connected.
Definition timed_out : world := after (timer_fires true 1001 40) called_a.
Definition called_b : world := after (do_call 2000 (lit "B")) timed_out.
Definition finished_a : world := after thread_cycle called_b.
Definition crossed : world := after posted_event_runs finished_a.

Lemma reach_called_a : reachable called_a.
Proof. apply reach_call; [apply reach_connected|by vm_compute]. Qed.
Lemma reach_timed_out : reachable timed_out.
Proof. apply reach_timer; [apply reach_called_a|by vm_compute]. Qed.
Lemma reach_called_b : reachable called_b.
Proof. apply reach_call; [apply reach_timed_out|by vm_compute]. Qed.
Lemma reach_finished_a : reachable finished_a.
Proof. apply reach_cycle; [apply reach_called_b|by vm_compute]. Qed.
Lemma reach_crossed : reachable crossed.
Proof. apply reach_posted; [apply reach_finished_a|by vm_compute]. Qed.

(** [C38] A result can reach another request.  Request 1000 calls with ["A"] and
    times out; its stream context goes to the free queue and is reused, at the
    same address and so with the same task id, for the call of request 2000 with
    ["B"]; the late response to ["A"] is then delivered to request 2000. *)
Theorem stale_result_crosses_requests :
  reachable crossed ∧
  X_run_thread true 1000 1001 [L_bool false; L_str MSG_timeout] ∈ w_out crossed ∧
  waits_at called_b 40 2001 = true ∧
  X_run_thread true 2000 2001 [L_bool true; L_str (lit "A")] ∈ w_out crossed.
Proof.
  split; [apply reach_crossed|]. split; [apply ran_with_spec; by vm_compute|].
  split; [by vm_compute|]. apply ran_with_spec. by vm_compute.
Qed.

(** *** The same with a stream, opened through the Lua library *)

Definition plain_opt : lua_call_opt := LuaCallOpt None None None.

(** [conn:new_bidirectional_stream("echo", "refuse", "")], which yields. *)
Definition open_op : lua_op :=
  O_new_stream 0 (lit "echo") (lit "refuse") [] plain_opt
    NGX_GRPC_CLIENT_STREAM_TYPE_BIDIRECTIONAL_STREAM.

Definition opened_late : world * lib := after (run_op true 2000 open_op) (timed_out, the_lib).
Definition opened_finished : world := after thread_cycle opened_late.1.
Definition opened_stale : world := after posted_event_runs opened_finished.

(** The rest of an operation that yielded. *)
Definition rest_of (m : L lua_run) (s : world * lib) : list lua_val → L lua_res :=
  match m s with Done (Yields k) _ => k | _ => λ _, crash AssertFail end.
Definition resume_open : list lua_val → L lua_res :=
  rest_of (run_op true 2000 open_op) (timed_out, the_lib).

(** The coroutine of request 2000 after [true, "A"]. *)
Definition holds_stream : world * lib :=
  after (resume_open [L_bool true; L_str (lit "A")]) (opened_stale, opened_late.2).

Section lua_ops.
Context `{!LuaRuntime} `{!Patience} `{!LuaRuntimeLaws}.

Lemma reach_lua w w' : reachable w → lua_steps w w' → reachable w'.
Proof.
  intros Hw Hs. induction Hs as [|w w1 w' (m & Hm & E) _ IH]; [done|].
  apply IH. eapply R_step; [done|]. exists m. split; [by apply en_lua|done].
Qed.

Lemma reach_run_op r op w l :
  reachable w → tables_b w l = true → op_ready true w l r op →
  is_done (run_op true r op) (w, l) = true →
  reachable (after (run_op true r op) (w, l)).1.
Proof.
  intros Hw Ht Hop Hd.
  pose proof (run_op_allowed true r op w l (reachable_inv _ Hw) (tables_b_spec _ _ _ Ht) Hop) as Hr.
  unfold wpf, is_done, after in *. destruct (run_op true r op (w, l)) as [res [w1 l1]|]; [|done].
  destruct Hr as (_ & _ & (_ & Hs & _) & _). by apply (reach_lua w).
Qed.
End lua_ops.

Lemma reach_opened_late : reachable opened_late.1.
Proof.
  apply reach_run_op; [apply reach_timed_out|by vm_compute| |by vm_compute]. split.
  - apply engine_ready_b_spec. by vm_compute.
  - apply caller_ready_b_spec. by vm_compute.
Qed.
Lemma reach_opened_finished : reachable opened_finished.
Proof. apply reach_cycle; [apply reach_opened_late|by vm_compute]. Qed.
Lemma reach_opened_stale : reachable opened_stale.
Proof. apply reach_posted; [apply reach_opened_finished|by vm_compute]. Qed.

(** The stream of the library's table 0. *)
Definition table0 (s : world * lib) : option Z := ls_ctx <$> lb_streams s.2 !! 0.

(** [C39] A late result can stop the worker.  Request 1000 calls and times out; its stream
    context is reused, at the same address, for a stream that request 2000 opens and
    that the server refuses.  The late response tells the coroutine of request 2000
    that its stream is open: the library makes a table of it, and its first [recv]
    has the engine look up a stream it does not have.  The panic of [mustFind], in
    an exported function, ends the process. *)
Theorem stale_result_opens_stream :
  reachable opened_stale ∧
  waits_at opened_late.1 40 2001 = true ∧
  X_run_thread true 2000 2001 [L_bool true; L_str (lit "A")] ∈ w_out opened_stale ∧
  table0 holds_stream = Some 40 ∧
  run_op true 2000 (O_recv 0) holds_stream = Crash (GoPanic MSG_cant_find).
Proof.
  split; [apply reach_opened_stale|]. split; [by vm_compute|].
  split; [apply ran_with_spec; by vm_compute|]. split; [by vm_compute|].
  apply crashes_spec. by vm_compute.
Qed.

(** ** A thread that is not sent to wait again *)

Definition two_called : world := after (do_call 2000 (lit "B")) called_a.
Definition one_timed_out : world := after (timer_fires true 1001 40) two_called.
Definition stale_finished : world := after thread_cycle one_timed_out.
Definition stale_dropped : world :=
  after posted_event_runs stale_finished.

Lemma reach_two_called : reachable two_called.
Proof. apply reach_call; [apply reach_called_a|by vm_compute]. Qed.
Lemma reach_one_timed_out : reachable one_timed_out.
Proof. apply reach_timer; [apply reach_two_called|by vm_compute]. Qed.
Lemma reach_stale_finished : reachable stale_finished.
Proof. apply reach_cycle; [apply reach_one_timed_out|by vm_compute]. Qed.
Lemma reach_stale_dropped : reachable stale_dropped.
Proof. apply reach_posted; [apply reach_stale_finished|by vm_compute]. Qed.

(** The stream of request 2000. *)
Definition second_stream : Z := 56.

(** A stream nobody waits for.  Calls of requests 1000 and 2000 are under way;
    the first times out, then its response arrives: one task was finished and one
    is ongoing, and the event handler concludes that nothing is left to wait for.
    Request 2000 is still parked, the engine still works on its call, but no thread
    waits and no result is posted: only its timer can end it. *)
Theorem running_task_not_waited_for :
  reachable stale_dropped ∧
  waits_at stale_dropped second_stream 2001 = true ∧
  map goroutine_id (ge_running (w_eng stale_dropped)) = [second_stream] ∧
  thread_runs stale_dropped = false ∧
  queue_of (w_qs stale_dropped) q_occupied = Some [].
Proof. split; [apply reach_stale_dropped|]. by vm_compute. Qed.

(** ** Blocking calls *)

Definition blocked_once : world := after (do_blocking (lit "one")) connected.

Lemma reach_blocked_once : reachable blocked_once.
Proof. apply reach_blocking; [apply reach_connected|by vm_compute]. Qed.

(** A blocking call that returns the response [b]. *)
Definition responds (m : M world (Z * option (Z * Z))) (w : world) (b : bytes) : bool :=
  match m w with
  | Done (rc, Some (p, n)) w' =>
      (rc =? NGX_OK) && (n =? Z.of_nat (length b)) &&
      bool_decide (cm_heap (w_mem w') !! p = Some (OBuf b))
  | _ => false
  end.
Lemma responds_spec m w b :
  responds m w b = true →
  ∃ p w', m w = Done (NGX_OK, Some (p, Z.of_nat (length b))) w' ∧
          cm_heap (w_mem w') !! p = Some (OBuf b).
Proof.
  unfold responds. destruct (m w) as [[rc [[p n]|]] w'|]; try done.
  intros [[->%Z.eqb_eq ->%Z.eqb_eq]%andb_prop Hp%bool_decide_eq_true]%andb_prop. by exists p, w'.
Qed.

(** A blocking call returns the first finished task, whatever its id: after a
    blocking call that timed out, the next one returns the response to the first. *)
Theorem blocking_call_returns_stale_result :
  reachable blocked_once ∧ err_string blocked_once = MSG_timeout ∧
  ∃ p w', ngx_grpc_cli_call NULL true 24 (lit "/echo") (lit "two") short (Some 4096) blocked_once =
            Done (NGX_OK, Some (p, Z.of_nat (length (lit "one")))) w' ∧
          cm_heap (w_mem w') !! p = Some (OBuf (lit "one")).
Proof.
  split; [apply reach_blocked_once|]. split; [by vm_compute|].
  apply responds_spec. by vm_compute.
Qed.

(** Three connections, for the time it takes. *)
Definition connected_again : world := after do_connect (after do_connect connected).

Lemma reach_connected_again : reachable connected_again.
Proof.
  apply reach_connect; [|by vm_compute].
  apply reach_connect; [apply reach_connected|by vm_compute].
Qed.

(** An empty response, which a protobuf message with only default values is,
    stops the worker: [Call] returns a nil slice, the result's kind is
    [OK_NOT_RES], and the blocking branch asserts that it is [ERR]. *)
Theorem empty_response_aborts_blocking_call :
  reachable connected_again ∧ enabled connected_again (do_blocking []) ∧
  do_blocking [] connected_again = Crash AssertFail.
Proof.
  split; [apply reach_connected_again|].
  split; [apply enabled_blocking; by vm_compute|apply crashes_spec; by vm_compute].
Qed.

(** ** A stream that was refused *)

Definition opened : world := after (do_open 1000 (lit "/echo/refuse")) connected.
Definition refused : world := after posted_event_runs
  (after thread_cycle (after thread_cycle opened)).
Definition collected : world := after (ngx_grpc_cli_close 24 NULL true) refused.

Lemma reach_opened : reachable opened.
Proof. apply reach_open; [apply reach_connected|by vm_compute]. Qed.
Lemma reach_refused : reachable refused.
Proof.
  apply reach_posted; [|by vm_compute]. apply reach_cycle; [|by vm_compute].
  apply reach_cycle; [apply reach_opened|by vm_compute].
Qed.
Lemma reach_collected : reachable collected.
Proof. apply reach_collect; [apply reach_refused|by vm_compute]. Qed.

(** A stream the server refused stays in the opening queue although Lua, which
    was told [false], has no handle to close it with: when the connection is
    collected its release is delayed for that stream, for ever. *)
Theorem refused_stream_is_never_released :
  reachable collected ∧
  X_run_thread true 1000 1001 [L_bool false; L_str (lit "refused")] ∈ w_out refused ∧
  (∀ k s, ¬ ongoing refused k s) ∧
  cm_heap (w_mem collected) !! 24 = Some (OCtx (CliCtx NULL true)) ∧
  queue_of (w_qs collected) (q_opening 24) = Some [40].
Proof.
  split; [apply reach_collected|]. split; [apply ran_with_spec; by vm_compute|].
  split; [|by vm_compute].
  intros k s Hon. assert (all_ongoing (λ _ _, false) refused = true) as Ha by by vm_compute.
  by pose proof (all_ongoing_spec _ _ Ha k s Hon).
Qed.
