(* ===== verification/Looping.v ===== *)
(** * User code that runs inside the module's handlers

    A Lua runtime whose coroutines are not idle: when the module runs one, it goes on
    with [lib/resty/grpc.lua] and calls again, from inside the handler that woke it
    up.  The runtime keeps [LuaRuntimeLaws], so every theorem about a worker holds
    with it; a run shows the coroutine answered and waiting again. *)
From Stdlib Require Import QArith_base.
From S2P Require Import Prelude Words Mem Wire TaskQueue Ngx World Waiters Tasks Conn.
From S2P Require Import Stream Binding Handlers Worker EngineSpec Engine EngineProof Inv.
From S2P Require Import InvMoves Handles ConnInv StreamInv StreamOps EventInv ThreadInv PutResInv.
From S2P Require Import BlockInv LuaSteps BindingState BindingInv ResumeInv WakeInv WorkerInv System.
From S2P Require Import Contracts Reference Runs.
Open Scope Z_scope.

(** ** The runtime *)

Section looping.
Context `{AllocatorLaws} `{NginxLaws} `{GrpcEngineLaws} `{!LuaPb}.
Implicit Types w : world.

(** The library's state, which a call leaves as it is, and the call. *)
Context (l0 : lib) (self : Z) (service method output_type : bytes) (opt : lua_call_opt).

(** What is left of
    [local msg = first; repeat msg = conn:call(service, method, msg, opt) until not msg]
    when its coroutine is resumed with [args]. *)
Definition loop_body (h : bool) (r : Z) (args : list lua_val) : L lua_run :=
  res ← resumed (lit "failed to call: ") args (decoded opt output_type);
  match res with
  | Ok (R_message msg) => Conn_call h self r service method msg opt None
  | _ => finish res
  end.

(** The connection is live, and the coroutine may start a task. *)
Definition loop_ready w (h : bool) (r : Z) : bool :=
  tables_b w l0 && engine_ready_b w && caller_ready_b w h r.

(** A coroutine that cannot go on ends its request. *)
Definition loop_run_thread (h : bool) (r co : Z) (args : list lua_val) : M world Z := λ w,
  if loop_ready w h r then
    match loop_body h r args (w, l0) with
    | Done (Yields _) (w', _) => Done NGX_AGAIN w'
    | Done (Finished _) (w', _) => Done NGX_DONE w'
    | Crash f => Crash f
    end
  else Done NGX_DONE w.

Definition looping_lua : LuaRuntime := {|
  lua_run_thread := loop_run_thread;
  lua_run_posted_threads _ _ _ := mret NGX_OK;
  lua_finalize_request _ _ _ := mret tt;
  ngx_core_run_phases _ _ act := act ≫= λ _, mret tt;
  ngx_http_run_posted_requests _ := mret tt;
|}.

#[local] Existing Instance looping_lua.
#[local] Instance looping_patience : Patience := true.

Lemma loop_ready_spec w h r :
  loop_ready w h r = true →
  tables_ok h w l0 ∧ engine_ready w ∧ caller_ready w h r.
Proof.
  unfold loop_ready. intros [[Hc He]%andb_prop Hr]%andb_prop.
  split; [by apply tables_b_spec|]. split; [by apply engine_ready_b_spec|].
  by apply caller_ready_b_spec.
Qed.

(** It makes only calls the module allows. *)
Lemma loop_body_allowed h r args w :
  winv w → loop_ready w h r = true →
  wpf may_assert (loop_body h r args) (run_allowed h w anything) (w, l0).
Proof.
  intros Hw (Ht & He & Hr)%loop_ready_spec. apply wpf_bind'.
  eapply wpf_mono; [by apply (wpf_resumed_same h)|].
  intros res [w1 l1] (E1 & E2 & _). cbn [fst snd] in E1, E2. subst w1.
  destruct res as [[]|e|]; try by apply run_allowed_finish. by apply Conn_call_allowed.
Qed.

Lemma looping_lua_laws : LuaRuntimeLaws.
Proof.
  split; try (intros; by apply wp_ret).
  - intros h r co args w Hw. unfold lua_run_thread, looping_lua, loop_run_thread, wp.
    destruct (loop_ready w h r) eqn:E; [|by split].
    pose proof (loop_body_allowed h r args w Hw E) as Hb. unfold wpf in Hb.
    destruct (loop_body h r args (w, l0)) as [[x|k] [w' l']|f].
    + split; [apply Hb|done].
    + split; [apply Hb|done].
    + by destruct Hb as [|[_ [=]]].
  - intros h r act P w _ _ Hact. apply wp_bind. eapply wp_mono; [exact Hact|]. cbn beta.
    intros a w' HP. by apply wp_ret.
Qed.
End looping.

(** ** A run *)

Section looping_run.

(** [local msg = "hi"; repeat msg = conn:call("echo", "say", msg) until not msg] *)
#[local] Instance loops : LuaRuntime :=
  looping_lua the_lib 0 (lit "echo") (lit "say") (lit "Out") plain_opt.
#[local] Instance loops_on : Patience := true.
#[local] Instance loops_laws : LuaRuntimeLaws :=
  looping_lua_laws the_lib 0 (lit "echo") (lit "say") (lit "Out") plain_opt.

Definition first_call : lua_op := O_call 0 (lit "echo") (lit "say") (lit "hi") plain_opt None.

Definition loop_called : world := (after (run_op true 1000 first_call) (connected, the_lib)).1.
Definition loop_waited : world := after thread_cycle loop_called.
Definition loop_finished : world := after thread_cycle loop_waited.
(** The coroutine runs, and calls, in this handler. *)
Definition loop_again : world := after posted_event_runs loop_finished.
Definition loop_finished2 : world := after thread_cycle loop_again.
Definition loop_again2 : world := after posted_event_runs loop_finished2.

Lemma reach_loop_called : reachable loop_called.
Proof.
  apply reach_run_op; [|by vm_compute|split|by vm_compute].
  - apply reach_connect; [apply R_start, started_worker|by vm_compute].
  - apply engine_ready_b_spec. by vm_compute.
  - apply caller_ready_b_spec. by vm_compute.
Qed.
Lemma reach_loop_waited : reachable loop_waited.
Proof. apply reach_cycle; [apply reach_loop_called|by vm_compute]. Qed.
Lemma reach_loop_finished : reachable loop_finished.
Proof. apply reach_cycle; [apply reach_loop_waited|by vm_compute]. Qed.
Lemma reach_loop_again : reachable loop_again.
Proof. apply reach_posted; [apply reach_loop_finished|by vm_compute]. Qed.
Lemma reach_loop_finished2 : reachable loop_finished2.
Proof. apply reach_cycle; [apply reach_loop_again|by vm_compute]. Qed.
Lemma reach_loop_again2 : reachable loop_again2.
Proof. apply reach_posted; [apply reach_loop_finished2|by vm_compute]. Qed.
(** How often the coroutine of request 1000 was run with ["hi"]. *)
Definition answers (w : world) : nat :=
  length (filter (λ x, x = X_run_thread true 1000 1001 [L_bool true; L_str (lit "hi")]) (w_out w)).

(** A coroutine that calls in a loop, from the start of the worker: each response runs
    it inside the posted event handler, where it decodes the message and calls again
    with it.  Twice answered, it waits for the third response, on the one stream
    context of the connection: nothing else is ongoing, posted or owed. *)
Lemma coroutine_calls_again :
  reachable loop_again2 ∧ answers loop_finished = 0%nat ∧ answers loop_again = 1%nat ∧
  answers loop_again2 = 2%nat ∧
  (∃ s, ongoing loop_again2 40 s ∧ sc_is_http s = true ∧ sc_wait_co_ctx s = 1001) ∧
  w_num loop_again2 = 1 ∧ owed loop_again2 = {[+ 40 +]} ∧
  queue_of (w_qs loop_again2) q_occupied = Some [] ∧
  queue_of (w_qs loop_again2) (q_free 24) = Some [].
Proof.
  split; [apply reach_loop_again2|]. do 3 (split; [by vm_compute|]).
  split; [apply waits_at_spec; by vm_compute|]. split; [by vm_compute|].
  split; [|by vm_compute]. refine (proj1 (bool_decide_eq_true _) _). by vm_compute.
Qed.

(** The response that is posted in [loop_finished] reaches the coroutine of request 1000,
    whatever it does with it. *)
Lemma posted_results_reach_witness :
  ∃ s r, sc_wait_co_ctx s = 1001 ∧ answer loop_finished r = [L_bool true; L_str (lit "hi")] ∧
  wp posted_event_runs (λ _ w', ∃ l1 l2 pushed, w_out w' = w_out loop_finished ++ l1 ++
    X_run_thread (sc_is_http s) (sc_r s) (sc_wait_co_ctx s)
      (pushed ++ answer loop_finished r) :: l2) loop_finished.
Proof.
  assert (waits_at loop_finished 40 1001 = true) as (s & Hon & _ & Hco)%waits_at_spec
    by by vm_compute.
  set (r := default zero_task_res (occupied_results loop_finished !! 0%nat)). exists s, r.
  assert (r ∈ occupied_results loop_finished ∧ tr_task_id r = 40) as [Hin Hid].
  { split; [refine (proj1 (bool_decide_eq_true _) _)|]; by vm_compute. }
  split; [exact Hco|]. split; [by vm_compute|].
  exact (posted_results_reach loop_finished 40 s r eq_refl reach_loop_finished Hon Hin Hid).
Defined.
End looping_run.
