(* ===== verification/Witnesses.v ===== *)
(** * Witnesses

    Each property with hypotheses, applied to a state of [Runs] or to concrete
    data where its hypotheses hold. *)
From Stdlib Require Import Strings.Byte.
From S2P Require Import Prelude Words Mem Wire TaskQueue Ngx World Waiters Tasks Conn.
From S2P Require Import Stream Binding Handlers Worker EngineSpec Engine EngineProof Inv.
From S2P Require Import InvMoves Handles ConnInv StreamInv StreamOps EventInv ThreadInv PutResInv.
From S2P Require Import BlockInv LuaSteps BindingState BindingInv ResumeInv WakeInv WorkerInv System.
From S2P Require Import Contracts GoContracts LuaContracts Reference Runs.

(** ** What the states of the runs offer *)

Lemma conn_at w : ctx_b w 24 = true → ∃ x, ctx_at w 24 x.
Proof. apply ctx_b_spec. Qed.

(** An open stream that waits for nothing, of request 1000. *)
Definition chatting : world := after posted_event_runs
  (after thread_cycle (after thread_cycle (after (do_open 1000 (lit "/chat")) connected))).

Lemma reach_chatting : reachable chatting.
Proof.
  apply reach_posted; [|by vm_compute]. apply reach_cycle; [|by vm_compute].
  apply reach_cycle; [|by vm_compute]. apply reach_open; [apply reach_connected|by vm_compute].
Qed.

(** The idle stream at [k] of the request 1000, on the connection 24. *)
Definition idle_b (w : world) (k : Z) : bool :=
  match cm_heap (w_mem w) !! k with
  | Some (OSctx s) => (sc_node s =? NULL) && (sc_r s =? 1000) && (sc_parent s =? 24) &&
      Bool.eqb (sc_is_http s) true && (sc_wait_co_ctx s =? NULL)
  | _ => false
  end.
Lemma idle_b_spec w k :
  idle_b w k = true →
  ∃ s, stream_at w k s ∧ sc_node s = NULL ∧ sc_r s = 1000 ∧ sc_parent s = 24 ∧
    sc_is_http s = true ∧ sc_wait_co_ctx s = NULL.
Proof.
  unfold idle_b, stream_at. destruct (_ !! k) as [[| |s| |]|] eqn:E; try done.
  rewrite !andb_true_iff, !Z.eqb_eq, Bool.eqb_true_iff.
  intros ((((?&?)&?)&?)&?). by exists s.
Qed.

(** The stream of [chatting]: open, and in its connection's opening queue. *)
Lemma chat_stream :
  ∃ s, stream_at chatting 40 s ∧ sc_node s = NULL ∧ sc_r s = 1000 ∧ sc_parent s = 24 ∧
    sc_is_http s = true ∧ sc_wait_co_ctx s = NULL ∧
    queue_of (w_qs chatting) (q_opening 24) = Some ([] ++ 40 :: []) ∧
    stream_open chatting 40 s.
Proof.
  assert (idle_b chatting 40 = true) as (s & Hs & Hn & Hr & Hp & Hh & Hw)%idle_b_spec
    by by vm_compute.
  assert (queue_of (w_qs chatting) (q_opening 24) = Some [40]) as Hq by by vm_compute.
  assert (40 ∈ engine_streams (w_eng chatting)) as He.
  { refine (proj2 (elem_of_dom (D := gset Z) (StreamRef (w_eng chatting)) 40) _).
    apply is_some_spec. by vm_compute. }
  exists s. repeat (split; [assumption|]). split; [|exact He].
  exists [40]. rewrite Hp. split; [exact Hq|]. by left.
Qed.

Lemma chat_not_free c l :
  queue_of (w_qs chatting) (q_free c) = Some l → 40 ∉ l.
Proof.
  intros Hl Hin. destruct chat_stream as (s & _ & _ & _ & _ & _ & _ & Hq & _).
  destruct (wi_queues _ (reachable_inv _ reach_chatting)) as [_ Hd].
  discriminate (Hd _ _ _ _ 40 Hl Hq Hin (list_elem_of_here _ _)).
Qed.

Lemma ready w : engine_ready_b w = true → ∃ gccf, w_conf w = Some gccf ∧ cf_task gccf ≠ NULL.
Proof. apply engine_ready_b_spec. Qed.

(** ** The C module *)

Lemma worker_safe_witness :
  match thread_waits called with
  | Done _ w' => winv w'
  | Crash f => f = OutOfMemory ∨ f = AssertFail ∧ patient = false
  end.
Proof.
  assert (enabled called thread_waits) as Hm by by apply en_thread; vm_compute.
  exact (worker_safe called thread_waits reach_called Hm).
Defined.

Lemma worker_simulates_witness :
  ∃ σ, waits finished σ ∧
  match posted_event_runs finished with
  | Done _ w' => ∃ tr σ' new, wait_run σ tr σ' ∧ waits w' σ' ∧
      w_out w' = w_out finished ++ new ∧ runs new = omap event_call tr
  | Crash f => f = OutOfMemory ∨ f = AssertFail ∧ patient = false
  end.
Proof.
  destruct (reachable_refines finished reach_finished) as (_ & σ & _ & W & _).
  exists σ. split; [exact W|]. assert (alerted finished = true) as Ha by by vm_compute.
  exact (worker_simulates finished _ σ reach_finished (en_posted finished Ha) W).
Defined.

(** The one run of the log of [answered]. *)
Lemma answered_runs :
  runs (w_out answered) =
    [] ++ X_run_thread true 1000 1001 [L_bool true; L_str (lit "hello")] :: [].
Proof. by vm_compute. Qed.

Lemma runs_answer_starts_witness :
  ∃ tr1 tr2 σ k,
    wait_run ∅ (tr1 ++ E_run (true, 1001) 1000 [L_bool true; L_str (lit "hello")] :: tr2) σ ∧
    waits answered σ ∧ omap event_call tr1 = [] ∧ omap event_call tr2 = [] ∧
    waits_since tr1 (true, 1001) (Waiter k 1000).
Proof. exact (runs_answer_starts answered true 1000 1001 _ [] [] reach_answered answered_runs).
Defined.

Lemma lookup_is_node_witness :
  ngx_grpc_cli_lookup_task 40 called =
    Done (match cm_heap (w_mem called) !! 40 with Some (OSctx s) => sc_node s | _ => NULL end)
      called.
Proof. exact (lookup_is_node called 40 reach_called). Defined.

Lemma task_num_counts_witness :
  ∃ l, NoDup l ∧ (∀ k, k ∈ l ↔ ∃ s, ongoing called k s) ∧
    ngx_grpc_cli_task_num called = Done (s32 (Z.of_nat (length l))) called ∧
    (Z.of_nat (length l) < 2 ^ 31 →
     ngx_grpc_cli_task_num called = Done (Z.of_nat (length l)) called).
Proof. exact (task_num_counts called reach_called). Defined.

Lemma queues_well_typed_witness :
  NoDup [40] ∧ (∀ k, k ∈ [40] → elem_ok chatting (q_opening 24) k) ∧
  (∀ h' l' k, queue_of (w_qs chatting) h' = Some l' → k ∈ [40] → k ∈ l' → h' = q_opening 24).
Proof.
  assert (queue_of (w_qs chatting) (q_opening 24) = Some [40]) as Hq by by vm_compute.
  exact (queues_well_typed chatting (q_opening 24) [40] reach_chatting Hq).
Defined.

Lemma engine_is_never_closed_witness :
  (∀ hd, X_dlclose hd ∉ w_out answered) ∧
  ∀ m : world, w_conf m = Some (ClientConf engine_path NULL NULL NULL) →
    master_exits m = Done tt m.
Proof. exact (engine_is_never_closed answered answered reach_answered eq_refl). Defined.

Lemma posted_results_handled_witness :
  wp ngx_grpc_cli_thread_post_event_handler (λ _ w',
    winv w' ∧ queue_of (w_qs w') q_occupied = Some [] ∧
    handled_all finished (occupied_results finished) w') finished.
Proof. exact (posted_results_handled finished (reachable_inv _ reach_finished)). Defined.

(** The thread has left an array of one result; its event is still to be handled. *)
Definition in_thread : world := after thread_waits waited.

Lemma reach_in_thread : reachable in_thread.
Proof.
  apply step_reachable; [apply reach_waited|by apply en_thread; vm_compute|by vm_compute].
Qed.

Lemma finished_results_posted_witness :
  length (flight_results in_thread) = 1%nat ∧
  wp thread_reports (λ _ w', event_handler_post (landed in_thread)
    (flight_results in_thread) w') in_thread.
Proof.
  split; [by vm_compute|].
  refine (finished_results_posted in_thread (reachable_inv _ reach_in_thread) _).
  by vm_compute.
Defined.

(** While the result is in flight, the second request calls. *)
Definition flight_called : world := after (do_call 2000 (lit "again")) in_thread.

Lemma flight_called_steps : lua_steps in_thread flight_called.
Proof.
  destruct (ctx_b_spec in_thread 24) as [x Hx]; [by vm_compute|].
  apply rtc_once. exists (do_call 2000 (lit "again")). split.
  - refine (le_call in_thread 2000 true 24 x (lit "/echo") (lit "again") short Hx _ _).
    + apply engine_ready_b_spec. by vm_compute.
    + apply caller_ready_b_spec. by vm_compute.
  - refine (after_done (do_call 2000 (lit "again")) in_thread _). by vm_compute.
Qed.

Definition waited1 : world := after thread_waits called.
Definition waited2 : world := after thread_reports waited1.
Definition waited3 : world := after thread_waits waited2.
Definition waited4 : world := after (do_call 2000 (lit "again")) waited3.

(** The same run with its steps taken one by one: two requests call, and the
    result for the first is in flight when the second calls. *)
Section roomy.
Context `{!Patience}.

Lemma roomy_step w m :
  roomy_reachable w → enabled w m → roomy w && is_done m w = true → roomy_reachable (after m w).
Proof.
  intros Hw Hm [Hr Hd]%andb_prop. eapply RR_step; [done|done|]. exists m.
  split; [done|by apply after_done].
Qed.

Lemma roomy_waits w :
  roomy_reachable w → thread_runs w && (roomy w && is_done thread_waits w) = true →
  roomy_reachable (after thread_waits w).
Proof.
  intros Hw [[[[Ha Hran%negb_true_iff]%andb_prop He%negb_true_iff]%andb_prop
    Ht%negb_true_iff]%andb_prop Hd]%andb_prop. apply roomy_step; [done|by apply en_thread|done].
Qed.

Lemma roomy_called : roomy_reachable called.
Proof.
  apply roomy_step; [|by apply enabled_call; vm_compute|by vm_compute].
  apply roomy_step; [| |by vm_compute].
  - apply RR_start, started_worker.
  - apply en_lua, le_connect, req_live_b_spec. by vm_compute.
Qed.

Lemma roomy_waited4 : roomy_reachable waited4.
Proof.
  apply roomy_step; [|by apply enabled_call; vm_compute|by vm_compute].
  apply roomy_waits; [|by vm_compute].
  apply roomy_step; [|by apply en_event; vm_compute|by vm_compute].
  apply roomy_waits; [apply roomy_called|by vm_compute].
Qed.

End roomy.

Lemma no_result_lost_witness :
  ongoing_b waited4 40 && ongoing_b waited4 72 = true ∧
  (∀ k s, ongoing waited4 k s → k ∈ owed waited4).
Proof. split; [by vm_compute|]. exact (no_result_lost waited4 roomy_waited4). Defined.

(** The engine has the task of the second; nobody gave up. *)
Section patient_run.
#[local] Instance steadfast : Patience := true.

Lemma one_result_each_witness :
  ongoing_b waited4 40 && ongoing_b waited4 72 &&
    (length (flight_results waited4) =? 1)%nat = true ∧
  (∀ k s, ongoing waited4 k s → multiplicity k (owed waited4) = 1%nat) ∧
  (∀ k, k ∈ owed waited4 → ∃ s, ongoing waited4 k s) ∧
  (∀ r, r ∈ flight_results waited4 ++ occupied_results waited4 →
     (∃ s, ongoing waited4 (tr_task_id r) s) ∧ tr_task_id r ∉ pending waited4).
Proof.
  split; [by vm_compute|].
  assert (roomy_reachable waited4) as Hr by exact roomy_waited4.
  assert (patient = true) as Hp by reflexivity.
  exact (one_result_each waited4 Hp Hr).
Defined.

Lemma the_pool_accepts : pool_accepts.
Proof. intros k ev. simpl. by destruct (RefNginx.e_active ev). Qed.

Lemma waiting_is_served_witness :
  ongoing_b waited4 40 && ongoing_b waited4 72 = true ∧ busy waited4 = true ∧
  ∀ k s, ongoing waited4 k s →
    (k ∈ pending waited4 ∧ busy waited4 = true) ∨
    (ev_ran (th_task_event (w_th waited4)) = true ∧
     ∃ r, r ∈ flight_results waited4 ∧ tr_task_id r = k) ∨
    (alerted waited4 = true ∧ ∃ r, r ∈ occupied_results waited4 ∧ tr_task_id r = k).
Proof.
  split; [by vm_compute|]. split; [by vm_compute|].
  assert (roomy_reachable waited4) as Hr by exact roomy_waited4.
  assert (patient = true) as Hp by reflexivity.
  assert (quitting waited4 = false) as Hq by by vm_compute.
  exact (waiting_is_served waited4 Hp the_pool_accepts Hr Hq).
Defined.
(** A stream is opened; that it was is posted. *)
Definition opening_posted : world :=
  after thread_cycle (after thread_cycle (after (do_open 1000 (lit "/chat")) connected)).

Lemma reach_opening_posted : reachable opening_posted.
Proof.
  apply reach_cycle; [|by vm_compute]. apply reach_cycle; [|by vm_compute].
  apply reach_open; [|by vm_compute].
  apply reach_connect; [apply R_start, started_worker|by vm_compute].
Qed.

(** The stream at [k] is ongoing and no unary call; the success that is posted for it. *)
Definition streaming_b (w : world) (k : Z) : bool :=
  match cm_heap (w_mem w) !! k with
  | Some (OSctx s) =>
      negb (sc_node s =? NULL) && negb (sc_type s =? NGX_GRPC_CLIENT_STREAM_TYPE_UNARY)
  | _ => false
  end.
Lemma streaming_b_spec w k :
  streaming_b w k = true →
  ∃ s, ongoing w k s ∧ sc_type s ≠ NGX_GRPC_CLIENT_STREAM_TYPE_UNARY.
Proof.
  unfold streaming_b. destruct (_ !! k) as [[| |s| |]|] eqn:E; try done.
  intros [Hn%negb_true_iff%Z.eqb_neq Ht%negb_true_iff%Z.eqb_neq]%andb_prop. by exists s.
Qed.

Definition posted_success (k : Z) (r : task_res) : bool :=
  (tr_task_id r =? k) && negb (res_type (tr_buf r) =? NGX_GRPC_CLIENT_RES_TYPE_ERR).

Lemma stream_successes_are_open_witness :
  ∃ s r, ongoing opening_posted 40 s ∧ r ∈ occupied_results opening_posted ∧
    tr_task_id r = 40 ∧ 40 ∈ engine_streams (w_eng opening_posted).
Proof.
  assert (streaming_b opening_posted 40 = true) as (s & Hs & Ht)%streaming_b_spec by by vm_compute.
  assert (existsb (posted_success 40) (occupied_results opening_posted) = true)
    as (r & Hr & [Hk%Z.eqb_eq Hok%negb_true_iff%Z.eqb_neq]%andb_prop)%existsb_exists by by
      vm_compute.
  apply list_elem_of_In in Hr.
  assert (patient = true) as Hp by reflexivity.
  assert (r ∈ flight_results opening_posted ++ occupied_results opening_posted) as Hin
    by (apply elem_of_app; by right).
  exists s, r. split; [exact Hs|]. split; [exact Hr|]. split; [exact Hk|].
  exact (stream_successes_are_open opening_posted 40 s r Hp reach_opening_posted Hs Ht Hin Hk Hok).
Defined.
End patient_run.

Lemma flight_undisturbed_witness :
  ongoing_b flight_called 72 = true ∧
  flight_results flight_called = flight_results in_thread ∧
  occupied_results flight_called = occupied_results in_thread ∧
  data_kept in_thread flight_called ∧ flight_inv flight_called.
Proof.
  split; [by vm_compute|].
  exact (flight_undisturbed in_thread flight_called reach_in_thread flight_called_steps).
Defined.

Lemma new_stream_contract_witness :
  wp (ngx_grpc_cli_new_stream 1000 true 24 (lit "/m") (lit "first") short 3)
    (new_stream_post connected 1000 true 24 3) connected.
Proof.
  destruct (conn_at connected) as [x Hx]; [by vm_compute|].
  destruct (ready connected) as (g & Hg & Ht); [by vm_compute|].
  refine (new_stream_contract 1000 true 24 x (lit "/m") (lit "first") short 3 g connected
    (reachable_inv _ reach_connected) Hx Hg Ht _).
  apply caller_ready_b_spec. by vm_compute.
Defined.

Lemma kick_off_contract_witness :
  ∃ s gccf, wp (ngx_grpc_cli_kick_off_task 1000 gccf 40 short)
    (kick_off_post chatting 40 s 1000 1000) chatting.
Proof.
  destruct chat_stream as (s & Hs & Hn & Hr & Hp & Hh & _).
  destruct (ready chatting) as (g & Hg & Ht); [by vm_compute|]. exists s, g.
  refine (kick_off_contract 1000 g 40 s short chatting (reachable_inv _ reach_chatting) Hs Hn Hr
    chat_not_free _ Ht _).
  - rewrite Hp. apply conn_at. by vm_compute.
  - rewrite Hh. apply caller_ready_b_spec. by vm_compute.
Defined.

Lemma stream_ops_contract_witness :
  ∃ s g, wp (ngx_grpc_cli_stream_recv 1000 (sc_is_http s) 40 short)
         (stream_op_post chatting 40 s 1000 g short (grpc_engine_stream_recv 40)) chatting ∧
       wp (ngx_grpc_cli_stream_send 1000 (sc_is_http s) 40 short (lit "more"))
         (stream_op_post chatting 40 s 1000 g short (grpc_engine_stream_send 40 (lit "more")))
         chatting ∧
       wp (ngx_grpc_cli_stream_close_send 1000 (sc_is_http s) 40 short)
         (stream_op_post chatting 40 s 1000 g short (grpc_engine_stream_close_send 40)) chatting.
Proof.
  destruct chat_stream as (s & _ & _ & _ & _ & Hh & _ & _ & Ho).
  destruct (ready chatting) as (g & Hg & Ht); [by vm_compute|]. exists s, g.
  refine (stream_ops_contract 1000 40 s short (lit "more") g chatting
    (reachable_inv _ reach_chatting) Ho Hg Ht _).
  rewrite Hh. apply caller_ready_b_spec. by vm_compute.
Defined.

(** The stream and the coroutine that wait in [called]. *)
Lemma called_stream :
  ∃ s c, ongoing called 40 s ∧ w_cos called !! (sc_is_http s, sc_wait_co_ctx s) = Some c.
Proof.
  assert (waits_at called 40 1001 = true) as (s & Hon & _)%waits_at_spec by by vm_compute.
  destruct (wi_parked _ (reachable_inv _ reach_called) _ _ (proj1 Hon) (proj2 Hon))
    as (_ & _ & (c & Hc & _) & _). eauto.
Qed.

Lemma timeout_reported_witness :
  ∃ s c, let c' := set_co_sleep (ngx_timer_expired (co_sleep c)) c in
  let w1 := task_timed_out called 40 s c' in
  winv w1 ∧ lookup_walk 40 (w_tree w1) = NULL ∧ w_out w1 = w_out called ∧
  (∀ p s', ongoing w1 p s' ↔ p ≠ 40 ∧ ongoing called p s') ∧
  no_waiter w1 (sc_is_http s) (sc_wait_co_ctx s) ∧
  wp (timer_fires (sc_is_http s) (sc_wait_co_ctx s) 40) (λ _ w', winv w' ∧
    occupied_results w' = occupied_results called ∧
    wake_coroutine (sc_is_http s) 40 (sc_r s) w1 = Done tt w' ∧
    next_run (X_run_thread (sc_is_http s) (sc_r s) (sc_wait_co_ctx s)
      (co_pushed c ++ [L_bool false; L_str MSG_timeout])) called w') called.
Proof.
  destruct called_stream as (s & c & Hon & Hc). exists s, c.
  exact (timeout_reported 40 s c called (reachable_inv _ reach_called) Hon Hc).
Defined.

Lemma aborted_task_dropped_witness :
  ∃ h co, wp (grpc_cli_cleanup h co) (λ _ w', winv w' ∧ w_out w' = w_out called ∧
      occupied_results w' = occupied_results called ∧ no_waiter w' h co ∧
      lookup_walk 40 (w_tree w') = NULL ∧
      ∃ c, w_cos w' !! (h, co) = Some c ∧ ev_timer_set (co_sleep c) = false) called.
Proof.
  destruct called_stream as (s & c & Hon & _). eexists _, _.
  exact (aborted_task_dropped _ _ 40 s called (reachable_inv _ reach_called) Hon eq_refl eq_refl).
Defined.

Lemma reachable_tasks_witness :
  (lookup_walk 40 (w_tree called) ≠ NULL ↔ ∃ s, ongoing called 40 s) ∧
  (∀ s, ongoing called 40 s → parked called 40 s) ∧
  w_num called = s32 (Z.of_nat (length (rb_entries (w_tree called)))).
Proof. exact (reachable_tasks called 40 reach_called). Defined.

Lemma close_stream_contract_witness :
  ∃ s, wp (ngx_grpc_cli_close_stream 40 NULL true)
    (λ _ w', close_stream_post chatting 40 s NULL [] w') chatting.
Proof.
  destruct chat_stream as (s & Hs & Hn & _ & Hp & _ & _ & Hq & _). exists s.
  refine (close_stream_contract 40 s NULL true [] [] chatting (reachable_inv _ reach_chatting) Hs
    _ (or_introl eq_refl) _); rewrite Hp; [exact Hq|].
  intros _. split; [exact Hn|]. intros _. apply conn_idle_b_spec. by vm_compute.
Defined.

Lemma close_contract_witness :
  ∃ x, wp (ngx_grpc_cli_close 24 NULL true) (λ _ w', close_post 24 x NULL refused w') refused.
Proof.
  destruct (conn_at refused) as [x Hx]; [by vm_compute|]. exists x.
  refine (close_contract 24 x NULL true refused (reachable_inv _ reach_refused) Hx
    (or_introl eq_refl) _).
  intros _ _. apply conn_idle_b_spec. by vm_compute.
Defined.

Lemma connect_contract_witness :
  wp (ngx_grpc_cli_connect 1000 true (lit "127.0.0.1:50051") insecure)
    (connect_post started (lit "127.0.0.1:50051") insecure) started.
Proof.
  refine (connect_contract 1000 true _ insecure started (reachable_inv _ reach_started) _).
  apply req_live_b_spec. by vm_compute.
Defined.

Lemma call_contract_witness :
  wp (ngx_grpc_cli_call 1000 true 24 (lit "/echo") (lit "hello") short None) (λ res w',
    res.2 = None ∧
    ∃ k, new_stream_post connected 1000 true 24 NGX_GRPC_CLIENT_STREAM_TYPE_UNARY k w' ∧
      res.1 = if decide (k = NULL) then NGX_ERROR else NGX_OK) connected.
Proof.
  destruct (conn_at connected) as [x Hx]; [by vm_compute|].
  destruct (ready connected) as (g & Hg & Ht); [by vm_compute|].
  refine (call_contract 1000 true 24 x _ _ short g connected
    (reachable_inv _ reach_connected) Hx Hg Ht _).
  apply caller_ready_b_spec. by vm_compute.
Defined.

Lemma blocking_contract_witness :
  ∃ x, wpf assert_only
    (ngx_grpc_cli_call NULL true 24 (lit "/echo") (lit "two") short (Some 4096))
    (λ res w', winv w' ∧ handles none none blocked_once w' ∧
      engine_refs (w_eng w') = engine_refs (w_eng blocked_once) ∧
      blocking_outcome blocked_once x
        (λ ref, grpc_engine_call 4096 ref (lit "/echo") (lit "two") short) res w')
    blocked_once.
Proof.
  destruct (conn_at blocked_once) as [x Hx]; [by vm_compute|]. exists x.
  refine (blocking_contract NULL true 24 x 4096 _ _ short blocked_once
    (reachable_inv _ reach_blocked_once) Hx _).
  unfold is_u64. lia.
Defined.

Lemma put_res_contract_witness :
  ∃ w k s h co c, sc_state s = NGX_GRPC_CLIENT_STATE_TIMEOUT ∧
    wp (ngx_grpc_cli_put_res k h co) (λ _ w', put_res_post w k s h co c w') w.
Proof.
  destruct called_stream as (s & c & Hon & Hc).
  set (s' := set_state NGX_GRPC_CLIENT_STATE_TIMEOUT s).
  assert (waking called 40 s s' c) as Hwk.
  { split; [apply (reachable_inv _ reach_called)|exact Hon|by split_and!|by intros []]. }
  exists (awake called 40 s s' c), 40, (set_node NULL s'), (sc_is_http s), (sc_wait_co_ctx s), c.
  split; [exact eq_refl|].
  exact (put_res_contract 40 _ _ _ c _ (proj1 (winv_awake _ _ _ _ _ Hwk))
    (awake_deliverable _ _ _ _ _ Hwk)).
Defined.

Lemma thread_handler_contract_witness :
  wp ngx_grpc_cli_thread_handler (λ _ w', winv w' ∧ ∃ rs,
    th_finished_task_num (w_th w') = s32 (Z.of_nat (length rs)) ∧
    (rs = [] → th_finished_tasks (w_th w') = NULL) ∧
    pending waited = res_ids rs ⊎ pending w' ∧
    finished_array w' (take (Z.to_nat (th_finished_task_num (w_th w'))) rs) ∧
    w_qs w' = w_qs waited ∧ w_tree w' = w_tree waited ∧ w_num w' = w_num waited ∧
    w_cos w' = w_cos waited) waited.
Proof.
  refine (thread_handler_contract waited (reachable_inv _ reach_waited) _ _ _); by vm_compute.
Defined.

Lemma task_kept_and_dropped_witness :
  wp (ngx_grpc_cli_keep_task 40) (λ rc w1,
    (rc = NGX_ERROR ∧ w1 = tick chatting) ∨
    (rc = NGX_OK ∧ lookup_walk 40 (w_tree w1) ≠ NULL ∧
     wp (ngx_grpc_cli_unkeep_task 40) (λ _ w2,
       cm_heap (w_mem w2) = cm_heap (w_mem chatting) ∧ w_num w2 = w_num chatting ∧
       rb_entries (w_tree w2) ≡ₚ rb_entries (w_tree chatting) ∧
       lookup_walk 40 (w_tree w2) = NULL) w1)) chatting.
Proof.
  destruct chat_stream as (s & Hs & Hn & _).
  exact (task_kept_and_dropped 40 s chatting (reachable_inv _ reach_chatting) Hs Hn).
Defined.

Lemma check_status_contract_witness :
  ∃ s, wp (ngx_grpc_cli_check_stream_status 40 2000) (λ rc w',
    if decide (sc_r s ≠ NULL ∧ sc_r s = 2000 ∧ sc_wait_co_ctx s = NULL)
    then rc = NGX_OK ∧ w' = chatting
    else rc = NGX_ERROR ∧ ∃ msg, status_error s 2000 = Some msg ∧
           w' = reported_err msg chatting) chatting.
Proof.
  destruct chat_stream as (s & Hs & _). exists s.
  exact (check_status_contract 40 s 2000 chatting (reachable_inv _ reach_chatting) Hs).
Defined.

Lemma init_worker_outcomes_witness :
  wp ngx_grpc_cli_init_worker (λ rc w', init_outcome (first_world slow) rc w') (first_world slow).
Proof. exact (init_worker_outcomes (first_world slow)). Defined.

(** A worker that was told to exit while a call is under way. *)
Definition exiting : world := after exits waited.

Lemma exit_cycle_reads_freed_array_witness :
  ∃ p, thread_cycle exiting = Crash (BadDeref p).
Proof.
  assert (is_done ngx_grpc_cli_thread_handler exiting = true) as Hd%after_done by by vm_compute.
  eexists.
  refine (exit_cycle_reads_freed_array exiting _
    (reachable_inv _ (reach_exits _ reach_waited)) _ _ Hd _); by vm_compute.
Defined.

(** A module built without an engine path. *)
Definition no_path : Loader := {|
  build_engine_path := None;
  ngx_thread_pool_get := 1;
  dlopen _ := NULL;
  dlsym_fails _ _ := false;
|}.

Lemma default_engine_path_is_loaded_witness :
  let w := World.set_conf (Some (ClientConf (@engine_path no_path) NULL NULL NULL))
             (first_world slow) in
  wp (@ngx_grpc_cli_init_worker _ _ _ no_path) (λ rc w',
    rc = NGX_ERROR ∧ w_out w' = w_out w ++ [X_dlopen [x22; x22]]) w.
Proof.
  intros w. by refine (@default_engine_path_is_loaded _ _ _ no_path w eq_refl eq_refl _ eq_refl).
Defined.

(** ** The queue of finished tasks *)

Definition no_mem : cmem := CMem ∅ 0.
Definition one_task : taskResult := TaskResult 40 (Some (lit "hello")) None.

(** A call of [Wait], and a task reported while it sleeps. *)
Definition woken_up : tq_sys :=
  TqSys (Done_ 40 (Some (lit "hello")) None NewTaskQueue) no_mem (W_checking 0)
    ({[0%nat]} ∪ ∅) ∅ 1.
Lemma woken_up_exec :
  tq_exec LittleEndian (tq_init no_mem) [L_tau; L_tau; L_report one_task] woken_up.
Proof.
  eapply tq_exec_cons; [apply S_wait_begin|].
  eapply tq_exec_cons; [by apply S_park|].
  eapply tq_exec_cons; [apply S_done|apply E_refl].
Qed.

Lemma taskqueue_fifo_witness :
  reported [L_tau; L_tau; L_report one_task] =
  delivered [L_tau; L_tau; L_report one_task] ++ tq_tasks (sy_queue woken_up).
Proof. exact (taskqueue_fifo LittleEndian no_mem _ woken_up woken_up_exec). Defined.

Lemma wait_returns_witness : wait_over LittleEndian woken_up.
Proof. exact (wait_returns LittleEndian no_mem _ woken_up 0 woken_up_exec eq_refl). Defined.

Lemma no_lost_wakeup_witness :
  tq_done (sy_queue woken_up) = true ∧ ∀ k, sy_waiter woken_up ≠ W_parked k.
Proof.
  refine (no_lost_wakeup LittleEndian no_mem _ woken_up woken_up_exec _). discriminate.
Defined.

Lemma wait_records_read_back_witness :
  let q := Done_ 40 (Some (lit "hello")) None NewTaskQueue in
  wp (Wait_finish LittleEndian q) (λ x m',
    tq_tasks x.1 = [] ∧ tq_done x.1 = false ∧ x.2.2 = Z.of_nat (length (tq_tasks q)) ∧
    ∀ i t, tq_tasks q !! i = Some t →
      ∃ r, read_task_res host_endian x.2.1 i = Some r ∧ record_of t r (cm_heap m')) no_mem.
Proof.
  intros q. refine (wait_records_read_back LittleEndian q no_mem eq_refl eq_refl _).
  constructor; [|constructor]. split; simpl; [unfold is_u64; lia|done].
Defined.

Lemma tag_round_trip_witness :
  is_u64 (Z.lor 48 1) ∧ res_type (Z.lor 48 1) = 1 ∧ res_ptr (Z.lor 48 1) = 48.
Proof. apply (tag_round_trip 48 1); [unfold is_u64; lia|done|lia]. Defined.

(** ** The Go engine *)

Lemma connected_engine : go_wf (w_eng connected).
Proof. exact (wi_engine _ (reachable_inv _ reach_connected)). Qed.
Lemma waited_engine : go_wf (w_eng waited).
Proof. exact (wi_engine _ (reachable_inv _ reach_waited)). Qed.

Lemma call_starts_goroutine_witness :
  go_engine_call 40 32 (lit "/m") (lit "hello") short (w_eng connected, w_mem connected) =
    match EngineCtxRef (w_eng connected) !! 32 with
    | Some c => Done tt
        (set_running (ge_running (progress (w_eng connected)) ++
           [go_call 40 c (lit "/m") (lit "hello") (call_option short)])
           (progress (w_eng connected)), w_mem connected)
    | None => Crash (GoPanic MSG_cant_find)
    end.
Proof.
  assert (is_u64 40) as Hk by (unfold is_u64; lia).
  exact (call_starts_goroutine 40 32 (lit "/m") (lit "hello") short (w_eng connected)
    (w_mem connected) connected_engine Hk).
Defined.

Lemma wait_hands_over_witness :
  let ts := tq_tasks (finishedTaskQueue (progress (w_eng waited))) in
  wp (go_engine_wait 100) (λ x s,
    tq_tasks (finishedTaskQueue s.1) = [] ∧ x.2 = s32 (Z.of_nat (length ts)) ∧
    if decide (ts = []) then x.1 = NULL
    else x.1 ≠ NULL ∧ ∃ b, cm_heap s.2 !! x.1 = Some (OBuf b) ∧
      length b = (24 * length ts)%nat ∧
      ∀ i t, ts !! i = Some t →
        ∃ r, read_task_res host_endian b i = Some r ∧ record_of t r (cm_heap s.2))
    (w_eng waited, w_mem waited).
Proof. exact (wait_hands_over 100 (w_eng waited) (w_mem waited) waited_engine). Defined.

Lemma close_is_idempotent_witness :
  let g := w_eng connected in let m := w_mem connected in
  (EngineCtxRef g !! 32 = None → go_close 32 (g, m) = Done tt (progress g, m)) ∧
  (∀ s, go_close 32 (g, m) = Done tt s → EngineCtxRef s.1 !! 32 = None) ∧
  (∀ s, go_engine_close_stream 40 (g, m) = Done tt s → StreamRef s.1 !! 40 = None) ∧
  (StreamRef (progress g) !! 40 = None →
     go_engine_close_stream 40 (g, m) = Done tt (progress g, m)).
Proof.
  exact (close_is_idempotent 32 40 (w_eng connected) (w_mem connected) connected_engine).
Defined.

Definition secure : ConnectOption := ConnectOpt false true 0 [] [] (lit "ca.crt").

Lemma tls_is_kept_witness :
  (∃ err, Connect (lit "host") secure tt = (Go_ret (inl err), tt)) ∨
  ∃ opts tc, Connect (lit "host") secure tt = grpc_Dial (lit "host") opts tt ∧
    WithTLS tc ∈ opts ∧ (WithInsecure ∉ opts) ∧
    InsecureSkipVerify tc = negb (TLSVerify secure) ∧
    (ClientCertFile secure ≠ [] → ClientKeyFile secure ≠ [] →
       Certificates tc = Some (ClientCertFile secure, ClientKeyFile secure)).
Proof. exact (tls_is_kept (lit "host") secure tt eq_refl). Defined.

Lemma trusted_ca_ignored_witness :
  Connect (lit "host") secure tt =
  Connect (lit "host") (ConnectOpt false true 0 [] [] []) tt.
Proof. exact (trusted_ca_ignored (lit "host") secure [] tt eq_refl). Defined.

Lemma stream_error_hidden_by_panic_witness :
  NewStream tt (lit "/echo/refuse") [] (CallOpt_ 0 []) 3 tt = (Go_panic MSG_nil_call, tt).
Proof.
  assert (0 ≤ 0) as H0 by lia.
  exact (stream_error_hidden_by_panic tt (lit "/echo/refuse") [] (CallOpt_ 0 []) 3
    (StreamDesc true true) (lit "refused") tt tt H0 eq_refl eq_refl).
Defined.

(** ** The Lua library *)

Definition yields_b (m : L lua_run) (s : world * lib) : bool :=
  match m s with Done (Yields _) _ => true | _ => false end.

(** [conn:call("echo", "say", "hi")] *)
Definition call_op : lua_op := O_call 0 (lit "echo") (lit "say") (lit "hi") plain_opt None.

Lemma call_op_ready : op_ready true connected the_lib 1000 call_op.
Proof.
  split.
  - apply engine_ready_b_spec. by vm_compute.
  - apply caller_ready_b_spec. by vm_compute.
Qed.

Lemma library_keeps_contract_witness :
  yields_b (run_op true 1000 call_op) (connected, the_lib) = true ∧
  contract_kept true 1000 call_op connected the_lib.
Proof.
  split; [by vm_compute|].
  assert (tables_ok true connected the_lib) as Ht by (apply tables_b_spec; by vm_compute).
  exact (library_keeps_contract true 1000 call_op connected the_lib
    (reachable_inv _ reach_connected) Ht call_op_ready).
Defined.

(** The connection at table 0 is closed. *)
Definition closed_lib : world * lib := after (Conn_close true 0 1000) (connected, the_lib).

Lemma closed_lib_done : Conn_close true 0 1000 (connected, the_lib) = Done (Ok R_nothing) closed_lib.
Proof.
  assert (match Conn_close true 0 1000 (connected, the_lib) with
          | Done (Ok R_nothing) _ => true | _ => false end = true) as Hd by by vm_compute.
  unfold closed_lib, after. by destruct (Conn_close true 0 1000 (connected, the_lib))
    as [[[]| |] s|].
Qed.

Lemma closed_objects_refuse_witness :
  run_op true 2000 call_op closed_lib =
    Done (Finished (refusal closed_lib.2 call_op)) closed_lib ∧
  run_op true 2000 (O_close 0) closed_lib = Done (Finished (refusal closed_lib.2 (O_close 0))) closed_lib.
Proof.
  split.
  - exact (closed_objects_refuse true 0 1000 (connected, the_lib) (Ok R_nothing) closed_lib 2000
      call_op (or_introl (conj closed_lib_done eq_refl))).
  - exact (closed_objects_refuse true 0 1000 (connected, the_lib) (Ok R_nothing) closed_lib 2000
      (O_close 0) (or_introl (conj closed_lib_done eq_refl))).
Defined.

Lemma protobuf_state_restored_witness :
  yields_b (run_op true 1000 call_op) (connected, the_lib) = true ∧
  match run_op true 1000 call_op (connected, the_lib) with
  | Done res s1 =>
      (lb_active s1.2 = lb_active the_lib ∨
       (∃ def ty, call_op = O_load def ty) ∧ res = Finished Raise) ∧
      match res with
      | Finished _ => True
      | Yields k => ∀ vs s2 x s3, k vs s2 = Done x s3 → lb_active s3.2 = lb_active s2.2
      end
  | Crash _ => True
  end.
Proof.
  split; [by vm_compute|].
  destruct (run_op true 1000 call_op (connected, the_lib)) as [res s1|] eqn:E; [|exact I].
  exact (protobuf_state_restored true 1000 call_op (connected, the_lib) res s1 E).
Defined.

(** A second connection is opened, at table 1. *)
Definition connect_op : lua_op := O_connect (lit "127.0.0.1:50051")
  (LuaDialOpt None None None None None None).

Lemma the_lib_finalized : finalized the_lib.
Proof.
  split; intros t x; cbn; [|by rewrite lookup_empty].
  rewrite lookup_singleton_Some. intros [_ <-] _. by left.
Qed.

Lemma open_objects_are_finalized_witness :
  finalized (connected, the_lib).2 ∧
  match run_op true 1000 connect_op (connected, the_lib) with
  | Done (Finished (Ok (R_conn 1))) s1 => finalized s1.2
  | _ => False
  end.
Proof.
  split; [exact the_lib_finalized|].
  assert (match run_op true 1000 connect_op (connected, the_lib) with
          | Done (Finished (Ok (R_conn 1))) _ => true | _ => false end = true) as Hb by by
            vm_compute.
  destruct (run_op true 1000 connect_op (connected, the_lib))
    as [[[[]| |]|] s1|] eqn:E; try discriminate Hb.
  destruct t as [|[| |]|]; try discriminate Hb.
  exact (proj1 (open_objects_are_finalized true 1000 connect_op (connected, the_lib) _ s1
    the_lib_finalized E)).
Defined.
